(* ===== verification/_CoqProject ===== *)
-Q . S2P
Prelude.v
GoStrings.v
Protocol.v
Decoder.v
Encoder.v
Names.v
GoTime.v
CircuitBreaker.v
Blocklist.v
WireNames.v
WireRData.v
WireRoundtrip.v
Cache.v
CacheSpec.v
CacheRefine.v
CacheProps.v
GoNet.v
Pipeline.v
Hints.v
Recursive.v
RecursiveProps.v
Randomizers.v
GoFloat.v
RateLimits.v
Iterative.v
IterativeProps.v
Race.v
GoParse.v
GoFormat.v
GoPath.v
GoURL.v
GoBase64.v
GoSha1.v
GoDuration.v
ServerConfig.v
Settings.v
GoJson.v
JsonText.v
GoDate.v
Metrics.v
CacheContract.v
CacheLoad.v
CacheFile.v
Persist.v
Resolver.v
ResolverProps.v
HistoryProps.v
ResolveProps.v
Prometheus.v
PromText.v
Handler.v
HandlerProps.v
EventJson.v
Server.v
ServerLife.v
Dot.v
ApiCompare.v
Api.v
Websocket.v
Streams.v
Router.v
ApiProps.v
Logger.v
Tracing.v
Main.v
MainRun.v
