(* ===== verification/Prelude.v ===== *)
(** * DNS-Resolver: a verification library

    The program is a recursive DNS server in Go.  A packet read by
    internal/server/udp.go or tcp.go goes to the handler
    (internal/server/handler.go), which decodes it (internal/protocol), applies
    the limits (internal/security), asks the resolver
    (internal/resolver/resolver.go) and encodes the reply.  The resolver asks in
    turn the blocklist, the cache of answers and of negative answers
    (internal/cache) and at last the name servers, from the root down
    (recursive.go), each step asking several servers at once with retries
    (iterative.go) behind a circuit breaker per server (circuit_breaker.go).
    Events of a resolution go to subscribers (pipeline.go) and to a history;
    internal/metrics counts.  internal/api offers the same resolver and handler
    over HTTP (queries, cache, history, settings, DNS over HTTPS, event streams
    on websockets) behind a router with an optional token; config reads the
    environment and cmd/server builds everything from it.

    ** Layout

    Go as such: [Prelude] (bytes, machine widths, the error monad [result] whose
    [Panic] is a run-time panic and [Fuel] a loop cut short, tactics and hints),
    [GoStrings] (package strings, strconv, UTF-8), [GoTime], [GoDuration]
    (time.Duration as text), [GoNet] (addresses as text), [GoFloat] (float64 on
    [spec_float]), [GoParse] (strconv.ParseBool, Atoi, ParseFloat), [GoFormat]
    (strconv.FormatFloat with shortest digits, strconv.Quote), [GoPath],
    [GoURL] (queries, header names, the patterns of ServeMux), [GoBase64],
    [GoSha1], [GoDate] (the calendar, times as text), [GoJson] (reading any JSON
    text, writing a tree of values with or without indentation) and [JsonText]
    (what the encoder writes is read back).

    Wire format, internal/protocol: [Protocol] (types.go, header.go,
    question.go, message.go, resource_record.go), [Decoder] (decoder.go and
    parseRData of rdata.go), [Encoder] (encoder.go and encodeRData).  [WireNames],
    [WireRData], [WireRoundtrip] prove the round trip; [name_at] there is the
    abstract meaning of a compressed name.

    Resolver parts, internal/resolver and internal/security: [Names]
    (bailiwick.go, qname_minimization.go, cacheKey), [CircuitBreaker],
    [Blocklist], [Pipeline], [Hints], [Randomizers] (case_, qid_ and
    port_randomizer.go), [RateLimits] (rrl.go, ratelimit.go), [Recursive] and
    [RecursiveProps] (recursive.go), [Iterative] and [IterativeProps] (one
    question to one server), [Race] (queryFastest).

    Cache, internal/cache: [Cache] has the linked list, the map of elements and
    entries updated in place; [CacheSpec] is an LRU list; [CacheRefine] the
    simulation between them; [CacheProps] what callers may rely on;
    [CacheContract] the interface [AnswerCache] against which the resolver is
    verified, with the LRU cache as its instance; [CacheLoad] what a restart
    keeps; [CacheFile] the JSON text of the cache file, written and decoded;
    [Persist] the calls that write it, each of which may fail or be the last one.

    Resolver, resolver.go: [Settings] (run-time settings on the configuration
    alone), [Resolver] (the state and every operation), [ResolverProps] (the
    invariant [resolver_ok] and the atomic steps that keep it), [HistoryProps],
    [ResolveProps] (what Resolve answers).

    Events of a resolution as clients get them: [EventJson] (pipeline.go, the JSON
    tags of internal/protocol).

    Around it: [Metrics], [Prometheus] and [PromText] (internal/metrics: the
    counters and the page that shows them), [Handler] and
    [HandlerProps] (internal/server/handler.go), [Server] (tcp.go, udp.go: one
    connection, one packet), [ServerLife] (the same files: start, work and
    shutdown of the goroutines), [Dot] (dot.go: the certificate and its files).

    HTTP, internal/api: [ApiCompare] (asking other servers and comparing their
    answers), [Api] (the handlers of handlers.go and health.go as programs over
    the resolver and the DNS handler), [Websocket] (websocket.go: handshake and
    frames), [Streams] (the same file: what streams on a connection, and the two
    goroutines of the trace stream under its mutex), [Router]
    (router.go, middleware.go, static_embed.go, pprof.go; [Router.serve] is one
    request from the middleware to the answer), [ApiProps].  An answer's body is
    the value that is encoded ([Api.payload]), raw bytes where the code writes
    bytes.

    Start: [ServerConfig] (config.go), [Main] (cmd/server/main.go: what it
    builds), [MainRun] (the same file: listeners, signal, shutdown), [Logger]
    (internal/logger: the records that are written), [Tracing]
    (internal/telemetry: the exporter and the spans, over a class of the library's
    operations).

    ** How state and effects are modelled

    A struct is a Record with the struct's fields; a method takes it and returns
    it.  A mutex makes a method, or each of its critical sections, one atomic
    step; where other goroutines may act in between (while a resolution waits
    for a name server) the operation of the class that stands for the wait may
    change the resolver by any number of atomic steps ([ResolverProps.atomic]).
    [Race], [ServerLife] and [Streams] are transition systems of goroutines and
    channels because there the interleaving is the subject; [Persist] is a relation
    over what a failing or unfinished system call may leave.  The clock, crypto/rand, sockets, files, host
    look-ups, log lines and the order of a range over a map are the operations
    of the classes [Upstream] ([Recursive]), [Network] ([Iterative]), [Outside]
    ([Resolver]), [Surroundings] ([Handler]), [Dialer] ([ApiCompare]), [Site]
    ([Api]) and [OpenTelemetry] ([Tracing]) over an unspecified world;
    theorems hold for every instance, under the stated laws, and the witnesses
    run concrete ones.  Unicode's case tables above ASCII are the
    class [UnicodeTables] ([GoStrings]).

    ** What the theorems show

    Wire format: the decoder never panics and ends on any packet, its messages
    are well formed, names are bounded, the encoder returns a packet or an
    error, and decoding what it wrote gives the message back.

    Cache: it refines the LRU list, holds at most its capacity with exact
    memory accounting, returns only the last answer stored under a key while
    fresh or permitted stale, keeps entries while there is room, and a restart
    restores exactly what is still usable.  The cache file is replaced as a whole or
    not at all, and decodes to the snapshot that was written.

    Resolution: the loop ends within a number of questions that depends on the
    configuration only, asks only servers that earlier referrals name, returns
    the response to its last question, and that one only when it need not be
    followed.  A question is sent with the identifier and the spelling drawn for it,
    and a response accepted only with these, the question, the address and the port
    of the query; what is acquired is released, and the
    race over servers neither blocks nor loses a result.  To speak of a run, the
    world of a theorem keeps a record of it ([RecursiveProps.recorded],
    [IterativeProps.overheard]), which changes nothing.

    Resolver: every sequence of operations keeps the invariant, without a panic as
    long as the pages of the history stay in range;
    the blocklist, the cache hit after an answer, and the history window are
    exact.

    Handler and servers: every packet has one of six outcomes
    ([HandlerProps.outcome]), and it is dropped exactly when a limit says so; a TCP query gets the resolver's answer in a packet that
    decodes to it; a connection gets the replies to its frames in order; the servers
    keep their bounds and [Shutdown] ends, in every interleaving.

    HTTP and start: requests and packets in any order keep the invariants;
    without the token nothing but the public answers is served; DNS over HTTPS
    carries packets unchanged; bulk answers are those of their queries, in the order
    of the request; a
    comparison reports exactly the differences; a websocket's control frames
    are answered in order, and the trace stream delivers whole frames, the events
    in order and readable, in every interleaving; a valid configuration starts a server that runs with
    its values, when tracing can be set up.

    The page for Prometheus shows every counter, whatever the order of the maps.

    Limits, breaker, randomizers, blocklist, metrics and events each have their
    exact behaviour over sequences of calls.

    ** Fuel

    Loops that are not structural take fuel.  decodeName gets 255:
    the code stops after 127 labels or 127 pointers, plus the final byte;
    [Decode_safe]
    shows [Fuel] never comes out.  The referral loop
    gets (MaxCNAMEDepth+1)*MaxRecursionDepth+1, enough by [resolution_bounded];
    a TCP connection gets one more than its input bytes, since a frame has at
    least three ([serveConn_frames]), and a websocket one more than its input
    bytes ([drain_answers]).  The search for the shortest
    decimal of a float has seventeen steps, the digits that identify any
    float64.  In every other component the fuel is a
    length, with the same kind of lemma.  A panic in a goroutine that a handler
    waits for ends the process, so the handler does not return: it is [Fuel] too
    ([Api.goroutine]), and excluded with it.

    ** Not modelled

    The sockets and their deadlines, keys and TLS records, signals (their arrival
    is a step of [MainRun]), the OpenTelemetry library and the spans that Resolve
    starts, the text slog makes of a record, the JSON text of the answers of the
    REST interface other than events (a body is the value that is encoded), the
    texts of the errors of encoding/json, a loss of power (the cache file is never
    synced), the profiles of net/http/pprof and the embedded web files (a
    parameter): input and output around the modelled state.

    Theorems that record a defect of the code are in the component's file and
    are named after it, as [Names.InBailiwick_no_boundary]. *)

From stdpp Require Export prelude gmap strings.
From Stdlib Require Export ZArith Lia ZifyNat ZifyBool Ascii.
From Stdlib Require Import Strings.Byte.

#[global] Open Scope Z_scope.

(** ** Bytes and Go strings

    A Go [byte] is an [ascii]; a [[]byte] and a Go [string] (an arbitrary
    byte sequence) are both lists of them. *)

Abbreviation byte := ascii (only parsing).
Abbreviation bytes := (list ascii).

Definition bytes_of_literal (l : list Byte.byte) : bytes := map ascii_of_byte l.
Definition literal_of_bytes (l : bytes) : list Byte.byte := map byte_of_ascii l.

Declare Scope go_scope.
Delimit Scope go_scope with go.
String Notation bytes bytes_of_literal literal_of_bytes : go_scope.

Definition Z_of_byte (b : byte) : Z := Z.of_N (N_of_ascii b).
(** Conversion to [byte] keeps the low eight bits. *)
Definition byte_of_Z (z : Z) : byte := ascii_of_N (Z.to_N (z mod 256)).

(** Conversions to the unsigned machine widths. *)
Definition u8 (z : Z) : Z := z mod 2 ^ 8.
Definition u16 (z : Z) : Z := z mod 2 ^ 16.
Definition u32 (z : Z) : Z := z mod 2 ^ 32.
Definition u64 (z : Z) : Z := z mod 2 ^ 64.

(** ** Outcomes of a Go call

    [Ok] is a normal return, [Err] a non-nil error, [Panic] a run-time panic
    (an index or slice out of range), [Fuel] a loop that was cut before it
    returned; the theorems of every component exclude the last two. *)
Inductive result (E A : Type) :=
| Ok (a : A)
| Err (e : E)
| Panic
| Fuel.
Arguments Ok {_ _} _.
Arguments Err {_ _} _.
Arguments Panic {_ _}.
Arguments Fuel {_ _}.

#[export] Instance result_ret {E} : MRet (result E) := fun A a => Ok a.
#[export] Instance result_bind {E} : MBind (result E) := fun A B f m =>
  match m with
  | Ok a => f a
  | Err e => Err e
  | Panic => Panic
  | Fuel => Fuel
  end.

Definition map_err {E E' A} (f : E -> E') (m : result E A) : result E' A :=
  match m with
  | Ok a => Ok a
  | Err e => Err (f e)
  | Panic => Panic
  | Fuel => Fuel
  end.

(** A call is [safe] when it returns, with a value or with an error. *)
Definition safe {E A} (m : result E A) : Prop :=
  match m with Ok _ | Err _ => True | Panic | Fuel => False end.

Definition is_ok {E A} (m : result E A) : bool :=
  match m with Ok _ => true | _ => false end.

(** ** Indexing and slicing with Go's bounds checks *)

Definition len {A} (l : list A) : Z := Z.of_nat (length l).
Definition sub {A} (l : list A) (a b : Z) : list A :=
  take (Z.to_nat (b - a)) (drop (Z.to_nat a) l).

(** [l[i]] *)
Definition index {E A} (l : list A) (i : Z) : result E A :=
  if 0 <=? i
  then match l !! Z.to_nat i with Some b => Ok b | None => Panic end
  else Panic.

(** [l[a:b]] *)
Definition slice {E A} (l : list A) (a b : Z) : result E (list A) :=
  if (0 <=? a) && (a <=? b) && (b <=? len l) then Ok (sub l a b) else Panic.

(** ** encoding/binary, big endian *)

Definition Uint16 {E} (b : bytes) : result E Z :=
  b1 ← index b 1;
  b0 ← index b 0;
  Ok (Z.lor (Z_of_byte b1) (Z.shiftl (Z_of_byte b0) 8)).

Definition Uint32 {E} (b : bytes) : result E Z :=
  b3 ← index b 3;
  b2 ← index b 2;
  b1 ← index b 1;
  b0 ← index b 0;
  Ok (Z.lor (Z_of_byte b3)
        (Z.lor (Z.shiftl (Z_of_byte b2) 8)
           (Z.lor (Z.shiftl (Z_of_byte b1) 16) (Z.shiftl (Z_of_byte b0) 24)))).

Definition PutUint16 (v : Z) : bytes := [byte_of_Z (Z.shiftr v 8); byte_of_Z v].
Definition PutUint32 (v : Z) : bytes :=
  [byte_of_Z (Z.shiftr v 24); byte_of_Z (Z.shiftr v 16);
   byte_of_Z (Z.shiftr v 8); byte_of_Z v].

(** ** Tactics *)

(** Case analysis on the outermost boolean test of the goal. *)
Ltac bcase :=
  match goal with
  | |- context [if ?b then _ else _] => let H := fresh "Hb" in destruct b eqn:H
  end.

(** The same for a hypothesis. *)
Ltac bcase_in H :=
  match type of H with
  | context [if ?b then _ else _] => let Hb := fresh "Hb" in destruct b eqn:Hb
  end.

(** Splits a successful bind [x ← m; k = Ok r] into its two parts. *)
Ltac inv_bind H :=
  match type of H with
  | (mbind _ ?m) = _ =>
      let a := fresh "a" in let Ha := fresh "Ha" in
      destruct m as [a| | |] eqn:Ha; cbn [mbind result_bind] in H;
      try discriminate H
  end.

(** Splits syntactic conjunctions only. *)
Ltac ands := repeat match goal with |- _ /\ _ => split end.

(** [lia] with division and remainder. *)
Ltac dlia := Z.div_mod_to_equations; lia.

Create HintDb go discriminated.
#[export] Hint Constants Opaque : go.
#[export] Hint Variables Opaque : go.

(** ** Bytes *)

Lemma Z_of_byte_range b : 0 <= Z_of_byte b < 256.
Proof. unfold Z_of_byte. pose proof (N_ascii_bounded b). lia. Qed.

Lemma byte_of_Z_of_byte b : byte_of_Z (Z_of_byte b) = b.
Proof.
  unfold byte_of_Z. rewrite Z.mod_small by apply Z_of_byte_range.
  unfold Z_of_byte. rewrite N2Z.id. apply ascii_N_embedding.
Qed.

Lemma Z_of_byte_of_Z z : Z_of_byte (byte_of_Z z) = z mod 256.
Proof.
  unfold byte_of_Z, Z_of_byte. pose proof (Z.mod_pos_bound z 256 eq_refl).
  rewrite N_ascii_embedding by lia. lia.
Qed.

Lemma Z_of_byte_small n : 0 <= n < 256 -> Z_of_byte (byte_of_Z n) = n.
Proof. intros H. by rewrite Z_of_byte_of_Z, Z.mod_small. Qed.

Lemma Z_of_byte_inj a b : Z_of_byte a = Z_of_byte b -> a = b.
Proof. intros H. rewrite <- (byte_of_Z_of_byte a), H. apply byte_of_Z_of_byte. Qed.

(** ** Lengths *)

Lemma len_nonneg {A} (l : list A) : 0 <= len l.
Proof. unfold len. lia. Qed.
Lemma len_nil {A} : len (@nil A) = 0.
Proof. done. Qed.
Lemma len_cons {A} (x : A) l : len (x :: l) = 1 + len l.
Proof. unfold len. cbn [length]. lia. Qed.
Lemma len_app {A} (l k : list A) : len (l ++ k) = len l + len k.
Proof. unfold len. rewrite length_app. lia. Qed.
Lemma len_map {A B} (f : A -> B) l : len (map f l) = len l.
Proof. unfold len. by rewrite length_map. Qed.
Lemma len_zero {A} (l : list A) : len l = 0 -> l = [].
Proof. destruct l; [done|]. unfold len. cbn [length]. lia. Qed.
Lemma to_nat_len {A} (l : list A) : Z.to_nat (len l) = length l.
Proof. apply Nat2Z.id. Qed.
Lemma len_PutUint16 v : len (PutUint16 v) = 2.
Proof. done. Qed.
Lemma len_PutUint32 v : len (PutUint32 v) = 4.
Proof. done. Qed.

Lemma len_sub {A} (l : list A) a b :
  0 <= a -> a <= b -> b <= len l -> len (sub l a b) = b - a.
Proof.
  unfold sub, len. intros. rewrite length_take, length_drop. lia.
Qed.

Create Rewrite HintDb go_len.
#[export] Hint Rewrite @len_nil @len_cons @len_app @len_map len_PutUint16
  len_PutUint32 : go_len.

(** Normalises every [len] of the goal and context, then calls [lia]. *)
Ltac len_lia :=
  autorewrite with go_len in *;
  repeat match goal with
  | |- context [@len ?A ?l] =>
      lazymatch goal with
      | _ : 0 <= @len A l |- _ => fail
      | _ => pose proof (@len_nonneg A l)
      end
  | _ : context [@len ?A ?l] |- _ =>
      lazymatch goal with
      | _ : 0 <= @len A l |- _ => fail
      | _ => pose proof (@len_nonneg A l)
      end
  end; lia.

(** ** Indexing and slicing *)

Lemma index_ok {E A} (l : list A) i :
  0 <= i < len l -> exists b, @index E A l i = Ok b /\ l !! Z.to_nat i = Some b.
Proof.
  intros H. unfold index. destruct (0 <=? i) eqn:?; [|lia].
  destruct (lookup_lt_is_Some_2 l (Z.to_nat i)) as [b Hb].
  { unfold len in H. lia. }
  rewrite Hb. eauto.
Qed.

Lemma index_inv {E A} (l : list A) i b :
  @index E A l i = Ok b -> 0 <= i < len l /\ l !! Z.to_nat i = Some b.
Proof.
  unfold index. destruct (0 <=? i) eqn:?; [|done].
  destruct (l !! Z.to_nat i) eqn:Hl; [|done]. intros [= ->].
  apply lookup_lt_Some in Hl as ?. unfold len. split; [lia|done].
Qed.

Lemma slice_ok {E A} (l : list A) a b :
  0 <= a -> a <= b -> b <= len l -> @slice E A l a b = Ok (sub l a b).
Proof. intros. unfold slice. bcase; [done|]. lia. Qed.

Lemma slice_inv {E A} (l : list A) a b s :
  @slice E A l a b = Ok s -> 0 <= a /\ a <= b /\ b <= len l /\ s = sub l a b.
Proof. unfold slice. bcase; [|done]. intros [= <-]. repeat split; lia. Qed.

Lemma index_app_at {E A} (pre : list A) x suf i :
  i = len pre -> @index E A (pre ++ x :: suf) i = Ok x.
Proof.
  intros ->. unfold index. pose proof (len_nonneg pre). bcase; [|lia].
  unfold len. rewrite Nat2Z.id, list_lookup_middle; done.
Qed.

Lemma sub_app_at {A} (pre mid suf : list A) a b :
  a = len pre -> b = a + len mid -> sub (pre ++ mid ++ suf) a b = mid.
Proof.
  intros -> ->. unfold sub, len.
  replace (Z.to_nat _) with (length mid) at 1 by lia.
  rewrite Nat2Z.id, drop_app_length. apply take_app_length.
Qed.

Lemma slice_app_at {E A} (pre mid suf : list A) a b :
  a = len pre -> b = a + len mid ->
  @slice E A (pre ++ mid ++ suf) a b = Ok mid.
Proof.
  intros -> ->. rewrite slice_ok by len_lia. by rewrite sub_app_at.
Qed.

(** ** Safety of calls *)

Lemma safe_bind {E A B} (m : result E A) (f : A -> result E B) :
  safe m -> (forall a, m = Ok a -> safe (f a)) -> safe (m ≫= f).
Proof. destruct m; cbn; naive_solver. Qed.

Lemma safe_map_err {E E' A} (f : E -> E') (m : result E A) :
  safe m -> safe (map_err f m).
Proof. by destruct m. Qed.

Lemma safe_index {E A} (l : list A) i : 0 <= i < len l -> safe (@index E A l i).
Proof. intros H. by destruct (@index_ok E A l i H) as (b & -> & _). Qed.

Lemma safe_slice {E A} (l : list A) a b :
  0 <= a -> a <= b -> b <= len l -> safe (@slice E A l a b).
Proof. intros. by rewrite slice_ok. Qed.

(** ** Big-endian integers *)

Lemma testbit_above a n i : 0 <= a < 2 ^ n -> n <= i -> Z.testbit a i = false.
Proof.
  intros [Ha Hn] Hi. destruct (Z.eq_dec a 0) as [->|]; [apply Z.bits_0|].
  apply Z.bits_above_log2; [done|].
  apply Z.log2_lt_pow2; [lia|]. apply Z.lt_le_trans with (2 ^ n); [done|].
  apply Z.pow_le_mono_r; lia.
Qed.

Lemma land_shift_zero a b n :
  0 <= n -> 0 <= a < 2 ^ n -> Z.land a (Z.shiftl b n) = 0.
Proof.
  intros Hn Ha. apply Z.bits_inj'. intros i Hi.
  rewrite Z.land_spec, Z.bits_0. destruct (Z.lt_ge_cases i n).
  - rewrite (Z.shiftl_spec_low b) by done. apply andb_false_r.
  - by rewrite (testbit_above a n i).
Qed.

Lemma lor_shift_add a b n :
  0 <= n -> 0 <= a < 2 ^ n -> Z.lor a (Z.shiftl b n) = a + b * 2 ^ n.
Proof.
  intros Hn Ha. pose proof (land_shift_zero a b n Hn Ha) as H0.
  rewrite <- Z.shiftl_mul_pow2, Z.add_nocarry_lxor, Z.lxor_lor by done. done.
Qed.

Lemma Uint16_pair {E} a b : @Uint16 E [a; b] = Ok (Z_of_byte b + Z_of_byte a * 2 ^ 8).
Proof.
  trans (@Ok E _ (Z.lor (Z_of_byte b) (Z.shiftl (Z_of_byte a) 8))); [done|].
  rewrite lor_shift_add; [done|lia|]. apply Z_of_byte_range.
Qed.

Lemma Uint32_quad {E} a b c d :
  @Uint32 E [a; b; c; d] =
  Ok (Z_of_byte d + Z_of_byte c * 2 ^ 8 + Z_of_byte b * 2 ^ 16 + Z_of_byte a * 2 ^ 24).
Proof.
  trans (@Ok E _ (Z.lor (Z_of_byte d)
    (Z.lor (Z.shiftl (Z_of_byte c) 8)
       (Z.lor (Z.shiftl (Z_of_byte b) 16) (Z.shiftl (Z_of_byte a) 24))))); [done|].
  pose proof (Z_of_byte_range a). pose proof (Z_of_byte_range b).
  pose proof (Z_of_byte_range c). pose proof (Z_of_byte_range d).
  rewrite !Z.lor_assoc. rewrite (lor_shift_add (Z_of_byte d)) by lia.
  rewrite (lor_shift_add (Z_of_byte d + _)) by lia.
  rewrite lor_shift_add by lia. done.
Qed.

Lemma Uint16_PutUint16 {E} v : @Uint16 E (PutUint16 v) = Ok (u16 v).
Proof.
  unfold PutUint16. rewrite Uint16_pair, !Z_of_byte_of_Z, Z.shiftr_div_pow2 by lia.
  unfold u16. f_equal. change (2 ^ 16) with (256 * 256). change (2 ^ 8) with 256.
  rewrite (Z.rem_mul_r v 256 256) by lia. lia.
Qed.

Lemma Uint32_PutUint32 {E} v : @Uint32 E (PutUint32 v) = Ok (u32 v).
Proof.
  unfold PutUint32. rewrite Uint32_quad, !Z_of_byte_of_Z, !Z.shiftr_div_pow2 by lia.
  unfold u32. f_equal.
  change (2 ^ 32) with (256 * (256 * (256 * 256))).
  change (2 ^ 24) with (256 * 256 * 256). change (2 ^ 16) with (256 * 256).
  change (2 ^ 8) with 256. rewrite <- !Z.div_div by lia.
  rewrite (Z.rem_mul_r v 256), (Z.rem_mul_r (v / 256) 256),
    (Z.rem_mul_r (v / 256 / 256) 256) by lia. lia.
Qed.

Lemma Uint16_range {E} b v : @Uint16 E b = Ok v -> 0 <= v < 2 ^ 16.
Proof.
  unfold Uint16. intros H. inv_bind H. inv_bind H. injection H as <-.
  rewrite lor_shift_add by (try apply Z_of_byte_range; lia).
  pose proof (Z_of_byte_range a). pose proof (Z_of_byte_range a0). lia.
Qed.

Lemma Uint32_range {E} b v : @Uint32 E b = Ok v -> 0 <= v < 2 ^ 32.
Proof.
  destruct b as [|a [|b [|c [|d k]]]]; try done.
  change (@Uint32 E (a :: b :: c :: d :: k)) with (@Uint32 E [a; b; c; d]).
  rewrite Uint32_quad. intros [= <-].
  pose proof (Z_of_byte_range a). pose proof (Z_of_byte_range b).
  pose proof (Z_of_byte_range c). pose proof (Z_of_byte_range d). lia.
Qed.

Lemma safe_Uint16 {E} b : 2 <= len b -> safe (@Uint16 E b).
Proof. destruct b as [|a [|b k]]; unfold len; cbn [length]; intros; [lia..|]. done. Qed.

Lemma safe_Uint32 {E} b : 4 <= len b -> safe (@Uint32 E b).
Proof.
  destruct b as [|a [|b [|c [|d k]]]]; unfold len; cbn [length]; intros; [lia..|]. done.
Qed.

Lemma u16_small v : 0 <= v < 2 ^ 16 -> u16 v = v.
Proof. intros. by apply Z.mod_small. Qed.
Lemma u32_small v : 0 <= v < 2 ^ 32 -> u32 v = v.
Proof. intros. by apply Z.mod_small. Qed.

(** ** Postconditions

    [post Q m]: the call returns, and a normal return satisfies [Q]. *)

Definition post {E A} (Q : A -> Prop) (m : result E A) : Prop :=
  match m with Ok a => Q a | Err _ => True | Panic | Fuel => False end.

Lemma post_safe {E A} (Q : A -> Prop) (m : result E A) : post Q m -> safe m.
Proof. by destruct m. Qed.
Lemma safe_post {E A} (m : result E A) : safe m -> post (fun _ => True) m.
Proof. by destruct m. Qed.
Lemma post_ok {E A} (Q : A -> Prop) (m : result E A) a : post Q m -> m = Ok a -> Q a.
Proof. by intros H ->. Qed.
Lemma post_mono {E A} (Q R : A -> Prop) (m : result E A) :
  post Q m -> (forall a, Q a -> R a) -> post R m.
Proof. destruct m; cbn; naive_solver. Qed.
Lemma post_bind {E A B} (Q : A -> Prop) (R : B -> Prop) (m : result E A) f :
  post Q m -> (forall a, Q a -> post R (f a)) -> post R (m ≫= f).
Proof. destruct m; cbn; naive_solver. Qed.
Lemma post_map_err {E E' A} (Q : A -> Prop) (f : E -> E') (m : result E A) :
  post Q m -> post Q (map_err f m).
Proof. by destruct m. Qed.
Lemma post_index {E A} (l : list A) i : 0 <= i < len l -> post (fun _ => True) (@index E A l i).
Proof. intros H. by destruct (@index_ok E A l i H) as (b & -> & _). Qed.
Lemma post_slice {E A} (l : list A) a b :
  0 <= a -> a <= b -> b <= len l ->
  post (fun s => s = sub l a b /\ len s = b - a) (@slice E A l a b).
Proof. intros. rewrite slice_ok by done. cbn. by rewrite len_sub. Qed.

(** Splits the goal on the head test, dropping the branches that return an
    error. *)
Ltac post_if := bcase; [try exact I|try exact I].
