(* ===== verification/GoStrings.v ===== *)
(** * The parts of Go's [strings], [strconv], [unicode/utf8] and [sort] that
    the program uses, on byte strings.

    A Go string may hold any bytes.  [ToLower], [TrimSpace] and [Fields] decode
    it as UTF-8 (an invalid byte counts as the rune U+FFFD of width one), so
    they are modelled over the decoder of [unicode/utf8].  Only the case table
    of the non-ASCII part of Unicode is left as a parameter, the class
    [UnicodeTables]; the ASCII part is concrete. *)

From S2P Require Import Prelude.

(** ** ASCII classes and case *)

Definition is_ascii (b : byte) : bool := Z_of_byte b <? 128.
Definition all_ascii (s : bytes) : bool := forallb is_ascii s.

(** [unicode.ToLower] below U+0080. *)
Definition ascii_to_lower (r : Z) : Z :=
  if (65 <=? r) && (r <=? 90) then r + 32 else r.
Definition byte_to_lower (b : byte) : byte := byte_of_Z (ascii_to_lower (Z_of_byte b)).

Class UnicodeTables := {
  (** [unicode.ToLower] from U+0080 on *)
  unicode_to_lower : Z -> Z;
  (** [unicode.ToUpper] from U+0080 on *)
  unicode_to_upper : Z -> Z;
  (** [unicode.SimpleFold]: the next rune of the same case orbit *)
  unicode_fold : Z -> Z;
  (** [strconv.IsPrint] from U+0100 on *)
  unicode_print : Z -> bool
}.

(** The Latin-1 rows of the table, for concrete evaluations. *)
Definition latin1 : UnicodeTables := {|
  unicode_to_lower r :=
    if (192 <=? r) && (r <=? 222) && negb (r =? 215) then r + 32 else r;
  unicode_to_upper r :=
    if r =? 181 then 924 else if r =? 255 then 376
    else if (224 <=? r) && (r <=? 254) && negb (r =? 247) then r - 32 else r;
  unicode_fold r :=
    if (192 <=? r) && (r <=? 222) && negb (r =? 215) then r + 32
    else if (224 <=? r) && (r <=? 254) && negb (r =? 247) then r - 32 else r;
  unicode_print _ := false
|}.

(** ** unicode/utf8 *)

Definition RuneError : Z := 65533.

Definition is_cont (b : byte) : bool := (128 <=? Z_of_byte b) && (Z_of_byte b <=? 191).

(** Size of the sequence a first byte starts, with the accepted range of the
    second byte; [None] for a byte that starts no sequence. *)
Definition first_byte (b : Z) : option (Z * Z * Z) :=
  if (194 <=? b) && (b <=? 223) then Some (2, 128, 191)
  else if b =? 224 then Some (3, 160, 191)
  else if b =? 237 then Some (3, 128, 159)
  else if (225 <=? b) && (b <=? 239) then Some (3, 128, 191)
  else if b =? 240 then Some (4, 144, 191)
  else if (241 <=? b) && (b <=? 243) then Some (4, 128, 191)
  else if b =? 244 then Some (4, 128, 143)
  else None.

(** [utf8.DecodeRuneInString] of a non-empty string: the rune and its width. *)
Definition DecodeRune (s : bytes) : Z * nat :=
  match s with
  | [] => (RuneError, 0%nat)
  | c0 :: rest =>
      let b0 := Z_of_byte c0 in
      if b0 <? 128 then (b0, 1%nat) else
      match first_byte b0 with
      | None => (RuneError, 1%nat)
      | Some (size, lo, hi) =>
          match rest with
          | [] => (RuneError, 1%nat)
          | c1 :: rest1 =>
              let b1 := Z_of_byte c1 in
              if len s <? size then (RuneError, 1%nat)
              else if (b1 <? lo) || (hi <? b1) then (RuneError, 1%nat)
              else if size =? 2 then (b0 mod 32 * 64 + b1 mod 64, 2%nat)
              else match rest1 with
              | [] => (RuneError, 1%nat)
              | c2 :: rest2 =>
                  if negb (is_cont c2) then (RuneError, 1%nat)
                  else if size =? 3 then
                    (b0 mod 16 * 4096 + b1 mod 64 * 64 + Z_of_byte c2 mod 64, 3%nat)
                  else match rest2 with
                  | [] => (RuneError, 1%nat)
                  | c3 :: _ =>
                      if negb (is_cont c3) then (RuneError, 1%nat)
                      else (b0 mod 8 * 262144 + b1 mod 64 * 4096
                            + Z_of_byte c2 mod 64 * 64 + Z_of_byte c3 mod 64, 4%nat)
                  end
              end
          end
      end
  end.

(** Start of the last rune: at most three continuation bytes are skipped. *)
Fixpoint last_rune_start (k : nat) (s : bytes) (start : nat) : nat :=
  match k, start with
  | S k', S start' =>
      match s !! start' with
      | Some b => if is_cont b then last_rune_start k' s start' else start'
      | None => start'
      end
  | _, _ => 0%nat
  end.

(** [utf8.DecodeLastRuneInString] of a non-empty string. *)
Definition DecodeLastRune (s : bytes) : Z * nat :=
  match last s with
  | None => (RuneError, 0%nat)
  | Some c =>
      if is_ascii c then (Z_of_byte c, 1%nat) else
      let n := length s in
      let lim := (n - 4)%nat in
      let start := Nat.max lim (last_rune_start 3 s (n - 1)) in
      let '(r, size) := DecodeRune (drop start s) in
      if Nat.eqb (start + size) n then (r, size) else (RuneError, 1%nat)
  end.

(** [utf8.AppendRune]: surrogates and values out of range encode U+FFFD. *)
Definition EncodeRune (r0 : Z) : bytes :=
  let r := if (r0 <? 0) || (1114111 <? r0) || ((55296 <=? r0) && (r0 <=? 57343))
           then RuneError else r0 in
  if r <? 128 then [byte_of_Z r]
  else if r <? 2048 then [byte_of_Z (192 + r / 64); byte_of_Z (128 + r mod 64)]
  else if r <? 65536 then
    [byte_of_Z (224 + r / 4096); byte_of_Z (128 + r / 64 mod 64);
     byte_of_Z (128 + r mod 64)]
  else
    [byte_of_Z (240 + r / 262144); byte_of_Z (128 + r / 4096 mod 64);
     byte_of_Z (128 + r / 64 mod 64); byte_of_Z (128 + r mod 64)].

(** The runes of [for _, r := range s]. *)
Fixpoint runes_loop (fuel : nat) (s : bytes) : list Z :=
  match fuel, s with
  | S fuel', _ :: _ =>
      let '(r, w) := DecodeRune s in r :: runes_loop fuel' (drop w s)
  | _, _ => []
  end.
Definition runes (s : bytes) : list Z := runes_loop (length s) s.

(** [unicode.IsSpace]: the White_Space property. *)
Definition IsSpace (r : Z) : bool :=
  ((9 <=? r) && (r <=? 13)) || (r =? 32) || (r =? 133) || (r =? 160)
  || (r =? 5760) || ((8192 <=? r) && (r <=? 8202)) || (r =? 8232) || (r =? 8233)
  || (r =? 8239) || (r =? 8287) || (r =? 12288).

(** ** package strings *)

Section case.
Context {U : UnicodeTables}.

(** [unicode.ToLower] *)
Definition rune_to_lower (r : Z) : Z :=
  if r <? 128 then ascii_to_lower r else unicode_to_lower r.

(** [strings.ToLower]: bytewise on ASCII strings, by runes otherwise. *)
Definition ToLower (s : bytes) : bytes :=
  if all_ascii s then map byte_to_lower s
  else flat_map (fun r => EncodeRune (rune_to_lower r)) (runes s).

(** [unicode.ToUpper] and [strings.ToUpper], which work alike. *)
Definition rune_to_upper (r : Z) : Z :=
  if r <? 128 then (if (97 <=? r) && (r <=? 122) then r - 32 else r) else unicode_to_upper r.
Definition ToUpper (s : bytes) : bytes :=
  if all_ascii s then map (fun b => byte_of_Z (rune_to_upper (Z_of_byte b))) s
  else flat_map (fun r => EncodeRune (rune_to_upper r)) (runes s).

(** The loop [for r != sr && r < tr]; an orbit has at most four runes. *)
Fixpoint fold_loop (fuel : nat) (sr tr r : Z) : bool :=
  match fuel with
  | O => r =? tr
  | S fuel' =>
      if negb (r =? sr) && (r <? tr) then fold_loop fuel' sr tr (unicode_fold r) else r =? tr
  end.

(** Two runes of [strings.EqualFold] outside its ASCII path. *)
Definition fold_eq (a b : Z) : bool :=
  if a =? b then true else
  let sr := Z.min a b in
  let tr := Z.max a b in
  if tr <? 128 then (65 <=? sr) && (sr <=? 90) && (tr =? sr + 32)
  else fold_loop 4 sr tr (unicode_fold sr).

Fixpoint fold_runes (s t : list Z) : bool :=
  match s, t with
  | [], [] => true
  | a :: s', b :: t' => fold_eq a b && fold_runes s' t'
  | _, _ => false
  end.

(** [strings.EqualFold]: bytewise up to the first pair with a byte outside
    ASCII, by runes from there. *)
Fixpoint EqualFold (s t : bytes) : bool :=
  match s, t with
  | a :: s', b :: t' =>
      if is_ascii a && is_ascii b then
        fold_eq (Z_of_byte a) (Z_of_byte b) && EqualFold s' t'
      else fold_runes (runes s) (runes t)
  | [], [] => true
  | _, _ => false
  end.
End case.

Fixpoint trim_left_loop (fuel : nat) (f : Z -> bool) (s : bytes) : bytes :=
  match fuel, s with
  | S fuel', _ :: _ =>
      let '(r, w) := DecodeRune s in
      if f r then trim_left_loop fuel' f (drop w s) else s
  | _, _ => s
  end.
Fixpoint trim_right_loop (fuel : nat) (f : Z -> bool) (s : bytes) : bytes :=
  match fuel, s with
  | S fuel', _ :: _ =>
      let '(r, w) := DecodeLastRune s in
      if f r then trim_right_loop fuel' f (take (length s - w) s) else s
  | _, _ => s
  end.
Definition TrimLeftFunc (f : Z -> bool) (s : bytes) : bytes := trim_left_loop (length s) f s.
Definition TrimRightFunc (f : Z -> bool) (s : bytes) : bytes := trim_right_loop (length s) f s.
Definition TrimSpace (s : bytes) : bytes := TrimRightFunc IsSpace (TrimLeftFunc IsSpace s).

Definition HasPrefix (s p : bytes) : bool := bool_decide (take (length p) s = p).
Definition HasSuffix (s p : bytes) : bool :=
  (length p <=? length s)%nat && bool_decide (drop (length s - length p) s = p).
Fixpoint Contains (s p : bytes) : bool :=
  HasPrefix s p || match s with [] => false | _ :: k => Contains k p end.
Definition TrimPrefix (s p : bytes) : bytes := if HasPrefix s p then drop (length p) s else s.
Definition TrimSuffix (s p : bytes) : bytes :=
  if HasSuffix s p then take (length s - length p) s else s.

(** [strings.Split] with a one-byte separator; never the empty list. *)
Fixpoint Split (s : bytes) (sep : byte) : list bytes :=
  match s with
  | [] => [[]]
  | c :: s' =>
      match Split s' sep with
      | [] => [[]]
      | p :: ps => if decide (c = sep) then [] :: p :: ps else (c :: p) :: ps
      end
  end.

Fixpoint Join (parts : list bytes) (sep : bytes) : bytes :=
  match parts with
  | [] => []
  | [p] => p
  | p :: ps => p ++ sep ++ Join ps sep
  end.

(** [strings.Index] of a one-byte string; -1 when it does not occur. *)
Fixpoint IndexByte (s : bytes) (c : byte) : Z :=
  match s with
  | [] => -1
  | x :: s' => if decide (x = c) then 0 else
      let i := IndexByte s' c in if i =? -1 then -1 else i + 1
  end.

(** [strings.Fields]: the maximal runs of runes that are not space. *)
Fixpoint fields_loop (fuel : nat) (s cur : bytes) : list bytes :=
  let flush := match cur with [] => [] | _ => [cur] end in
  match fuel, s with
  | S fuel', _ :: _ =>
      let '(r, w) := DecodeRune s in
      if IsSpace r then flush ++ fields_loop fuel' (drop w s) []
      else fields_loop fuel' (drop w s) (cur ++ take w s)
  | _, _ => flush
  end.
Definition Fields (s : bytes) : list bytes := fields_loop (length s) s [].

(** ** strconv and fmt: decimal digits of a non-negative integer *)

Fixpoint itoa_loop (fuel : nat) (n : Z) (acc : bytes) : bytes :=
  match fuel with
  | O => acc
  | S fuel' =>
      let acc' := byte_of_Z (48 + n mod 10) :: acc in
      if n / 10 =? 0 then acc' else itoa_loop fuel' (n / 10) acc'
  end.
(** Twenty digits hold every [uint64]. *)
Definition itoa (n : Z) : bytes := itoa_loop 20 n [].

(** ** package sort: byte-wise order of strings *)

Fixpoint bytes_leb (a b : bytes) : bool :=
  match a, b with
  | [], _ => true
  | _ :: _, [] => false
  | x :: a', y :: b' =>
      if Z_of_byte x <? Z_of_byte y then true
      else if Z_of_byte y <? Z_of_byte x then false
      else bytes_leb a' b'
  end.
Fixpoint insert_sorted (x : bytes) (l : list bytes) : list bytes :=
  match l with
  | [] => [x]
  | y :: l' => if bytes_leb x y then x :: y :: l' else y :: insert_sorted x l'
  end.
(** [sort.Strings] *)
Definition sort_strings (l : list bytes) : list bytes := foldr insert_sorted [] l.

(** ** Lemmas *)

(** *** ASCII case folding *)

Lemma all_ascii_app a b : all_ascii (a ++ b) = all_ascii a && all_ascii b.
Proof. apply forallb_app. Qed.

Lemma all_ascii_cons c s : all_ascii (c :: s) = is_ascii c && all_ascii s.
Proof. done. Qed.

Lemma Z_of_byte_to_lower c : is_ascii c = true ->
  Z_of_byte (byte_to_lower c) = ascii_to_lower (Z_of_byte c).
Proof.
  unfold is_ascii, byte_to_lower, ascii_to_lower. intros H.
  pose proof (Z_of_byte_range c). rewrite Z_of_byte_of_Z.
  bcase; rewrite Z.mod_small; lia.
Qed.

Lemma is_ascii_to_lower c : is_ascii c = true -> is_ascii (byte_to_lower c) = true.
Proof.
  intros H. unfold is_ascii. rewrite Z_of_byte_to_lower by done.
  unfold is_ascii, ascii_to_lower in *. pose proof (Z_of_byte_range c). bcase; lia.
Qed.

Lemma all_ascii_to_lower s : all_ascii s = true -> all_ascii (map byte_to_lower s) = true.
Proof.
  induction s as [|c s IH]; [done|]. cbn [map]. rewrite !all_ascii_cons.
  intros [H1 H2]%andb_true_iff. rewrite is_ascii_to_lower, IH by done. done.
Qed.

Lemma byte_to_lower_idem c : is_ascii c = true ->
  byte_to_lower (byte_to_lower c) = byte_to_lower c.
Proof.
  intros H. apply Z_of_byte_inj.
  rewrite !Z_of_byte_to_lower by auto using is_ascii_to_lower.
  unfold ascii_to_lower. repeat bcase; lia.
Qed.

Lemma map_to_lower_idem s : all_ascii s = true ->
  map byte_to_lower (map byte_to_lower s) = map byte_to_lower s.
Proof.
  induction s as [|c s IH]; [done|]. rewrite all_ascii_cons.
  intros [H1 H2]%andb_true_iff. cbn [map]. by rewrite byte_to_lower_idem, IH.
Qed.

(** Bytes that are not upper-case letters stay; no other byte becomes one of
    them unless it is a letter. *)
Lemma byte_to_lower_fix c d : is_ascii c = true ->
  (Z_of_byte d < 97 \/ 122 < Z_of_byte d) -> byte_to_lower c = d -> c = d.
Proof.
  intros Ha Hd E. apply Z_of_byte_inj. subst d.
  rewrite Z_of_byte_to_lower in * by done. unfold ascii_to_lower in *.
  pose proof (Z_of_byte_range c). bcase; lia.
Qed.

Section case_lemmas.
Context {U : UnicodeTables}.
Lemma ToLower_ascii s : all_ascii s = true -> ToLower s = map byte_to_lower s.
Proof. unfold ToLower. by intros ->. Qed.
End case_lemmas.

(** *** Prefixes and suffixes *)

Lemma HasSuffix_spec s p : HasSuffix s p = true <-> p `suffix_of` s.
Proof.
  unfold HasSuffix. rewrite andb_true_iff, Nat.leb_le, bool_decide_eq_true. split.
  - intros [_ <-]. exists (take (length s - length p) s). by rewrite take_drop.
  - intros [k ->]. rewrite length_app. split; [lia|].
    replace (length k + length p - length p)%nat with (length k) by lia.
    apply drop_app_length.
Qed.

Lemma HasSuffix_app k p : HasSuffix (k ++ p) p = true.
Proof. apply HasSuffix_spec. by exists k. Qed.

Lemma TrimSuffix_app k p : TrimSuffix (k ++ p) p = k.
Proof.
  unfold TrimSuffix. rewrite HasSuffix_app, length_app.
  replace (length k + length p - length p)%nat with (length k) by lia.
  apply take_app_length.
Qed.

Lemma HasPrefix_spec s p : HasPrefix s p = true <-> p `prefix_of` s.
Proof.
  unfold HasPrefix. rewrite bool_decide_eq_true. split.
  - intros <-. exists (drop (length p) s). by rewrite take_drop.
  - intros [k ->]. apply take_app_length.
Qed.

(** *** Split and Join *)

Lemma Split_not_nil s c : Split s c <> [].
Proof. destruct s as [|x s]; cbn; [done|]. destruct (Split s c); [done|]. case_decide; done. Qed.

Lemma Split_cons_sep s c : Split (c :: s) c = [] :: Split s c.
Proof.
  cbn. pose proof (Split_not_nil s c). destruct (Split s c); [done|]. by case_decide.
Qed.

Lemma Join_cons p ps sep : ps <> [] -> Join (p :: ps) sep = p ++ sep ++ Join ps sep.
Proof. by destruct ps. Qed.

Lemma Join_Split s c : Join (Split s c) [c] = s.
Proof.
  induction s as [|x s IH]; [done|]. cbn [Split].
  pose proof (Split_not_nil s c) as Hn. destruct (Split s c) as [|p ps] eqn:E; [done|].
  case_decide as Hx.
  - rewrite Join_cons, IH by done. by subst.
  - destruct ps; cbn in IH |- *; by rewrite <- IH.
Qed.

Lemma Split_no_sep s c p : p ∈ Split s c -> c ∉ p.
Proof.
  revert p. induction s as [|x s IH]; intros p; cbn [Split].
  { intros ->%list_elem_of_singleton. apply not_elem_of_nil. }
  pose proof (Split_not_nil s c). destruct (Split s c) as [|q qs] eqn:E; [done|].
  assert (forall r, r ∈ q :: qs -> c ∉ r) as IH' by exact IH.
  case_decide.
  - intros [->|Hr]%elem_of_cons; [apply not_elem_of_nil|by apply IH'].
  - intros [->|Hr]%elem_of_cons.
    + apply not_elem_of_cons. split; [done|]. apply IH', elem_of_cons. by left.
    + apply IH', elem_of_cons. by right.
Qed.

Lemma Split_app_sep p s c : c ∉ p -> Split (p ++ c :: s) c = p :: Split s c.
Proof.
  induction p as [|x p IH]; [intros _; apply Split_cons_sep|].
  intros [Hx Hp]%not_elem_of_cons. cbn [app Split]. rewrite IH by done.
  case_decide; [congruence|done].
Qed.

Lemma Split_single p c : c ∉ p -> Split p c = [p].
Proof.
  induction p as [|x p IH]; [done|]. intros [Hx Hp]%not_elem_of_cons.
  cbn [Split]. rewrite IH by done. case_decide; [congruence|done].
Qed.

Lemma Split_Join ps c :
  ps <> [] -> Forall (fun p => c ∉ p) ps -> Split (Join ps [c]) c = ps.
Proof.
  induction ps as [|p ps IH]; [done|]. intros _ [Hp Hps]%Forall_cons.
  destruct ps as [|q qs]; [by apply Split_single|].
  rewrite Join_cons by done. cbn [app]. rewrite Split_app_sep by done.
  by rewrite IH.
Qed.

(** ** Trimming ASCII strings *)

Fixpoint drop_while {A} (p : A -> bool) (s : list A) : list A :=
  match s with
  | [] => []
  | c :: s' => if p c then drop_while p s' else s
  end.

(** No byte at either end satisfies [p]. *)
Definition trimmed (p : byte -> bool) (s : bytes) : Prop :=
  (forall c k, s = c :: k -> p c = false) /\ (forall c k, s = k ++ [c] -> p c = false).

Lemma drop_while_head {A} (p : A -> bool) s c k : drop_while p s = c :: k -> p c = false.
Proof. induction s as [|x s IH]; [done|]. cbn. destruct (p x) eqn:E; [done|]. by intros [= <- _]. Qed.

Lemma drop_while_suffix {A} (p : A -> bool) s : exists k, s = k ++ drop_while p s.
Proof.
  induction s as [|x s [k IH]]; [by exists []|]. cbn. destruct (p x); [|by exists []].
  exists (x :: k). cbn. by f_equal.
Qed.

Lemma drop_while_id {A} (p : A -> bool) s :
  (forall c k, s = c :: k -> p c = false) -> drop_while p s = s.
Proof. destruct s as [|c k]; [done|]. intros H. cbn. by rewrite (H c k). Qed.

Section trim.
Context (f : Z -> bool).
Let p (b : byte) : bool := f (Z_of_byte b).

Lemma trim_left_ascii n s :
  all_ascii s = true -> (length s <= n)%nat -> trim_left_loop n f s = drop_while p s.
Proof.
  revert s. induction n as [|n IH]; intros [|c s]; cbn [length]; intros Ha Hn; try done; [lia|].
  rewrite all_ascii_cons in Ha. apply andb_true_iff in Ha as [Hc Ha].
  cbn [trim_left_loop drop_while]. unfold DecodeRune. cbv zeta. unfold is_ascii in Hc.
  rewrite Hc. unfold p at 1. cbn [drop]. destruct (f _); [|done]. apply IH; [done|lia].
Qed.

Lemma trim_right_ascii n s :
  all_ascii s = true -> (length s <= n)%nat ->
  trim_right_loop n f s = rev (drop_while p (rev s)).
Proof.
  revert n. induction s as [|c s IH] using rev_ind; intros n; [by destruct n|].
  rewrite all_ascii_app, length_app. intros [Ha Hc]%andb_true_iff Hn. cbn [length] in Hn.
  rewrite all_ascii_cons in Hc. apply andb_true_iff in Hc as [Hc _].
  destruct n as [|n]; [lia|]. destruct (s ++ [c]) as [|x k] eqn:E; [by destruct s|].
  cbn [trim_right_loop]. rewrite <- E. unfold DecodeLastRune. rewrite last_snoc, Hc.
  rewrite rev_app_distr. cbn [rev app drop_while]. unfold p at 1. destruct (f _).
  - replace (length (s ++ [c]) - 1)%nat with (length s) by (rewrite length_app; cbn; lia).
    rewrite take_app_length. apply IH; [done|lia].
  - cbn [rev]. by rewrite rev_involutive.
Qed.

Lemma trim_ascii s :
  all_ascii s = true ->
  TrimRightFunc f (TrimLeftFunc f s) = rev (drop_while p (rev (drop_while p s))).
Proof.
  intros Ha. unfold TrimRightFunc, TrimLeftFunc. rewrite trim_left_ascii by done.
  apply trim_right_ascii; [|done]. destruct (drop_while_suffix p s) as [k E].
  rewrite E in Ha. by rewrite all_ascii_app in Ha; apply andb_true_iff in Ha as [? ?].
Qed.

Lemma trim_trimmed s :
  all_ascii s = true -> trimmed p (TrimRightFunc f (TrimLeftFunc f s)).
Proof.
  intros Ha. rewrite trim_ascii by done. set (x := drop_while p s).
  destruct (drop_while_suffix p (rev x)) as [k E]. split; intros c l Hl.
  - apply (f_equal (@rev _)) in E. rewrite rev_involutive, rev_app_distr, Hl in E.
    by apply (drop_while_head p s c (l ++ rev k)).
  - apply (f_equal (@rev _)) in Hl. rewrite rev_involutive, rev_app_distr in Hl.
    by apply drop_while_head in Hl.
Qed.

Lemma trim_id s :
  all_ascii s = true -> trimmed p s -> TrimRightFunc f (TrimLeftFunc f s) = s.
Proof.
  intros Ha [H1 H2]. rewrite trim_ascii by done. rewrite (drop_while_id p s) by done.
  rewrite drop_while_id; [by rewrite rev_involutive|].
  intros c k E. apply (H2 c (rev k)). by rewrite <- (rev_involutive s), E.
Qed.

Lemma trim_infix s :
  all_ascii s = true -> exists a b, s = a ++ TrimRightFunc f (TrimLeftFunc f s) ++ b.
Proof.
  intros Ha. rewrite trim_ascii by done. destruct (drop_while_suffix p s) as [a E].
  destruct (drop_while_suffix p (rev (drop_while p s))) as [k E'].
  apply (f_equal (@rev _)) in E'. rewrite rev_involutive, rev_app_distr in E'.
  exists a, (rev k). by rewrite <- E'.
Qed.
End trim.

(** ** ASCII strings *)

Lemma all_ascii_sub s k : all_ascii (s ++ k) = true -> all_ascii s = true /\ all_ascii k = true.
Proof. rewrite all_ascii_app. apply andb_true_iff. Qed.

Lemma all_ascii_drop n s : all_ascii s = true -> all_ascii (drop n s) = true.
Proof. intros H. by rewrite <- (take_drop n s) in H; apply all_ascii_sub in H as [? ?]. Qed.

Lemma all_ascii_take n s : all_ascii s = true -> all_ascii (take n s) = true.
Proof. intros H. by rewrite <- (take_drop n s) in H; apply all_ascii_sub in H as [? ?]. Qed.

#[export] Hint Resolve all_ascii_drop all_ascii_take : go.

Lemma all_ascii_trim_left n f s : all_ascii s = true -> all_ascii (trim_left_loop n f s) = true.
Proof.
  revert s. induction n as [|n IH]; intros s Hs; destruct s as [|c s]; try done.
  cbn [trim_left_loop]. destruct (DecodeRune _) as [r w]. bcase; auto with go.
Qed.

Lemma all_ascii_trim_right n f s : all_ascii s = true -> all_ascii (trim_right_loop n f s) = true.
Proof.
  revert s. induction n as [|n IH]; intros s Hs; destruct s as [|c s]; try done.
  cbn [trim_right_loop]. destruct (DecodeLastRune _) as [r w]. bcase; auto with go.
Qed.

Lemma all_ascii_TrimSpace s : all_ascii s = true -> all_ascii (TrimSpace s) = true.
Proof. intros H. by apply all_ascii_trim_right, all_ascii_trim_left. Qed.

Lemma all_ascii_TrimSuffix s p : all_ascii s = true -> all_ascii (TrimSuffix s p) = true.
Proof. intros H. unfold TrimSuffix. bcase; auto with go. Qed.

Lemma all_ascii_Split s c l : all_ascii s = true -> l ∈ Split s c -> all_ascii l = true.
Proof.
  revert l. induction s as [|x s IH]; intros l; [by intros _ ->%list_elem_of_singleton|].
  rewrite all_ascii_cons. intros [Hx Hs]%andb_true_iff. cbn [Split].
  destruct (Split s c) as [|p ps]; [by intros ->%list_elem_of_singleton|].
  case_decide.
  - intros [->|Hl]%elem_of_cons; [done|auto].
  - intros [->|Hl]%elem_of_cons.
    + rewrite all_ascii_cons, Hx. apply IH; [done|by constructor].
    + apply IH; [done|by constructor].
Qed.

(** ** Decimal digits *)

Definition digits_value (s : bytes) : Z := foldl (fun n c => 10 * n + (Z_of_byte c - 48)) 0 s.

Lemma itoa_loop_value fuel n acc :
  0 <= n < 10 ^ Z.of_nat fuel ->
  digits_value (itoa_loop fuel n acc) = foldl (fun n c => 10 * n + (Z_of_byte c - 48)) n acc.
Proof.
  revert n acc. induction fuel as [|fuel IH]; intros n acc Hn.
  { cbn in Hn. assert (n = 0) as -> by lia. done. }
  rewrite Nat2Z.inj_succ, Z.pow_succ_r in Hn by lia. cbn [itoa_loop].
  assert (Z_of_byte (byte_of_Z (48 + n mod 10)) = 48 + n mod 10) as Hb.
  { rewrite Z_of_byte_of_Z. apply Z.mod_small. dlia. }
  bcase.
  - unfold digits_value. cbn [foldl]. rewrite Hb. f_equal. dlia.
  - rewrite IH by dlia. cbn [foldl]. rewrite Hb. f_equal. dlia.
Qed.

Lemma itoa_value n : 0 <= n < 10 ^ 20 -> digits_value (itoa n) = n.
Proof. intros H. unfold itoa. by rewrite itoa_loop_value. Qed.

Lemma itoa_inj m n : 0 <= m < 10 ^ 20 -> 0 <= n < 10 ^ 20 -> itoa m = itoa n -> m = n.
Proof. intros Hm Hn E. by rewrite <- (itoa_value m), <- (itoa_value n), E. Qed.

Lemma itoa_digits n c : 0 <= n -> c ∈ itoa n -> 48 <= Z_of_byte c <= 57.
Proof.
  unfold itoa. assert (forall c : byte, c ∈ [] -> 48 <= Z_of_byte c <= 57) as H
    by by intros ? ?%elem_of_nil.
  revert H. generalize (@nil byte). generalize 20%nat. intros fuel. revert n.
  induction fuel as [|fuel IH]; intros n acc Hacc Hn Hc; cbn [itoa_loop] in Hc; [auto|].
  assert (forall d, d ∈ byte_of_Z (48 + n mod 10) :: acc -> 48 <= Z_of_byte d <= 57) as Hacc'.
  { intros d [->|Hd]%elem_of_cons; [|auto]. rewrite Z_of_byte_of_Z.
    rewrite Z.mod_small by dlia. dlia. }
  bcase_in Hc; [auto|]. apply (IH (n / 10) _ Hacc'); [dlia|done].
Qed.

(** ** Sorted lists of strings *)

Lemma elem_of_insert_sorted x y l : y ∈ insert_sorted x l <-> y = x \/ y ∈ l.
Proof.
  induction l as [|a l IH]; cbn; [by rewrite elem_of_cons|].
  destruct (bytes_leb x a); rewrite !elem_of_cons; [done|]. rewrite IH. tauto.
Qed.

Lemma elem_of_sort_strings y l : y ∈ sort_strings l <-> y ∈ l.
Proof.
  induction l as [|a l IH]; [done|]. cbn. rewrite elem_of_insert_sorted, elem_of_cons. by rewrite IH.
Qed.

Lemma bytes_leb_total a b : bytes_leb a b = true \/ bytes_leb b a = true.
Proof.
  revert b. induction a as [|x a IH]; intros [|y b]; cbn [bytes_leb]; auto. repeat bcase; auto.
Qed.

Lemma bytes_leb_trans a b c : bytes_leb a b = true -> bytes_leb b c = true -> bytes_leb a c = true.
Proof.
  revert b c. induction a as [|x a IH]; intros [|y b] [|z c]; cbn [bytes_leb]; try done.
  destruct (Z_of_byte x <? Z_of_byte y) eqn:E1, (Z_of_byte y <? Z_of_byte x) eqn:E2,
    (Z_of_byte y <? Z_of_byte z) eqn:E3, (Z_of_byte z <? Z_of_byte y) eqn:E4,
    (Z_of_byte x <? Z_of_byte z) eqn:E5, (Z_of_byte z <? Z_of_byte x) eqn:E6; try done; try lia.
  apply IH.
Qed.

Lemma bytes_leb_antisym a b : bytes_leb a b = true -> bytes_leb b a = true -> a = b.
Proof.
  revert b. induction a as [|x a IH]; intros [|y b]; cbn [bytes_leb]; try done.
  destruct (Z_of_byte x <? Z_of_byte y) eqn:E1, (Z_of_byte y <? Z_of_byte x) eqn:E2; try done; try lia.
  intros H1 H2. rewrite (IH b H1 H2). f_equal. apply Z_of_byte_inj. lia.
Qed.

Lemma bytes_leb_false a b : bytes_leb a b = false -> bytes_leb b a = true.
Proof. destruct (bytes_leb_total a b); congruence. Qed.

Lemma insert_sorted_comm x y l : insert_sorted x (insert_sorted y l) = insert_sorted y (insert_sorted x l).
Proof.
  assert (forall x y, bytes_leb x y = true -> bytes_leb y x = false \/ x = y) as Hxy.
  { intros a b H. destruct (bytes_leb b a) eqn:E; [right; by apply bytes_leb_antisym|by left]. }
  induction l as [|z l IH]; cbn [insert_sorted].
  - destruct (bytes_leb x y) eqn:E.
    + destruct (Hxy x y E) as [->| ->]; [done|by destruct (bytes_leb y y)].
    + by rewrite (bytes_leb_false _ _ E).
  - destruct (bytes_leb y z) eqn:Ey, (bytes_leb x z) eqn:Ex; cbn [insert_sorted]; rewrite ?Ex, ?Ey.
    + destruct (bytes_leb x y) eqn:E.
      * destruct (Hxy x y E) as [->| ->]; [done|by destruct (bytes_leb y y)].
      * by rewrite (bytes_leb_false _ _ E).
    + destruct (bytes_leb x y) eqn:E; [|done].
      by rewrite (bytes_leb_trans _ _ _ E Ey) in Ex.
    + destruct (bytes_leb y x) eqn:E; [|done].
      by rewrite (bytes_leb_trans _ _ _ E Ex) in Ey.
    + by rewrite IH.
Qed.

(** Sorting forgets the order. *)
#[export] Instance sort_strings_proper : Proper ((≡ₚ) ==> (=)) sort_strings.
Proof.
  intros l k H. unfold sort_strings. induction H as [|x l k _ IH|x y l|l k m _ IH1 _ IH2]; cbn [foldr];
    [done|by rewrite IH|apply insert_sorted_comm|congruence].
Qed.

Lemma insert_sorted_perm x l : insert_sorted x l ≡ₚ x :: l.
Proof. induction l as [|y l IH]; [done|]. cbn. bcase; [done|]. rewrite IH. apply Permutation_swap. Qed.

Lemma sort_strings_perm l : sort_strings l ≡ₚ l.
Proof. induction l as [|x l IH]; [done|]. cbn. by rewrite insert_sorted_perm, IH. Qed.
