(* ===== verification/Protocol.v ===== *)
(** * internal/protocol: constants, messages and the header codec
    (types.go, header.go, question.go, resource_record.go, message.go). *)

From S2P Require Import Prelude.
From S2P Require Import GoStrings.

#[local] Open Scope go_scope.

(** ** types.go *)

Definition MaxDNSPacketLen := 65535.
Definition HeaderSize := 12.
Definition MaxLabelLength := 63.
Definition MaxLabels := 127.
Definition MaxNameLength := 255.
Definition MaxUDPPacketLen := 4096.

Definition ClassIN := 1.

Definition TypeA := 1.
Definition TypeNS := 2.
Definition TypeCNAME := 5.
Definition TypeSOA := 6.
Definition TypePTR := 12.
Definition TypeMX := 15.
Definition TypeTXT := 16.
Definition TypeAAAA := 28.
Definition TypeSRV := 33.
Definition TypeOPT := 41.
Definition TypeDS := 43.
Definition TypeRRSIG := 46.
Definition TypeNSEC := 47.
Definition TypeDNSKEY := 48.
Definition TypeNSEC3 := 50.
Definition TypeCAA := 257.
Definition TypeANY := 255.

Definition RCodeNoError := 0.
Definition RCodeFormatError := 1.
Definition RCodeServerFailure := 2.
Definition RCodeNameError := 3.
Definition RCodeNotImplemented := 4.
Definition RCodeRefused := 5.

Definition TypeToString (t : Z) : bytes :=
  if t =? TypeA then "A"
  else if t =? TypeNS then "NS"
  else if t =? TypeCNAME then "CNAME"
  else if t =? TypeSOA then "SOA"
  else if t =? TypePTR then "PTR"
  else if t =? TypeMX then "MX"
  else if t =? TypeTXT then "TXT"
  else if t =? TypeAAAA then "AAAA"
  else if t =? TypeSRV then "SRV"
  else if t =? TypeOPT then "OPT"
  else if t =? TypeDS then "DS"
  else if t =? TypeRRSIG then "RRSIG"
  else if t =? TypeNSEC then "NSEC"
  else if t =? TypeDNSKEY then "DNSKEY"
  else if t =? TypeNSEC3 then "NSEC3"
  else if t =? TypeCAA then "CAA"
  else if t =? TypeANY then "ANY"
  else "TYPE" ++ itoa t.

Definition RCodeToString (code : Z) : bytes :=
  if code =? RCodeNoError then "NOERROR"
  else if code =? RCodeFormatError then "FORMERR"
  else if code =? RCodeServerFailure then "SERVFAIL"
  else if code =? RCodeNameError then "NXDOMAIN"
  else if code =? RCodeNotImplemented then "NOTIMP"
  else if code =? RCodeRefused then "REFUSED"
  else "RCODE" ++ itoa code.

(** ** Errors of the package, one constructor per [fmt.Errorf] *)

Inductive error :=
| ErrHeaderTruncated (have : Z)
| ErrSectionTooLarge
| ErrPacketTooSmall (n : Z)
| ErrPacketTooLarge (n : Z)
| ErrDecodeQuestion (i : Z) (e : error)
| ErrDecodeAnswer (i : Z) (e : error)
| ErrDecodeAuthority (i : Z) (e : error)
| ErrDecodeAdditional (i : Z) (e : error)
| ErrDecodeOverflow (off n : Z)
| ErrQuestionTruncated
| ErrRRHeaderTruncated
| ErrRDataTruncated
| ErrNameOffset (off : Z)
| ErrNameTruncated
| ErrPointerTruncated
| ErrPointerOffset (ptr : Z)
| ErrPointerLoop
| ErrTooManyJumps
| ErrLabelTooLong (n : Z)
| ErrLabelTruncated
| ErrTooManyLabels
| ErrLabelPrefix (b : Z)
| ErrNameTooLong (n : Z)
| ErrRDataBounds
| ErrRDataLen (rrType n : Z)
| ErrRDataShort (rrType : Z)
| ErrRDataField (rrType : Z)
| ErrMessageNil
| ErrEncodeQuestion (i : Z) (e : error)
| ErrEncodeAnswer (i : Z) (e : error)
| ErrEncodeAuthority (i : Z) (e : error)
| ErrEncodeAdditional (i : Z) (e : error)
| ErrMessageTooLarge (n : Z)
| ErrRDataTooLarge (n : Z)
| ErrCompressionPointer (ptr : Z)
| ErrLabelCount (n : Z)
| ErrEmptyLabel
| ErrTXTChunk (n : Z)
| ErrCAATag
| ErrNSEC3Field.

(** ** header.go *)

Record Header := mkHeader {
  h_ID : Z; h_QR : bool; h_Opcode : Z; h_AA : bool; h_TC : bool; h_RD : bool;
  h_RA : bool; h_Z : Z; h_RCode : Z;
  h_QuestionCount : Z; h_AnswerCount : Z; h_AuthorityCount : Z; h_AdditionalCount : Z
}.

(** The zero value [Header{}]. *)
Definition zero_header : Header :=
  mkHeader 0 false 0 false false false false 0 0 0 0 0 0.

Definition set_counts (h : Header) (qd an ns ar : Z) : Header :=
  mkHeader (h_ID h) (h_QR h) (h_Opcode h) (h_AA h) (h_TC h) (h_RD h) (h_RA h)
    (h_Z h) (h_RCode h) qd an ns ar.

(** [binary.BigEndian.Uint16(data[a:b])] *)
Definition Uint16_at (data : bytes) (a b : Z) : result error Z :=
  s ← slice data a b; Uint16 s.
Definition Uint32_at (data : bytes) (a b : Z) : result error Z :=
  s ← slice data a b; Uint32 s.

Definition Header_decode (data : bytes) : result error Header :=
  if len data <? HeaderSize then Err (ErrHeaderTruncated (len data)) else
  id ← Uint16_at data 0 2;
  flags ← Uint16_at data 2 4;
  qd ← Uint16_at data 4 6;
  an ← Uint16_at data 6 8;
  ns ← Uint16_at data 8 10;
  ar ← Uint16_at data 10 12;
  Ok {| h_ID := id;
        h_QR := negb (Z.land flags 0x8000 =? 0);
        h_Opcode := Z.land (Z.shiftr flags 11) 0x0F;
        h_AA := negb (Z.land flags 0x0400 =? 0);
        h_TC := negb (Z.land flags 0x0200 =? 0);
        h_RD := negb (Z.land flags 0x0100 =? 0);
        h_RA := negb (Z.land flags 0x0080 =? 0);
        h_Z := Z.land (Z.shiftr flags 4) 0x07;
        h_RCode := Z.land flags 0x000F;
        h_QuestionCount := qd; h_AnswerCount := an;
        h_AuthorityCount := ns; h_AdditionalCount := ar |}.

(** The [flags] word built by [encode]. *)
Definition Header_flags (h : Header) : Z :=
  let flags := 0 in
  let flags := if h_QR h then Z.lor flags 0x8000 else flags in
  let flags := Z.lor flags (u16 (Z.shiftl (Z.land (h_Opcode h) 0x0F) 11)) in
  let flags := if h_AA h then Z.lor flags 0x0400 else flags in
  let flags := if h_TC h then Z.lor flags 0x0200 else flags in
  let flags := if h_RD h then Z.lor flags 0x0100 else flags in
  let flags := if h_RA h then Z.lor flags 0x0080 else flags in
  let flags := Z.lor flags (u16 (Z.shiftl (Z.land (h_Z h) 0x07) 4)) in
  Z.lor flags (Z.land (h_RCode h) 0x0F).

Definition Header_encode (h : Header) : bytes :=
  PutUint16 (h_ID h) ++ PutUint16 (Header_flags h)
  ++ PutUint16 (h_QuestionCount h) ++ PutUint16 (h_AnswerCount h)
  ++ PutUint16 (h_AuthorityCount h) ++ PutUint16 (h_AdditionalCount h).

(** ** question.go, resource_record.go, message.go *)

Record Question := mkQuestion { q_Name : bytes; q_Type : Z; q_Class : Z }.

(** The implementations of the interface [RData]. *)
Inductive RData :=
| AData (Address : bytes)
| AAAAData (Address : bytes)
| CNAMEData (Name : bytes)
| NSData (Name : bytes)
| PTRData (Name : bytes)
| MXData (Preference : Z) (Exchange : bytes)
| SOAData (MName RName : bytes) (Serial Refresh Retry Expire Minimum : Z)
| TXTData (Texts : list bytes)
| SRVData (Priority Weight Port : Z) (Target : bytes)
| CAAData (Flags : Z) (Tag Value : bytes)
| RRSIGData (TypeCovered Algorithm Labels OriginalTTL Expiration Inception KeyTag : Z)
    (SignerName Signature : bytes)
| DNSKEYData (Flags Protocol Algorithm : Z) (PublicKey : bytes)
| DSData (KeyTag Algorithm DigestType : Z) (Digest : bytes)
| NSECData (NextDomain TypeBitmap : bytes)
| NSEC3Data (HashAlgorithm Flags Iterations : Z) (Salt NextHashed TypeBitmap : bytes)
| OPTData (UDPSize ExtRCode Version Flags : Z) (Options : bytes)
| UnknownData (Type_ : Z) (Data : bytes).

Definition recordType (d : RData) : Z :=
  match d with
  | AData _ => TypeA
  | AAAAData _ => TypeAAAA
  | CNAMEData _ => TypeCNAME
  | NSData _ => TypeNS
  | PTRData _ => TypePTR
  | MXData _ _ => TypeMX
  | SOAData _ _ _ _ _ _ _ => TypeSOA
  | TXTData _ => TypeTXT
  | SRVData _ _ _ _ => TypeSRV
  | CAAData _ _ _ => TypeCAA
  | RRSIGData _ _ _ _ _ _ _ _ _ => TypeRRSIG
  | DNSKEYData _ _ _ _ => TypeDNSKEY
  | DSData _ _ _ _ => TypeDS
  | NSECData _ _ => TypeNSEC
  | NSEC3Data _ _ _ _ _ _ => TypeNSEC3
  | OPTData _ _ _ _ _ => TypeOPT
  | UnknownData t _ => t
  end.

(** [Data] is [None] for a nil interface; a nil and an empty [RawRData] are
    the same byte sequence. *)
Record ResourceRecord := mkRR {
  rr_Name : bytes; rr_Type : Z; rr_Class : Z; rr_TTL : Z;
  rr_Data : option RData; rr_RawRData : bytes
}.

Record Message := mkMessage {
  m_Header : Header;
  m_Questions : list Question;
  m_Answers : list ResourceRecord;
  m_Authorities : list ResourceRecord;
  m_Additionals : list ResourceRecord
}.

Definition NormalizeCounts (m : Message) : result error Message :=
  if (65535 <? len (m_Questions m)) || (65535 <? len (m_Answers m))
     || (65535 <? len (m_Authorities m)) || (65535 <? len (m_Additionals m))
  then Err ErrSectionTooLarge
  else Ok {|
    m_Header := set_counts (m_Header m)
      (u16 (len (m_Questions m))) (u16 (len (m_Answers m)))
      (u16 (len (m_Authorities m))) (u16 (len (m_Additionals m)));
    m_Questions := m_Questions m;
    m_Answers := m_Answers m;
    m_Authorities := m_Authorities m;
    m_Additionals := m_Additionals m |}.

#[export] Instance Header_eq_dec : EqDecision Header.
Proof. solve_decision. Defined.
#[export] Instance Question_eq_dec : EqDecision Question.
Proof. solve_decision. Defined.
#[export] Instance RData_eq_dec : EqDecision RData.
Proof. solve_decision. Defined.
#[export] Instance ResourceRecord_eq_dec : EqDecision ResourceRecord.
Proof. solve_decision. Defined.
#[export] Instance Message_eq_dec : EqDecision Message.
Proof. solve_decision. Defined.

(** ** The header codec *)

Definition is_u8 (z : Z) : Prop := 0 <= z < 2 ^ 8.
Definition is_u16 (z : Z) : Prop := 0 <= z < 2 ^ 16.
Definition is_u32 (z : Z) : Prop := 0 <= z < 2 ^ 32.

(** The values a [Header] can put on the wire: 16-bit identifier and counts,
    4-bit opcode and response code, 3-bit [Z]. *)
Definition Header_wf (h : Header) : Prop :=
  is_u16 (h_ID h) /\ 0 <= h_Opcode h < 16 /\ 0 <= h_Z h < 8 /\ 0 <= h_RCode h < 16
  /\ is_u16 (h_QuestionCount h) /\ is_u16 (h_AnswerCount h)
  /\ is_u16 (h_AuthorityCount h) /\ is_u16 (h_AdditionalCount h).

(** The header that [Header_decode] builds from its six words. *)
Definition header_of_words (id flags qd an ns ar : Z) : Header :=
  {| h_ID := id;
     h_QR := negb (Z.land flags 0x8000 =? 0);
     h_Opcode := Z.land (Z.shiftr flags 11) 0x0F;
     h_AA := negb (Z.land flags 0x0400 =? 0);
     h_TC := negb (Z.land flags 0x0200 =? 0);
     h_RD := negb (Z.land flags 0x0100 =? 0);
     h_RA := negb (Z.land flags 0x0080 =? 0);
     h_Z := Z.land (Z.shiftr flags 4) 0x07;
     h_RCode := Z.land flags 0x000F;
     h_QuestionCount := qd; h_AnswerCount := an;
     h_AuthorityCount := ns; h_AdditionalCount := ar |}.

Lemma Uint16_at_app pre v suf a b :
  a = len pre -> b = a + 2 -> Uint16_at (pre ++ PutUint16 v ++ suf) a b = Ok (u16 v).
Proof.
  intros -> ->. unfold Uint16_at.
  rewrite slice_app_at by done. cbn [mbind result_bind]. apply Uint16_PutUint16.
Qed.

Lemma Uint32_at_app pre v suf a b :
  a = len pre -> b = a + 4 -> Uint32_at (pre ++ PutUint32 v ++ suf) a b = Ok (u32 v).
Proof.
  intros -> ->. unfold Uint32_at.
  rewrite slice_app_at by done. cbn [mbind result_bind]. apply Uint32_PutUint32.
Qed.

Lemma safe_Uint16_at data a b : 0 <= a -> b = a + 2 -> b <= len data -> safe (Uint16_at data a b).
Proof.
  intros Ha -> Hb. unfold Uint16_at. rewrite slice_ok by lia.
  apply safe_Uint16. rewrite len_sub by lia. lia.
Qed.

Lemma safe_Uint32_at data a b : 0 <= a -> b = a + 4 -> b <= len data -> safe (Uint32_at data a b).
Proof.
  intros Ha -> Hb. unfold Uint32_at. rewrite slice_ok by lia.
  apply safe_Uint32. rewrite len_sub by lia. lia.
Qed.

Lemma Uint16_at_range data a b v : Uint16_at data a b = Ok v -> is_u16 v.
Proof. unfold Uint16_at. intros H. inv_bind H. by apply Uint16_range in H. Qed.
Lemma Uint32_at_range data a b v : Uint32_at data a b = Ok v -> is_u32 v.
Proof. unfold Uint32_at. intros H. inv_bind H. by apply Uint32_range in H. Qed.

Lemma len_words ws : len (flat_map PutUint16 ws) = 2 * len ws.
Proof. induction ws as [|w ws IH]; [done|]. cbn [flat_map]. rewrite len_app, IH. len_lia. Qed.

Lemma Uint16_at_words ws suf i v a b :
  ws !! i = Some v -> a = 2 * Z.of_nat i -> b = a + 2 ->
  Uint16_at (flat_map PutUint16 ws ++ suf) a b = Ok (u16 v).
Proof.
  intros Hv -> ->. rewrite <- (take_drop_middle ws i v Hv).
  rewrite flat_map_app. cbn [flat_map]. rewrite <- !app_assoc.
  apply Uint16_at_app; [|done].
  rewrite len_words. unfold len. apply lookup_lt_Some in Hv. rewrite length_take. lia.
Qed.

Lemma Header_decode_words id flags qd an ns ar suf :
  Header_decode (PutUint16 id ++ PutUint16 flags ++ PutUint16 qd ++ PutUint16 an
                 ++ PutUint16 ns ++ PutUint16 ar ++ suf)
  = Ok (header_of_words (u16 id) (u16 flags) (u16 qd) (u16 an) (u16 ns) (u16 ar)).
Proof.
  unfold Header_decode. bcase; [exfalso; unfold HeaderSize in Hb; len_lia|]. clear Hb.
  change (PutUint16 id ++ _) with (flat_map PutUint16 [id; flags; qd; an; ns; ar] ++ suf).
  rewrite (Uint16_at_words _ suf 0 id 0), (Uint16_at_words _ suf 1 flags 2),
    (Uint16_at_words _ suf 2 qd 4), (Uint16_at_words _ suf 3 an 6),
    (Uint16_at_words _ suf 4 ns 8), (Uint16_at_words _ suf 5 ar 10) by done.
  done.
Qed.

(** The flags word is checked exhaustively, in both directions. *)
Definition flags_header (qr aa tc rd ra : bool) (op z rc : Z) : Header :=
  mkHeader 0 qr op aa tc rd ra z rc 0 0 0 0.

Lemma flags_roundtrip_checked :
  forallb (fun a => forallb (fun b =>
    Header_flags (header_of_words 0 (256 * a + b) 0 0 0 0) =? 256 * a + b)
  (seqZ 0 256)) (seqZ 0 256) = true.
Proof. vm_compute. reflexivity. Qed.

Definition flags_header_ok (qr aa tc rd ra : bool) (op z rc : Z) : bool :=
  let h := flags_header qr aa tc rd ra op z rc in
  (0 <=? Header_flags h) && (Header_flags h <? 65536)
  && bool_decide (header_of_words 0 (Header_flags h) 0 0 0 0 = h).

Lemma header_roundtrip_checked :
  forallb (fun qr => forallb (fun aa => forallb (fun tc => forallb (fun rd => forallb (fun ra =>
  forallb (fun op => forallb (fun z => forallb (fun rc => flags_header_ok qr aa tc rd ra op z rc)
  (seqZ 0 16)) (seqZ 0 8)) (seqZ 0 16))
  [true; false]) [true; false]) [true; false]) [true; false]) [true; false] = true.
Proof. vm_compute. reflexivity. Qed.

Lemma flags_of_words f :
  is_u16 f -> Header_flags (header_of_words 0 f 0 0 0 0) = f.
Proof.
  intros Hf. pose proof flags_roundtrip_checked as Hc.
  rewrite forallb_forall in Hc.
  specialize (Hc (f / 256)). rewrite <- list_elem_of_In, elem_of_seqZ, forallb_forall in Hc.
  unfold is_u16 in Hf. specialize (Hc ltac:(dlia) (f mod 256)).
  rewrite <- list_elem_of_In, elem_of_seqZ, Z.eqb_eq in Hc.
  rewrite (Z.div_mod f 256) by lia. apply Hc. dlia.
Qed.

Lemma In_bools b : In b [true; false].
Proof. destruct b; cbn; auto. Qed.

Lemma words_of_flags qr aa tc rd ra op z rc :
  0 <= op < 16 -> 0 <= z < 8 -> 0 <= rc < 16 ->
  let h := flags_header qr aa tc rd ra op z rc in
  is_u16 (Header_flags h) /\ header_of_words 0 (Header_flags h) 0 0 0 0 = h.
Proof.
  intros Hop Hz Hrc h.
  pose proof header_roundtrip_checked as Hc.
  rewrite forallb_forall in Hc; specialize (Hc qr (In_bools qr)).
  rewrite forallb_forall in Hc; specialize (Hc aa (In_bools aa)).
  rewrite forallb_forall in Hc; specialize (Hc tc (In_bools tc)).
  rewrite forallb_forall in Hc; specialize (Hc rd (In_bools rd)).
  rewrite forallb_forall in Hc; specialize (Hc ra (In_bools ra)).
  rewrite forallb_forall in Hc; specialize (Hc op).
  rewrite <- list_elem_of_In, elem_of_seqZ, forallb_forall in Hc.
  specialize (Hc ltac:(lia) z).
  rewrite <- list_elem_of_In, elem_of_seqZ, forallb_forall in Hc.
  specialize (Hc ltac:(lia) rc).
  rewrite <- list_elem_of_In, elem_of_seqZ in Hc. specialize (Hc ltac:(lia)).
  unfold flags_header_ok in Hc. rewrite !andb_true_iff, bool_decide_eq_true in Hc.
  destruct Hc as [[H1 H2] H3]. split; [|done].
  unfold is_u16. subst h. lia.
Qed.

Lemma Header_decode_app h suf :
  Header_wf h -> Header_decode (Header_encode h ++ suf) = Ok h.
Proof.
  intros (Hid & Hop & Hz & Hrc & Hqd & Han & Hns & Har).
  unfold Header_encode. rewrite <- !app_assoc, Header_decode_words.
  destruct h as [id qr op aa tc rd ra z rc qd an ns ar]; cbn in *.
  destruct (words_of_flags qr aa tc rd ra op z rc Hop Hz Hrc) as [Hr Hw].
  change (Header_flags (mkHeader id qr op aa tc rd ra z rc qd an ns ar))
    with (Header_flags (flags_header qr aa tc rd ra op z rc)).
  rewrite !u16_small by done. unfold header_of_words in *.
  by injection Hw as -> -> -> -> -> -> -> ->.
Qed.

(** Decoding the twelve bytes a well-formed header encodes to gives the
    header back, whatever follows them in the packet. *)
Theorem header_decode_encode h suf :
  Header_wf h -> Header_decode (Header_encode h ++ suf) = Ok h.
Proof. apply Header_decode_app. Qed.

Lemma header_decode_encode_witness :
  let h := mkHeader 4660 true 2 true false true true 5 3 1 2 3 4 in
  Header_wf h /\ Header_decode (Header_encode h ++ "rest") = Ok h.
Proof.
  split; [unfold Header_wf, is_u16; cbn; lia|].
  apply (header_decode_encode _ "rest"). unfold Header_wf, is_u16; cbn; lia.
Defined.

(** Encoding a decoded header restores the twelve bytes it was read from:
    no header bit is lost or invented. *)
Theorem header_encode_decode data h :
  Header_decode data = Ok h -> Header_encode h = take 12 data.
Proof.
  intros H. assert (12 <= len data) as Hlen.
  { unfold Header_decode, HeaderSize in H. bcase_in H; [done|lia]. }
  destruct data as [|b0 [|b1 [|b2 [|b3 [|b4 [|b5 [|b6 [|b7 [|b8 [|b9 [|b10 [|b11 k]]]]]]]]]]]];
    try (unfold len in Hlen; cbn [length] in Hlen; lia).
  assert (forall a b : byte, exists v, is_u16 v /\ [a; b] = PutUint16 v) as Hw.
  { intros a b. exists (256 * Z_of_byte a + Z_of_byte b).
    pose proof (Z_of_byte_range a). pose proof (Z_of_byte_range b).
    split; [unfold is_u16; lia|]. unfold PutUint16.
    f_equal; [|f_equal]; apply Z_of_byte_inj; rewrite Z_of_byte_of_Z;
      rewrite ?Z.shiftr_div_pow2 by lia; change (2 ^ 8) with 256; dlia. }
  destruct (Hw b0 b1) as (id & Hid & E1), (Hw b2 b3) as (fl & Hfl & E2),
    (Hw b4 b5) as (qd & Hqd & E3), (Hw b6 b7) as (an & Han & E4),
    (Hw b8 b9) as (ns & Hns & E5), (Hw b10 b11) as (ar & Har & E6).
  match goal with |- _ = ?t => change t with ([b0; b1] ++ [b2; b3] ++ [b4; b5] ++ [b6; b7] ++ [b8; b9] ++ [b10; b11]) end.
  match type of H with Header_decode ?t = _ => change t with
    ([b0; b1] ++ [b2; b3] ++ [b4; b5] ++ [b6; b7] ++ [b8; b9] ++ [b10; b11] ++ k) in H end.
  revert H.
  rewrite E1, E2, E3, E4, E5, E6, Header_decode_words, !u16_small by done.
  intros [= <-]. unfold Header_encode. cbn [h_ID header_of_words].
  change (Header_flags _) with (Header_flags (header_of_words 0 fl 0 0 0 0)).
  by rewrite flags_of_words.
Qed.

Lemma header_encode_decode_witness :
  let data := [byte_of_Z 18; byte_of_Z 52; byte_of_Z 129; byte_of_Z 131; byte_of_Z 0;
               byte_of_Z 1; byte_of_Z 0; byte_of_Z 0; byte_of_Z 0; byte_of_Z 1;
               byte_of_Z 0; byte_of_Z 0; byte_of_Z 7] in
  exists h, Header_decode data = Ok h /\ h_RCode h = RCodeNameError
            /\ Header_encode h = take 12 data.
Proof.
  eexists. split; [vm_compute; reflexivity|]. split; [reflexivity|].
  apply header_encode_decode. vm_compute. reflexivity.
Defined.

Lemma post_Uint16_at data a b :
  0 <= a -> b = a + 2 -> b <= len data -> post is_u16 (Uint16_at data a b).
Proof.
  intros Ha Hb Hl. pose proof (safe_Uint16_at data a b Ha Hb Hl).
  destruct (Uint16_at data a b) eqn:E; try done. by apply Uint16_at_range in E.
Qed.
Lemma post_Uint32_at data a b :
  0 <= a -> b = a + 4 -> b <= len data -> post is_u32 (Uint32_at data a b).
Proof.
  intros Ha Hb Hl. pose proof (safe_Uint32_at data a b Ha Hb Hl).
  destruct (Uint32_at data a b) eqn:E; try done. by apply Uint32_at_range in E.
Qed.
