(* ===== verification/Decoder.v ===== *)
(** * internal/protocol/decoder.go and the parser of rdata.go

    The decoder reads an arbitrary packet.  Every index and slice goes through
    the bounds-checked operations of [Prelude], so [safe] states that the code
    neither panics nor loops, for any input. *)

From S2P Require Import Prelude.
From S2P Require Import GoStrings.
From S2P Require Import Protocol.

#[local] Open Scope go_scope.

(** ** Names *)

(** The loop of [joinLabels]: the labels separated by dots. *)
Fixpoint concatLabels (i : Z) (name : bytes) (labels : list bytes) : bytes :=
  match labels with
  | [] => name
  | lbl :: rest =>
      let name := if 0 <? i then name ++ "." else name in
      concatLabels (i + 1) (name ++ lbl) rest
  end.

(** [total]: one for the root plus a length byte and the bytes of each label. *)
Definition labelsTotal (labels : list bytes) : Z :=
  foldl (fun total lbl => total + (len lbl + 1)) 1 labels.

Definition joinLabels (labels : list bytes) : result error bytes :=
  if len labels =? 0 then Ok "." else
  let total := labelsTotal labels in
  if MaxNameLength <? total then Err (ErrNameTooLong total)
  else Ok (concatLabels 0 "" labels ++ ".").

(** The variables of the loop of [decodeName]; [n_next] is -1 until the end of
    the name in place is known. *)
Record nameState := mkNameState {
  n_labels : list bytes;
  n_visited : gset Z;
  n_curr : Z;
  n_next : Z;
  n_jumps : Z
}.

(** One iteration: [inl] goes on, [inr] returns. *)
Definition decodeName_step (data : bytes) (st : nameState)
  : result error (nameState + bytes * Z) :=
  let curr := n_curr st in
  if len data <=? curr then Err ErrNameTruncated else
  b ← index data curr;
  let b := Z_of_byte b in
  if Z.land b 0xC0 =? 0xC0 then
    if len data <=? curr + 1 then Err ErrPointerTruncated else
    w ← Uint16_at data curr (curr + 2);
    let ptr := Z.land w 0x3FFF in
    if len data <=? ptr then Err (ErrPointerOffset ptr) else
    if bool_decide (ptr ∈ n_visited st) then Err ErrPointerLoop else
    let jumps := n_jumps st + 1 in
    if MaxLabels <? jumps then Err ErrTooManyJumps else
    Ok (inl {| n_labels := n_labels st;
               n_visited := {[ptr]} ∪ n_visited st;
               n_curr := ptr;
               n_next := if n_next st =? -1 then curr + 2 else n_next st;
               n_jumps := jumps |})
  else if Z.land b 0xC0 =? 0x00 then
    if b =? 0 then
      name ← joinLabels (n_labels st);
      Ok (inr (name, if n_next st =? -1 then curr + 1 else n_next st))
    else
    let labelLen := b in
    if MaxLabelLength <? labelLen then Err (ErrLabelTooLong labelLen) else
    if labelLen =? 0 then
      name ← joinLabels (n_labels st);
      Ok (inr (name, if n_next st =? -1 then curr + 1 else n_next st))
    else
    let curr := curr + 1 in
    if len data <? curr + labelLen then Err ErrLabelTruncated else
    lbl ← slice data curr (curr + labelLen);
    let labels := n_labels st ++ [lbl] in
    if MaxLabels <? len labels then Err ErrTooManyLabels else
    Ok (inl {| n_labels := labels;
               n_visited := n_visited st;
               n_curr := curr + labelLen;
               n_next := n_next st;
               n_jumps := n_jumps st |})
  else Err (ErrLabelPrefix b).

Fixpoint decodeName_loop (fuel : nat) (data : bytes) (st : nameState)
  : result error (bytes * Z) :=
  match fuel with
  | O => Fuel
  | S fuel' =>
      r ← decodeName_step data st;
      match r with
      | inl st' => decodeName_loop fuel' data st'
      | inr ret => Ok ret
      end
  end.

(** 127 labels, 127 jumps and the final byte. *)
Definition name_fuel : nat := 255.

Definition decodeName (data : bytes) (off : Z) : result error (bytes * Z) :=
  if len data <=? off then Err (ErrNameOffset off) else
  decodeName_loop name_fuel data
    {| n_labels := []; n_visited := ∅; n_curr := off; n_next := -1; n_jumps := 0 |}.

(** ** RDATA *)

Fixpoint parseTXT_loop (fuel : nat) (packet : bytes) (cur rdEnd : Z) (texts : list bytes)
  : result error (list bytes) :=
  match fuel with
  | O => Fuel
  | S fuel' =>
      if cur <? rdEnd then
        b ← index packet cur;
        let sz := Z_of_byte b in
        let cur := cur + 1 in
        if rdEnd <? cur + sz then Err (ErrRDataField TypeTXT) else
        s ← slice packet cur (cur + sz);
        parseTXT_loop fuel' packet (cur + sz) rdEnd (texts ++ [s])
      else Ok texts
  end.

(** The cases of the switch from RRSIG on. *)
Definition parse_signed (packet : bytes) (off rdLen rrType : Z) : result error RData :=
  let rdEnd := off + rdLen in
  if rrType =? TypeRRSIG then
    if rdLen <? 18 then Err (ErrRDataShort TypeRRSIG) else
    typeCovered ← Uint16_at packet off (off + 2);
    algo ← index packet (off + 2);
    labels ← index packet (off + 3);
    origTTL ← Uint32_at packet (off + 4) (off + 8);
    exp ← Uint32_at packet (off + 8) (off + 12);
    inc ← Uint32_at packet (off + 12) (off + 16);
    keyTag ← Uint16_at packet (off + 16) (off + 18);
    '(signer, next) ← decodeName packet (off + 18);
    if rdEnd <? next then Err (ErrRDataField TypeRRSIG) else
    sig ← slice packet next rdEnd;
    Ok (RRSIGData typeCovered (Z_of_byte algo) (Z_of_byte labels) origTTL exp inc keyTag
          signer sig)
  else if rrType =? TypeDNSKEY then
    if rdLen <? 4 then Err (ErrRDataShort TypeDNSKEY) else
    flags ← Uint16_at packet off (off + 2);
    proto ← index packet (off + 2);
    algo ← index packet (off + 3);
    key ← slice packet (off + 4) rdEnd;
    Ok (DNSKEYData flags (Z_of_byte proto) (Z_of_byte algo) key)
  else if rrType =? TypeDS then
    if rdLen <? 4 then Err (ErrRDataShort TypeDS) else
    keyTag ← Uint16_at packet off (off + 2);
    algo ← index packet (off + 2);
    digestType ← index packet (off + 3);
    digest ← slice packet (off + 4) rdEnd;
    Ok (DSData keyTag (Z_of_byte algo) (Z_of_byte digestType) digest)
  else if rrType =? TypeNSEC then
    '(nextDomain, next) ← decodeName packet off;
    if rdEnd <? next then Err (ErrRDataField TypeNSEC) else
    bitmap ← slice packet next rdEnd;
    Ok (NSECData nextDomain bitmap)
  else if rrType =? TypeNSEC3 then
    if rdLen <? 5 then Err (ErrRDataShort TypeNSEC3) else
    let cur := off in
    hashAlgo ← index packet cur;
    let cur := cur + 1 in
    flags ← index packet cur;
    let cur := cur + 1 in
    iterations ← Uint16_at packet cur (cur + 2);
    let cur := cur + 2 in
    saltLen ← index packet cur;
    let saltLen := Z_of_byte saltLen in
    let cur := cur + 1 in
    if rdEnd <? cur + saltLen then Err (ErrRDataField TypeNSEC3) else
    salt ← slice packet cur (cur + saltLen);
    let cur := cur + saltLen in
    if rdEnd <=? cur then Err (ErrRDataField TypeNSEC3) else
    hashLen ← index packet cur;
    let hashLen := Z_of_byte hashLen in
    let cur := cur + 1 in
    if rdEnd <? cur + hashLen then Err (ErrRDataField TypeNSEC3) else
    nextHash ← slice packet cur (cur + hashLen);
    let cur := cur + hashLen in
    bitmap ← slice packet cur rdEnd;
    Ok (NSEC3Data (Z_of_byte hashAlgo) (Z_of_byte flags) iterations salt nextHash bitmap)
  else
    data ← slice packet off rdEnd;
    Ok (UnknownData rrType data).

Definition parseRData (packet : bytes) (off rdLen rrType : Z) : result error RData :=
  if (off <? 0) || (rdLen <? 0) || (len packet <? off + rdLen) then Err ErrRDataBounds else
  let rdEnd := off + rdLen in
  if rrType =? TypeA then
    if negb (rdLen =? 4) then Err (ErrRDataLen TypeA rdLen) else
    ip ← slice packet off rdEnd;
    Ok (AData ip)
  else if rrType =? TypeAAAA then
    if negb (rdLen =? 16) then Err (ErrRDataLen TypeAAAA rdLen) else
    ip ← slice packet off rdEnd;
    Ok (AAAAData ip)
  else if rrType =? TypeCNAME then
    '(name, next) ← decodeName packet off;
    if rdEnd <? next then Err (ErrRDataField TypeCNAME) else
    Ok (CNAMEData name)
  else if rrType =? TypeNS then
    '(name, _) ← decodeName packet off;
    Ok (NSData name)
  else if rrType =? TypePTR then
    '(name, _) ← decodeName packet off;
    Ok (PTRData name)
  else if rrType =? TypeMX then
    if rdLen <? 3 then Err (ErrRDataShort TypeMX) else
    pref ← Uint16_at packet off (off + 2);
    '(exchange, _) ← decodeName packet (off + 2);
    Ok (MXData pref exchange)
  else if rrType =? TypeSOA then
    '(mname, next) ← decodeName packet off;
    '(rname, next2) ← decodeName packet next;
    if rdEnd <? next2 + 20 then Err (ErrRDataField TypeSOA) else
    serial ← Uint32_at packet next2 (next2 + 4);
    refresh ← Uint32_at packet (next2 + 4) (next2 + 8);
    retry ← Uint32_at packet (next2 + 8) (next2 + 12);
    expire ← Uint32_at packet (next2 + 12) (next2 + 16);
    minimum ← Uint32_at packet (next2 + 16) (next2 + 20);
    Ok (SOAData mname rname serial refresh retry expire minimum)
  else if rrType =? TypeTXT then
    texts ← parseTXT_loop (S (Z.to_nat rdLen)) packet off rdEnd [];
    Ok (TXTData texts)
  else if rrType =? TypeSRV then
    if rdLen <? 7 then Err (ErrRDataShort TypeSRV) else
    prio ← Uint16_at packet off (off + 2);
    weight ← Uint16_at packet (off + 2) (off + 4);
    port ← Uint16_at packet (off + 4) (off + 6);
    '(target, _) ← decodeName packet (off + 6);
    Ok (SRVData prio weight port target)
  else if rrType =? TypeCAA then
    if rdLen <? 2 then Err (ErrRDataShort TypeCAA) else
    flags ← index packet off;
    b ← index packet (off + 1);
    let tagLen := Z_of_byte b in
    if rdEnd <? off + 2 + tagLen then Err (ErrRDataField TypeCAA) else
    tag ← slice packet (off + 2) (off + 2 + tagLen);
    val ← slice packet (off + 2 + tagLen) rdEnd;
    Ok (CAAData (Z_of_byte flags) tag val)
  else parse_signed packet off rdLen rrType.

(** ** Questions, records and whole packets *)

Definition decodeQuestion (data : bytes) (off : Z) : result error (Question * Z) :=
  '(name, next) ← decodeName data off;
  if len data <? next + 4 then Err ErrQuestionTruncated else
  typ ← Uint16_at data next (next + 2);
  class ← Uint16_at data (next + 2) (next + 4);
  Ok (mkQuestion name typ class, next + 4).

Definition decodeResourceRecord (data : bytes) (off : Z) : result error (ResourceRecord * Z) :=
  '(name, next) ← decodeName data off;
  if len data <? next + 10 then Err ErrRRHeaderTruncated else
  typ ← Uint16_at data next (next + 2);
  class ← Uint16_at data (next + 2) (next + 4);
  ttl ← Uint32_at data (next + 4) (next + 8);
  rdLen ← Uint16_at data (next + 8) (next + 10);
  let rdStart := next + 10 in
  let rdEnd := rdStart + rdLen in
  if len data <? rdEnd then Err ErrRDataTruncated else
  raw ← slice data rdStart rdEnd;
  if typ =? TypeOPT then
    Ok (mkRR name typ class ttl
          (Some (OPTData class (Z.land (Z.shiftr ttl 24) 0xFF)
                   (Z.land (Z.shiftr ttl 16) 0xFF) (Z.land ttl 0xFFFF) raw))
          raw, rdEnd)
  else
  (* an error of parseRData leaves Data nil *)
  match parseRData data rdStart rdLen typ with
  | Ok rdata => Ok (mkRR name typ class ttl (Some rdata) raw, rdEnd)
  | Err _ => Ok (mkRR name typ class ttl None raw, rdEnd)
  | Panic => Panic
  | Fuel => Fuel
  end.

(** [for i := 0; i < int(count); i++], appending to the section. *)
Fixpoint decode_section {A} (item : bytes -> Z -> result error (A * Z))
    (wrap : Z -> error -> error) (data : bytes) (n : nat) (i off : Z) (acc : list A)
  : result error (list A * Z) :=
  match n with
  | O => Ok (acc, off)
  | S n' =>
      '(x, next) ← map_err (wrap i) (item data off);
      decode_section item wrap data n' (i + 1) next (acc ++ [x])
  end.

Definition Decode (packet : bytes) : result error Message :=
  if len packet <? HeaderSize then Err (ErrPacketTooSmall (len packet)) else
  if MaxDNSPacketLen <? len packet then Err (ErrPacketTooLarge (len packet)) else
  hdr ← slice packet 0 HeaderSize;
  h ← Header_decode hdr;
  let off := HeaderSize in
  '(qs, off) ← decode_section decodeQuestion ErrDecodeQuestion packet
                 (Z.to_nat (h_QuestionCount h)) 0 off [];
  '(an, off) ← decode_section decodeResourceRecord ErrDecodeAnswer packet
                 (Z.to_nat (h_AnswerCount h)) 0 off [];
  '(ns, off) ← decode_section decodeResourceRecord ErrDecodeAuthority packet
                 (Z.to_nat (h_AuthorityCount h)) 0 off [];
  '(ar, off) ← decode_section decodeResourceRecord ErrDecodeAdditional packet
                 (Z.to_nat (h_AdditionalCount h)) 0 off [];
  if len packet <? off then Err (ErrDecodeOverflow off (len packet)) else
  Ok (mkMessage h qs an ns ar).

(** ** What a decoded name looks like *)

(** A name in presentation form: each label followed by a dot. *)
Definition render (labels : list bytes) : bytes :=
  match labels with [] => "." | _ => Join labels "." ++ "." end.

Definition label_ok (l : bytes) : Prop := 1 <= len l <= MaxLabelLength.

Definition labels_ok (ls : list bytes) : Prop :=
  Forall label_ok ls /\ len ls <= MaxLabels /\ labelsTotal ls <= MaxNameLength.

Definition decoded_name (name : bytes) : Prop :=
  exists ls, labels_ok ls /\ name = render ls.

Lemma concatLabels_app i name ls :
  0 < i -> concatLabels i name ls = name ++ flat_map (fun l => "." ++ l) ls.
Proof.
  revert i name. induction ls as [|l ls IH]; intros i name Hi; cbn [concatLabels flat_map].
  { by rewrite app_nil_r. }
  bcase; [|lia]. rewrite IH by lia. by rewrite <- !app_assoc.
Qed.

Lemma Join_flat_map l ls : Join (l :: ls) "." = l ++ flat_map (fun l => "." ++ l) ls.
Proof.
  revert l. induction ls as [|k ls IH]; intros l.
  { cbn. by rewrite app_nil_r. }
  rewrite Join_cons by done. by rewrite IH.
Qed.

Lemma concatLabels_Join ls : concatLabels 0 "" ls = Join ls ".".
Proof.
  destruct ls as [|l ls]; [done|]. cbn [concatLabels].
  rewrite concatLabels_app by done. by rewrite Join_flat_map.
Qed.

Lemma labelsTotal_foldl a ls :
  foldl (fun total lbl => total + (len lbl + 1)) a ls = a - 1 + labelsTotal ls.
Proof.
  unfold labelsTotal. revert a. induction ls as [|k ls IH]; intros a; cbn [foldl]; [lia|].
  rewrite IH, (IH (1 + _)). lia.
Qed.

Lemma labelsTotal_cons l ls : labelsTotal (l :: ls) = len l + 1 + labelsTotal ls.
Proof. unfold labelsTotal at 1. cbn [foldl]. rewrite labelsTotal_foldl. lia. Qed.

Lemma labelsTotal_pos ls : 1 <= labelsTotal ls.
Proof. induction ls; [done|]. rewrite labelsTotal_cons. len_lia. Qed.

Lemma joinLabels_render ls :
  labelsTotal ls <= MaxNameLength -> joinLabels ls = Ok (render ls).
Proof.
  intros H. unfold joinLabels. destruct ls as [|l ls]; [done|].
  bcase; [len_lia|]. bcase; [lia|]. by rewrite concatLabels_Join.
Qed.

Lemma joinLabels_post ls :
  Forall label_ok ls -> len ls <= MaxLabels ->
  post decoded_name (joinLabels ls).
Proof.
  intros Hl Hn. unfold joinLabels. bcase.
  - exists []. split; [split; [constructor|done]|done].
  - bcase; [done|]. exists ls. split; [split; [done|split; [done|lia]]|].
    rewrite concatLabels_Join. destruct ls; [done|]. done.
Qed.

Lemma len_render ls : ls <> [] -> len (render ls) = labelsTotal ls - 1.
Proof.
  intros H. assert (forall l ks, len (Join (l :: ks) ".") = labelsTotal (l :: ks) - 2) as HJ.
  { intros l ks. revert l. induction ks as [|k ks IH]; intros l.
    - rewrite labelsTotal_cons. cbn. unfold labelsTotal. cbn. lia.
    - rewrite Join_cons, labelsTotal_cons, len_app, len_app, IH by done.
      rewrite len_cons, len_nil. lia. }
  destruct ls as [|l ks]; [done|]. unfold render. rewrite len_app, HJ. len_lia.
Qed.

Lemma decoded_name_len name : decoded_name name -> 1 <= len name <= 254.
Proof.
  intros (ls & (Hl & _ & Ht) & ->). destruct ls as [|l ls]; [done|].
  rewrite len_render by done. unfold MaxNameLength in Ht.
  rewrite labelsTotal_cons in *. pose proof (labelsTotal_pos ls).
  apply Forall_cons in Hl as [Hl _]. unfold label_ok in Hl. lia.
Qed.

(** ** The name loop terminates, stays in bounds and makes progress *)

Record name_inv (data : bytes) (off : Z) (st : nameState) : Prop := {
  ni_curr : 0 <= n_curr st;
  ni_labels : Forall label_ok (n_labels st);
  ni_count : len (n_labels st) <= MaxLabels;
  ni_jumps : 0 <= n_jumps st <= MaxLabels;
  ni_next : (n_next st = -1 /\ off <= n_curr st)
            \/ (off < n_next st /\ n_next st <= len data)
}.

(** Grows by one with every iteration. *)
Definition name_measure (st : nameState) : Z := len (n_labels st) + n_jumps st.

Definition name_post (data : bytes) (off : Z) (ret : bytes * Z) : Prop :=
  decoded_name ret.1 /\ off < ret.2 <= len data.

Lemma decodeName_step_post data off st :
  0 <= off -> name_inv data off st ->
  post (fun r => match r with
        | inl st' => name_inv data off st' /\ name_measure st' = name_measure st + 1
        | inr ret => name_post data off ret
        end) (decodeName_step data st).
Proof.
  intros Hoff [Hc Hl Hn Hj Hx]. unfold decodeName_step. post_if.
  eapply post_bind; [apply post_index; lia|]. intros b _.
  pose proof (Z_of_byte_range b). post_if.
  - post_if. eapply post_bind; [apply post_Uint16_at; lia|]. intros w _.
    post_if. bcase; [exact I|]. post_if. cbn.
    assert (0 <= Z.land w 0x3FFF) by (apply Z.land_nonneg; by right).
    split; [|unfold name_measure; cbn; lia].
    constructor; cbn; [done..|lia|]. bcase; lia.
  - assert (forall nx, nx = (if n_next st =? -1 then n_curr st + 1 else n_next st) ->
      post (fun r => match r with
        | inl st' => name_inv data off st' /\ name_measure st' = name_measure st + 1
        | inr ret => name_post data off ret end)
        (name ← joinLabels (n_labels st); Ok (inr (name, nx)))) as Hret.
    { intros nx ->. eapply post_bind; [by apply joinLabels_post|]. intros name Hname.
      split; [done|]. cbn. bcase; lia. }
    post_if. bcase; [by apply Hret|]. post_if. post_if. eapply post_bind; [apply post_slice; lia|]. intros lbl [_ Hlen].
    post_if. cbn. split; [|unfold name_measure; cbn; len_lia].
    constructor; cbn; [lia| |lia|lia|lia].
    apply Forall_app. split; [done|]. constructor; [|done]. unfold label_ok. lia.
Qed.

Lemma decodeName_loop_post data off st fuel :
  0 <= off -> name_inv data off st -> 255 <= name_measure st + Z.of_nat fuel ->
  post (name_post data off) (decodeName_loop fuel data st).
Proof.
  revert st. induction fuel as [|fuel IH]; intros st Hoff Hinv Hm.
  { exfalso. destruct Hinv. unfold name_measure, MaxLabels in *. lia. }
  cbn [decodeName_loop]. eapply post_bind; [by apply decodeName_step_post|].
  intros [st'|ret]; [|done]. intros [Hinv' Hm']. apply IH; [done..|lia].
Qed.

Lemma decodeName_post data off :
  0 <= off -> post (name_post data off) (decodeName data off).
Proof.
  intros Hoff. unfold decodeName. post_if. apply decodeName_loop_post; [done| |done].
  constructor; cbn; [done|constructor|done|done|]. left. split; [done|lia].
Qed.

(** ** Decoded data is well formed *)

Definition rdata_wf (d : RData) : Prop :=
  match d with
  | AData ip => len ip = 4
  | AAAAData ip => len ip = 16
  | CNAMEData n | NSData n | PTRData n => decoded_name n
  | MXData p n => is_u16 p /\ decoded_name n
  | SOAData m r s f t e u =>
      decoded_name m /\ decoded_name r
      /\ is_u32 s /\ is_u32 f /\ is_u32 t /\ is_u32 e /\ is_u32 u
  | TXTData ts => Forall (fun s => len s <= 255) ts
  | SRVData p w q n => is_u16 p /\ is_u16 w /\ is_u16 q /\ decoded_name n
  | CAAData f t _ => is_u8 f /\ len t <= 255
  | RRSIGData c a l o e i k n _ =>
      is_u16 c /\ is_u8 a /\ is_u8 l /\ is_u32 o /\ is_u32 e /\ is_u32 i /\ is_u16 k
      /\ decoded_name n
  | DNSKEYData f p a _ => is_u16 f /\ is_u8 p /\ is_u8 a
  | DSData k a t _ => is_u16 k /\ is_u8 a /\ is_u8 t
  | NSECData n _ => decoded_name n
  | NSEC3Data h f i s x _ => is_u8 h /\ is_u8 f /\ is_u16 i /\ len s <= 255 /\ len x <= 255
  | OPTData u e v f _ => is_u16 u /\ is_u8 e /\ is_u8 v /\ is_u16 f
  | UnknownData _ _ => True
  end.

Lemma is_u8_byte b : is_u8 (Z_of_byte b).
Proof. apply Z_of_byte_range. Qed.
#[export] Hint Resolve is_u8_byte : go.

Ltac use_byte_range :=
  repeat match goal with
  | |- context [Z_of_byte ?b] =>
      lazymatch goal with
      | _ : 0 <= Z_of_byte b < 256 |- _ => fail
      | _ => pose proof (Z_of_byte_range b)
      end
  end.

(** One reading step of the parser. *)
Ltac post_step :=
  cbv zeta; use_byte_range;
  lazymatch goal with
  | |- post _ (if _ then Err _ else _) => bcase; [exact I|]
  | |- post _ (mbind _ (Uint16_at _ _ _)) =>
      eapply post_bind; [apply post_Uint16_at; lia|intros ? ?]
  | |- post _ (mbind _ (Uint32_at _ _ _)) =>
      eapply post_bind; [apply post_Uint32_at; lia|intros ? ?]
  | |- post _ (mbind _ (index _ _)) => eapply post_bind; [apply post_index; lia|intros ? _]
  | |- post _ (mbind _ (slice _ _ _)) =>
      eapply post_bind; [apply post_slice; lia|intros ? [_ ?]]
  | |- post _ (mbind _ (decodeName _ _)) =>
      eapply post_bind; [apply decodeName_post; lia|intros [? ?] [? ?]; cbn [fst snd] in *]
  | |- post _ (Ok _) => cbn [post]
  end.

Lemma parseTXT_post fuel packet cur rdEnd texts :
  0 <= cur <= rdEnd -> rdEnd <= len packet -> rdEnd - cur < Z.of_nat fuel ->
  Forall (fun s : bytes => len s <= 255) texts ->
  post (Forall (fun s : bytes => len s <= 255)) (parseTXT_loop fuel packet cur rdEnd texts).
Proof.
  revert cur texts. induction fuel as [|fuel IH]; intros cur texts Hc Hr Hf Ht; cbn [parseTXT_loop].
  { exfalso. lia. }
  bcase; [|done]. repeat post_step. apply IH; [lia..|].
  apply Forall_app. split; [done|]. constructor; [lia|done].
Qed.

Lemma parseRData_post packet off rdLen rrType :
  post (fun d => recordType d = rrType /\ rdata_wf d) (parseRData packet off rdLen rrType).
Proof.
  unfold parseRData, parse_signed. cbv zeta. bcase; [done|].
  apply orb_false_iff in Hb as [[? ?]%orb_false_iff ?].
  repeat (bcase;
    [repeat match goal with H : (rrType =? _) = false |- _ => clear H end;
     match goal with H : (rrType =? ?t) = true |- _ => apply Z.eqb_eq in H as -> end;
     try (repeat post_step; cbn [rdata_wf recordType]; ands; auto with go; lia)|]).
  - eapply post_bind; [apply parseTXT_post; [lia..|constructor]|]. intros ts Hts. by split.
  - by repeat post_step.
Qed.

(** ** Decoded messages are well formed *)

Definition Question_wf (q : Question) : Prop :=
  decoded_name (q_Name q) /\ is_u16 (q_Type q) /\ is_u16 (q_Class q).

(** The typed data, when present, matches the record type; for OPT it is read
    from the fixed fields of the record. *)
Definition ResourceRecord_wf (rr : ResourceRecord) : Prop :=
  decoded_name (rr_Name rr) /\ is_u16 (rr_Type rr) /\ is_u16 (rr_Class rr)
  /\ is_u32 (rr_TTL rr) /\ len (rr_RawRData rr) <= 65535
  /\ match rr_Data rr with
     | None => True
     | Some d => recordType d = rr_Type rr /\ rdata_wf d
     end.

Record Message_wf (m : Message) : Prop := {
  mw_header : Header_wf (m_Header m);
  mw_qd : h_QuestionCount (m_Header m) = len (m_Questions m);
  mw_an : h_AnswerCount (m_Header m) = len (m_Answers m);
  mw_ns : h_AuthorityCount (m_Header m) = len (m_Authorities m);
  mw_ar : h_AdditionalCount (m_Header m) = len (m_Additionals m);
  mw_questions : Forall Question_wf (m_Questions m);
  mw_answers : Forall ResourceRecord_wf (m_Answers m);
  mw_authorities : Forall ResourceRecord_wf (m_Authorities m);
  mw_additionals : Forall ResourceRecord_wf (m_Additionals m)
}.

Lemma decodeQuestion_post data off :
  0 <= off ->
  post (fun r => Question_wf r.1 /\ off + 5 <= r.2 <= len data) (decodeQuestion data off).
Proof. intros Hoff. unfold decodeQuestion. repeat post_step. unfold Question_wf. cbn. ands; try done; lia. Qed.

Lemma land_ones_range z n : 0 <= n -> 0 <= Z.land z (Z.ones n) < 2 ^ n.
Proof. intros. rewrite Z.land_ones by done. apply Z.mod_pos_bound. lia. Qed.

Lemma decodeResourceRecord_post data off :
  0 <= off ->
  post (fun r => ResourceRecord_wf r.1 /\ off + 11 <= r.2 <= len data)
    (decodeResourceRecord data off).
Proof.
  intros Hoff. unfold decodeResourceRecord. repeat post_step.
  match goal with _ : (len data <? z + 10 + ?r) = false, H : is_u16 ?r |- _ =>
    unfold is_u16 in H end.
  post_step. bcase.
  - post_step. split; [|cbn; lia]. unfold ResourceRecord_wf. cbn. ands; auto; [lia..| | | |].
    + apply Z.eqb_eq in Hb1. by subst.
    + apply (land_ones_range _ 8). done.
    + apply (land_ones_range _ 8). done.
    + apply (land_ones_range _ 16). done.
  - pose proof (parseRData_post data (z + 10) a2 a) as Hp.
    destruct (parseRData data (z + 10) a2 a) as [d|e| |]; try done; cbn in Hp |- *;
      (split; [|lia]); unfold ResourceRecord_wf; cbn; ands; auto; try lia; apply Hp.
Qed.

Lemma decode_section_post {A} (item : bytes -> Z -> result error (A * Z)) wrap data
    (P : A -> Prop) (k : Z) n i off acc :
  0 <= off <= len data -> 0 <= k ->
  (forall o, 0 <= o -> post (fun r => P r.1 /\ o + k <= r.2 <= len data) (item data o)) ->
  Forall P acc ->
  post (fun r => Forall P r.1 /\ len r.1 = len acc + Z.of_nat n
                 /\ off + k * Z.of_nat n <= r.2 <= len data)
    (decode_section item wrap data n i off acc).
Proof.
  intros Hoff Hk Hitem. revert i off acc Hoff.
  induction n as [|n IH]; intros i off acc Hoff Hacc; cbn [decode_section].
  { cbn. rewrite Nat2Z.inj_0. repeat split; [done|lia..]. }
  eapply post_bind; [apply post_map_err, Hitem; lia|].
  intros [x next] [Hx Hnext]; cbn in Hx, Hnext.
  eapply post_mono; [apply IH; [lia|]|].
  - apply Forall_app. by split; [|constructor].
  - intros [xs fin] (H1 & H2 & H3). cbn in *. split; [done|]. len_lia.
Qed.

Lemma header_of_words_wf id fl qd an ns ar :
  is_u16 id -> is_u16 qd -> is_u16 an -> is_u16 ns -> is_u16 ar ->
  Header_wf (header_of_words id fl qd an ns ar).
Proof.
  intros. unfold Header_wf. cbn -[Z.land Z.shiftr].
  ands; auto; [apply (land_ones_range _ 4)|apply (land_ones_range _ 4)
    |apply (land_ones_range _ 3)|apply (land_ones_range _ 3)
    |apply (land_ones_range _ 4)|apply (land_ones_range _ 4)]; done.
Qed.

Lemma Header_decode_post data :
  post Header_wf (Header_decode data).
Proof.
  unfold Header_decode, HeaderSize. repeat post_step. by apply header_of_words_wf.
Qed.

Definition decoded_bounds (packet : bytes) (m : Message) : Prop :=
  12 + 5 * len (m_Questions m)
  + 11 * (len (m_Answers m) + len (m_Authorities m) + len (m_Additionals m)) <= len packet.

Lemma Decode_post packet :
  post (fun m => Message_wf m /\ decoded_bounds packet m) (Decode packet).
Proof.
  unfold Decode. unfold HeaderSize in *. do 2 post_step.
  eapply post_bind; [apply post_slice; lia|intros hdr _].
  eapply post_bind; [apply Header_decode_post|intros h Hh].
  pose proof Hh as (_ & _ & _ & _ & Hq & Han & Hns & Har). unfold is_u16 in *.
  eapply post_bind; [apply (decode_section_post _ _ packet Question_wf 5);
    [lia|lia|intros; by apply decodeQuestion_post|constructor]|].
  intros [qs o1] (Fq & Lq & Bq); cbn in Fq, Lq, Bq.
  eapply post_bind; [apply (decode_section_post _ _ packet ResourceRecord_wf 11);
    [lia|lia|intros; by apply decodeResourceRecord_post|constructor]|].
  intros [an o2] (Fan & Lan & Ban); cbn in Fan, Lan, Ban.
  eapply post_bind; [apply (decode_section_post _ _ packet ResourceRecord_wf 11);
    [lia|lia|intros; by apply decodeResourceRecord_post|constructor]|].
  intros [ns o3] (Fns & Lns & Bns); cbn in Fns, Lns, Bns.
  eapply post_bind; [apply (decode_section_post _ _ packet ResourceRecord_wf 11);
    [lia|lia|intros; by apply decodeResourceRecord_post|constructor]|].
  intros [ar o4] (Far & Lar & Bar); cbn in Far, Lar, Bar.
  bcase; [done|]. unfold decoded_bounds. cbn. rewrite Z2Nat.id in * by lia.
  autorewrite with go_len in *. split; [constructor; cbn; auto; lia|lia].
Qed.

(** ** Properties *)

(** C7. [Decode] returns on every packet: whatever the bytes, no index or
    slice is out of range, no pointer chain loops and every loop ends. *)
Theorem Decode_safe packet : safe (Decode packet).
Proof. eapply post_safe, Decode_post. Qed.

(** C25. A decoded message is well formed: its counts are the lengths of its
    sections, every name is a dotted sequence of labels of 1 to 63 bytes with
    a wire length of at most 255, every integer fits its width, the typed data
    of a record agrees with the record type; and a packet of [n] bytes holds at
    most [(n - 12) / 5] items, so the counts of the header cannot make the
    decoder allocate more than the packet pays for. *)
Theorem Decode_wf packet m :
  Decode packet = Ok m -> Message_wf m /\ decoded_bounds packet m.
Proof. exact (post_ok _ _ _ (Decode_post packet)). Qed.

(** A response to [a.b. A] whose answer owner is a compression pointer. *)
Definition sample_response : bytes :=
  map byte_of_Z
    [18; 52; 129; 128; 0; 1; 0; 1; 0; 0; 0; 0;
     1; 97; 1; 98; 0; 0; 1; 0; 1;
     192; 12; 0; 1; 0; 1; 0; 0; 0; 60; 0; 4; 192; 0; 2; 1].

Lemma Decode_wf_witness :
  exists m, Decode sample_response = Ok m
    /\ map rr_Name (m_Answers m) = ["a.b."]
    /\ map rr_Data (m_Answers m) = [Some (AData (map byte_of_Z [192; 0; 2; 1]))]
    /\ Message_wf m /\ decoded_bounds sample_response m.
Proof.
  eexists. split; [vm_compute; reflexivity|]. split; [vm_compute; reflexivity|].
  split; [vm_compute; reflexivity|]. apply Decode_wf. vm_compute. reflexivity.
Defined.

(** [decodeName] terminates within its 255 iterations from every offset:
    it fails, or returns a well-formed name and the offset just after the name
    in place, which is past [off] and inside the packet. *)
Theorem decodeName_bounded data off :
  0 <= off -> post (name_post data off) (decodeName data off).
Proof. apply decodeName_post. Qed.

Lemma decodeName_bounded_witness :
  0 <= 21 /\ decodeName sample_response 21 = Ok ("a.b.", 23)
  /\ post (name_post sample_response 21) (decodeName sample_response 21).
Proof.
  split; [lia|]. split; [vm_compute; reflexivity|]. apply decodeName_bounded. lia.
Defined.

(** A pointer that points to itself is rejected. *)
Example decodeName_self_pointer :
  decodeName [byte_of_Z 192; byte_of_Z 0] 0 = Err ErrPointerLoop.
Proof. vm_compute. reflexivity. Qed.

(** ** Two behaviours of the decoder that its callers should know *)

(** Label bytes are not escaped: the one-label name [a.b] and the two-label
    name [a].[b] decode to the same string. *)
Theorem decodeName_dot_ambiguous :
  decodeName (map byte_of_Z [3; 97; 46; 98; 0]) 0 = Ok ("a.b.", 5)
  /\ decodeName (map byte_of_Z [1; 97; 1; 98; 0]) 0 = Ok ("a.b.", 5).
Proof. split; vm_compute; reflexivity. Qed.

(** For NS the end of the name is not compared with the end of the RDATA (for
    CNAME it is): an NS record with an empty RDATA takes its name server from
    the bytes of whatever follows it. *)
Theorem parseRData_NS_out_of_rdata :
  parseRData (map byte_of_Z [1; 97; 0]) 0 0 TypeNS = Ok (NSData "a.")
  /\ parseRData (map byte_of_Z [1; 97; 0]) 0 0 TypeCNAME = Err (ErrRDataField TypeCNAME).
Proof. split; vm_compute; reflexivity. Qed.
