(* ===== verification/Encoder.v ===== *)
(** * internal/protocol/encoder.go and the writer of rdata.go *)

From S2P Require Import Prelude.
From S2P Require Import GoStrings.
From S2P Require Import Protocol.

#[local] Open Scope go_scope.

(** ** The packet writer

    [packetWriter] holds the bytes written so far; the compression map, which
    [Encode] allocates once and passes to every call, is kept beside it. *)
Record writer := mkWriter {
  w_buf : bytes;
  w_compression : gmap bytes Z
}.

Definition Len (w : writer) : Z := len (w_buf w).
Definition WriteBytes (v : bytes) (w : writer) : writer :=
  mkWriter (w_buf w ++ v) (w_compression w).
Definition WriteByte (v : Z) (w : writer) : writer := WriteBytes [byte_of_Z v] w.
Definition WriteUint16 (v : Z) (w : writer) : writer := WriteBytes (PutUint16 v) w.
Definition WriteUint32 (v : Z) (w : writer) : writer := WriteBytes (PutUint32 v) w.

(** [binary.BigEndian.PutUint16(w.buf[pos:pos+2], v)] *)
Definition SetUint16 (pos v : Z) (w : writer) : result error writer :=
  _ ← slice (w_buf w) pos (pos + 2);
  Ok (mkWriter (sub (w_buf w) 0 pos ++ PutUint16 v ++ sub (w_buf w) (pos + 2) (Len w))
        (w_compression w)).

(** ** Names *)

(** The checks of the label loop of [splitQName]; the result is [total]. *)
Fixpoint checkLabels (total : Z) (labels : list bytes) : result error Z :=
  match labels with
  | [] => Ok total
  | lbl :: rest =>
      if bool_decide (lbl = "") then Err ErrEmptyLabel else
      if MaxLabelLength <? len lbl then Err (ErrLabelTooLong (len lbl)) else
      checkLabels (total + (len lbl + 1)) rest
  end.

Definition splitQName (raw : bytes) : result error (list bytes) :=
  let name := TrimSpace raw in
  if bool_decide (name = "") || bool_decide (name = ".") then Ok [] else
  let name := if HasSuffix name "." then name else name ++ "." in
  let trimmed := TrimSuffix name "." in
  if bool_decide (trimmed = "") then Ok [] else
  let labels := Split trimmed "."%char in
  if MaxLabels <? len labels then Err (ErrLabelCount (len labels)) else
  total ← checkLabels 1 labels;
  if MaxNameLength <? total then Err (ErrNameTooLong total) else
  Ok labels.

Section encoder.
Context {U : UnicodeTables}.

(** The key under which a suffix is remembered. *)
Definition suffixKey (labels : list bytes) : bytes := ToLower (Join labels "." ++ ".").

(** The loop over [labels[i:]]. *)
Fixpoint writeLabels (labels : list bytes) (w : writer) : result error writer :=
  match labels with
  | [] => Ok (WriteByte 0 w)
  | lbl :: rest =>
      let key := suffixKey labels in
      match w_compression w !! key with
      | Some ptr =>
          if 0x3FFF <? ptr then Err (ErrCompressionPointer ptr)
          else Ok (WriteUint16 (u16 (Z.lor 0xC000 ptr)) w)
      | None =>
          let w := mkWriter (w_buf w) (<[key := Len w]> (w_compression w)) in
          let w := WriteByte (len lbl) w in
          let w := WriteBytes lbl w in
          writeLabels rest w
      end
  end.

Definition writeName (raw : bytes) (w : writer) : result error writer :=
  labels ← splitQName raw;
  if len labels =? 0 then Ok (WriteByte 0 w) else
  writeLabels labels w.

(** ** RDATA *)

Fixpoint writeTexts (texts : list bytes) (w : writer) : result error writer :=
  match texts with
  | [] => Ok w
  | s :: rest =>
      if 255 <? len s then Err (ErrTXTChunk (len s)) else
      let w := WriteByte (len s) w in
      writeTexts rest (WriteBytes s w)
  end.

(** The type switch of [encodeRData]. *)
Definition writeRData (d : RData) (w : writer) : result error writer :=
  match d with
  | AData ip => Ok (WriteBytes ip w)
  | AAAAData ip => Ok (WriteBytes ip w)
  | CNAMEData name => writeName name w
  | NSData name => writeName name w
  | PTRData name => writeName name w
  | MXData pref exchange => writeName exchange (WriteUint16 pref w)
  | SOAData mname rname serial refresh retry expire minimum =>
      w ← writeName mname w;
      w ← writeName rname w;
      let w := WriteUint32 serial w in
      let w := WriteUint32 refresh w in
      let w := WriteUint32 retry w in
      let w := WriteUint32 expire w in
      Ok (WriteUint32 minimum w)
  | TXTData texts => writeTexts texts w
  | SRVData prio weight port target =>
      let w := WriteUint16 prio w in
      let w := WriteUint16 weight w in
      let w := WriteUint16 port w in
      writeName target w
  | CAAData flags tag value =>
      if 255 <? len tag then Err ErrCAATag else
      let w := WriteByte flags w in
      let w := WriteByte (len tag) w in
      let w := WriteBytes tag w in
      Ok (WriteBytes value w)
  | RRSIGData typeCovered algo labels origTTL exp inc keyTag signer sig =>
      let w := WriteUint16 typeCovered w in
      let w := WriteByte algo w in
      let w := WriteByte labels w in
      let w := WriteUint32 origTTL w in
      let w := WriteUint32 exp w in
      let w := WriteUint32 inc w in
      let w := WriteUint16 keyTag w in
      w ← writeName signer w;
      Ok (WriteBytes sig w)
  | DNSKEYData flags proto algo key =>
      let w := WriteUint16 flags w in
      let w := WriteByte proto w in
      let w := WriteByte algo w in
      Ok (WriteBytes key w)
  | DSData keyTag algo digestType digest =>
      let w := WriteUint16 keyTag w in
      let w := WriteByte algo w in
      let w := WriteByte digestType w in
      Ok (WriteBytes digest w)
  | NSECData nextDomain bitmap =>
      w ← writeName nextDomain w;
      Ok (WriteBytes bitmap w)
  | NSEC3Data hashAlgo flags iterations salt nextHashed bitmap =>
      let w := WriteByte hashAlgo w in
      let w := WriteByte flags w in
      let w := WriteUint16 iterations w in
      if (255 <? len salt) || (255 <? len nextHashed) then Err ErrNSEC3Field else
      let w := WriteByte (len salt) w in
      let w := WriteBytes salt w in
      let w := WriteByte (len nextHashed) w in
      let w := WriteBytes nextHashed w in
      Ok (WriteBytes bitmap w)
  | OPTData _ _ _ _ options => Ok (WriteBytes options w)
  | UnknownData _ data => Ok (WriteBytes data w)
  end.

Definition encodeRData (rrType : Z) (data : option RData) (raw : bytes) (w : writer)
  : result error writer :=
  match (if rrType =? TypeOPT then data else None) with
  | Some (OPTData _ _ _ _ options) => Ok (WriteBytes options w)
  | _ =>
      match data with
      | None => Ok (WriteBytes raw w)
      | Some d => writeRData d w
      end
  end.

(** ** Questions, records and whole messages *)

Definition encodeQuestion (q : Question) (w : writer) : result error writer :=
  w ← writeName (q_Name q) w;
  let w := WriteUint16 (q_Type q) w in
  Ok (WriteUint16 (q_Class q) w).

Definition encodeResourceRecord (rr : ResourceRecord) (w : writer) : result error writer :=
  w ← writeName (rr_Name rr) w;
  let w := WriteUint16 (rr_Type rr) w in
  let w := WriteUint16 (rr_Class rr) w in
  let w := WriteUint32 (rr_TTL rr) w in
  let lenPos := Len w in
  let w := WriteUint16 0 w in
  let rdataStart := Len w in
  w ← encodeRData (rr_Type rr) (rr_Data rr) (rr_RawRData rr) w;
  let rdLen := Len w - rdataStart in
  if 65535 <? rdLen then Err (ErrRDataTooLarge rdLen) else
  SetUint16 lenPos (u16 rdLen) w.

(** [for i := range section] *)
Fixpoint encode_section {A} (item : A -> writer -> result error writer)
    (wrap : Z -> error -> error) (i : Z) (xs : list A) (w : writer) : result error writer :=
  match xs with
  | [] => Ok w
  | x :: rest =>
      w ← map_err (wrap i) (item x w);
      encode_section item wrap (i + 1) rest w
  end.

(** The wire form of a message whose counts are normalised. *)
Definition encodeNormalized (msg : Message) : result error bytes :=
  let w := mkWriter (Header_encode (m_Header msg)) ∅ in
  w ← encode_section encodeQuestion ErrEncodeQuestion 0 (m_Questions msg) w;
  w ← encode_section encodeResourceRecord ErrEncodeAnswer 0 (m_Answers msg) w;
  w ← encode_section encodeResourceRecord ErrEncodeAuthority 0 (m_Authorities msg) w;
  w ← encode_section encodeResourceRecord ErrEncodeAdditional 0 (m_Additionals msg) w;
  if 65535 <? len (w_buf w) then Err (ErrMessageTooLarge (len (w_buf w))) else
  Ok (w_buf w).

(** [Encode] writes the normalised counts into the message it is given: the
    first component is the state of [*msg] after the call. *)
Definition Encode (msg : option Message) : option Message * result error bytes :=
  match msg with
  | None => (None, Err ErrMessageNil)
  | Some m =>
      match NormalizeCounts m with
      | Ok m' => (Some m', encodeNormalized m')
      | Err e => (Some m, Err e)
      | Panic => (Some m, Panic)
      | Fuel => (Some m, Fuel)
      end
  end.

End encoder.
