(* ===== verification/Names.v ===== *)
(** * Name handling of the resolver: internal/resolver/bailiwick.go,
    qname_minimization.go and the cache key of resolver.go. *)

From S2P Require Import Prelude.
From S2P Require Import GoStrings.
From S2P Require Import Protocol.

#[local] Open Scope go_scope.

(** ** Names of record types *)

Definition type_names : list (bytes * Z) :=
  [("A", TypeA); ("NS", TypeNS); ("CNAME", TypeCNAME); ("SOA", TypeSOA); ("PTR", TypePTR);
   ("MX", TypeMX); ("TXT", TypeTXT); ("AAAA", TypeAAAA); ("SRV", TypeSRV); ("OPT", TypeOPT);
   ("DS", TypeDS); ("RRSIG", TypeRRSIG); ("NSEC", TypeNSEC); ("DNSKEY", TypeDNSKEY);
   ("NSEC3", TypeNSEC3); ("CAA", TypeCAA); ("ANY", TypeANY)].

Lemma TypeToString_cases t :
  (TypeToString t, t) ∈ type_names \/ TypeToString t = "TYPE" ++ itoa t.
Proof.
  unfold TypeToString.
  repeat (bcase; [left; apply Z.eqb_eq in Hb as ->; unfold type_names;
    repeat first [left | right]|clear Hb]).
  by right.
Qed.

Lemma type_names_inj s t t' : (s, t) ∈ type_names -> (s, t') ∈ type_names -> t = t'.
Proof.
  assert (forallb (fun p => forallb (fun q => implb (bool_decide (p.1 = q.1)) (p.2 =? q.2))
    type_names) type_names = true) as H by (vm_compute; reflexivity).
  intros H1%list_elem_of_In H2%list_elem_of_In.
  rewrite forallb_forall in H. specialize (H _ H1). rewrite forallb_forall in H.
  specialize (H _ H2). cbn [fst snd] in H. rewrite bool_decide_eq_true_2 in H by done.
  cbn in H. lia.
Qed.

Lemma type_names_plain s t : (s, t) ∈ type_names -> HasPrefix s "TYPE" = false /\ "|"%char ∉ s.
Proof.
  assert (forallb (fun p : bytes * Z => negb (HasPrefix p.1 "TYPE")
    && negb (bool_decide ("|"%char ∈ p.1))) type_names = true) as H by (vm_compute; reflexivity).
  rewrite forallb_forall in H. intros Hin%list_elem_of_In. specialize (H _ Hin). cbn in H.
  apply andb_true_iff in H as [H1%negb_true_iff H2%negb_true_iff].
  by apply bool_decide_eq_false in H2.
Qed.

Lemma HasPrefix_app p s : HasPrefix (p ++ s) p = true.
Proof. apply HasPrefix_spec. by exists s. Qed.

Lemma TypeToString_inj t u : is_u16 t -> is_u16 u -> TypeToString t = TypeToString u -> t = u.
Proof.
  intros Ht Hu E. unfold is_u16 in *.
  destruct (TypeToString_cases t) as [Ct|Ct], (TypeToString_cases u) as [Cu|Cu].
  - rewrite E in Ct. by eapply type_names_inj.
  - apply type_names_plain in Ct as [Ct _]. by rewrite E, Cu, HasPrefix_app in Ct.
  - apply type_names_plain in Cu as [Cu _]. by rewrite <- E, Ct, HasPrefix_app in Cu.
  - rewrite Ct, Cu in E. apply app_inj_1 in E as [_ E]; [|done]. apply itoa_inj in E; lia.
Qed.

Lemma TypeToString_no_bar t : is_u16 t -> "|"%char ∉ TypeToString t.
Proof.
  intros Ht. unfold is_u16 in Ht. destruct (TypeToString_cases t) as [C|C].
  - by apply type_names_plain in C as [_ C].
  - rewrite C. intros [H|H]%elem_of_app.
    + repeat (apply elem_of_cons in H as [H|H]; [done|]). by apply elem_of_nil in H.
    + apply itoa_digits in H; [|lia]. change (Z_of_byte "|"%char) with 124 in H. lia.
Qed.

(** The part after the last separator is determined. *)
Lemma last_separator (a b x y : bytes) :
  "|"%char ∉ x -> "|"%char ∉ y -> (a ++ "|") ++ x = (b ++ "|") ++ y -> a = b /\ x = y.
Proof.
  revert b x y. induction a as [|c a IH]; intros [|d b] x y Hx Hy E; cbn in E.
  - by injection E as ->.
  - injection E as <- E. exfalso. apply Hx. rewrite E. rewrite !elem_of_app. left. right. left.
  - injection E as -> E. exfalso. apply Hy. rewrite <- E. rewrite !elem_of_app. left. right. left.
  - injection E as -> E. apply IH in E as [-> ->]; done.
Qed.

Section names.
Context {U : UnicodeTables}.

(** ** bailiwick.go *)

Definition normalizeFQDN (name : bytes) : bytes :=
  let name := TrimSpace (ToLower name) in
  if bool_decide (name = "") || bool_decide (name = ".") then "." else
  if HasSuffix name "." then name else name ++ ".".

Definition InBailiwick (name zone : bytes) : bool :=
  let n := normalizeFQDN name in
  let z := normalizeFQDN zone in
  if bool_decide (z = ".") then true else
  bool_decide (n = z) || HasSuffix n ("." ++ TrimSuffix z "." ++ ".") || HasSuffix n z.

Definition FilterGlueByBailiwick (zone : bytes) (additionals : list ResourceRecord)
  : list ResourceRecord * Z :=
  foldl (fun '(valid, rejected) rr =>
    if negb (rr_Type rr =? TypeA) && negb (rr_Type rr =? TypeAAAA) then (valid, rejected)
    else if InBailiwick (rr_Name rr) zone then (valid ++ [rr], rejected)
    else (valid, rejected + 1)) ([], 0) additionals.

(** ** qname_minimization.go *)

(** The loop for [i := len(labels)-1] down to 0. *)
Fixpoint steps_loop (labels : list bytes) (n : nat) (out : list bytes) : list bytes :=
  match n with
  | O => out
  | S i => steps_loop labels i (out ++ [Join (drop i labels) "." ++ "."])
  end.

Definition QNAMEMinimizationSteps (qname : bytes) : list bytes :=
  let full := normalizeFQDN qname in
  if bool_decide (full = ".") then ["."] else
  let trim := TrimSuffix full "." in
  let labels := Split trim "."%char in
  if len labels =? 0 then [full] else
  steps_loop labels (length labels) [].

Definition MinimizedQNameForHop (qname : bytes) (hop : Z) : result error bytes :=
  let steps := QNAMEMinimizationSteps qname in
  let hop := if hop <? 0 then 0 else hop in
  if len steps <=? hop then Ok (normalizeFQDN qname) else
  index steps hop.

(** ** resolver.go *)

Definition cacheKey (qname : bytes) (qtype : Z) : bytes :=
  ToLower (normalizeFQDN qname) ++ "|" ++ TypeToString qtype.

(** ** Normal forms *)

Lemma normalizeFQDN_dot s : exists k, normalizeFQDN s = k ++ ".".
Proof.
  unfold normalizeFQDN. cbv zeta. bcase; [by exists []|]. bcase; [|by eexists].
  apply HasSuffix_spec in Hb0 as [k E]. by exists k.
Qed.

Definition sp (c : byte) : bool := IsSpace (Z_of_byte c).

Lemma TrimSpace_lower s :
  all_ascii s = true -> map byte_to_lower s = s ->
  map byte_to_lower (TrimSpace s) = TrimSpace s.
Proof.
  intros Ha E. destruct (trim_infix IsSpace s Ha) as (a & b & Es). fold (TrimSpace s) in Es.
  set (u := TrimSpace s) in *. rewrite Es, !map_app in E.
  apply app_inj_1 in E as [_ E]; [|by rewrite length_map].
  by apply app_inj_1 in E as [E _]; [|by rewrite length_map].
Qed.

(** The normal form of an ASCII name: lower case, no space at the ends. *)
Lemma normalizeFQDN_ascii s :
  all_ascii s = true -> all_ascii (normalizeFQDN s) = true /\ trimmed sp (normalizeFQDN s)
    /\ map byte_to_lower (normalizeFQDN s) = normalizeFQDN s.
Proof.
  intros Ha. unfold normalizeFQDN. rewrite ToLower_ascii by done.
  set (t := map byte_to_lower s).
  assert (all_ascii t = true) as Ht by by apply all_ascii_to_lower.
  assert (map byte_to_lower t = t) as Hlow by by apply map_to_lower_idem.
  pose proof (TrimSpace_lower t Ht Hlow) as Hu. pose proof (all_ascii_TrimSpace t Ht) as Hua.
  pose proof (trim_trimmed IsSpace t Ht) as Htr. fold (TrimSpace t) in Htr.
  set (u := TrimSpace t) in *. cbv zeta.
  assert (trimmed sp ".") as Hdot.
  { split; intros c k E; [by injection E as <- _|]. destruct k as [|? []]; try done.
    by injection E as <-. }
  bcase; [done|]. bcase; [done|]. apply orb_false_iff in Hb as [Hne _].
  apply bool_decide_eq_false in Hne. rewrite all_ascii_app, Hua, map_app, Hu. ands; [done| |done].
  destruct Htr as [H1 H2]. split.
  - intros c k E. destruct u as [|x u']; [done|]. injection E as -> _. by eapply H1.
  - intros c k E. apply app_inj_2 in E as [_ E]; [|done]. by injection E as <-.
Qed.

(** Names are compared in a normal form: on ASCII names it is idempotent,
    ends with the root dot and does not depend on the case of letters. *)
Theorem normalizeFQDN_canonical s :
  all_ascii s = true ->
  normalizeFQDN (normalizeFQDN s) = normalizeFQDN s
  /\ HasSuffix (normalizeFQDN s) "." = true
  /\ forall s', all_ascii s' = true -> map byte_to_lower s' = map byte_to_lower s ->
       normalizeFQDN s' = normalizeFQDN s.
Proof.
  intros Ha. destruct (normalizeFQDN_ascii s Ha) as (Hn & Ht & Hl).
  destruct (normalizeFQDN_dot s) as [k Hk].
  assert (HasSuffix (normalizeFQDN s) "." = true) as Hs by (rewrite Hk; apply HasSuffix_app).
  ands; [|done|].
  - unfold normalizeFQDN at 1. rewrite ToLower_ascii, Hl by done.
    unfold TrimSpace. rewrite trim_id by done. rewrite Hs. cbv zeta.
    bcase; [|done]. apply orb_true_iff in Hb as [E|E]; apply bool_decide_eq_true in E; [|done].
    rewrite E in Hk. by destruct k.
  - intros s' Ha' E. unfold normalizeFQDN. by rewrite !ToLower_ascii, E.
Qed.

(** ** Bailiwick *)

(** What the three tests of [InBailiwick] amount to. *)
Lemma InBailiwick_spec name zone :
  InBailiwick name zone = true <->
  normalizeFQDN zone = "." \/ normalizeFQDN zone `suffix_of` normalizeFQDN name.
Proof.
  unfold InBailiwick. cbv zeta. set (n := normalizeFQDN name). destruct (normalizeFQDN_dot zone) as [k ->].
  rewrite TrimSuffix_app. bcase.
  { apply bool_decide_eq_true in Hb. tauto. }
  apply bool_decide_eq_false in Hb. rewrite !orb_true_iff, bool_decide_eq_true, !HasSuffix_spec.
  split; [|tauto]. intros [[->|[x ->]]|H]; right; [done| |done].
  exists (x ++ "."). by rewrite <- app_assoc.
Qed.

(** [n] is strictly below [suffix], by labels. *)
Definition below (suffix n : bytes) : Prop := exists pre, pre <> "" /\ n = pre ++ "." ++ suffix.

Lemma below_suffix suffix n : below suffix n -> n <> suffix /\ suffix `suffix_of` n.
Proof.
  intros (pre & _ & ->). split; [|exists (pre ++ "."); by rewrite <- app_assoc].
  intros E. apply (f_equal length) in E. rewrite !length_app in E. cbn in E. lia.
Qed.

Lemma below_dec suffix n : below suffix n \/ ~ below suffix n.
Proof.
  destruct (HasSuffix n ("." ++ suffix)) eqn:E.
  - apply HasSuffix_spec in E as [pre ->]. destruct pre as [|c pre]; [right|left; by exists (c :: pre)].
    intros (pre & Hp & H). apply (f_equal length) in H. rewrite !length_app in H. by destruct pre; cbn in H; [|lia].
  - right. intros (pre & _ & ->). by rewrite (proj2 (HasSuffix_spec _ _)) in E by (by exists pre).
Qed.

(** The bailiwick by labels: the zone itself and the names below it. *)
Definition in_zone (name zone : bytes) : Prop :=
  normalizeFQDN zone = "." \/ normalizeFQDN name = normalizeFQDN zone
  \/ below (normalizeFQDN zone) (normalizeFQDN name).

(** A name that ends with the text of the zone, but not at a label. *)
Definition looks_in_zone (name zone : bytes) : Prop :=
  normalizeFQDN zone `suffix_of` normalizeFQDN name /\ ~ in_zone name zone.

Lemma in_zone_dec name zone : in_zone name zone \/ ~ in_zone name zone.
Proof.
  unfold in_zone. destruct (decide (normalizeFQDN zone = ".")); [tauto|].
  destruct (decide (normalizeFQDN name = normalizeFQDN zone)); [tauto|].
  destruct (below_dec (normalizeFQDN zone) (normalizeFQDN name)); tauto.
Qed.

(** [InBailiwick] is the bailiwick and the names that look like it. *)
Lemma InBailiwick_zone name zone : InBailiwick name zone = true <-> in_zone name zone \/ looks_in_zone name zone.
Proof.
  rewrite InBailiwick_spec. split.
  - intros [H|H]; [by left; left|]. destruct (in_zone_dec name zone); [by left|right; by split].
  - intros [[H|[->|H%below_suffix]]|[H _]]; [by left|right; done|right; apply H|by right].
Qed.

Definition is_address (rr : ResourceRecord) : bool :=
  (rr_Type rr =? TypeA) || (rr_Type rr =? TypeAAAA).

Lemma FilterGlue_filter zone rrs :
  FilterGlueByBailiwick zone rrs =
    (List.filter (fun rr => is_address rr && InBailiwick (rr_Name rr) zone) rrs,
     len (List.filter (fun rr => is_address rr && negb (InBailiwick (rr_Name rr) zone)) rrs)).
Proof.
  unfold FilterGlueByBailiwick.
  assert (forall v r, foldl (fun '(valid, rejected) rr =>
    if negb (rr_Type rr =? TypeA) && negb (rr_Type rr =? TypeAAAA) then (valid, rejected)
    else if InBailiwick (rr_Name rr) zone then (valid ++ [rr], rejected)
    else (valid, rejected + 1)) (v, r) rrs =
    (v ++ List.filter (fun rr => is_address rr && InBailiwick (rr_Name rr) zone) rrs,
     r + len (List.filter (fun rr => is_address rr && negb (InBailiwick (rr_Name rr) zone)) rrs)))
    as H.
  { induction rrs as [|rr rrs IH]; intros v r; cbn [foldl List.filter].
    { by rewrite app_nil_r, Z.add_0_r. }
    rewrite <- negb_orb. fold (is_address rr).
    destruct (is_address rr), (InBailiwick (rr_Name rr) zone);
      cbn [negb andb]; rewrite IH; f_equal; try lia; [by rewrite <- app_assoc|len_lia]. }
  by rewrite H.
Qed.

(** Glue filtering keeps, in order, exactly the address records whose
    owner ends with the zone name (every owner, for the root), counts the
    other address records as rejected and ignores the rest. *)
Theorem FilterGlueByBailiwick_spec zone rrs :
  let accepted rr := bool_decide (normalizeFQDN zone = ".")
    || HasSuffix (normalizeFQDN (rr_Name rr)) (normalizeFQDN zone) in
  FilterGlueByBailiwick zone rrs =
    (List.filter (fun rr => is_address rr && accepted rr) rrs,
     len (List.filter (fun rr => is_address rr && negb (accepted rr)) rrs)).
Proof.
  intros accepted. rewrite FilterGlue_filter.
  assert (forall rr, InBailiwick (rr_Name rr) zone = accepted rr) as H.
  { intros rr. apply eq_true_iff_eq. rewrite InBailiwick_spec. unfold accepted.
    by rewrite orb_true_iff, bool_decide_eq_true, HasSuffix_spec. }
  f_equal; [|f_equal]; apply filter_ext; intros rr; by rewrite H.
Qed.

(** ** Minimization *)

Lemma steps_loop_map labels n out :
  steps_loop labels n out = out ++ map (fun i => Join (drop i labels) "." ++ ".") (rev (seq 0 n)).
Proof.
  revert out. induction n as [|n IH]; intros out; cbn [steps_loop].
  { by rewrite app_nil_r. }
  rewrite IH, seq_S, rev_app_distr, <- app_assoc. done.
Qed.

Lemma nth_rev_seq n h : (h < n)%nat -> rev (seq 0 n) !! h = Some (n - 1 - h)%nat.
Proof.
  revert h. induction n as [|n IH]; intros h Hh; [lia|].
  rewrite seq_S, rev_app_distr. cbn [rev app]. destruct h as [|h]; cbn [lookup list_lookup].
  { f_equal. lia. }
  change (rev (seq 0 n) !! h = Some (S n - 1 - S h)%nat). rewrite IH by lia. f_equal. lia.
Qed.

(** The labels of a normalised name. *)
Definition name_labels (qname : bytes) : list bytes :=
  Split (TrimSuffix (normalizeFQDN qname) ".") "."%char.

Lemma MinimizedQNameForHop_labels qname (hop : nat) :
  normalizeFQDN qname <> "." ->
  MinimizedQNameForHop qname (Z.of_nat hop) =
    Ok (Join (drop (length (name_labels qname) - 1 - hop) (name_labels qname)) "." ++ ".").
Proof.
  intros Hn. unfold MinimizedQNameForHop, QNAMEMinimizationSteps. cbv zeta.
  rewrite (bool_decide_eq_false_2 _ Hn). fold (name_labels qname).
  pose proof (Split_not_nil (TrimSuffix (normalizeFQDN qname) ".") "."%char) as Hnil.
  fold (name_labels qname) in Hnil. remember (name_labels qname) as ls eqn:Els.
  assert (0 < length ls)%nat by (destruct ls; [done|cbn; lia]).
  assert ((len ls =? 0) = false) as -> by (unfold len; lia).
  assert ((Z.of_nat hop <? 0) = false) as -> by (apply Z.ltb_ge; lia).
  rewrite steps_loop_map. cbn [app]. bcase; rename Hb into Hb0.
  - unfold len in Hb0. rewrite length_map, length_rev, length_seq in Hb0.
    replace (length ls - 1 - hop)%nat with 0%nat by lia. cbn [drop].
    rewrite drop_0, Els. unfold name_labels. rewrite Join_Split. destruct (normalizeFQDN_dot qname) as [k ->].
    by rewrite TrimSuffix_app.
  - unfold len in Hb0. rewrite length_map, length_rev, length_seq in Hb0.
    unfold index. bcase; [|apply Z.leb_gt in Hb; lia]. rewrite Nat2Z.id, list_lookup_fmap, nth_rev_seq by lia. done.
Qed.

Lemma Join_drop_suffix ls n sep : Join (drop n ls) sep `suffix_of` Join ls sep.
Proof.
  revert n. induction ls as [|l ls IH]; intros n; [by rewrite drop_nil|].
  destruct n as [|n]; [done|]. cbn [drop]. etrans; [apply IH|]. destruct ls as [|k ls].
  - by exists l; rewrite app_nil_r.
  - rewrite (Join_cons l) by done. exists (l ++ sep). by rewrite <- app_assoc.
Qed.

Lemma MinimizedQNameForHop_root qname (hop : nat) :
  normalizeFQDN qname = "." -> MinimizedQNameForHop qname (Z.of_nat hop) = Ok ".".
Proof.
  intros E. unfold MinimizedQNameForHop, QNAMEMinimizationSteps. cbv zeta.
  rewrite (bool_decide_eq_true_2 _ E), E.
  assert ((Z.of_nat hop <? 0) = false) as -> by lia. bcase; [done|].
  change (len ["."]) with 1 in Hb. by replace hop with 0%nat by lia.
Qed.

(** The full name is its labels, each followed by a dot. *)
Lemma name_labels_join qname : normalizeFQDN qname = Join (name_labels qname) "." ++ ".".
Proof.
  unfold name_labels. rewrite Join_Split. destruct (normalizeFQDN_dot qname) as [k ->].
  by rewrite TrimSuffix_app.
Qed.

Lemma MinimizedQNameForHop_total qname hop :
  exists s, MinimizedQNameForHop qname hop = Ok s /\ s `suffix_of` normalizeFQDN qname.
Proof.
  assert (MinimizedQNameForHop qname hop = MinimizedQNameForHop qname (Z.of_nat (Z.to_nat hop))) as ->.
  { unfold MinimizedQNameForHop. by replace (if Z.of_nat (Z.to_nat hop) <? 0 then 0
      else Z.of_nat (Z.to_nat hop)) with (if hop <? 0 then 0 else hop)
      by (destruct (hop <? 0) eqn:?, (Z.of_nat (Z.to_nat hop) <? 0) eqn:?; lia). }
  destruct (decide (normalizeFQDN qname = ".")) as [E|E].
  { exists ".". rewrite MinimizedQNameForHop_root, E by done. done. }
  rewrite MinimizedQNameForHop_labels by done. eexists. split; [done|].
  rewrite name_labels_join.
  destruct (Join_drop_suffix (name_labels qname)
    (length (name_labels qname) - 1 - Z.to_nat hop) ".") as [k ->].
  exists k. by rewrite <- app_assoc.
Qed.

(** QNAME minimization: every hop index gives a name; it is a suffix of
    the full name, the first one has one label, each hop adds exactly one label
    and after as many hops as there are labels the full name is sent. *)
Theorem MinimizedQNameForHop_spec qname (hop : nat) :
  let full := normalizeFQDN qname in
  exists s, MinimizedQNameForHop qname (Z.of_nat hop) = Ok s /\ s `suffix_of` full
    /\ (s = full \/ exists l, ("."%char ∉ l) /\
          MinimizedQNameForHop qname (Z.of_nat (S hop)) = Ok (l ++ "." ++ s))
    /\ ((length (name_labels qname) <= S hop)%nat -> s = full)
    /\ (hop = 0%nat -> full <> "." -> exists l, ("."%char ∉ l) /\ s = l ++ ".").
Proof.
  intros full. destruct (decide (full = ".")) as [E|E].
  { exists ".". unfold full in *. rewrite !MinimizedQNameForHop_root by done.
    rewrite E. ands; try done; auto. }
  set (ls := name_labels qname).
  pose proof (name_labels_join qname) as Hfull. fold full ls in Hfull.
  assert (Forall (fun p => "."%char ∉ p) ls) as Hnd.
  { apply Forall_forall. intros p. apply Split_no_sep. }
  rewrite !MinimizedQNameForHop_labels by done. fold ls. set (i := (length ls - 1 - hop)%nat).
  eexists. split; [done|]. rewrite Hfull. ands.
  - destruct (Join_drop_suffix ls i ".") as [k ->]. exists k. by rewrite <- app_assoc.
  - destruct i as [|j] eqn:Ei; [by left|right].
    destruct (lookup_lt_is_Some_2 ls j) as [l Hl]; [unfold i in Ei; lia|].
    exists l. split; [by apply (Forall_lookup_1 _ _ _ _ Hnd Hl)|].
    replace (length ls - 1 - S hop)%nat with j by (unfold i in Ei; lia).
    rewrite (drop_S _ _ _ Hl), Join_cons.
    + by rewrite <- !app_assoc.
    + intros Hd. apply (f_equal length) in Hd. rewrite length_drop in Hd. cbn in Hd.
      unfold i in Ei. lia.
  - intros Hle. replace i with 0%nat by (unfold i; lia). done.
  - intros -> _. destruct (lookup_lt_is_Some_2 ls (length ls - 1)) as [l Hl].
    { assert (ls <> []) by apply Split_not_nil. destruct ls; [done|cbn; lia]. }
    exists l. split; [by apply (Forall_lookup_1 _ _ _ _ Hnd Hl)|].
    unfold i. rewrite Nat.sub_0_r, (drop_S _ _ _ Hl), drop_ge; [done|lia].
Qed.

(** ** Cache keys *)

Lemma cacheKey_ascii q t : all_ascii q = true -> cacheKey q t = normalizeFQDN q ++ "|" ++ TypeToString t.
Proof.
  intros Ha. destruct (normalizeFQDN_ascii q Ha) as (H1 & _ & H3).
  unfold cacheKey. by rewrite ToLower_ascii, H3.
Qed.

(** Two questions share a cache entry exactly when their normalised names
    and their types are equal: neither the bar between name and type nor the
    [TYPE<n>] form of unknown types can make different questions collide. *)
Theorem cacheKey_injective q1 t1 q2 t2 :
  all_ascii q1 = true -> all_ascii q2 = true -> is_u16 t1 -> is_u16 t2 ->
  cacheKey q1 t1 = cacheKey q2 t2 <-> normalizeFQDN q1 = normalizeFQDN q2 /\ t1 = t2.
Proof.
  intros A1 A2 T1 T2. rewrite !cacheKey_ascii by done. split; [|by intros [-> ->]].
  rewrite !app_assoc. intros E.
  destruct (last_separator _ _ _ _ (TypeToString_no_bar t1 T1) (TypeToString_no_bar t2 T2) E)
    as [En Et]. split; [done|]. by apply TypeToString_inj.
Qed.
End names.

Lemma normalizeFQDN_canonical_witness :
  @normalizeFQDN latin1 (@normalizeFQDN latin1 " Example.COM ") = "example.com."
  /\ @normalizeFQDN latin1 " EXAMPLE.com " = @normalizeFQDN latin1 " Example.COM ".
Proof.
  destruct (normalizeFQDN_canonical (U := latin1) " Example.COM " eq_refl) as (H1 & _ & H2).
  split; [rewrite H1; vm_compute; reflexivity|]. apply H2; vm_compute; reflexivity.
Defined.

Lemma MinimizedQNameForHop_witness :
  exists s, @MinimizedQNameForHop latin1 "www.Example.com" 1 = Ok s /\ s = "example.com."
    /\ s `suffix_of` @normalizeFQDN latin1 "www.Example.com".
Proof.
  destruct (MinimizedQNameForHop_spec (U := latin1) "www.Example.com" 1) as (s & H1 & H2 & _).
  exists s. split; [exact H1|]. split; [vm_compute in H1; by injection H1 as <-|exact H2].
Defined.

Lemma cacheKey_injective_witness :
  @cacheKey latin1 "WWW.example.com" TypeA = @cacheKey latin1 "www.example.com." TypeA
  /\ @cacheKey latin1 "a|TYPE9" 1 <> @cacheKey latin1 "a" 9.
Proof.
  split.
  - apply (cacheKey_injective (U := latin1)); done.
  - intros E. apply (cacheKey_injective (U := latin1)) in E as [_ E]; done.
Defined.

(** [InBailiwick] does not ask for a label boundary. *)
Theorem InBailiwick_no_boundary :
  @InBailiwick latin1 "ns1.evilexample.com" "example.com" = true.
Proof. vm_compute. reflexivity. Qed.
