(* ===== verification/GoTime.v ===== *)
(** * package time, as the components use it.

    A [time.Time] is its instant in nanoseconds since the Unix epoch, a
    [time.Duration] an [int64] number of nanoseconds. *)

From S2P Require Import Prelude.

Definition MaxInt64 : Z := 2 ^ 63 - 1.
Definition MinInt64 : Z := - 2 ^ 63.

(** Two's complement wrap-around of [int64] (and of [int] on 64-bit targets). *)
Definition i64 (z : Z) : Z := (z + 2 ^ 63) mod 2 ^ 64 - 2 ^ 63.

Definition is_i64 (z : Z) : Prop := MinInt64 <= z <= MaxInt64.

Lemma i64_small z : is_i64 z -> i64 z = z.
Proof. unfold is_i64, MinInt64, MaxInt64, i64. intros. rewrite Z.mod_small; lia. Qed.

Lemma i64_range z : is_i64 (i64 z).
Proof.
  unfold is_i64, MinInt64, MaxInt64, i64.
  pose proof (Z.mod_pos_bound (z + 2 ^ 63) (2 ^ 64) ltac:(lia)). lia.
Qed.

Definition Nanosecond : Z := 1.
Definition Millisecond : Z := 1000000.
Definition Second : Z := 1000000000.
Definition Minute : Z := 60 * Second.
Definition Hour : Z := 60 * Minute.

(** The zero [time.Time], January 1 of year 1. *)
Definition time_zero : Z := -62135596800 * Second.

(** [t.Sub(u)] saturates. *)
Definition time_Sub (t u : Z) : Z :=
  let d := t - u in
  if d <? MinInt64 then MinInt64 else if MaxInt64 <? d then MaxInt64 else d.

Lemma time_Sub_ge t u d : is_i64 d -> d <= time_Sub t u <-> d <= t - u \/ d = MinInt64.
Proof.
  unfold is_i64, time_Sub. cbv zeta. intros. unfold MinInt64, MaxInt64 in *.
  repeat bcase; lia.
Qed.

(** The comparison the code makes with a positive duration is exact. *)
Lemma time_Sub_pos t u d : 0 < d <= MaxInt64 -> (d <=? time_Sub t u) = (d <=? t - u).
Proof.
  intros Hd. pose proof (time_Sub_ge t u d). unfold is_i64, MinInt64 in *. lia.
Qed.
