(* ===== verification/CircuitBreaker.v ===== *)
(** * internal/resolver/circuit_breaker.go *)

From S2P Require Import Prelude.
From S2P Require Import GoTime.

Inductive State := StateClosed | StateOpen | StateHalfOpen.

#[export] Instance State_eq_dec : EqDecision State.
Proof. solve_decision. Defined.

(** The clock [now] is an argument of the operations that read it. *)
Record CircuitBreaker := mkCB {
  cb_state : State;
  cb_failures : Z;
  cb_successes : Z;
  cb_lastFailureTime : Z;
  cb_failureThreshold : Z;
  cb_successThreshold : Z;
  cb_openTimeout : Z
}.

Record CircuitSnapshot := mkCircuitSnapshot {
  cs_State : State; cs_Failures : Z; cs_Successes : Z; cs_LastFailureTime : Z
}.

(** [State] and [Snapshot] *)
Definition cb_State (c : CircuitBreaker) : State := cb_state c.
Definition Snapshot (c : CircuitBreaker) : CircuitSnapshot :=
  mkCircuitSnapshot (cb_state c) (cb_failures c) (cb_successes c) (cb_lastFailureTime c).

Definition NewCircuitBreaker (failureThreshold successThreshold openTimeout : Z) : CircuitBreaker := {|
  cb_state := StateClosed;
  cb_failures := 0;
  cb_successes := 0;
  cb_lastFailureTime := time_zero;
  cb_failureThreshold := if failureThreshold <=? 0 then 5 else failureThreshold;
  cb_successThreshold := if successThreshold <=? 0 then 2 else successThreshold;
  cb_openTimeout := if openTimeout <=? 0 then 30 * Second else openTimeout
|}.

(** The fields the transitions write; the configuration is kept. *)
Definition set_cb (c : CircuitBreaker) (state : State) (failures successes last : Z) : CircuitBreaker :=
  mkCB state failures successes last
    (cb_failureThreshold c) (cb_successThreshold c) (cb_openTimeout c).

Definition Allow (now : Z) (c : CircuitBreaker) : bool * CircuitBreaker :=
  match cb_state c with
  | StateOpen =>
      if cb_openTimeout c <=? time_Sub now (cb_lastFailureTime c) then
        (true, set_cb c StateHalfOpen (cb_failures c) 0 (cb_lastFailureTime c))
      else (false, c)
  | _ => (true, c)
  end.

Definition OnSuccess (c : CircuitBreaker) : CircuitBreaker :=
  match cb_state c with
  | StateClosed => set_cb c StateClosed 0 (cb_successes c) (cb_lastFailureTime c)
  | StateHalfOpen =>
      let successes := i64 (cb_successes c + 1) in
      if cb_successThreshold c <=? successes then
        set_cb c StateClosed 0 0 (cb_lastFailureTime c)
      else set_cb c StateHalfOpen (cb_failures c) successes (cb_lastFailureTime c)
  | StateOpen => c
  end.

Definition OnFailure (now : Z) (c : CircuitBreaker) : CircuitBreaker :=
  match cb_state c with
  | StateClosed =>
      let failures := i64 (cb_failures c + 1) in
      if cb_failureThreshold c <=? failures then set_cb c StateOpen failures 0 now
      else set_cb c StateClosed failures (cb_successes c) (cb_lastFailureTime c)
  | StateHalfOpen => set_cb c StateOpen (cb_failureThreshold c) 0 now
  | StateOpen => set_cb c StateOpen (cb_failures c) (cb_successes c) now
  end.

Definition UpdateConfig (failureThreshold successThreshold openTimeout : Z) (c : CircuitBreaker)
  : CircuitBreaker :=
  mkCB (cb_state c) (cb_failures c) (cb_successes c) (cb_lastFailureTime c)
    (if 0 <? failureThreshold then failureThreshold else cb_failureThreshold c)
    (if 0 <? successThreshold then successThreshold else cb_successThreshold c)
    (if 0 <? openTimeout then openTimeout else cb_openTimeout c).

(** ** Runs

    The mutex makes every call atomic, so a concurrent history is a sequence
    of calls. *)

Inductive call :=
| CAllow (now : Z)
| CSuccess
| CFailure (now : Z)
| CUpdate (failureThreshold successThreshold openTimeout : Z).

(** The new state, and the answer of [Allow]. *)
Definition cb_call (e : call) (c : CircuitBreaker) : option bool * CircuitBreaker :=
  match e with
  | CAllow now => let '(ok, c') := Allow now c in (Some ok, c')
  | CSuccess => (None, OnSuccess c)
  | CFailure now => (None, OnFailure now c)
  | CUpdate f s o => (None, UpdateConfig f s o c)
  end.

Fixpoint cb_run (es : list call) (c : CircuitBreaker) : list (option bool) * CircuitBreaker :=
  match es with
  | [] => ([], c)
  | e :: es' =>
      let '(a, c1) := cb_call e c in
      let '(as', c2) := cb_run es' c1 in
      (a :: as', c2)
  end.

(** ** Invariant *)

Record cb_inv (c : CircuitBreaker) : Prop := {
  ci_f : 0 < cb_failureThreshold c <= MaxInt64;
  ci_s : 0 < cb_successThreshold c <= MaxInt64;
  ci_o : 0 < cb_openTimeout c <= MaxInt64;
  ci_successes : is_i64 (cb_successes c);
  ci_failures : is_i64 (cb_failures c);
  ci_half : cb_state c <> StateHalfOpen -> cb_successes c = 0
}.

(** Arguments of Go type [int] or [time.Duration]. *)
Definition call_ok (e : call) : Prop :=
  match e with
  | CUpdate f s o => is_i64 f /\ is_i64 s /\ is_i64 o
  | _ => True
  end.

Lemma NewCircuitBreaker_inv f s o :
  is_i64 f -> is_i64 s -> is_i64 o -> cb_inv (NewCircuitBreaker f s o).
Proof.
  unfold is_i64, MinInt64. intros. unfold NewCircuitBreaker.
  constructor; cbn; unfold is_i64, MinInt64, MaxInt64, Second in *; try (bcase; lia); try lia; done.
Qed.

Lemma set_cb_inv c st f s l :
  cb_inv c -> is_i64 f -> is_i64 s -> (st <> StateHalfOpen -> s = 0) ->
  cb_inv (set_cb c st f s l).
Proof. intros [] ? ? ?. by constructor. Qed.

Lemma zero_i64 : is_i64 0.
Proof. done. Qed.
#[export] Hint Resolve i64_range zero_i64 : go.

Lemma cb_call_inv e c : call_ok e -> cb_inv c -> cb_inv (cb_call e c).2.
Proof.
  intros He Hc. pose proof Hc as [Hf Hs Ho Hsu Hfa Hh].
  assert (is_i64 (cb_failureThreshold c)) by (unfold is_i64, MinInt64; lia).
  destruct e as [now| |now|f s o]; cbn.
  - unfold Allow. destruct (cb_state c) eqn:E; cbn; try done.
    bcase; cbn; [|done]. apply set_cb_inv; auto with go.
  - unfold OnSuccess. destruct (cb_state c) eqn:E; [|done|]; [|bcase]; apply set_cb_inv; auto with go.
    all: done.
  - unfold OnFailure. destruct (cb_state c) eqn:E; [bcase| |]; apply set_cb_inv; auto with go; done.
  - destruct He as (He1 & He2 & He3). unfold is_i64 in He1, He2, He3.
    constructor; cbn; try done; bcase; lia.
Qed.

Lemma cb_run_inv es c : Forall call_ok es -> cb_inv c -> cb_inv (cb_run es c).2.
Proof.
  revert c. induction es as [|e es IH]; intros c; [by intros _ ?|].
  intros [He Hes]%Forall_cons Hc. cbn [cb_run].
  pose proof (cb_call_inv e c He Hc) as H1. destruct (cb_call e c) as [a c1].
  specialize (IH c1 Hes H1). by destruct (cb_run es c1).
Qed.

(** Calls other than a reconfiguration. *)
Definition traffic (e : call) : Prop :=
  match e with CUpdate _ _ _ => False | _ => True end.

Lemma cb_run_cons e es c :
  cb_run (e :: es) c =
  ((cb_call e c).1 :: (cb_run es (cb_call e c).2).1, (cb_run es (cb_call e c).2).2).
Proof. cbn [cb_run]. destruct (cb_call e c) as [a c1]. cbn. by destruct (cb_run es c1). Qed.

(** Failures since the last success, starting from [n]. *)
Fixpoint trailing (n : Z) (es : list call) : Z :=
  match es with
  | [] => n
  | CFailure _ :: es' => trailing (n + 1) es'
  | CSuccess :: es' => trailing 0 es'
  | _ :: es' => trailing n es'
  end.

(** Below the threshold the breaker stays closed and counts the failures since
    the last success; it opens at the call that reaches the threshold. *)
Lemma closed_run es c n :
  cb_inv c -> Forall traffic es -> cb_state c = StateClosed -> cb_failures c = n ->
  0 <= n < cb_failureThreshold c ->
  (forall pre e suf, es = pre ++ e :: suf -> trailing n pre < cb_failureThreshold c) ->
  cb_state (cb_run es c).2
    = (if cb_failureThreshold c <=? trailing n es then StateOpen else StateClosed)
  /\ Forall (fun a => a <> Some false) (cb_run es c).1.
Proof.
  revert c n. induction es as [|e es IH]; intros c n Hc Ht Hst Hn H0 Hpre.
  { cbn. bcase; [lia|]. by split. }
  apply Forall_cons in Ht as [He Ht]. rewrite cb_run_cons. pose proof (ci_f _ Hc).
  assert (forall c' n', cb_inv c' -> cb_state c' = StateClosed -> cb_failures c' = n' ->
    0 <= n' < cb_failureThreshold c -> cb_failureThreshold c' = cb_failureThreshold c ->
    (forall pre, trailing n (e :: pre) = trailing n' pre) ->
    cb_state (cb_run es c').2 =
      (if cb_failureThreshold c <=? trailing n (e :: es) then StateOpen else StateClosed)
    /\ Forall (fun a => a <> Some false) (cb_run es c').1) as Hstep.
  { intros c' n' Hi' Hs' Hf' H0' Hthr Htr. rewrite Htr, <- Hthr. apply IH; try done; [lia|].
    intros pre e' suf ->. rewrite Hthr, <- Htr. by eapply (Hpre (e :: pre)). }
  pose proof (cb_call_inv e c) as Hinv.
  destruct e as [now| |now|]; [| | |done]; cbn [cb_call fst snd] in *.
  - unfold Allow in *. rewrite Hst in *. cbn [fst snd] in *.
    destruct (Hstep c n) as [E1 E2]; auto.
  - unfold OnSuccess in *. rewrite Hst in *. destruct (Hstep _ 0 (Hinv I Hc)) as [E1 E2]; auto; lia.
  - unfold OnFailure in *. rewrite Hst, Hn in *.
    rewrite i64_small in * by (unfold is_i64, MinInt64; lia). bcase.
    + destruct es as [|e' es']; [|exfalso].
      * cbn. rewrite Hb. split; [done|]. by constructor.
      * specialize (Hpre [CFailure now] e' es' eq_refl). cbn in Hpre. lia.
    + destruct (Hstep _ (n + 1) (Hinv I Hc)) as [E1 E2]; auto; cbn; lia.
Qed.

(** C24. A new breaker admits every request and opens exactly when the number
    of consecutive failures reaches the threshold: after any sequence of calls
    whose shorter prefixes stay below it, the state is open if and only if the
    sequence ends with that many failures since the last success. *)
Theorem breaker_trips f s o es :
  is_i64 f -> is_i64 s -> is_i64 o -> Forall traffic es ->
  let F := if f <=? 0 then 5 else f in
  (forall pre e suf, es = pre ++ e :: suf -> trailing 0 pre < F) ->
  cb_state (cb_run es (NewCircuitBreaker f s o)).2
    = (if F <=? trailing 0 es then StateOpen else StateClosed)
  /\ Forall (fun a => a <> Some false) (cb_run es (NewCircuitBreaker f s o)).1.
Proof.
  intros Hf Hs Ho Ht F Hpre.
  pose proof (NewCircuitBreaker_inv f s o Hf Hs Ho) as Hi.
  pose proof (ci_f _ Hi) as HF. cbn in HF. apply (closed_run es (NewCircuitBreaker f s o) 0); auto; cbn; lia.
Qed.

Lemma breaker_trips_witness :
  let es := [CFailure 1; CSuccess; CFailure 2; CAllow 3; CFailure 4; CFailure 5] in
  cb_state (cb_run es (NewCircuitBreaker 3 2 Second)).2 = StateOpen.
Proof.
  intros es.
  destruct (breaker_trips 3 2 Second es ltac:(done) ltac:(done) ltac:(done)
    ltac:(by repeat constructor)) as [H _]; [|exact H].
  intros pre e suf E. do 6 (destruct pre as [|? pre]; [done|injection E as <- E]).
  by destruct pre.
Defined.

(** ** The open state *)

Definition call_time_within (lo hi : Z) (e : call) : Prop :=
  match e with CAllow t | CFailure t => lo <= t < hi | _ => True end.

Lemma open_run es c t0 :
  cb_inv c -> Forall traffic es -> cb_state c = StateOpen -> t0 <= cb_lastFailureTime c ->
  Forall (call_time_within t0 (t0 + cb_openTimeout c)) es ->
  cb_state (cb_run es c).2 = StateOpen
  /\ Forall (fun a => a <> Some true) (cb_run es c).1.
Proof.
  intros Hc Ht. remember (cb_openTimeout c) as o eqn:Eo. revert c Hc Ht Eo.
  induction es as [|e es IH]; intros c Hc Ht Eo Hst Hl Hw; [by split|].
  apply Forall_cons in Ht as [He Ht]. apply Forall_cons in Hw as [Hwe Hw].
  rewrite cb_run_cons. pose proof (ci_o _ Hc) as Ho.
  pose proof (cb_call_inv e c) as Hinv.
  destruct e as [now| |now|]; [| | |done]; cbn [cb_call fst snd call_time_within] in *.
  - assert (Allow now c = (false, c)) as E.
    { unfold Allow. rewrite Hst. rewrite time_Sub_pos by done. bcase; [lia|done]. }
    rewrite E in *. cbn [fst snd]. destruct (IH c) as [E1 E2]; auto.
  - unfold OnSuccess in *. rewrite Hst in *. destruct (IH c) as [E1 E2]; auto.
  - unfold OnFailure in *. rewrite Hst in *. destruct (IH _ (Hinv I Hc)) as [E1 E2]; auto.
    cbn. lia.
Qed.

(** Fail fast: once a failure reported at [t0] leaves the breaker open, it
    stays open and refuses every request of the next [openTimeout], whatever
    calls are made in that time. *)
Theorem breaker_fails_fast es c t0 :
  cb_inv c -> Forall traffic es ->
  cb_state (OnFailure t0 c) = StateOpen ->
  Forall (call_time_within t0 (t0 + cb_openTimeout c)) es ->
  let r := cb_run es (OnFailure t0 c) in
  cb_state r.2 = StateOpen /\ Forall (fun a => a <> Some true) r.1.
Proof.
  intros Hc Ht Hst Hw. apply (open_run es _ t0); auto.
  - by apply (cb_call_inv (CFailure t0) c).
  - unfold OnFailure in *. destruct (cb_state c) eqn:E; cbn; [bcase| |]; cbn in *; try lia.
    done.
  - replace (cb_openTimeout (OnFailure t0 c)) with (cb_openTimeout c); [done|].
    unfold OnFailure. destruct (cb_state c); [bcase| |]; done.
Qed.

Lemma breaker_fails_fast_witness :
  let c := NewCircuitBreaker 1 2 Second in
  let es := [CAllow 5; CFailure 7; CSuccess; CAllow (Second - 1)] in
  (cb_run es (OnFailure 0 c)).1 = [Some false; None; None; Some false]
  /\ cb_state (cb_run es (OnFailure 0 c)).2 = StateOpen.
Proof.
  intros c es. split; [vm_compute; reflexivity|].
  apply (breaker_fails_fast es c 0).
  - by apply NewCircuitBreaker_inv.
  - by repeat constructor.
  - vm_compute. reflexivity.
  - repeat constructor; done.
Defined.

(** ** Recovery *)

Lemma half_open_successes (k : nat) c :
  cb_inv c -> cb_state c = StateHalfOpen ->
  0 <= cb_successes c -> cb_successes c + Z.of_nat (S k) = cb_successThreshold c ->
  cb_run (repeat CSuccess (S k)) c
  = (repeat None (S k), set_cb c StateClosed 0 0 (cb_lastFailureTime c)).
Proof.
  revert c. induction k as [|k IH]; intros c Hc Hst H0 Hk; pose proof (ci_s _ Hc);
    cbn [repeat]; rewrite cb_run_cons; cbn [cb_call fst snd]; unfold OnSuccess; rewrite Hst;
    rewrite i64_small by (unfold is_i64, MinInt64; lia).
  - bcase; [done|lia].
  - bcase; [lia|]. set (c' := set_cb _ _ _ _ _).
    assert (cb_inv c') as Hc'.
    { apply set_cb_inv; try done; [apply Hc|unfold is_i64, MinInt64; lia]. }
    specialize (IH c' Hc' eq_refl). cbn [repeat] in IH. rewrite IH; [done| |]; cbn; lia.
Qed.

(** Recovery: when the timeout has passed since the last failure, the next
    request is admitted as a probe, and the configured number of successes in a
    row closes the breaker with its counters reset. *)
Theorem breaker_recovers c now :
  cb_inv c -> cb_state c = StateOpen ->
  cb_openTimeout c <= now - cb_lastFailureTime c ->
  let n := Z.to_nat (cb_successThreshold c) in
  cb_run (CAllow now :: repeat CSuccess n) c
  = (Some true :: repeat None n, set_cb c StateClosed 0 0 (cb_lastFailureTime c)).
Proof.
  intros Hc Hst Ht n. rewrite cb_run_cons. cbn [cb_call fst snd]. unfold Allow. rewrite Hst.
  pose proof (ci_o _ Hc). pose proof (ci_s _ Hc). rewrite time_Sub_pos by done.
  bcase; [|lia]. cbn [fst snd]. destruct n as [|k] eqn:En; [unfold n in En; lia|].
  rewrite half_open_successes; try done; cbn; [|unfold n in En; lia].
  apply set_cb_inv; auto with go. apply Hc.
Qed.

Lemma breaker_recovers_witness :
  let c := OnFailure 10 (NewCircuitBreaker 1 2 Second) in
  cb_run [CAllow (10 + Second); CSuccess; CSuccess] c
  = ([Some true; None; None], set_cb c StateClosed 0 0 10).
Proof.
  intros c. apply (breaker_recovers c (10 + Second)).
  - apply (cb_call_inv (CFailure 10)); [done|by apply NewCircuitBreaker_inv].
  - vm_compute. reflexivity.
  - vm_compute. done.
Defined.

(** Whatever calls are made, reconfigurations included, the thresholds
    and the timeout stay positive, the counters stay in range and successes are
    only counted while half open. *)
Theorem breaker_invariant f s o es :
  is_i64 f -> is_i64 s -> is_i64 o -> Forall call_ok es ->
  cb_inv (cb_run es (NewCircuitBreaker f s o)).2.
Proof. intros Hf Hs Ho Hes. apply cb_run_inv; [done|]. by apply NewCircuitBreaker_inv. Qed.

Lemma breaker_invariant_witness :
  cb_inv (cb_run [CFailure 1; CUpdate 0 (-1) 5; CAllow 9; CSuccess] (NewCircuitBreaker 1 3 0)).2.
Proof. apply breaker_invariant; [done..|]. by repeat constructor. Defined.

(** A half-open breaker does not limit itself to one probe. *)
Theorem half_open_admits_all c (ts : list Z) :
  cb_state c = StateHalfOpen ->
  cb_run (map CAllow ts) c = (map (fun _ => Some true) ts, c).
Proof.
  intros Hst. induction ts as [|t ts IH]; [done|]. cbn [map]. rewrite cb_run_cons.
  cbn [cb_call]. unfold Allow. rewrite Hst. cbn [fst snd]. by rewrite IH.
Qed.
