(* ===== verification/Blocklist.v ===== *)
(** * internal/resolver/blocklist.go *)

From S2P Require Import Prelude.
From S2P Require Import GoStrings.
From S2P Require Import Protocol.
From S2P Require Import Names.

#[local] Open Scope go_scope.

(** ** Parsing a line *)

(** The range loop over the runes of a part. *)
Definition all_digits (p : bytes) : bool :=
  forallb (fun ch => negb ((ch <? 48) || (57 <? ch))) (runes p).

Definition isIPv4Like (s : bytes) : bool :=
  let parts := Split s "."%char in
  if negb (len parts =? 4) then false else
  forallb (fun p => if bool_decide (p = "") then false else all_digits p) parts.

Definition tokensFromBlocklistLine (line : bytes) : list bytes :=
  let trimmed := TrimSpace line in
  if bool_decide (trimmed = "") || HasPrefix trimmed "#" then [] else
  let idx := IndexByte trimmed "#"%char in
  let trimmed := if 0 <=? idx then TrimSpace (sub trimmed 0 idx) else trimmed in
  if bool_decide (trimmed = "") then [] else
  match Fields trimmed with
  | [] => []
  | f0 :: rest =>
      if isIPv4Like f0 || bool_decide (f0 = "::1") || bool_decide (f0 = "0:0:0:0:0:0:0:1") then
        if len (f0 :: rest) <? 2 then [] else rest
      else f0 :: rest
  end.

(** [dedupeStrings] works in place: [out] is a prefix of the array of [in], so
    [append] overwrites the array that the loop still reads. *)
Fixpoint dedupe_loop (n : nat) (i : Z) (arr : list bytes) (outLen : Z)
  : result error (list bytes * Z) :=
  match n with
  | O => Ok (arr, outLen)
  | S n' =>
      x ← index arr i;
      y ← index arr (i - 1);
      if bool_decide (x = y) then dedupe_loop n' (i + 1) arr outLen
      else dedupe_loop n' (i + 1) (<[Z.to_nat outLen := x]> arr) (outLen + 1)
  end.

Definition dedupeStrings (xs : list bytes) : result error (list bytes) :=
  if len xs <=? 1 then Ok xs else
  '(arr, outLen) ← dedupe_loop (length xs - 1) 1 xs 1;
  Ok (sub arr 0 outLen).

(** ** The list *)

Record BlocklistStats := mkBlocklistStats {
  bs_DomainsCount : Z;
  bs_SessionHits : Z;
  bs_TotalHits : Z;
  bs_LastUpdated : Z
}.

Record Blocklist := mkBlocklist {
  bl_exact : gset bytes;
  bl_wildcard : list bytes;
  bl_stats : BlocklistStats
}.

Definition Blocklist_Stats (b : Blocklist) : BlocklistStats := bl_stats b.

Definition NewBlocklist (now : Z) : Blocklist :=
  mkBlocklist ∅ [] (mkBlocklistStats 0 0 0 now).

Section blocklist.
Context {U : UnicodeTables}.

(** The body of the inner loop of [Replace]. *)
Definition add_token (acc : gset bytes * list bytes) (token : bytes) : gset bytes * list bytes :=
  let '(exact, wild) := acc in
  let norm := normalizeFQDN token in
  if bool_decide (norm = ".") then (exact, wild) else
  if HasPrefix norm "*." then (exact, wild ++ [TrimPrefix norm "*."])
  else ({[norm]} ∪ exact, wild).

Definition Replace (now : Z) (lines : list bytes) (b : Blocklist) : result error Blocklist :=
  let '(exact, wild) :=
    foldl (fun acc line => foldl add_token acc (tokensFromBlocklistLine line)) (∅, []) lines in
  wild ← dedupeStrings (sort_strings wild);
  Ok (mkBlocklist exact wild
        (mkBlocklistStats (Z.of_nat (size exact) + len wild)
           (bs_SessionHits (bl_stats b)) (bs_TotalHits (bl_stats b)) now)).

Definition ReplaceFromText (now : Z) (raw : bytes) (b : Blocklist) : result error Blocklist :=
  Replace now (Split raw "010"%char) b.

(** [LoadFromFile]: [scan path] stands for opening and scanning the file. *)
Definition LoadFromFile {E} (scan : bytes -> result E (list bytes)) (now : Z) (path : bytes)
    (b : Blocklist) : result E (result error Blocklist) :=
  if bool_decide (TrimSpace path = "") then Ok (Ok b) else
  lines ← scan path;
  Ok (Replace now lines b).

Definition count_hit (b : Blocklist) : Blocklist :=
  let s := bl_stats b in
  mkBlocklist (bl_exact b) (bl_wildcard b)
    (mkBlocklistStats (bs_DomainsCount s) (u64 (bs_SessionHits s + 1))
       (u64 (bs_TotalHits s + 1)) (bs_LastUpdated s)).

Fixpoint match_wildcard (norm : bytes) (wildcard : list bytes) : bool :=
  match wildcard with
  | [] => false
  | suffix :: rest =>
      if bool_decide (norm = suffix) then match_wildcard norm rest else
      if HasSuffix norm ("." ++ TrimSuffix suffix "." ++ ".") || HasSuffix norm suffix then true
      else match_wildcard norm rest
  end.

Definition IsBlocked (domain : bytes) (b : Blocklist) : bool * Blocklist :=
  let norm := normalizeFQDN domain in
  if bool_decide (norm = ".") then (false, b) else
  if bool_decide (norm ∈ bl_exact b) then (true, count_hit b) else
  if match_wildcard norm (bl_wildcard b) then (true, count_hit b) else
  (false, b).

Definition Domains (b : Blocklist) : list bytes :=
  sort_strings (elements (bl_exact b)
    ++ map (fun w => "*." ++ TrimSuffix w ".") (bl_wildcard b)).

End blocklist.

(** ** De-duplication in place *)

(** The list with runs of equal neighbours merged. *)
Fixpoint dedup_adjacent (xs : list bytes) : list bytes :=
  match xs with
  | x :: (y :: _) as rest =>
      if bool_decide (x = y) then dedup_adjacent rest else x :: dedup_adjacent rest
  | _ => xs
  end.

Lemma dedup_adjacent_snoc l y x :
  dedup_adjacent (l ++ [y; x])
  = dedup_adjacent (l ++ [y]) ++ (if bool_decide (x = y) then [] else [x]).
Proof.
  induction l as [|a l IH].
  - cbn. do 2 case_bool_decide; subst; done.
  - destruct l as [|b l]; cbn [app dedup_adjacent] in *.
    + destruct (bool_decide (a = y)); [done|]. cbn. by rewrite IH.
    + destruct (bool_decide (a = b)); [done|]. cbn. by rewrite IH.
Qed.

Lemma elem_of_dedup_adjacent x xs : x ∈ dedup_adjacent xs <-> x ∈ xs.
Proof.
  induction xs as [|a xs IH]; [done|]. destruct xs as [|b xs]; [done|].
  cbn [dedup_adjacent]. case_bool_decide as E.
  - rewrite IH, (elem_of_cons (b :: xs)). split; [by right|]. intros [->|?]; [|done].
    subst. by left.
  - rewrite elem_of_cons, IH, (elem_of_cons (b :: xs)). done.
Qed.

Lemma dedupe_loop_spec xs n i arr outLen :
  len xs = i + Z.of_nat n -> 1 <= i -> 1 <= outLen <= i ->
  length arr = length xs -> drop (Z.to_nat (i - 1)) arr = drop (Z.to_nat (i - 1)) xs ->
  take (Z.to_nat outLen) arr = dedup_adjacent (take (Z.to_nat i) xs) ->
  exists arr' outLen', dedupe_loop n i arr outLen = Ok (arr', outLen')
    /\ sub arr' 0 outLen' = dedup_adjacent xs.
Proof.
  revert i arr outLen. induction n as [|n IH]; intros i arr outLen Hn Hi Ho Hl Hd Ht.
  { exists arr, outLen. split; [done|]. unfold sub. rewrite drop_0, Z.sub_0_r, Ht.
    f_equal. apply take_ge. unfold len in Hn. lia. }
  cbn [dedupe_loop].
  assert (forall k, (Z.to_nat (i - 1) <= k)%nat -> arr !! k = xs !! k) as Hk.
  { intros k Hk. replace k with (Z.to_nat (i - 1) + (k - Z.to_nat (i - 1)))%nat by lia.
    by rewrite <- !lookup_drop, Hd. }
  unfold len in *.
  destruct (lookup_lt_is_Some_2 xs (Z.to_nat i)) as [x Hx]; [lia|].
  destruct (lookup_lt_is_Some_2 xs (Z.to_nat (i - 1))) as [y Hy]; [lia|].
  assert (@index error _ arr i = Ok x) as ->.
  { unfold index. bcase; [|lia]. rewrite Hk by lia. by rewrite Hx. }
  assert (@index error _ arr (i - 1) = Ok y) as ->.
  { unfold index. bcase; [|lia]. rewrite Hk by lia. by rewrite Hy. }
  cbn [mbind result_bind].
  assert (dedup_adjacent (take (Z.to_nat (i + 1)) xs)
    = take (Z.to_nat outLen) arr ++ (if bool_decide (x = y) then [] else [x])) as Hsnoc.
  { rewrite Ht. replace (Z.to_nat (i + 1)) with (S (Z.to_nat i)) by lia.
    rewrite (take_S_r _ _ _ Hx). replace (Z.to_nat i) with (S (Z.to_nat (i - 1))) by lia.
    rewrite (take_S_r _ _ _ Hy), <- app_assoc. apply dedup_adjacent_snoc. }
  case_bool_decide as Hxy.
  - apply IH; try lia.
    + replace (Z.to_nat (i + 1 - 1)) with (1 + Z.to_nat (i - 1))%nat by lia.
      rewrite Nat.add_comm, <- !drop_drop. by rewrite Hd.
    + by rewrite Hsnoc, app_nil_r.
  - apply IH; try lia.
    + by rewrite length_insert.
    + apply list_eq. intros k. rewrite !lookup_drop.
      destruct (decide (Z.to_nat outLen = Z.to_nat (i + 1 - 1) + k)%nat) as [E|E].
      * assert (k = 0)%nat as -> by lia. rewrite Nat.add_0_r in *. rewrite E.
        replace (Z.to_nat (i + 1 - 1)) with (Z.to_nat i) by lia.
        rewrite list_lookup_insert_eq by lia. by rewrite Hx.
      * rewrite list_lookup_insert_ne by done. apply Hk. lia.
    + rewrite Hsnoc. replace (Z.to_nat (outLen + 1)) with (S (Z.to_nat outLen)) by lia.
      rewrite (take_S_r _ _ x) by (rewrite list_lookup_insert_eq; [done|lia]).
      by rewrite take_insert_ge by lia.
Qed.

(** The overwriting of its own input does not harm [dedupeStrings]. *)
Lemma dedupeStrings_spec xs : dedupeStrings xs = Ok (dedup_adjacent xs).
Proof.
  unfold dedupeStrings. bcase.
  { destruct xs as [|x [|y xs]]; [done|done|]. len_lia. }
  unfold len in Hb. destruct (dedupe_loop_spec xs (length xs - 1) 1 xs 1) as (arr & o & E & Es);
    try done; unfold len; try lia.
  - change (Z.to_nat 1) with 1%nat. destruct xs as [|x xs]; done.
  - rewrite E. cbn [mbind result_bind]. by rewrite Es.
Qed.

(** ** What is blocked *)

Section blocked.
Context {U : UnicodeTables}.

(** The normalised entries of a text. *)
Definition entries (lines : list bytes) : list bytes :=
  map normalizeFQDN (flat_map tokensFromBlocklistLine lines).

(** A name is blocked by itself or as a proper extension of a wildcard. *)
Definition blocked_by (es : list bytes) (norm : bytes) : Prop :=
  norm <> "." /\
  ((norm ∈ es /\ HasPrefix norm "*." = false)
   \/ exists suffix, "*." ++ suffix ∈ es /\ norm <> suffix /\ suffix `suffix_of` norm).

(** What a blocklist lists: names, and with [*.suffix] the names below [suffix]. *)
Definition listed (es : list bytes) (n : bytes) : Prop :=
  n <> "." /\ (n ∈ es \/ exists suffix, "*." ++ suffix ∈ es /\ below suffix n).

(** A name that ends with the text of a wildcard's suffix, but not at a label. *)
Definition resembles (es : list bytes) (n : bytes) : Prop :=
  exists suffix, "*." ++ suffix ∈ es /\ n <> suffix /\ suffix `suffix_of` n /\ ~ below suffix n.

Lemma listed_blocked es n : listed es n -> blocked_by es n.
Proof.
  intros [Hn H]. split; [done|]. destruct H as [H|(s & Hs & Hb)].
  - destruct (HasPrefix n "*.") eqn:Hp; [right|by left]. apply HasPrefix_spec in Hp as [k ->].
    exists k. split; [done|]. apply below_suffix. by exists "*".
  - right. exists s. split; [done|]. by apply below_suffix.
Qed.

Lemma blocked_listed es n : blocked_by es n -> listed es n \/ resembles es n.
Proof.
  intros [Hn [[H _]|(s & Hs & H1 & H2)]]; [left; split; [done|by left]|].
  destruct (below_dec s n); [left; split; [done|right]|right]; by exists s.
Qed.

Lemma foldl_tokens lines acc :
  foldl (fun acc line => foldl add_token acc (tokensFromBlocklistLine line)) acc lines
  = foldl add_token acc (flat_map tokensFromBlocklistLine lines).
Proof.
  revert acc. induction lines as [|l lines IH]; intros acc; [done|].
  cbn [foldl flat_map]. by rewrite IH, foldl_app.
Qed.

Lemma foldl_add_token ts exact wild :
  let r := foldl add_token (exact, wild) ts in
  (forall x, x ∈ r.1 <-> x ∈ exact \/
     (x ∈ map normalizeFQDN ts /\ x <> "." /\ HasPrefix x "*." = false))
  /\ (forall x, x ∈ r.2 <-> x ∈ wild \/ "*." ++ x ∈ map normalizeFQDN ts).
Proof.
  revert exact wild. induction ts as [|t ts IH]; intros exact wild r; subst r; cbn [foldl map].
  { split; intros x; cbn [fst snd]; rewrite elem_of_nil; naive_solver. }
  assert (forall x, x ∈ normalizeFQDN t :: map normalizeFQDN ts
    <-> x = normalizeFQDN t \/ x ∈ map normalizeFQDN ts) as Hc by (intros; apply elem_of_cons).
  unfold add_token at 2 4. case_bool_decide as E; [|destruct (HasPrefix _ _) eqn:Hp].
  - destruct (IH exact wild) as [H1 H2]. split; intros x.
    + rewrite H1, Hc, E. naive_solver.
    + rewrite H2, Hc, E. naive_solver.
  - apply HasPrefix_spec in Hp as [k Hk].
    destruct (IH exact (wild ++ [TrimPrefix (normalizeFQDN t) "*."])) as [H1 H2].
    rewrite Hk in *. assert (TrimPrefix ("*." ++ k) "*." = k) as Htk.
    { unfold TrimPrefix. by rewrite HasPrefix_app. }
    rewrite Htk in *. split; intros x.
    + rewrite H1, Hc. split; [naive_solver|]. intros [?|([->|?] & ? & Hx)]; auto.
      by rewrite HasPrefix_app in Hx.
    + rewrite H2, Hc, elem_of_app, list_elem_of_singleton. split.
      * intros [[?| ->]|?]; auto.
      * intros [?|[E'|?]]; auto. apply app_inj_1 in E' as [_ ->]; auto.
  - destruct (IH ({[normalizeFQDN t]} ∪ exact) wild) as [H1 H2]. split; intros x.
    + rewrite H1, Hc, elem_of_union, elem_of_singleton. naive_solver.
    + rewrite H2, Hc. split; [naive_solver|]. intros [?|[E'|?]]; auto.
      rewrite <- E', HasPrefix_app in Hp. done.
Qed.

(** The rest of a normalised name after a prefix is empty or ends with a dot. *)
Definition dotted (s : bytes) : Prop := s = "" \/ exists k, s = k ++ ".".

Lemma dotted_rest ts x : "*." ++ x ∈ map normalizeFQDN ts -> dotted x.
Proof.
  intros (t & E & _)%list_elem_of_fmap. destruct (normalizeFQDN_dot t) as [k Hk].
  rewrite Hk in E. destruct x as [|c x] using rev_ind; [by left|right].
  rewrite app_assoc in E. apply app_inj_2 in E as [_ E]; [|done].
  exists x. by rewrite E.
Qed.

Lemma match_wildcard_spec norm wild :
  Forall dotted wild ->
  match_wildcard norm wild = true <->
  exists suffix, suffix ∈ wild /\ norm <> suffix /\ suffix `suffix_of` norm.
Proof.
  induction 1 as [|s wild Hs Hw IH]; cbn [match_wildcard].
  { split; [done|]. intros (s & Hs & _). by apply elem_of_nil in Hs. }
  case_bool_decide as E.
  { rewrite IH. setoid_rewrite elem_of_cons. naive_solver. }
  assert (HasSuffix norm ("." ++ TrimSuffix s "." ++ ".") = true -> HasSuffix norm s = true) as Hmid.
  { rewrite !HasSuffix_spec. destruct Hs as [->|[k ->]]; [intros _; by exists norm; rewrite app_nil_r|].
    rewrite TrimSuffix_app. intros [x ->]. exists (x ++ "."). by rewrite <- app_assoc. }
  destruct (HasSuffix norm s) eqn:Hns.
  - rewrite orb_true_r. split; [|done]. intros _. exists s. apply HasSuffix_spec in Hns.
    split; [by left|done].
  - destruct (HasSuffix norm ("." ++ _)); [by specialize (Hmid eq_refl)|]. cbn [orb].
    rewrite IH. setoid_rewrite elem_of_cons. split; [naive_solver|].
    intros (x & [->|Hx] & H1 & H2); [|naive_solver]. apply HasSuffix_spec in H2. congruence.
Qed.

Lemma Replace_returns now lines b0 : exists b, Replace now lines b0 = Ok b.
Proof.
  unfold Replace. destruct (foldl _ _ lines) as [exact wild]. rewrite dedupeStrings_spec. by eexists.
Qed.

(** What is blocked after a text is loaded. *)
Lemma Replace_decides now lines b0 :
  exists b, Replace now lines b0 = Ok b /\
    forall domain, (IsBlocked domain b).1 = true
                   <-> blocked_by (entries lines) (normalizeFQDN domain).
Proof.
  unfold Replace. rewrite foldl_tokens.
  destruct (foldl_add_token (flat_map tokensFromBlocklistLine lines) ∅ []) as [H1 H2].
  fold (entries lines) in H1, H2.
  destruct (foldl add_token _ _) as [exact wild]. cbn [fst snd] in *.
  rewrite dedupeStrings_spec. cbn [mbind result_bind]. eexists. split; [done|].
  intros domain. unfold IsBlocked, blocked_by. cbv zeta. cbn [bl_exact bl_wildcard].
  set (norm := normalizeFQDN domain). case_bool_decide as Edot; [naive_solver|].
  assert (Forall dotted (dedup_adjacent (sort_strings wild))) as Hd.
  { apply Forall_forall. intros x Hx. rewrite elem_of_dedup_adjacent, elem_of_sort_strings, H2 in Hx.
    destruct Hx as [Hx|Hx]; [by apply elem_of_nil in Hx|]. by eapply dotted_rest. }
  assert (match_wildcard norm (dedup_adjacent (sort_strings wild)) = true <->
    exists suffix, "*." ++ suffix ∈ entries lines /\ norm <> suffix /\ suffix `suffix_of` norm) as Hm.
  { rewrite match_wildcard_spec by done.
    setoid_rewrite elem_of_dedup_adjacent. setoid_rewrite elem_of_sort_strings. setoid_rewrite H2.
    setoid_rewrite elem_of_nil. naive_solver. }
  specialize (H1 norm). rewrite elem_of_empty in H1. case_bool_decide as Hex.
  - cbn. naive_solver.
  - destruct (match_wildcard _ _) eqn:E; cbn; [naive_solver|]. split; [done|].
    intros (_ & [?|Hw]); [naive_solver|]. apply Hm in Hw. done.
Qed.

(** After a blocklist text is loaded, exactly the names it lists are
    blocked: the listed names themselves, and for an entry [*.suffix] every
    other name that ends with the suffix.  Loading never fails, and sorting
    and the de-duplication in place lose no entry. *)
Theorem blocklist_decision now lines b0 :
  exists b, Replace now lines b0 = Ok b /\
    forall domain, (IsBlocked domain b).1 = true
                   <-> blocked_by (entries lines) (normalizeFQDN domain).
Proof. apply Replace_decides. Qed.

Lemma IsBlocked_state domain b :
  IsBlocked domain b
  = ((IsBlocked domain b).1, if (IsBlocked domain b).1 then count_hit b else b).
Proof. unfold IsBlocked. repeat bcase; done. Qed.

(** Queries made one after the other. *)
Fixpoint IsBlocked_run (ds : list bytes) (b : Blocklist) : list bool * Blocklist :=
  match ds with
  | [] => ([], b)
  | d :: ds' =>
      let '(r, b1) := IsBlocked d b in
      let '(rs, b2) := IsBlocked_run ds' b1 in
      (r :: rs, b2)
  end.

Lemma IsBlocked_count_hit domain b : (IsBlocked domain (count_hit b)).1 = (IsBlocked domain b).1.
Proof. unfold IsBlocked. cbn [count_hit bl_exact bl_wildcard]. by repeat bcase. Qed.

(** The hit counters count exactly the blocked queries (modulo 2^64), and
    queries change nothing else: each answer is the one the loaded list gives,
    whatever was asked before. *)
Theorem blocklist_counts ds b :
  let r := IsBlocked_run ds b in
  r.1 = map (fun d => (IsBlocked d b).1) ds
  /\ bl_exact r.2 = bl_exact b /\ bl_wildcard r.2 = bl_wildcard b
  /\ let hits := len (List.filter (fun x => x) r.1) in
     u64 (bs_SessionHits (bl_stats r.2)) = u64 (bs_SessionHits (bl_stats b) + hits)
     /\ u64 (bs_TotalHits (bl_stats r.2)) = u64 (bs_TotalHits (bl_stats b) + hits).
Proof.
  revert b. induction ds as [|d ds IH]; intros b; [cbn; by rewrite !Z.add_0_r|].
  cbn [IsBlocked_run map]. rewrite IsBlocked_state.
  destruct (IsBlocked d b).1; [specialize (IH (count_hit b))|specialize (IH b)];
    cbv zeta in *; destruct (IsBlocked_run ds _) as [rs b2]; cbn [fst snd List.filter] in *;
    destruct IH as (-> & -> & -> & H1 & H2).
  - ands; try done.
    + f_equal. apply map_ext. intros. apply IsBlocked_count_hit.
    + rewrite H1. cbn. unfold u64. rewrite Zplus_mod_idemp_l. f_equal. len_lia.
    + rewrite H2. cbn. unfold u64. rewrite Zplus_mod_idemp_l. f_equal. len_lia.
  - done.
Qed.
End blocked.

(** A wildcard also blocks names that only share its spelling. *)
Theorem blocklist_wildcard_no_boundary :
  exists b, @Replace latin1 0 ["*.example.com"] (NewBlocklist 0) = Ok b
    /\ (@IsBlocked latin1 "notexample.com" b).1 = true
    /\ (@IsBlocked latin1 "example.com" b).1 = false.
Proof. eexists. split; [vm_compute; reflexivity|]. vm_compute. by split. Qed.

Example tokens_hosts :
  tokensFromBlocklistLine "0.0.0.0  ads.example.com tracker.net # x" = ["ads.example.com"; "tracker.net"].
Proof. vm_compute. reflexivity. Qed.
