(* ===== verification/WireNames.v ===== *)
(** * Compressed names on the wire: the decoder reads what the encoder wrote.

    [name_at data p ls nxt] is the abstract meaning of a compressed name: the
    bytes of [data] at [p] denote the labels [ls], and the name in place ends
    at [nxt].  The decoder is shown to implement it, and the encoder, with its
    compression map, to establish it. *)

From S2P Require Import Prelude.
From S2P Require Import GoStrings.
From S2P Require Import Protocol.
From S2P Require Import Decoder.
From S2P Require Import Encoder.

#[local] Open Scope go_scope.

(** ** Stability of reads when a buffer grows *)

Lemma index_app_l {E A} (l k : list A) i b :
  @index E A l i = Ok b -> @index E A (l ++ k) i = Ok b.
Proof.
  intros H. apply index_inv in H as [Hi Hl]. unfold index. bcase; [|lia].
  by rewrite (lookup_app_l_Some _ _ _ _ Hl).
Qed.

Lemma slice_app_l {E A} (l k : list A) a b s :
  @slice E A l a b = Ok s -> @slice E A (l ++ k) a b = Ok s.
Proof.
  intros H. apply slice_inv in H as (Ha & Hab & Hb & ->).
  rewrite slice_ok by len_lia. f_equal. unfold sub, len in *.
  rewrite drop_app_le by lia. apply take_app_le. rewrite length_drop. lia.
Qed.

Lemma Uint16_at_app_l data k a b v :
  Uint16_at data a b = Ok v -> Uint16_at (data ++ k) a b = Ok v.
Proof. unfold Uint16_at. intros H. inv_bind H. by rewrite (slice_app_l _ _ _ _ _ Ha). Qed.

(** ** The two top bits of a length byte *)

Lemma land_pointer_byte r : 0 <= r < 64 -> Z.land (192 + r) 0xC0 = 0xC0.
Proof.
  intros Hr.
  assert (forallb (fun r => Z.land (192 + r) 0xC0 =? 0xC0) (seqZ 0 64) = true) as H
    by (vm_compute; reflexivity).
  rewrite forallb_forall in H. apply Z.eqb_eq, H, list_elem_of_In, elem_of_seqZ. lia.
Qed.

Lemma land_label_byte b : 0 <= b < 64 -> Z.land b 0xC0 = 0.
Proof.
  intros Hb.
  assert (forallb (fun b => Z.land b 0xC0 =? 0) (seqZ 0 64) = true) as H
    by (vm_compute; reflexivity).
  rewrite forallb_forall in H. apply Z.eqb_eq, H, list_elem_of_In, elem_of_seqZ. lia.
Qed.

Lemma lor_pointer q : 0 <= q < 2 ^ 14 -> Z.lor 0xC000 q = 49152 + q.
Proof.
  intros Hq. rewrite Z.lor_comm. trans (q + 3 * 2 ^ 14); [|lia].
  apply (lor_shift_add q 3 14); lia.
Qed.

Lemma land_pointer q : 0 <= q < 2 ^ 14 -> Z.land (49152 + q) 0x3FFF = q.
Proof.
  intros Hq. change 0x3FFF with (Z.ones 14). rewrite Z.land_ones by lia.
  replace (49152 + q) with (q + 3 * 2 ^ 14) by lia.
  rewrite Z.mod_add by lia. by apply Z.mod_small.
Qed.

(** ** Abstract names *)

(** A position where a label, not a pointer, starts. *)
Definition label_start (data : bytes) (p : Z) (ls : list bytes) : Prop :=
  exists l rest c, ls = l :: rest /\ @index error _ data p = Ok c /\ Z_of_byte c = len l
                   /\ label_ok l.

Inductive name_at (data : bytes) : Z -> list bytes -> Z -> Prop :=
| na_end p b :
    @index error _ data p = Ok b -> Z_of_byte b = 0 ->
    name_at data p [] (p + 1)
| na_label p b l rest nxt :
    label_ok l ->
    @index error _ data p = Ok b -> Z_of_byte b = len l ->
    @slice error _ data (p + 1) (p + 1 + len l) = Ok l ->
    name_at data (p + 1 + len l) rest nxt ->
    name_at data p (l :: rest) nxt
| na_ptr p b q ls nxt :
    0 <= q < 2 ^ 14 ->
    @index error _ data p = Ok b -> Z_of_byte b = 192 + q / 256 ->
    Uint16_at data p (p + 2) = Ok (49152 + q) ->
    label_start data q ls ->
    name_at data q ls nxt ->
    name_at data p ls (p + 2).

Lemma label_start_app data k p ls : label_start data p ls -> label_start (data ++ k) p ls.
Proof. intros (l & rest & c & H1 & H2 & H3). exists l, rest, c. eauto using index_app_l. Qed.

Lemma name_at_app data k p ls nxt : name_at data p ls nxt -> name_at (data ++ k) p ls nxt.
Proof.
  induction 1 as [p b Hi Hb|p b l rest nxt Hl Hi Hb Hs Hn IH|p b q ls nxt Hq Hi Hb Hw Hst Hn IH].
  - eapply na_end; eauto using index_app_l.
  - eapply na_label; eauto using index_app_l, slice_app_l.
  - eapply na_ptr; eauto using index_app_l, Uint16_at_app_l, label_start_app.
Qed.

Lemma name_at_pos data p ls nxt : name_at data p ls nxt -> 0 <= p < len data /\ 0 <= nxt.
Proof.
  induction 1 as [p b Hi Hb|p b l rest nxt Hl Hi Hb Hs Hn IH|p b q ls nxt Hq Hi Hb Hw Hst Hn IH];
    apply index_inv in Hi as [? _]; lia.
Qed.

Lemma name_at_det data p ls1 n1 ls2 n2 :
  name_at data p ls1 n1 -> name_at data p ls2 n2 -> ls1 = ls2.
Proof.
  intros H. revert ls2 n2.
  induction H as [p b Hi Hb|p b l rest nxt Hl Hi Hb Hs Hn IH|p b q ls nxt Hq Hi Hb Hw Hst Hn IH];
    intros ls2 n2 H2; inversion H2 as [p' b' Hi' Hb'|p' b' l' rest' nxt' Hl' Hi' Hb' Hs' Hn'
      |p' b' q' ls' nxt' Hq' Hi' Hb' Hw' Hst' Hn']; subst;
    (assert (b' = b) as -> by congruence); unfold label_ok, MaxLabelLength in *;
    try done; try (exfalso; dlia).
  - assert (len l = len l') as E by lia. rewrite E in *.
    assert (l' = l) as -> by congruence. f_equal. eauto.
  - assert (q' = q) as ->; [|by eauto].
    assert (49152 + q = 49152 + q') as E by congruence. lia.
Qed.

(** ** The decoder implements [name_at] *)

Section decode_name.
Context (data : bytes).

(** [fresh]: the last step was a jump, so a label starts here. *)
Definition seen_ok (ls : list bytes) (fresh : bool) (st : nameState) : Prop :=
  forall v, v ∈ n_visited st -> exists k n, name_at data v k n
    /\ (len ls < len k \/ (fresh = true /\ len ls = len k)).

Lemma decodeName_loop_at p ls nxt :
  name_at data p ls nxt ->
  forall fuel fresh st,
    n_curr st = p ->
    (fresh = true -> label_start data p ls) ->
    seen_ok ls fresh st ->
    n_jumps st + len ls <= MaxLabels + Z.b2z fresh ->
    2 * len ls + 1 <= Z.of_nat fuel + Z.b2z fresh ->
    len (n_labels st) + len ls <= MaxLabels ->
    labelsTotal (n_labels st ++ ls) <= MaxNameLength ->
    decodeName_loop fuel data st
    = Ok (render (n_labels st ++ ls), if n_next st =? -1 then nxt else n_next st).
Proof.
  induction 1 as [p b Hi Hb|p b l rest nxt Hl Hi Hb Hs Hn IH
    |p b q ls nxt Hq Hi Hb Hw Hst Hn IH];
    intros fuel fresh st Hp Hfresh Hseen Hj Hf Hcnt Htot;
    pose proof (index_inv _ _ _ Hi) as [Hrange _];
    (destruct fuel as [|fuel]; [exfalso; destruct fresh; cbn [Z.b2z Z.of_nat] in Hf;
      [destruct (Hfresh eq_refl) as (l0 & r0 & c0 & E & _); apply (f_equal len) in E|];
      len_lia|]);
    cbn [decodeName_loop]; unfold decodeName_step; rewrite Hp, Hi;
    cbn [mbind result_bind]; (bcase; [lia|]); rewrite Hb.
  - change (Z.land 0 192) with 0. cbn. rewrite app_nil_r in *.
    by rewrite joinLabels_render.
  - unfold label_ok, MaxLabelLength in *. rewrite land_label_byte by lia.
    cbn [Z.eqb]. bcase; [lia|]. bcase; [lia|].
    pose proof (slice_inv _ _ _ _ Hs) as (_ & _ & Hle & _). bcase; [lia|].
    rewrite Hs. cbn [mbind result_bind]. bcase; [unfold MaxLabels in *; len_lia|].
    autorewrite with go_len in *. cbn [mbind result_bind].
    rewrite (IH fuel false); cbn [n_labels n_next n_curr n_jumps n_visited Z.b2z]; try done.
    + by rewrite <- app_assoc.
    + intros v Hv. destruct (Hseen v Hv) as (k & n & Hk & Hlen).
      exists k, n. split; [done|]. left. len_lia.
    + destruct fresh; cbn in *; len_lia.
    + destruct fresh; cbn in *; len_lia.
    + len_lia.
    + by rewrite <- app_assoc.
  - assert (fresh = false) as ->.
    { destruct fresh; [|done]. destruct (Hfresh eq_refl) as (l' & r' & c' & _ & Hc' & Hcl' & Hl').
      unfold label_ok, MaxLabelLength in Hl'. assert (c' = b) as -> by congruence. dlia. }
    rewrite land_pointer_byte by dlia. cbn [Z.eqb Pos.eqb].
    pose proof Hw as Hw'. unfold Uint16_at in Hw'. inv_bind Hw'.
    apply slice_inv in Ha as (_ & _ & Hle & _).
    bcase; [lia|]. rewrite Hw. cbn [mbind result_bind]. rewrite land_pointer by done.
    pose proof (name_at_pos _ _ _ _ Hn) as [Hqr _]. bcase; [lia|].
    assert (1 <= len ls) by (destruct Hst as (l & r & _ & -> & _); len_lia).
    cbn [Z.b2z] in *. bcase.
    { exfalso. match goal with H : bool_decide (q ∈ _) = true |- _ =>
        apply bool_decide_eq_true in H as Hv end. destruct (Hseen q Hv) as (k & n & Hk & Hlen).
      rewrite (name_at_det _ _ _ _ _ _ Hk Hn) in Hlen. destruct Hlen as [?|[? _]]; [lia|done]. }
    bcase; [lia|]. cbn [mbind result_bind].
    rewrite (IH fuel true); cbn [n_labels n_next n_curr n_jumps n_visited Z.b2z]; try done.
    + f_equal. f_equal. bcase; bcase; lia.
    + intros v [->%elem_of_singleton|Hv]%elem_of_union; [eauto 10|].
      destruct (Hseen v Hv) as (k & n & Hk & [?|[? _]]); [eauto 10|done].
    + lia.
    + lia.
Qed.

(** [decodeName] reads any [name_at] whose labels respect the limits. *)
Lemma decodeName_at p ls nxt :
  name_at data p ls nxt -> labels_ok ls -> decodeName data p = Ok (render ls, nxt).
Proof.
  intros Hn (_ & Hc & Ht). unfold decodeName. pose proof (name_at_pos _ _ _ _ Hn) as [? _].
  bcase; [lia|].
  rewrite (decodeName_loop_at _ _ _ Hn name_fuel false); cbn [n_labels n_jumps n_next Z.b2z];
    try done; unfold MaxLabels, name_fuel in *; lia.
Qed.
End decode_name.

(** ** Case folding of label sequences *)

(** A label the encoder can write: 1 to 63 ASCII bytes, none of them a dot. *)
Definition enc_label (l : bytes) : Prop :=
  label_ok l /\ all_ascii l = true /\ "."%char ∉ l.

Definition fold_case (ls : list bytes) : list bytes := map (map byte_to_lower) ls.

Lemma byte_to_lower_dot c : is_ascii c = true -> byte_to_lower c = "."%char -> c = "."%char.
Proof. intros Ha. apply byte_to_lower_fix; [done|]. left. vm_compute. reflexivity. Qed.

Lemma lower_no_dot l : all_ascii l = true -> "."%char ∉ l -> "."%char ∉ map byte_to_lower l.
Proof.
  induction l as [|c l IH]; [done|]. rewrite all_ascii_cons.
  intros [Hc Hl]%andb_true_iff [H1 H2]%not_elem_of_cons. cbn [map].
  apply not_elem_of_cons. split; [|auto]. intros E. symmetry in E.
  apply byte_to_lower_dot in E; [|done]. by subst.
Qed.

Lemma map_Join f ls sep : map f (Join ls sep) = Join (map (map f) ls) (map f sep).
Proof.
  induction ls as [|l ls IH]; [done|]. destruct ls as [|k ls]; [done|].
  cbn [map] in *. rewrite (Join_cons l), (Join_cons (map f l)) by done.
  by rewrite !map_app, IH.
Qed.

Lemma all_ascii_Join ls :
  Forall (fun l => all_ascii l = true) ls -> all_ascii (Join ls ".") = true.
Proof.
  induction 1 as [|l ls Hl Hls IH]; [done|]. destruct ls as [|k ls]; [done|].
  rewrite Join_cons by done. by rewrite !all_ascii_app, Hl, IH.
Qed.

Lemma enc_ascii ls : Forall enc_label ls -> Forall (fun l => all_ascii l = true) ls.
Proof. intros H. eapply Forall_impl; [exact H|]. by intros l (_ & ? & _). Qed.

Section keys.
Context {U : UnicodeTables}.

Lemma suffixKey_ascii ls :
  Forall enc_label ls -> suffixKey ls = Join (fold_case ls) "." ++ ".".
Proof.
  intros H. unfold suffixKey. rewrite ToLower_ascii.
  - rewrite map_app, map_Join. done.
  - by rewrite all_ascii_app, all_ascii_Join by by apply enc_ascii.
Qed.

Lemma suffixKey_inj ls ks :
  Forall enc_label ls -> Forall enc_label ks -> ls <> [] -> ks <> [] ->
  suffixKey ls = suffixKey ks -> fold_case ls = fold_case ks.
Proof.
  assert (forall ls, Forall enc_label ls ->
    Forall (fun l => "."%char ∉ l) (fold_case ls)) as Hnd.
  { intros l H. unfold fold_case. apply Forall_map. eapply Forall_impl; [exact H|].
    intros x (_ & ? & ?). by apply lower_no_dot. }
  intros Hl Hk Nl Nk. rewrite !suffixKey_ascii by done. intros E%app_inj_2; [|done].
  destruct E as [E _]. apply (f_equal (fun s => Split s "."%char)) in E.
  rewrite !Split_Join in E; auto; by destruct ls, ks.
Qed.

Lemma length_suffixKey_cons l ls :
  Forall enc_label (l :: ls) -> (length (suffixKey ls) < length (suffixKey (l :: ls)))%nat.
Proof.
  intros H. pose proof H as [Hl Hls]%Forall_cons. rewrite !suffixKey_ascii by done.
  destruct Hl as ([Hl _] & _). unfold len in Hl. rewrite !length_app.
  unfold fold_case. cbn [map]. destruct ls as [|k ls]; [cbn; rewrite length_map; lia|].
  rewrite Join_cons by done. rewrite !length_app, length_map. cbn. lia.
Qed.
End keys.

Lemma fold_case_len ls ks : fold_case ls = fold_case ks ->
  len ls = len ks /\ labelsTotal ls = labelsTotal ks.
Proof.
  revert ks. induction ls as [|l ls IH]; intros [|k ks]; try done. unfold fold_case.
  cbn [map]. intros E. injection E as E1 E2. apply IH in E2 as [E2 E3].
  rewrite !labelsTotal_cons. apply (f_equal len) in E1. len_lia.
Qed.

(** ** Writers only append

    [appends f]: [f] returns, keeps what was written, and what it adds depends
    on the length of the buffer but not on its content.  The last clause lets
    the proofs fill in the length field of a record, which the code patches
    after the RDATA, before the RDATA is written. *)

Definition appends (f : writer -> result error writer) : Prop :=
  forall buf comp,
    post (fun w' => exists out, w_buf w' = buf ++ out /\
            forall buf2, len buf2 = len buf ->
              f (mkWriter buf2 comp) = Ok (mkWriter (buf2 ++ out) (w_compression w')))
      (f (mkWriter buf comp)).

Lemma appends_Ok (g : writer -> writer) v :
  (forall w, g w = WriteBytes v w) -> appends (fun w => Ok (g w)).
Proof.
  intros Hg buf comp. cbn. rewrite Hg. exists v. split; [done|].
  intros buf2 _. rewrite Hg. done.
Qed.

Lemma appends_bind f g :
  appends f -> appends g -> appends (fun w => w' ← f w; g w').
Proof.
  intros Hf Hg buf comp. specialize (Hf buf comp).
  destruct (f (mkWriter buf comp)) as [w1|e| |] eqn:Ef; cbn in Hf |- *; try done.
  destruct Hf as (o1 & Hb1 & H1). specialize (Hg (w_buf w1) (w_compression w1)).
  destruct w1 as [b1 c1]; cbn in *. subst b1.
  destruct (g (mkWriter (buf ++ o1) c1)) as [w2|e| |]; cbn in Hg |- *; try done.
  destruct Hg as (o2 & Hb2 & H2). exists (o1 ++ o2). rewrite app_assoc. split; [done|].
  intros buf2 Hl. rewrite H1 by done. cbn [mbind result_bind].
  rewrite H2 by (rewrite !len_app; lia). by rewrite app_assoc.
Qed.

Lemma appends_pre f v : appends f -> appends (fun w => f (WriteBytes v w)).
Proof.
  intros Hf. apply (appends_bind (fun w => Ok (WriteBytes v w)) f); [|done].
  by apply (appends_Ok (WriteBytes v) v).
Qed.

Lemma appends_if (b : bool) e f : appends f -> appends (fun w => if b then Err e else f w).
Proof. intros Hf. destruct b; [by intros buf comp|done]. Qed.

Lemma appends_err e : appends (fun _ => Err e).
Proof. by intros buf comp. Qed.

Lemma appends_safe f w : appends f -> safe (f w).
Proof. intros H. destruct w as [buf comp]. eapply post_safe, H. Qed.

Lemma checkLabels_inv total ls n :
  checkLabels total ls = Ok n ->
  Forall label_ok ls /\ n = foldl (fun total lbl => total + (len lbl + 1)) total ls.
Proof.
  revert total. induction ls as [|l ls IH]; intros total; cbn [checkLabels foldl].
  { intros [= ->]. by split. }
  bcase; [done|]. bcase; [done|]. intros [H1 H2]%IH. split; [|done].
  constructor; [|done]. apply bool_decide_eq_false in Hb. apply Z.ltb_ge in Hb0.
  pose proof (len_nonneg l). split; [|done].
  destruct (Z.eq_dec (len l) 0) as [E|]; [by apply len_zero in E|lia].
Qed.

Section append_names.
Context {U : UnicodeTables}.

Lemma checkLabels_safe total ls : safe (checkLabels total ls).
Proof.
  revert total. induction ls as [|l ls IH]; intros total; cbn [checkLabels]; [done|].
  by repeat bcase.
Qed.

Lemma splitQName_safe raw : safe (splitQName raw).
Proof.
  unfold splitQName. cbv zeta. repeat (bcase; try done).
  all: apply safe_bind; [apply checkLabels_safe|]; intros total _; by bcase.
Qed.

Lemma writeLabels_appends ls : appends (writeLabels ls).
Proof.
  induction ls as [|l ls IH]; cbn [writeLabels].
  { by apply (appends_Ok (WriteByte 0) [byte_of_Z 0]). }
  intros buf comp. cbn [w_compression].
  destruct (comp !! suffixKey (l :: ls)) as [ptr|] eqn:E.
  - bcase; [done|]. cbn. eexists. split; [done|]. done.
  - set (comp' := <[suffixKey (l :: ls) := len buf]> comp).
    pose proof (appends_pre _ [byte_of_Z (len l)] (appends_pre _ l IH) buf comp') as H.
    cbv beta in H. unfold Len, WriteByte. cbn [w_buf].
    destruct (writeLabels ls _) as [w'|e| |] eqn:Ew in H; cbn in H; try done;
      subst comp'; rewrite Ew; [|done].
    destruct H as (out & Hb & H). exists out. split; [done|].
    intros buf2 Hl. rewrite Hl. by apply H.
Qed.

Lemma writeName_appends raw : appends (writeName raw).
Proof.
  unfold writeName. pose proof (splitQName_safe raw) as Hs.
  destruct (splitQName raw) as [ls|e| |]; try done.
  cbn. destruct (len ls =? 0); [|apply writeLabels_appends].
  by apply (appends_Ok (WriteByte 0) [byte_of_Z 0]).
Qed.

(** ** The compression map points at what was written *)

Definition entry_ok (buf k : bytes) (p : Z) : Prop :=
  exists ls nxt, name_at buf p ls nxt /\ label_start buf p ls
                 /\ Forall enc_label ls /\ suffixKey ls = k.

Definition inv (w : writer) : Prop :=
  forall k p, w_compression w !! k = Some p -> entry_ok (w_buf w) k p.

(** The entries of the suffixes of a name are completed as its tail is
    written; those with longer keys are still pending. *)
Definition inv_upto (n : nat) (w : writer) : Prop :=
  forall k p, w_compression w !! k = Some p -> (length k <= n)%nat -> entry_ok (w_buf w) k p.

Lemma entry_ok_app buf x k p : entry_ok buf k p -> entry_ok (buf ++ x) k p.
Proof.
  intros (ls & nxt & H1 & H2 & H3). exists ls, nxt.
  eauto using name_at_app, label_start_app.
Qed.

Lemma inv_WriteBytes v w : inv w -> inv (WriteBytes v w).
Proof. intros H k p Hk. by apply entry_ok_app, H. Qed.

Lemma suffixKey_fold ls ks :
  Forall enc_label ls -> Forall enc_label ks -> fold_case ls = fold_case ks ->
  suffixKey ls = suffixKey ks.
Proof. intros Hl Hk E. by rewrite !suffixKey_ascii, E. Qed.

Lemma writeLabels_spec ls w w' :
  Forall enc_label ls -> inv_upto (length (suffixKey ls)) w ->
  writeLabels ls w = Ok w' ->
  exists ls' out,
    w_buf w' = w_buf w ++ out /\ name_at (w_buf w') (Len w) ls' (Len w')
    /\ Forall enc_label ls' /\ fold_case ls' = fold_case ls
    /\ forall k p, w_compression w' !! k = Some p ->
         w_compression w !! k = Some p \/ entry_ok (w_buf w') k p.
Proof.
  revert w. induction ls as [|l ls IH]; intros w Hls Hinv Hw; cbn [writeLabels] in Hw.
  - injection Hw as <-. exists [], [byte_of_Z 0]. unfold Len. cbn. ands; try done; auto.
    rewrite len_app. eapply (na_end _ _ (byte_of_Z 0)); [|done]. by apply index_app_at.
  - destruct (w_compression w !! suffixKey (l :: ls)) as [q|] eqn:Eq.
    + bcase_in Hw; [done|]. injection Hw as <-.
      destruct (Hinv _ _ Eq ltac:(done)) as (ks & nxt & Hn & Hst & Hks & Hkey).
      pose proof (name_at_pos _ _ _ _ Hn) as [Hq _].
      assert (0 <= q < 2 ^ 14) as Hq14 by (apply Z.ltb_ge in Hb; lia).
      exists ks, (PutUint16 (49152 + q)). rewrite lor_pointer, u16_small by lia.
      unfold Len. cbn [WriteUint16 WriteBytes w_buf w_compression]. ands; auto.
      * rewrite len_app, len_PutUint16.
        apply (na_ptr _ _ (byte_of_Z (Z.shiftr (49152 + q) 8)) q ks nxt);
          auto using name_at_app, label_start_app.
        -- by apply index_app_at.
        -- rewrite Z_of_byte_of_Z, Z.shiftr_div_pow2 by lia. dlia.
        -- rewrite <- (app_nil_r (PutUint16 _)), Uint16_at_app by done.
           by rewrite u16_small by lia.
      * apply suffixKey_inj; try done.
        destruct Hst as (? & ? & ? & -> & _). done.
    + pose proof Hls as [Hl Hrest]%Forall_cons. destruct Hl as (Hlok & Hasc & Hdot).
      pose proof (length_suffixKey_cons _ _ Hls) as Hlt.
      set (w2 := WriteBytes l _) in Hw.
      assert (w_buf w2 = w_buf w ++ byte_of_Z (len l) :: l) as Hb2
        by (subst w2; cbn; by rewrite <- app_assoc).
      assert (forall k p, w_compression w2 !! k = Some p ->
        (k = suffixKey (l :: ls) /\ p = Len w) \/ w_compression w !! k = Some p) as Hc2.
      { subst w2. cbn. intros k p [[<- <-]|[_ H]]%lookup_insert_Some; auto. }
      apply IH in Hw as (ls' & out & Hbuf & Hn & Hls' & Hfold & Hent); [|done|].
      2:{ intros k p [[-> ->]|Hk]%Hc2 Hlen; [lia|]. rewrite Hb2.
          apply entry_ok_app, Hinv; [done|lia]. }
      rewrite Hb2, <- app_assoc in Hbuf. cbn [app] in Hbuf.
      assert (Z_of_byte (byte_of_Z (len l)) = len l) as Hlb.
      { unfold label_ok, MaxLabelLength in Hlok. rewrite Z_of_byte_of_Z. apply Z.mod_small. lia. }
      assert (@index error _ (w_buf w') (Len w) = Ok (byte_of_Z (len l))) as Hidx
        by (rewrite Hbuf; by apply index_app_at).
      assert (name_at (w_buf w') (Len w) (l :: ls') (Len w')) as Hname.
      { eapply na_label; eauto.
        - rewrite Hbuf.
          replace (w_buf w ++ byte_of_Z (len l) :: l ++ out)
            with ((w_buf w ++ [byte_of_Z (len l)]) ++ l ++ out) by by rewrite <- app_assoc.
          apply slice_app_at; unfold Len; len_lia.
        - replace (Len w + 1 + len l) with (Len w2); [done|].
          unfold Len. rewrite Hb2. len_lia. }
      assert (Forall enc_label (l :: ls')) as Henc by by constructor.
      assert (fold_case (l :: ls') = fold_case (l :: ls)) as Hfc
        by (unfold fold_case in *; cbn [map]; by rewrite Hfold).
      exists (l :: ls'), (byte_of_Z (len l) :: l ++ out). ands; auto.
      intros k p Hk. apply Hent in Hk as [[[-> ->]|Hk]%Hc2|Hk]; auto.
      right. exists (l :: ls'), (Len w'). ands; auto using suffixKey_fold.
      exists l, ls', (byte_of_Z (len l)). auto.
Qed.

(** ** Whole names *)

Lemma splitQName_inv raw ls :
  splitQName raw = Ok ls -> all_ascii raw = true -> Forall enc_label ls /\ labels_ok ls.
Proof.
  intros H Ha. unfold splitQName in H. cbv zeta in H.
  assert (Forall enc_label [] /\ labels_ok []) as Hnil.
  { split; [constructor|]. split; [constructor|]. done. }
  bcase_in H; [by injection H as <-|].
  set (name := if HasSuffix _ _ then _ else _) in H.
  assert (all_ascii (TrimSuffix name ".") = true) as Hname.
  { apply all_ascii_TrimSuffix. subst name. bcase; rewrite ?all_ascii_app;
      by rewrite all_ascii_TrimSpace. }
  clearbody name. bcase_in H; [by injection H as <-|].
  set (labels := Split _ _) in H. bcase_in H; [done|]. inv_bind H.
  bcase_in H; [done|]. injection H as <-.
  pose proof (checkLabels_inv _ _ _ Ha0) as [Hok Htot].
  assert (Forall enc_label labels) as Henc; [|split; [done|]].
  - apply Forall_forall. intros l Hl. rewrite Forall_forall in Hok.
    split; [auto|]. split; [|by eapply Split_no_sep].
    eapply all_ascii_Split; eauto.
  - split; [done|]. unfold labelsTotal. rewrite <- Htot. lia.
Qed.

(** The presentation form under which a name is written. *)
Definition wire_name (raw : bytes) : bytes :=
  match splitQName raw with Ok ls => render ls | _ => raw end.

(** The decoded name is the written one up to the case of letters, which the
    compression map ignores. *)
Definition same_name (raw name : bytes) : Prop :=
  map byte_to_lower name = map byte_to_lower (wire_name raw).

Lemma render_fold ls ks :
  fold_case ls = fold_case ks -> map byte_to_lower (render ls) = map byte_to_lower (render ks).
Proof.
  intros E. assert (forall ls, map byte_to_lower (render ls) = render (fold_case ls)) as H.
  { intros [|l k]; [done|]. unfold render. rewrite map_app, map_Join. done. }
  by rewrite !H, E.
Qed.

Lemma labels_ok_fold ls ks :
  Forall enc_label ks -> fold_case ks = fold_case ls -> labels_ok ls -> labels_ok ks.
Proof.
  intros Hk E (_ & H2 & H3). apply fold_case_len in E as [E1 E2].
  split; [|lia]. eapply Forall_impl; [exact Hk|]. by intros ? [? _].
Qed.

(** Reading back a name that was written, in any buffer that extends the one
    of the writer. *)
Lemma writeName_spec raw w w' :
  writeName raw w = Ok w' -> all_ascii raw = true -> inv w ->
  inv w' /\ w_buf w `prefix_of` w_buf w' /\
  exists name, same_name raw name /\
    forall data, w_buf w' `prefix_of` data -> decodeName data (Len w) = Ok (name, Len w').
Proof.
  intros H Ha Hinv. unfold writeName in H. inv_bind H. rename a into ls.
  destruct (splitQName_inv _ _ Ha0 Ha) as [Henc Hok].
  assert (forall w', writeLabels ls w = Ok w' ->
    inv w' /\ w_buf w `prefix_of` w_buf w' /\
    exists name, same_name raw name /\
      forall data, w_buf w' `prefix_of` data -> decodeName data (Len w) = Ok (name, Len w')) as Hw.
  { intros w2 H2. apply writeLabels_spec in H2 as (ks & out & Hb & Hn & Hk & Hf & He);
      [|done|intros k p Hk _; auto].
    split; [|split].
    - intros k p Hkp. destruct (He _ _ Hkp) as [Hold|]; [|done].
      rewrite Hb. by apply entry_ok_app, Hinv.
    - by exists out.
    - exists (render ks). split.
      + unfold same_name, wire_name. rewrite Ha0. by apply render_fold.
      + intros data [suf ->]. apply decodeName_at; [by apply name_at_app|].
        by eapply labels_ok_fold. }
  bcase_in H; [|by apply Hw]. apply Hw. apply Z.eqb_eq, len_zero in Hb as ->. done.
Qed.
End append_names.
