(* ===== verification/WireRData.v ===== *)
(** * RDATA on the wire: the parser of each record type reads back what the
    writer of that type wrote. *)

From S2P Require Import Prelude.
From S2P Require Import GoStrings.
From S2P Require Import Protocol.
From S2P Require Import Decoder.
From S2P Require Import Encoder.
From S2P Require Import WireNames.

#[local] Open Scope go_scope.

(** ** What is equal after a round trip *)

(** Applies [f] to every name of the data. *)
Definition map_names (f : bytes -> bytes) (d : RData) : RData :=
  match d with
  | CNAMEData n => CNAMEData (f n)
  | NSData n => NSData (f n)
  | PTRData n => PTRData (f n)
  | MXData p n => MXData p (f n)
  | SOAData m r s x y e u => SOAData (f m) (f r) s x y e u
  | SRVData p w q n => SRVData p w q (f n)
  | RRSIGData c a l o e i k n s => RRSIGData c a l o e i k (f n) s
  | NSECData n b => NSECData (f n) b
  | _ => d
  end.

Definition lower (s : bytes) : bytes := map byte_to_lower s.

Definition same_rdata (d d' : RData) : Prop :=
  map_names lower d' = map_names (fun n => lower (wire_name n)) d.

(** ** What can be encoded faithfully *)

Definition known_type (t : Z) : bool :=
  bool_decide (t ∈ [TypeA; TypeAAAA; TypeCNAME; TypeNS; TypePTR; TypeMX; TypeSOA; TypeTXT;
    TypeSRV; TypeCAA; TypeRRSIG; TypeDNSKEY; TypeDS; TypeNSEC; TypeNSEC3; TypeOPT]).

(** Numeric fields in the range of their Go types, addresses of the length of
    their family, ASCII names. *)
Definition rdata_ok (d : RData) : Prop :=
  match d with
  | AData ip => len ip = 4
  | AAAAData ip => len ip = 16
  | CNAMEData n | NSData n | PTRData n => all_ascii n = true
  | MXData p n => is_u16 p /\ all_ascii n = true
  | SOAData m r s f t e u =>
      all_ascii m = true /\ all_ascii r = true
      /\ is_u32 s /\ is_u32 f /\ is_u32 t /\ is_u32 e /\ is_u32 u
  | TXTData ts => True
  | SRVData p w q n => is_u16 p /\ is_u16 w /\ is_u16 q /\ all_ascii n = true
  | CAAData f t _ => is_u8 f
  | RRSIGData c a l o e i k n _ =>
      is_u16 c /\ is_u8 a /\ is_u8 l /\ is_u32 o /\ is_u32 e /\ is_u32 i /\ is_u16 k
      /\ all_ascii n = true
  | DNSKEYData f p a _ => is_u16 f /\ is_u8 p /\ is_u8 a
  | DSData k a t _ => is_u16 k /\ is_u8 a /\ is_u8 t
  | NSECData n _ => all_ascii n = true
  | NSEC3Data h f i s x _ => is_u8 h /\ is_u8 f /\ is_u16 i
  | OPTData _ _ _ _ _ => True
  | UnknownData t _ => known_type t = false
  end.

(** ** Reading back single fields *)

Lemma Len_WriteBytes v w : Len (WriteBytes v w) = Len w + len v.
Proof. unfold Len. apply len_app. Qed.
Lemma Len_WriteByte v w : Len (WriteByte v w) = Len w + 1.
Proof. apply Len_WriteBytes. Qed.
Lemma Len_WriteUint16 v w : Len (WriteUint16 v w) = Len w + 2.
Proof. apply Len_WriteBytes. Qed.
Lemma Len_WriteUint32 v w : Len (WriteUint32 v w) = Len w + 4.
Proof. apply Len_WriteBytes. Qed.
Lemma Len_nonneg w : 0 <= Len w.
Proof. apply len_nonneg. Qed.

#[export] Hint Rewrite Len_WriteBytes Len_WriteByte Len_WriteUint16 Len_WriteUint32 : go_len.

Lemma prefix_WriteBytes v w data :
  w_buf (WriteBytes v w) `prefix_of` data -> w_buf w `prefix_of` data.
Proof. intros H. etrans; [|exact H]. by exists v. Qed.
Lemma prefix_len {A} (l k : list A) : l `prefix_of` k -> len l <= len k.
Proof. intros [s ->]. len_lia. Qed.

Section fields.
Context (data : bytes) (w : writer).

Lemma read_bytes v a b :
  w_buf (WriteBytes v w) `prefix_of` data -> a = Len w -> b = a + len v ->
  @slice error _ data a b = Ok v.
Proof.
  intros [suf ->] -> ->. cbn. rewrite <- app_assoc. by apply slice_app_at.
Qed.

Lemma read_byte v a :
  w_buf (WriteByte v w) `prefix_of` data -> a = Len w ->
  @index error _ data a = Ok (byte_of_Z v).
Proof. intros [suf ->] ->. cbn. rewrite <- app_assoc. by apply index_app_at. Qed.

Lemma read_Uint16 v a b :
  w_buf (WriteUint16 v w) `prefix_of` data -> a = Len w -> b = a + 2 ->
  Uint16_at data a b = Ok (u16 v).
Proof. intros [suf ->] -> ->. cbn. rewrite <- app_assoc. by apply Uint16_at_app. Qed.

Lemma read_Uint32 v a b :
  w_buf (WriteUint32 v w) `prefix_of` data -> a = Len w -> b = a + 4 ->
  Uint32_at data a b = Ok (u32 v).
Proof. intros [suf ->] -> ->. cbn. rewrite <- app_assoc. by apply Uint32_at_app. Qed.
End fields.

(** ** RDATA *)

(** Derives that every earlier writer is a prefix of the data. *)
Ltac prefixes :=
  repeat match goal with
  | H : w_buf (?f ?v ?w) `prefix_of` ?d |- _ =>
      lazymatch goal with
      | _ : w_buf w `prefix_of` d |- _ => fail
      | _ => pose proof (prefix_WriteBytes _ w d H : w_buf w `prefix_of` d)
      end
  | H : w_buf ?w' `prefix_of` ?d, H1 : w_buf ?w `prefix_of` w_buf ?w' |- _ =>
      lazymatch goal with
      | _ : w_buf w `prefix_of` d |- _ => fail
      | _ => pose proof (transitivity H1 H : w_buf w `prefix_of` d)
      end
  end;
  repeat match goal with
  | H : w_buf ?w `prefix_of` ?d |- _ =>
      lazymatch goal with
      | _ : Len w <= len d |- _ => fail
      | _ => pose proof (prefix_len _ _ H : Len w <= len d); pose proof (Len_nonneg w)
      end
  end.

(** Decides the tests on closed types. *)
Ltac closed_tests :=
  repeat match goal with
  | |- context [if ?a =? ?b then _ else _] =>
      let r := eval vm_compute in (a =? b) in
      lazymatch r with
      | true => change (a =? b) with true; cbv iota
      | false => change (a =? b) with false; cbv iota
      end
  end.

Ltac pos := len_lia.

(** Reads the field at the head of the goal from the writer that wrote it. *)
Ltac read_step :=
  match goal with
  | |- mbind _ (Uint16_at ?d ?a ?b) = _ =>
      match goal with H : w_buf (WriteUint16 ?v ?w) `prefix_of` d |- _ =>
        rewrite (read_Uint16 d w v a b H) by pos end
  | |- mbind _ (Uint32_at ?d ?a ?b) = _ =>
      match goal with H : w_buf (WriteUint32 ?v ?w) `prefix_of` d |- _ =>
        rewrite (read_Uint32 d w v a b H) by pos end
  | |- mbind _ (index ?d ?a) = _ =>
      match goal with H : w_buf (WriteByte ?v ?w) `prefix_of` d |- _ =>
        rewrite (read_byte d w v a H) by pos end
  | |- mbind _ (slice ?d ?a ?b) = _ =>
      match goal with H : w_buf (WriteBytes ?v ?w) `prefix_of` d |- _ =>
        rewrite (read_bytes d w v a b H) by pos end
  | |- mbind _ (decodeName ?d ?a) = _ =>
      match goal with
      | H : w_buf ?w' `prefix_of` d,
        Hn : forall d, w_buf ?w' `prefix_of` d -> decodeName d (Len ?w) = _ |- _ =>
          replace a with (Len w) by pos; rewrite (Hn d H)
      end
  end; cbn [mbind result_bind].

Ltac reads := repeat first [read_step | bcase; [exfalso; pos|]].

Lemma u8_byte v : is_u8 v -> Z_of_byte (byte_of_Z v) = v.
Proof. intros H. rewrite Z_of_byte_of_Z. apply Z.mod_small. exact H. Qed.

Section rdata.
Context {U : UnicodeTables}.

Lemma writeName_Len raw w w' :
  writeName raw w = Ok w' -> all_ascii raw = true -> inv w -> Len w + 1 <= Len w'.
Proof.
  intros H Ha Hi. destruct (writeName_spec _ _ _ H Ha Hi) as (_ & _ & n & _ & Hn).
  specialize (Hn (w_buf w') ltac:(done)).
  pose proof (post_ok _ _ _ (decodeName_post (w_buf w') (Len w) (Len_nonneg w)) Hn) as [_ ?].
  cbn in *. lia.
Qed.

Lemma writeTexts_inv texts w w' :
  writeTexts texts w = Ok w' -> inv w -> inv w' /\ w_buf w `prefix_of` w_buf w'.
Proof.
  revert w. induction texts as [|s texts IH]; intros w H Hi; cbn [writeTexts] in H.
  { by injection H as <-. }
  bcase_in H; [done|]. apply IH in H as [? Hp]; [|by do 2 apply inv_WriteBytes].
  split; [done|]. by do 2 apply prefix_WriteBytes in Hp.
Qed.

Definition extends (w w' : writer) : Prop := inv w' /\ w_buf w `prefix_of` w_buf w'.

Lemma extends_WriteBytes v w w' : extends w w' -> extends w (WriteBytes v w').
Proof. intros [H1 H2]. split; [by apply inv_WriteBytes|]. etrans; [exact H2|]. by exists v. Qed.

Lemma extends_writeName raw w w1 w2 :
  writeName raw w1 = Ok w2 -> all_ascii raw = true -> extends w w1 -> extends w w2.
Proof.
  intros H Ha [Hi Hp]. destruct (writeName_spec _ _ _ H Ha Hi) as (? & ? & _).
  split; [done|]. by etrans.
Qed.

Lemma extends_refl w : inv w -> extends w w.
Proof. by split. Qed.

Lemma writeRData_extends d w w' :
  writeRData d w = Ok w' -> rdata_ok d -> inv w -> extends w w'.
Proof.
  intros H Hd Hi. apply extends_refl in Hi.
  destruct d; cbn [writeRData rdata_ok] in *; cbv zeta in *;
    repeat match goal with H : _ /\ _ |- _ => destruct H end;
    repeat (bcase_in H; [done|]); repeat inv_bind H;
    try (injection H as <-); eauto 20 using extends_WriteBytes, extends_writeName.
  apply writeTexts_inv in H as []; by destruct Hi.
Qed.

Lemma writeTexts_read texts w w' data fuel acc :
  writeTexts texts w = Ok w' -> inv w -> w_buf w' `prefix_of` data ->
  Len w' - Len w < Z.of_nat fuel ->
  parseTXT_loop fuel data (Len w) (Len w') acc = Ok (acc ++ texts).
Proof.
  revert w fuel acc. induction texts as [|s texts IH]; intros w fuel acc H Hi Hp Hf;
    cbn [writeTexts] in H.
  - injection H as <-. destruct fuel; [lia|]. cbn [parseTXT_loop]. bcase; [lia|].
    by rewrite app_nil_r.
  - bcase_in H; [done|]. cbv zeta in H.
    set (w2 := WriteBytes s _) in H.
    assert (inv w2) as Hi2 by by do 2 apply inv_WriteBytes.
    destruct (writeTexts_inv _ _ _ H Hi2) as [_ Hp2].
    assert (w_buf w2 `prefix_of` data) as Hd by by etrans.
    pose proof (prefix_len _ _ Hp2) as Hlen. unfold w2 in *. fold w2 in H.
    prefixes. pose proof (len_nonneg s).
    fold (Len w') (Len (WriteBytes s (WriteByte (len s) w))) in Hlen.
    destruct fuel as [|fuel]; [pos|]. cbn [parseTXT_loop].
    bcase; [|pos]. read_step. cbv zeta.
    assert (Z_of_byte (byte_of_Z (len s)) = len s) as ->
      by (apply u8_byte; unfold is_u8; lia).
    reads. replace (Len w + 1 + len s) with (Len w2) by (unfold w2; pos).
    rewrite (IH _ _ _ H) by (done || unfold w2; pos). by rewrite <- app_assoc.
Qed.
End rdata.

(** The name facts of a successful [writeName], ready for [read_step]. *)
Ltac use_name H :=
  let Hn := fresh "Hn" in let Hs := fresh "Hs" in let He := fresh "He" in
  let Hi := fresh "Hi" in let Hp := fresh "Hp" in let n := fresh "n" in
  match type of H with
  | writeName ?raw ?w1 = Ok ?w2 =>
      assert (inv w1) as Hi by (repeat apply inv_WriteBytes; assumption);
      pose proof (writeName_Len _ _ _ H ltac:(eassumption) Hi) as He;
      destruct (writeName_spec _ _ _ H ltac:(eassumption) Hi) as (? & Hp & n & Hs & Hn);
      clear H
  end.

Ltac small := rewrite ?u16_small, ?u32_small, ?u8_byte by (assumption || unfold is_u8; len_lia).

Ltac finish_read :=
  prefixes; unfold parseRData, parse_signed; cbv zeta; bcase; [exfalso; pos|];
  closed_tests; repeat (reads; small; cbv zeta); reflexivity.

Ltac finish_same :=
  unfold same_rdata, same_name in *; cbn [map_names]; unfold lower; congruence.

Section rdata_read.
Context {U : UnicodeTables}.

Lemma writeRData_read d w w' :
  writeRData d w = Ok w' -> rdata_ok d -> recordType d <> TypeOPT -> inv w ->
  exists d', same_rdata d d' /\
    forall data, w_buf w' `prefix_of` data ->
      parseRData data (Len w) (Len w' - Len w) (recordType d) = Ok d'.
Proof.
  intros H Hd Ht Hi.
  destruct d; cbn [writeRData rdata_ok recordType] in *; cbv zeta in *;
    repeat match goal with H : _ /\ _ |- _ => destruct H end;
    repeat (bcase_in H; [done|]); repeat inv_bind H;
    try (injection H as <-); try done;
    repeat match goal with H : writeName _ _ = Ok _ |- _ => use_name H end.
  all: try (eexists; split; cycle 1; [intros data Hdata; finish_read|finish_same]).
  - exists (TXTData Texts). split; [done|]. intros data Hdata.
    destruct (writeTexts_inv _ _ _ H Hi) as [_ Hp].
    pose proof (prefix_len _ _ Hp : Len w <= Len w'). prefixes.
    unfold parseRData, parse_signed. cbv zeta. bcase; [exfalso; pos|]. closed_tests.
    replace (Len w + (Len w' - Len w)) with (Len w') by lia.
    by rewrite (writeTexts_read _ _ _ _ _ _ H Hi Hdata) by lia.
  - exists (UnknownData Type_ Data). split; [done|]. intros data Hdata. prefixes.
    unfold parseRData, parse_signed. cbv zeta. bcase; [exfalso; pos|].
    apply bool_decide_eq_false in Hd.
    repeat (bcase; [exfalso; apply Hd; match goal with H : (Type_ =? _) = true |- _ =>
      apply Z.eqb_eq in H as ->; repeat constructor end|]).
    by reads.
Qed.
End rdata_read.
