(* ===== verification/WireRoundtrip.v ===== *)
(** * The wire round trip: decoding what the encoder wrote.

    [Encode_Decode] states the contract of internal/protocol: a message the
    encoder accepts is decoded to the same message, up to the letter case of
    names (the compression map ignores it) and to the normalised form in which
    names are written. *)

From S2P Require Import Prelude.
From S2P Require Import GoStrings.
From S2P Require Import Protocol.
From S2P Require Import Decoder.
From S2P Require Import Encoder.
From S2P Require Import WireNames.
From S2P Require Import WireRData.

#[local] Open Scope go_scope.

(** ** What is equal after a round trip *)

Definition same_question (q q' : Question) : Prop :=
  same_name (q_Name q) (q_Name q') /\ q_Type q' = q_Type q /\ q_Class q' = q_Class q.

Definition same_record (rr rr' : ResourceRecord) : Prop :=
  same_name (rr_Name rr) (rr_Name rr') /\ rr_Type rr' = rr_Type rr
  /\ rr_Class rr' = rr_Class rr /\ rr_TTL rr' = rr_TTL rr
  /\ exists d d', rr_Data rr = Some d /\ rr_Data rr' = Some d' /\ same_rdata d d'.

Record same_message (m m' : Message) : Prop := {
  sm_header : m_Header m' = m_Header m;
  sm_questions : Forall2 same_question (m_Questions m) (m_Questions m');
  sm_answers : Forall2 same_record (m_Answers m) (m_Answers m');
  sm_authorities : Forall2 same_record (m_Authorities m) (m_Authorities m');
  sm_additionals : Forall2 same_record (m_Additionals m) (m_Additionals m')
}.

(** ** What can be encoded faithfully *)

Definition question_ok (q : Question) : Prop :=
  all_ascii (q_Name q) = true /\ is_u16 (q_Type q) /\ is_u16 (q_Class q).

(** The fields of OPT data repeat the class and the TTL of the record. *)
Definition opt_matches (rr : ResourceRecord) (d : RData) : Prop :=
  match d with
  | OPTData u e v f _ =>
      u = rr_Class rr /\ e = Z.land (Z.shiftr (rr_TTL rr) 24) 0xFF
      /\ v = Z.land (Z.shiftr (rr_TTL rr) 16) 0xFF /\ f = Z.land (rr_TTL rr) 0xFFFF
  | _ => True
  end.

Definition record_ok (rr : ResourceRecord) : Prop :=
  all_ascii (rr_Name rr) = true /\ is_u16 (rr_Type rr) /\ is_u16 (rr_Class rr)
  /\ is_u32 (rr_TTL rr)
  /\ exists d, rr_Data rr = Some d /\ recordType d = rr_Type rr /\ rdata_ok d
     /\ opt_matches rr d.

Record message_ok (m : Message) : Prop := {
  mo_header : Header_wf (m_Header m);
  mo_questions : Forall question_ok (m_Questions m);
  mo_answers : Forall record_ok (m_Answers m);
  mo_authorities : Forall record_ok (m_Authorities m);
  mo_additionals : Forall record_ok (m_Additionals m)
}.

(** ** Records, questions and sections *)

Section records.
Context {U : UnicodeTables}.

Lemma encodeRData_write rr d w :
  rr_Data rr = Some d -> recordType d = rr_Type rr ->
  encodeRData (rr_Type rr) (rr_Data rr) (rr_RawRData rr) w = writeRData d w.
Proof. intros -> Ht. unfold encodeRData. by destruct d; destruct (_ =? _). Qed.

Lemma appends_ret : appends (fun w => Ok w).
Proof.
  apply (appends_Ok (fun w => w) []). intros [buf comp]. unfold WriteBytes. cbn.
  by rewrite app_nil_r.
Qed.

Lemma appends_write v : appends (fun w => Ok (WriteBytes v w)).
Proof. by apply (appends_Ok (WriteBytes v) v). Qed.

Lemma appends_comp f (g : writer -> writer) :
  appends f -> appends (fun w => Ok (g w)) -> appends (fun w => f (g w)).
Proof. intros Hf Hg. by apply (appends_bind (fun w => Ok (g w)) f). Qed.

(** Peels the writers of a goal [appends _], the last one first. *)
Ltac solve_appends :=
  repeat match goal with
  | |- appends (fun w => if _ then Err _ else _) => apply appends_if
  | |- appends (fun w => Ok w) => apply appends_ret
  | |- appends (fun w => Ok (WriteBytes ?v (@?g w))) =>
      apply (appends_comp (fun w => Ok (WriteBytes v w)) g); [apply appends_write|]
  | |- appends (fun w => Ok (WriteByte ?v (@?g w))) =>
      apply (appends_comp (fun w => Ok (WriteByte v w)) g); [apply (appends_write [byte_of_Z v])|]
  | |- appends (fun w => Ok (WriteUint16 ?v (@?g w))) =>
      apply (appends_comp (fun w => Ok (WriteUint16 v w)) g); [apply (appends_write (PutUint16 v))|]
  | |- appends (fun w => Ok (WriteUint32 ?v (@?g w))) =>
      apply (appends_comp (fun w => Ok (WriteUint32 v w)) g); [apply (appends_write (PutUint32 v))|]
  | |- appends (fun w => writeName ?n (@?g w)) =>
      apply (appends_comp (writeName n) g); [apply writeName_appends|]
  | |- appends (fun w => mbind ?k (writeName ?n (@?g w))) =>
      apply (appends_bind (fun w => writeName n (g w)) k)
  end.

Lemma writeTexts_appends texts : appends (writeTexts texts).
Proof.
  induction texts as [|s texts IH]; cbn [writeTexts].
  { apply appends_ret. }
  apply appends_if. apply (appends_pre (fun w => writeTexts texts (WriteBytes s w))).
  by apply appends_pre.
Qed.

Lemma writeRData_appends d : appends (writeRData d).
Proof.
  destruct d; unfold writeRData; cbv zeta.
  all: eauto using writeTexts_appends; by solve_appends.
Qed.

(** The length field is patched after the RDATA is written; as writing only
    appends, the result is as if the right length had been there before. *)
Lemma encodeResourceRecord_inv rr d w w' :
  rr_Data rr = Some d -> recordType d = rr_Type rr ->
  encodeResourceRecord rr w = Ok w' ->
  exists w1, writeName (rr_Name rr) w = Ok w1 /\
    let w2 := WriteUint32 (rr_TTL rr) (WriteUint16 (rr_Class rr) (WriteUint16 (rr_Type rr) w1)) in
    let rdLen := Len w' - (Len w2 + 2) in
    rdLen <= 65535 /\ writeRData d (WriteUint16 rdLen w2) = Ok w'.
Proof.
  intros Hd Ht H. unfold encodeResourceRecord in H. inv_bind H. rename a into w1.
  exists w1. split; [done|]. cbv zeta in *. set (w2 := WriteUint32 _ _) in *.
  clearbody w2. rewrite (encodeRData_write rr d) in H by done. inv_bind H. rename a into w4.
  bcase_in H; [done|]. unfold SetUint16 in H. inv_bind H. clear a Ha1.
  pose proof (writeRData_appends d (w_buf (WriteUint16 0 w2)) (w_compression w2)) as Happ.
  assert (writeRData d (mkWriter (w_buf (WriteUint16 0 w2)) (w_compression w2)) = Ok w4) as E
    by done. rewrite E in Happ. destruct Happ as (out & Hbuf & Hre).
  match type of H with Ok ?x = _ => assert (x = w') as <- by congruence end. clear H.
  set (r := Len w4 - Len (WriteUint16 0 w2)) in *.
  assert (Len w4 = Len w2 + 2 + len out) as Hl4.
  { unfold Len. rewrite Hbuf. cbn. len_lia. }
  assert (r = len out) as Hr by (unfold r; len_lia).
  assert (sub (w_buf w4) 0 (Len w2) = w_buf w2) as ->.
  { rewrite Hbuf. cbn. rewrite <- !app_assoc. apply (sub_app_at []); [done|]. unfold Len. lia. }
  assert (sub (w_buf w4) (Len w2 + 2) (Len w4) = out) as ->.
  { rewrite Hbuf. rewrite <- (app_nil_r out) at 1. apply sub_app_at; [|lia].
    unfold Len. cbn. len_lia. }
  pose proof (len_nonneg out).
  assert (Len (mkWriter (w_buf w2 ++ PutUint16 (u16 r) ++ out) (w_compression w4))
    = Len w2 + 2 + len out) as Hlen by (unfold Len; cbn; len_lia).
  rewrite Hlen. replace (Len w2 + 2 + len out - (Len w2 + 2)) with r by lia.
  split; [lia|]. rewrite u16_small by lia.
  specialize (Hre (w_buf w2 ++ PutUint16 r)). rewrite <- app_assoc in Hre. apply Hre.
  cbn. len_lia.
Qed.

(** [Enc] writes an item, [Dec] reads it back as a related one. *)
Definition reads_back {A} (enc : A -> writer -> result error writer)
    (dec : bytes -> Z -> result error (A * Z)) (ok : A -> Prop) (same : A -> A -> Prop) : Prop :=
  forall x w w', enc x w = Ok w' -> ok x -> inv w ->
    extends w w' /\
    exists y, same x y /\ forall data, w_buf w' `prefix_of` data -> dec data (Len w) = Ok (y, Len w').

Lemma question_reads_back :
  reads_back encodeQuestion decodeQuestion question_ok same_question.
Proof.
  intros [n t c] w w' H (Ha & Ht & Hc) Hi. unfold encodeQuestion in H. cbn in Ha, Ht, Hc.
  inv_bind H. cbn in Ha0. injection H as <-. rename a into w1, Ha0 into H1.
  split.
  { do 2 apply extends_WriteBytes. eauto using extends_writeName, extends_refl. }
  use_name H1. exists (mkQuestion n0 t c). split; [done|]. intros data Hdata. prefixes.
  unfold decodeQuestion. reads. small. cbv zeta. f_equal. f_equal. pos.
Qed.

(** The typed data of a record: from the fixed fields for OPT, parsed
    otherwise. *)
Lemma record_data_read rr d w3 w' r :
  recordType d = rr_Type rr -> rdata_ok d -> opt_matches rr d ->
  inv w3 -> r = Len w' - Len w3 -> writeRData d w3 = Ok w' ->
  let raw := sub (w_buf w') (Len w3) (Len w') in
  exists d', same_rdata d d' /\ forall data, w_buf w' `prefix_of` data ->
    (rr_Type rr = TypeOPT /\
     d' = OPTData (rr_Class rr) (Z.land (Z.shiftr (rr_TTL rr) 24) 0xFF)
            (Z.land (Z.shiftr (rr_TTL rr) 16) 0xFF) (Z.land (rr_TTL rr) 0xFFFF) raw)
    \/ (rr_Type rr <> TypeOPT /\ parseRData data (Len w3) r (rr_Type rr) = Ok d').
Proof.
  intros Hdt Hdok Hopt Hi -> Hw raw. rewrite <- Hdt.
  destruct (decide (recordType d = TypeOPT)) as [E|E].
  - destruct d as [| | | | | | | | | | | | | | |u e v f o|t bs]; try done;
      [|exfalso; cbn in E, Hdok; rewrite E in Hdok; vm_compute in Hdok; discriminate].
    destruct Hopt as (-> & -> & -> & ->). match type of Hw with writeRData ?d _ = _ => exists d end.
    split; [done|].
    intros data _. left. split; [done|]. f_equal. unfold raw.
    cbn in Hw. injection Hw as <-. cbn [WriteBytes w_buf]. symmetry.
    rewrite <- (app_nil_r (w_buf w3 ++ o)), <- app_assoc. apply sub_app_at; [done|pos].
  - destruct (writeRData_read _ _ _ Hw Hdok E Hi) as (d' & Hs & Hrd).
    exists d'. split; [done|]. auto.
Qed.

Lemma record_reads_back :
  reads_back encodeResourceRecord decodeResourceRecord record_ok same_record.
Proof.
  intros rr w w' H (Ha & Ht & Hc & Httl & d & Hd & Hdt & Hdok & Hopt) Hi.
  destruct (encodeResourceRecord_inv _ _ _ _ Hd Hdt H) as (w1 & H1 & Hlen & Hw).
  clear H. cbv zeta in *. use_name H1.
  autorewrite with go_len in Hlen, Hw.
  set (r := Len w' - _) in *. remember (WriteUint16 r _) as w3 eqn:E3.
  assert (Len w3 = Len w1 + 10) as Hl3 by (rewrite E3; pos).
  assert (r = Len w' - Len w3) as Hr by lia.
  assert (extends w w3) as [Hi3 Hp3] by (subst w3; by do 4 apply extends_WriteBytes).
  destruct (writeRData_extends _ _ _ Hw Hdok Hi3) as [Hi' Hp'].
  split; [split; [done|by etrans]|]. pose proof (prefix_len _ _ Hp' : Len w3 <= Len w').
  destruct (record_data_read rr d w3 w' r Hdt Hdok Hopt Hi3 Hr Hw) as (d' & Hd' & Hrd).
  assert (is_u16 r) as Hr16 by (unfold is_u16; lia). clearbody r.
  eexists. split; cycle 1.
  - intros data Hdata. specialize (Hrd data Hdata). rewrite Hl3 in Hrd. clear Hw Hi3 Hi' Hp3.
    assert (slice data (Len w3) (Len w') = @Ok error _ (sub (w_buf w') (Len w3) (Len w'))) as Hsl.
    { destruct Hdata as [suf ->]. apply slice_app_l, slice_ok; [apply Len_nonneg|done|done]. }
    rewrite E3 in Hp'. prefixes. unfold decodeResourceRecord. reads. small. cbv zeta.
    replace (Len w1 + 10 + r) with (Len w') by lia.
    bcase; [exfalso; pos|]. rewrite Hl3 in Hsl. rewrite Hsl. cbn [mbind result_bind].
    destruct Hrd as [[Et ->]|[Et ->]].
    + apply Z.eqb_eq in Et. rewrite Et. reflexivity.
    + apply Z.eqb_neq in Et. rewrite Et. reflexivity.
  - split; [done|]. cbn. ands; try done. by exists d, d'.
Qed.

Lemma section_reads_back {A} enc dec ok same wrap1 wrap2 (xs : list A) i j w w' acc :
  reads_back enc dec ok same ->
  encode_section enc wrap1 i xs w = Ok w' -> Forall ok xs -> inv w ->
  extends w w' /\
  exists ys, Forall2 same xs ys /\ forall data, w_buf w' `prefix_of` data ->
    decode_section dec wrap2 data (length xs) j (Len w) acc = Ok (acc ++ ys, Len w').
Proof.
  intros Hrb. revert i j w acc.
  induction xs as [|x xs IH]; intros i j w acc H Hok Hi; cbn [encode_section] in H.
  { injection H as <-. split; [by apply extends_refl|]. exists []. split; [done|].
    intros data _. cbn. by rewrite app_nil_r. }
  apply Forall_cons in Hok as [Hx Hxs]. inv_bind H. rename a into w1.
  destruct (enc x w) as [w1'| | |] eqn:E; cbn in Ha; try done. injection Ha as ->.
  destruct (Hrb _ _ _ E Hx Hi) as ([Hi1 Hp1] & y & Hy & Hdec).
  destruct (IH _ (j + 1) _ (acc ++ [y]) H Hxs Hi1) as ([Hi2 Hp2] & ys & Hys & Hdecs).
  split; [split; [done|by etrans]|]. exists (y :: ys). split; [by constructor|].
  intros data Hdata. cbn [length decode_section].
  rewrite Hdec by by etrans. cbn [map_err mbind result_bind].
  rewrite Hdecs by done. by rewrite <- app_assoc.
Qed.
End records.

(** ** Whole messages *)

Section messages.
Context {U : UnicodeTables}.

(** What [NormalizeCounts] changes, when it accepts the message. *)
Lemma NormalizeCounts_inv m m' :
  NormalizeCounts m = Ok m' ->
  m' = mkMessage (set_counts (m_Header m) (len (m_Questions m)) (len (m_Answers m))
         (len (m_Authorities m)) (len (m_Additionals m)))
         (m_Questions m) (m_Answers m) (m_Authorities m) (m_Additionals m)
  /\ is_u16 (len (m_Questions m)) /\ is_u16 (len (m_Answers m))
  /\ is_u16 (len (m_Authorities m)) /\ is_u16 (len (m_Additionals m)).
Proof.
  unfold NormalizeCounts. bcase; [done|]. intros [= <-].
  pose proof (len_nonneg (m_Questions m)). pose proof (len_nonneg (m_Answers m)).
  pose proof (len_nonneg (m_Authorities m)). pose proof (len_nonneg (m_Additionals m)).
  unfold is_u16. rewrite !u16_small by lia. ands; try done; lia.
Qed.

Lemma len_Header_encode h : len (Header_encode h) = 12.
Proof. reflexivity. Qed.

(** What [Encode] writes is read back. *)
Lemma Encode_reads_back m m1 wire :
  message_ok m -> Encode (Some m) = (Some m1, Ok wire) ->
  exists m2, Decode wire = Ok m2 /\ same_message m1 m2.
Proof.
  intros [Hh Hq Han Hns Har] H. unfold Encode in H.
  destruct (NormalizeCounts m) as [m'| | |] eqn:Hn; try done. injection H as -> H.
  apply NormalizeCounts_inv in Hn as (-> & Lq & Lan & Lns & Lar).
  unfold encodeNormalized in H. cbn [m_Header m_Questions m_Answers m_Authorities m_Additionals] in *.
  set (h := set_counts _ _ _ _ _) in *. set (w0 := mkWriter _ _) in H.
  assert (Header_wf h) as Hwf by (unfold Header_wf, h in *; cbn; tauto).
  repeat inv_bind H. rename a into w1, a0 into w2, a1 into w3, a2 into w4.
  bcase_in H; [done|]. injection H as <-.
  assert (inv w0) as Hi0 by done.
  destruct (section_reads_back _ _ _ _ _ ErrDecodeQuestion _ _ 0 _ _ [] question_reads_back Ha Hq Hi0)
    as ([Hi1 Hp1] & qs & Hqs & Dqs).
  destruct (section_reads_back _ _ _ _ _ ErrDecodeAnswer _ _ 0 _ _ [] record_reads_back Ha0 Han Hi1)
    as ([Hi2 Hp2] & an & Hans & Dan).
  destruct (section_reads_back _ _ _ _ _ ErrDecodeAuthority _ _ 0 _ _ [] record_reads_back Ha1 Hns Hi2)
    as ([Hi3 Hp3] & ns & Hnss & Dns).
  destruct (section_reads_back _ _ _ _ _ ErrDecodeAdditional _ _ 0 _ _ [] record_reads_back Ha2 Har Hi3)
    as ([Hi4 Hp4] & ar & Hars & Dar).
  exists (mkMessage h qs an ns ar). split; [|by constructor].
  set (wire := w_buf w4) in *.
  assert (w_buf w3 `prefix_of` wire /\ w_buf w2 `prefix_of` wire /\ w_buf w1 `prefix_of` wire
    /\ Header_encode h `prefix_of` wire) as (P3 & P2 & P1 & suf & Ewire).
  { assert (w_buf w2 `prefix_of` wire) by by etrans.
    assert (w_buf w1 `prefix_of` wire) by by etrans. ands; try done.
    change (Header_encode h) with (w_buf w0). by etrans. }
  specialize (Dqs wire P1). specialize (Dan wire P2). specialize (Dns wire P3).
  specialize (Dar wire ltac:(done)). change (Len w0) with 12 in Dqs.
  pose proof (prefix_len _ _ P1 : Len w1 <= len wire) as Hl.
  assert (12 <= len wire) as H12 by (rewrite Ewire, len_app, len_Header_encode; len_lia).
  unfold Decode, HeaderSize, MaxDNSPacketLen. bcase; [exfalso; lia|]. bcase; [exfalso; lia|].
  assert (slice wire 0 12 = @Ok error _ (Header_encode h)) as ->
    by (rewrite Ewire; exact (slice_app_at [] (Header_encode h) suf 0 12 eq_refl eq_refl)).
  cbn [mbind result_bind]. rewrite <- (app_nil_r (Header_encode h)), Header_decode_app by done.
  cbn [mbind result_bind]. unfold h in *. cbn [set_counts h_QuestionCount h_AnswerCount
    h_AuthorityCount h_AdditionalCount]. rewrite !to_nat_len.
  rewrite Dqs. cbn [mbind result_bind]. rewrite Dan. cbn [mbind result_bind].
  rewrite Dns. cbn [mbind result_bind]. rewrite Dar. cbn [mbind result_bind].
  bcase; [exfalso; unfold Len, wire in *; lia|]. done.
Qed.

(** C1. A message that [Encode] accepts is read back by [Decode] as the same
    message: same header with the counts [Encode] stored, same questions and
    records in the same order, names equal up to letter case.  This holds
    with name compression across all sections. *)
Theorem Encode_Decode m m1 wire :
  message_ok m -> Encode (Some m) = (Some m1, Ok wire) ->
  exists m2, Decode wire = Ok m2 /\ same_message m1 m2.
Proof. apply Encode_reads_back. Qed.
End messages.

(** A response with a question, a compressed CNAME answer and an OPT record. *)
Definition sample_message : Message :=
  let h := mkHeader 4660 true 0 false false true true 0 0 0 0 0 0 in
  mkMessage h
    [mkQuestion "www.Example.com." TypeA ClassIN]
    [mkRR "www.example.com" TypeCNAME ClassIN 60 (Some (CNAMEData "web.example.com.")) [];
     mkRR "web.example.com." TypeA ClassIN 60
       (Some (AData [byte_of_Z 192; byte_of_Z 0; byte_of_Z 2; byte_of_Z 1])) []]
    []
    [mkRR "." TypeOPT 1232 0 (Some (OPTData 1232 0 0 0 "")) []].

Lemma sample_message_ok : message_ok sample_message.
Proof.
  assert (forall n t c ttl d, all_ascii n = true -> is_u16 t -> is_u16 c -> is_u32 ttl ->
    recordType d = t -> rdata_ok d -> opt_matches (mkRR n t c ttl (Some d) []) d ->
    record_ok (mkRR n t c ttl (Some d) [])) as Hr.
  { intros. unfold record_ok. cbn. eauto 10. }
  constructor; cbn.
  - unfold Header_wf, is_u16. cbn. lia.
  - repeat (constructor; try done).
  - repeat constructor; apply Hr; done.
  - constructor.
  - repeat constructor; apply Hr; done.
Qed.

Lemma Encode_Decode_witness :
  exists m1 wire m2, @Encode latin1 (Some sample_message) = (Some m1, Ok wire)
    /\ len wire = 78 /\ Decode wire = Ok m2 /\ same_message m1 m2.
Proof.
  destruct (@Encode latin1 (Some sample_message)) as [[m1|] [wire|e| |]] eqn:E;
    try (exfalso; vm_compute in E; discriminate E).
  destruct (Encode_Decode (U := latin1) sample_message m1 wire sample_message_ok E)
    as (m2 & H1 & H2).
  exists m1, wire, m2. repeat split; try assumption; try apply H2.
  vm_compute in E. injection E as <- <-. reflexivity.
Defined.

(** ** Encoding always returns *)

Section safety.
Context {U : UnicodeTables}.

Lemma encodeRData_appends t d raw : appends (encodeRData t d raw).
Proof.
  assert (appends (fun w => match d with
    | None => Ok (WriteBytes raw w) | Some d => writeRData d w end)) as H.
  { destruct d; [apply writeRData_appends|apply appends_write]. }
  unfold encodeRData. destruct (t =? TypeOPT); [|exact H].
  destruct d as [[]|]; try exact H.
Qed.

Lemma encodeResourceRecord_safe rr w : safe (encodeResourceRecord rr w).
Proof.
  unfold encodeResourceRecord. apply safe_bind; [apply appends_safe, writeName_appends|].
  intros w1 _. cbv zeta. set (w2 := WriteUint32 _ _). clearbody w2.
  apply safe_bind; [apply appends_safe, encodeRData_appends|]. intros w4 H4.
  bcase; [done|]. unfold SetUint16.
  pose proof (encodeRData_appends (rr_Type rr) (rr_Data rr) (rr_RawRData rr)
    (w_buf (WriteUint16 0 w2)) (w_compression w2)) as Happ.
  assert (encodeRData (rr_Type rr) (rr_Data rr) (rr_RawRData rr)
    (mkWriter (w_buf (WriteUint16 0 w2)) (w_compression w2)) = Ok w4) as E by done.
  rewrite E in Happ. destruct Happ as (out & Hbuf & _).
  assert (Len w2 + 2 <= len (w_buf w4)) by (rewrite Hbuf; cbn; unfold Len; len_lia).
  apply safe_bind; [|done]. apply safe_slice; pose proof (Len_nonneg w2); lia.
Qed.

Lemma encode_section_safe {A} (item : A -> writer -> result error writer) wrap i xs w :
  (forall x w, safe (item x w)) -> safe (encode_section item wrap i xs w).
Proof.
  intros H. revert i w. induction xs as [|x xs IH]; intros i w; cbn; [done|].
  apply safe_bind; [by apply safe_map_err|]. auto.
Qed.

Lemma Encode_post m :
  post (fun wire => len wire <= MaxDNSPacketLen) (Encode m).2.
Proof.
  destruct m as [m|]; [|done]. unfold Encode. destruct (NormalizeCounts m) as [m'| | |] eqn:E;
    try done; [|by unfold NormalizeCounts in E; destruct (_ || _) in E..].
  cbn [snd]. unfold encodeNormalized. cbv zeta.
  assert (forall q w, safe (encodeQuestion q w)) as Hq.
  { intros q w. unfold encodeQuestion. apply safe_bind; [|done].
    apply appends_safe, writeName_appends. }
  pose proof encodeResourceRecord_safe as Hr.
  repeat (eapply post_bind; [apply safe_post, encode_section_safe; done|intros ? _]).
  bcase; [done|]. cbn. unfold MaxDNSPacketLen. lia.
Qed.

(** C34. [Encode] returns on every message, nil included, with a packet of at
    most 65535 bytes or an error: no slice expression of the writer is out
    of range, whatever the fields hold. *)
Theorem Encode_safe m :
  post (fun wire => len wire <= MaxDNSPacketLen) (Encode m).2.
Proof. apply Encode_post. Qed.

(** ** The header of an encoded message *)

(** The header as its twelve bytes carry it. *)
Definition wire_header (h : Header) : Header :=
  mkHeader (u16 (h_ID h)) (h_QR h) (Z.land (h_Opcode h) 0x0F) (h_AA h) (h_TC h) (h_RD h) (h_RA h)
    (Z.land (h_Z h) 0x07) (Z.land (h_RCode h) 0x0F) (u16 (h_QuestionCount h)) (u16 (h_AnswerCount h))
    (u16 (h_AuthorityCount h)) (u16 (h_AdditionalCount h)).

Lemma PutUint16_u16 v : PutUint16 (u16 v) = PutUint16 v.
Proof.
  assert (@Uint16 unit (PutUint16 (u16 v)) = Uint16 (PutUint16 v)) as H.
  { rewrite !Uint16_PutUint16. f_equal. unfold u16. by rewrite Zmod_mod. }
  assert (forall a b c d, @Uint16 unit [a; b] = Uint16 [c; d] -> [a; b] = [c; d]) as Hinj.
  { intros a b c d. rewrite !Uint16_pair. intros [= E].
    pose proof (Z_of_byte_range a). pose proof (Z_of_byte_range b).
    pose proof (Z_of_byte_range c). pose proof (Z_of_byte_range d).
    assert (Z_of_byte a = Z_of_byte c /\ Z_of_byte b = Z_of_byte d) as [Ha Hb] by lia.
    by apply Z_of_byte_inj in Ha, Hb; subst. }
  by apply Hinj.
Qed.

Lemma land_idem a b : Z.land (Z.land a b) b = Z.land a b.
Proof. by rewrite <- Z.land_assoc, Z.land_diag. Qed.

Lemma land_low a k : 0 <= k -> 0 <= Z.land a (Z.ones k) < 2 ^ k.
Proof. intros Hk. rewrite Z.land_ones by done. apply Z.mod_pos_bound. lia. Qed.

Lemma wire_header_wf h : Header_wf (wire_header h).
Proof.
  assert (forall v, is_u16 (u16 v)) as Hu.
  { intros v. unfold is_u16, u16. pose proof (Z.mod_pos_bound v (2 ^ 16)). lia. }
  unfold Header_wf, wire_header. cbn.
  pose proof (land_low (h_Opcode h) 4). pose proof (land_low (h_Z h) 3). pose proof (land_low (h_RCode h) 4).
  change (Z.ones 4) with 15 in *. change (Z.ones 3) with 7 in *. ands; auto; lia.
Qed.

Lemma Header_flags_wire h : Header_flags (wire_header h) = Header_flags h.
Proof.
  unfold Header_flags, wire_header.
  cbn [h_QR h_Opcode h_AA h_TC h_RD h_RA h_Z h_RCode]. by rewrite !land_idem.
Qed.

Lemma Header_encode_wire h : Header_encode (wire_header h) = Header_encode h.
Proof.
  unfold Header_encode. rewrite Header_flags_wire. unfold wire_header.
  cbn [h_ID h_QuestionCount h_AnswerCount h_AuthorityCount h_AdditionalCount].
  by rewrite !PutUint16_u16.
Qed.

Lemma Header_decode_encode h suf : Header_decode (Header_encode h ++ suf) = Ok (wire_header h).
Proof. rewrite <- Header_encode_wire. apply Header_decode_app, wire_header_wf. Qed.

(** Writing only appends. *)
Definition grows {A} (item : A -> writer -> result error writer) : Prop :=
  forall x w w', item x w = Ok w' -> w_buf w `prefix_of` w_buf w'.

Lemma appends_grows f w w' : appends f -> f w = Ok w' -> w_buf w `prefix_of` w_buf w'.
Proof.
  intros H E. destruct w as [buf comp]. specialize (H buf comp). rewrite E in H.
  destruct H as (out & -> & _). by exists out.
Qed.

Lemma encodeQuestion_grows : grows encodeQuestion.
Proof.
  intros q w w' H. unfold encodeQuestion in H. inv_bind H. rename a into w1. injection H as <-.
  pose proof (appends_grows _ _ _ (writeName_appends (q_Name q)) Ha).
  cbn. by do 2 apply prefix_app_r.
Qed.

Lemma encodeResourceRecord_grows : grows encodeResourceRecord.
Proof.
  intros rr w w' H. unfold encodeResourceRecord in H. inv_bind H. rename a into w1.
  pose proof (appends_grows _ _ _ (writeName_appends (rr_Name rr)) Ha) as H1. cbv zeta in H.
  set (w2 := WriteUint32 _ _) in *.
  assert (w_buf w1 `prefix_of` w_buf w2) as H2 by (unfold w2; cbn; by do 3 apply prefix_app_r).
  clearbody w2. inv_bind H. rename a into w4. bcase_in H; [done|]. unfold SetUint16 in H. inv_bind H.
  clear a Ha1. injection H as <-. cbn.
  pose proof (appends_grows _ _ _ (encodeRData_appends _ _ _) Ha0) as [out E]. cbn in E. rewrite E.
  assert (sub ((w_buf w2 ++ PutUint16 0) ++ out) 0 (Len w2) = w_buf w2) as ->.
  { rewrite <- !app_assoc. apply (sub_app_at []); [done|]. unfold Len. lia. }
  apply prefix_app_r. by etrans.
Qed.

Lemma section_grows {A} (item : A -> writer -> result error writer) wrap i xs w w' :
  grows item -> encode_section item wrap i xs w = Ok w' -> w_buf w `prefix_of` w_buf w'.
Proof.
  intros Hg. revert i w. induction xs as [|x xs IH]; intros i w H; cbn [encode_section] in H.
  { by injection H as <-. }
  inv_bind H. destruct (item x w) as [w1| | |] eqn:E; cbn in Ha; try done. injection Ha as <-.
  etrans; [by eapply Hg|by eapply IH].
Qed.

(** The packet starts with the header of the message [Encode] leaves. *)
Lemma Encode_header m m1 wire :
  Encode (Some m) = (Some m1, Ok wire) ->
  NormalizeCounts m = Ok m1 /\ Header_decode wire = Ok (wire_header (m_Header m1)).
Proof.
  unfold Encode. destruct (NormalizeCounts m) as [m'| | |] eqn:En; try done. intros [= <- H].
  split; [done|]. unfold encodeNormalized in H. cbv zeta in H. repeat inv_bind H.
  bcase_in H; [done|]. injection H as <-.
  apply section_grows in Ha; [|apply encodeQuestion_grows].
  apply section_grows in Ha0, Ha1, Ha2; [|apply encodeResourceRecord_grows..].
  assert (Header_encode (m_Header m') `prefix_of` w_buf a2) as [suf ->].
  { etrans; [exact Ha|]. etrans; [exact Ha0|]. by etrans. }
  apply Header_decode_encode.
Qed.
End safety.
