(* ===== verification/Cache.v ===== *)
(** * internal/cache: the LRU cache with stale answers and negative entries.

    The mutex makes every call atomic; the clock is read once per call, so [now]
    is an argument. *)

From S2P Require Import Prelude.
From S2P Require Import GoStrings.
From S2P Require Import GoTime.
From S2P Require Import Protocol.
From S2P Require Import Decoder.
From S2P Require Import Encoder.

#[local] Open Scope go_scope.

(** ** Data *)

Record Stats := mkStats {
  st_Hits : Z; st_Misses : Z; st_StaleHits : Z; st_Evictions : Z; st_Expirations : Z;
  st_Prefetches : Z;
  st_Entries : Z; st_PositiveEntries : Z; st_StaleEntries : Z; st_NegativeEntries : Z;
  st_MemoryBytes : Z;
  st_UpdatedAt : Z
}.

Definition zero_stats : Stats := mkStats 0 0 0 0 0 0 0 0 0 0 0 time_zero.

Record entry := mkEntry {
  e_key : bytes;
  e_value : Message;
  e_expiresAt : Z;
  e_staleUntil : Z;
  e_lastGood : option Message;
  e_lastGoodAt : Z;
  e_hits : Z;
  e_originalTTL : Z;
  e_refreshing : bool;
  e_expired : bool;
  e_size : Z
}.

Record NegativeEntry := mkNegativeEntry {
  n_Key : bytes; n_RCode : Z; n_ExpiresAt : Z; n_SOA : bytes
}.

(** [c_lru] is the list of element pointers, front first; [c_elems] holds the
    [Value] of each element and [c_items] the index by key.  Elements and the
    entries they point to are shared by the list and the index, so both go
    through the heap [c_elems]. *)
Record Cache := mkCache {
  c_maxEntries : Z;
  c_minTTL : Z;
  c_maxTTL : Z;
  c_staleWindow : Z;
  c_staleMaxAge : Z;
  c_prefetch : bool;
  c_lru : list nat;
  c_elems : gmap nat entry;
  c_next : nat;
  c_items : gmap bytes nat;
  c_negative : gmap bytes NegativeEntry;
  c_stats : Stats
}.

Record Options := mkOptions {
  o_MaxEntries : Z; o_MinTTL : Z; o_MaxTTL : Z; o_StaleWindow : Z; o_StaleMaxAge : Z;
  o_Prefetch : bool
}.

Definition New (opts : Options) : Cache :=
  let maxEntries := if o_MaxEntries opts <=? 0 then 10000 else o_MaxEntries opts in
  let minTTL := if o_MinTTL opts <=? 0 then 30 * Second else o_MinTTL opts in
  let maxTTL := if o_MaxTTL opts <? minTTL then 24 * Hour else o_MaxTTL opts in
  let staleWindow := if o_StaleWindow opts <? 0 then 5 * Minute else o_StaleWindow opts in
  let staleMaxAge := if o_StaleMaxAge opts <? staleWindow then Hour else o_StaleMaxAge opts in
  mkCache maxEntries minTTL maxTTL staleWindow staleMaxAge (o_Prefetch opts)
    [] ∅ 0 ∅ ∅ zero_stats.

(** [on]: whether there is a callback. *)
Definition SetPrefetchCallback (on : bool) (c : Cache) : Cache :=
  mkCache (c_maxEntries c) (c_minTTL c) (c_maxTTL c) (c_staleWindow c) (c_staleMaxAge c) on
    (c_lru c) (c_elems c) (c_next c) (c_items c) (c_negative c) (c_stats c).

(** ** Updates of single fields *)

Definition set_store (c : Cache) (lru : list nat) (elems : gmap nat entry) (next : nat)
    (items : gmap bytes nat) : Cache :=
  mkCache (c_maxEntries c) (c_minTTL c) (c_maxTTL c) (c_staleWindow c) (c_staleMaxAge c)
    (c_prefetch c) lru elems next items (c_negative c) (c_stats c).

Definition set_negative (c : Cache) (negative : gmap bytes NegativeEntry) : Cache :=
  mkCache (c_maxEntries c) (c_minTTL c) (c_maxTTL c) (c_staleWindow c) (c_staleMaxAge c)
    (c_prefetch c) (c_lru c) (c_elems c) (c_next c) (c_items c) negative (c_stats c).

Definition set_stats (c : Cache) (s : Stats) : Cache :=
  mkCache (c_maxEntries c) (c_minTTL c) (c_maxTTL c) (c_staleWindow c) (c_staleMaxAge c)
    (c_prefetch c) (c_lru c) (c_elems c) (c_next c) (c_items c) (c_negative c) s.

Definition set_config (c : Cache) (maxEntries minTTL maxTTL staleWindow staleMaxAge : Z) : Cache :=
  mkCache maxEntries minTTL maxTTL staleWindow staleMaxAge
    (c_prefetch c) (c_lru c) (c_elems c) (c_next c) (c_items c) (c_negative c) (c_stats c).

(** The counters a call increments ([uint64]). *)
Definition count (s : Stats) (hits misses staleHits evictions expirations prefetches : Z) : Stats :=
  mkStats (u64 (st_Hits s + hits)) (u64 (st_Misses s + misses))
    (u64 (st_StaleHits s + staleHits)) (u64 (st_Evictions s + evictions))
    (u64 (st_Expirations s + expirations)) (u64 (st_Prefetches s + prefetches))
    (st_Entries s) (st_PositiveEntries s) (st_StaleEntries s) (st_NegativeEntries s)
    (st_MemoryBytes s) (st_UpdatedAt s).

Definition set_memory (s : Stats) (m : Z) : Stats :=
  mkStats (st_Hits s) (st_Misses s) (st_StaleHits s) (st_Evictions s) (st_Expirations s)
    (st_Prefetches s) (st_Entries s) (st_PositiveEntries s) (st_StaleEntries s)
    (st_NegativeEntries s) m (st_UpdatedAt s).

Definition touchStatsLocked (now : Z) (c : Cache) : Cache :=
  let s := c_stats c in
  set_stats c (mkStats (st_Hits s) (st_Misses s) (st_StaleHits s) (st_Evictions s)
    (st_Expirations s) (st_Prefetches s)
    (Z.of_nat (size (c_items c))) (st_PositiveEntries s) (st_StaleEntries s)
    (Z.of_nat (size (c_negative c))) (st_MemoryBytes s) now).

(** ** container/list *)

(** [el.Value] as an entry; every element of the heap has one. *)
Definition elem (c : Cache) (el : nat) : entry :=
  default (mkEntry [] (mkMessage zero_header [] [] [] []) 0 0 None 0 0 0 false false 0)
    (c_elems c !! el).

Definition set_elem (el : nat) (e : entry) (c : Cache) : Cache :=
  set_store c (c_lru c) (<[el := e]> (c_elems c)) (c_next c) (c_items c).

Definition list_remove (el : nat) (l : list nat) : list nat :=
  List.filter (fun x => negb (Nat.eqb x el)) l.

(** [MoveToFront] and [Remove] do nothing for an element that left the list. *)
Definition MoveToFront (el : nat) (c : Cache) : Cache :=
  if bool_decide (el ∈ c_lru c) then
    set_store c (el :: list_remove el (c_lru c)) (c_elems c) (c_next c) (c_items c)
  else c.

Definition PushFront (e : entry) (c : Cache) : nat * Cache :=
  let el := c_next c in
  (el, set_store c (el :: c_lru c) (<[el := e]> (c_elems c)) (S el) (c_items c)).

Definition PushBack (e : entry) (c : Cache) : nat * Cache :=
  let el := c_next c in
  (el, set_store c (c_lru c ++ [el]) (<[el := e]> (c_elems c)) (S el) (c_items c)).

Definition removeElementLocked (el : nat) (c : Cache) : Cache :=
  let item := elem c el in
  let c := set_store c (list_remove el (c_lru c)) (c_elems c) (c_next c)
             (delete (e_key item) (c_items c)) in
  let m := st_MemoryBytes (c_stats c) in
  set_stats c (set_memory (c_stats c) (if e_size item <=? m then m - e_size item else 0)).

Definition evictOldestLocked (c : Cache) : Cache :=
  match last (c_lru c) with
  | None => c
  | Some el =>
      let c := removeElementLocked el c in
      set_stats c (count (c_stats c) 0 0 0 1 0 0)
  end.

(** ** Messages *)

Section messages.
Context {U : UnicodeTables}.

(** The counts [Encode] writes into its argument stay there when the message
    itself is returned. *)
Definition cloneMessage (msg : Message) : Message :=
  match Encode (Some msg) with
  | (Some m, Ok wire) => match Decode wire with Ok cloned => cloned | _ => m end
  | (Some m, _) => m
  | (None, _) => msg
  end.

Definition messageSizeEstimate (msg : Message) : Z :=
  match (Encode (Some msg)).2 with
  | Ok wire => len wire
  | _ => 0
  end.

(** ** Operations *)

Definition clampTTL (c : Cache) (ttl : Z) : Z :=
  if ttl <? c_minTTL c then c_minTTL c
  else if c_maxTTL c <? ttl then c_maxTTL c
  else ttl.

(** The entry [Set] builds. *)
Definition new_entry (c : Cache) (now : Z) (key : bytes) (value : Message) (ttl : Z) : entry :=
  let ttl := clampTTL c ttl in
  let v := cloneMessage value in
  mkEntry key v (now + ttl) (now + ttl + c_staleWindow c) (Some (cloneMessage value)) now
    0 ttl false false (u64 (len key + messageSizeEstimate v)).

Definition Set_ (now : Z) (key : bytes) (value : option Message) (ttl : Z) (c : Cache) : Cache :=
  match value with
  | None => c
  | Some value =>
      if bool_decide (key = "") then c else
      let item := new_entry c now key value ttl in
      match c_items c !! key with
      | Some el =>
          let existing := elem c el in
          let c := set_stats c (set_memory (c_stats c)
                     (u64 (st_MemoryBytes (c_stats c) - e_size existing))) in
          let c := set_elem el item c in
          let c := MoveToFront el c in
          let c := set_stats c (set_memory (c_stats c)
                     (u64 (st_MemoryBytes (c_stats c) + e_size item))) in
          touchStatsLocked now c
      | None =>
          let '(el, c) := PushFront item c in
          let c := set_store c (c_lru c) (c_elems c) (c_next c) (<[key := el]> (c_items c)) in
          let c := set_stats c (set_memory (c_stats c)
                     (u64 (st_MemoryBytes (c_stats c) + e_size item))) in
          let c := if c_maxEntries c <? len (c_lru c) then evictOldestLocked c else c in
          touchStatsLocked now c
      end
  end.

Record GetResult := mkGetResult {
  g_Message : option Message; g_Hit : bool; g_Stale : bool; g_StaleOnError : bool
}.
Definition no_result : GetResult := mkGetResult None false false false.

Definition set_hits (e : entry) (h : Z) : entry :=
  mkEntry (e_key e) (e_value e) (e_expiresAt e) (e_staleUntil e) (e_lastGood e) (e_lastGoodAt e)
    h (e_originalTTL e) (e_refreshing e) (e_expired e) (e_size e).
Definition set_refreshing (e : entry) (b : bool) : entry :=
  mkEntry (e_key e) (e_value e) (e_expiresAt e) (e_staleUntil e) (e_lastGood e) (e_lastGoodAt e)
    (e_hits e) (e_originalTTL e) b (e_expired e) (e_size e).
Definition set_expired (e : entry) : entry :=
  mkEntry (e_key e) (e_value e) (e_expiresAt e) (e_staleUntil e) (e_lastGood e) (e_lastGoodAt e)
    (e_hits e) (e_originalTTL e) (e_refreshing e) true (e_size e).

(** Returns the keys for which a prefetch goroutine is started. *)
Definition maybePrefetchLocked (el : nat) (now : Z) (c : Cache) : list bytes * Cache :=
  let item := elem c el in
  if negb (c_prefetch c) || e_refreshing item || (e_hits item <? 3) || (e_originalTTL item <=? 0)
  then ([], c) else
  let remaining := time_Sub (e_expiresAt item) now in
  if Z.quot (e_originalTTL item) 10 <? remaining then ([], c) else
  let c := set_elem el (set_refreshing item true) c in
  let c := set_stats c (count (c_stats c) 0 0 0 0 0 1) in
  ([e_key item], c).

(** The deferred function of the prefetch goroutine. *)
Definition prefetchDone (key : bytes) (c : Cache) : Cache :=
  match c_items c !! key with
  | Some el => set_elem el (set_refreshing (elem c el) false) c
  | None => c
  end.

Definition Get (now : Z) (key : bytes) (c : Cache) : GetResult * list bytes * Cache :=
  let miss c := touchStatsLocked now (set_stats c (count (c_stats c) 0 1 0 0 0 0)) in
  match c_items c !! key with
  | None => (no_result, [], miss c)
  | Some el =>
      let item := set_hits (elem c el) (i64 (e_hits (elem c el) + 1)) in
      let c := set_elem el item c in
      let c := MoveToFront el c in
      if now <? e_expiresAt item then
        let c := set_stats c (count (c_stats c) 1 0 0 0 0 0) in
        let '(started, c) := maybePrefetchLocked el now c in
        (mkGetResult (Some (cloneMessage (e_value item))) true false false, started,
         touchStatsLocked now c)
      else
      let c := if e_expired item then c else
                 let c := set_elem el (set_expired item) c in
                 set_stats c (count (c_stats c) 0 0 0 0 1 0) in
      if now <? e_staleUntil item then
        let c := set_stats c (count (c_stats c) 1 0 1 0 0 0) in
        let '(started, c) := maybePrefetchLocked el now c in
        (mkGetResult (Some (cloneMessage (e_value item))) true true false, started,
         touchStatsLocked now c)
      else
      if (match e_lastGood item with Some _ => true | None => false end)
         && negb (e_lastGoodAt item =? time_zero)
         && (time_Sub now (e_lastGoodAt item) <=? c_staleMaxAge c) then
        (no_result, [], miss c)
      else
        (no_result, [], miss (removeElementLocked el c))
  end.

Definition Delete (now : Z) (key : bytes) (c : Cache) : Cache :=
  let c := match c_items c !! key with
           | Some el => removeElementLocked el c
           | None => c
           end in
  touchStatsLocked now (set_negative c (delete key (c_negative c))).

Definition Flush (now : Z) (c : Cache) : Cache :=
  let c := set_store c [] ∅ (c_next c) ∅ in
  let c := set_negative c ∅ in
  let c := set_stats c (set_memory (c_stats c) 0) in
  touchStatsLocked now c.

(** [Stats()]: the counts over [c.items]. *)
Definition Stats_ (now : Z) (c : Cache) : Stats :=
  let s := c_stats c in
  let stale el := (e_expiresAt (elem c el) <? now) && (now <? e_staleUntil (elem c el)) in
  let els := (map_to_list (c_items c)).*2 in
  mkStats (st_Hits s) (st_Misses s) (st_StaleHits s) (st_Evictions s) (st_Expirations s)
    (st_Prefetches s) (Z.of_nat (size (c_items c)))
    (len (List.filter (fun el => negb (stale el)) els)) (len (List.filter stale els))
    (Z.of_nat (size (c_negative c))) (st_MemoryBytes s) now.

Record CacheRuntimeConfig := mkRuntimeConfig {
  rc_MaxEntries : Z; rc_MinTTL : Z; rc_MaxTTL : Z; rc_StaleWindow : Z; rc_StaleMaxAge : Z
}.

(** [Cache.RuntimeConfig], also the result of [ApplyRuntimeConfig]. *)
Definition Cache_RuntimeConfig (c : Cache) : CacheRuntimeConfig :=
  mkRuntimeConfig (c_maxEntries c) (c_minTTL c) (c_maxTTL c) (c_staleWindow c) (c_staleMaxAge c).

Record RuntimeConfigUpdate := mkRuntimeConfigUpdate {
  u_MaxEntries : option Z; u_MinTTL : option Z; u_MaxTTL : option Z;
  u_StaleWindow : option Z; u_StaleMaxAge : option Z
}.

(** [for c.lru.Len() > c.maxEntries]: each round removes one element. *)
Fixpoint evict_loop (fuel : nat) (c : Cache) : Cache :=
  match fuel with
  | O => c
  | S fuel' =>
      if c_maxEntries c <? len (c_lru c) then evict_loop fuel' (evictOldestLocked c) else c
  end.

(** A pointer field of the update: the new value when it is given and valid. *)
Definition updated (p : option Z) (ok : Z -> bool) (old : Z) : Z :=
  match p with Some v => if ok v then v else old | None => old end.

Definition ApplyRuntimeConfig (now : Z) (u : RuntimeConfigUpdate) (c : Cache) : Cache :=
  let pos v := 0 <? v in
  let nonneg v := 0 <=? v in
  let c := set_config c (updated (u_MaxEntries u) pos (c_maxEntries c)) (c_minTTL c) (c_maxTTL c)
             (c_staleWindow c) (c_staleMaxAge c) in
  let c := match u_MaxEntries u with
           | Some v => if pos v then evict_loop (length (c_lru c)) c else c
           | None => c
           end in
  let minTTL := updated (u_MinTTL u) pos (c_minTTL c) in
  let maxTTL := updated (u_MaxTTL u) pos (c_maxTTL c) in
  let maxTTL := if maxTTL <? minTTL then minTTL else maxTTL in
  let staleWindow := updated (u_StaleWindow u) nonneg (c_staleWindow c) in
  let staleMaxAge := updated (u_StaleMaxAge u) nonneg (c_staleMaxAge c) in
  let staleMaxAge := if staleMaxAge <? staleWindow then staleWindow else staleMaxAge in
  touchStatsLocked now (set_config c (c_maxEntries c) minTTL maxTTL staleWindow staleMaxAge).

Record ListItem := mkListItem {
  li_Key : bytes; li_ExpiresAt : Z; li_StaleUntil : Z; li_Hits : Z; li_TTL : Z
}.

(** The loop over the elements from [el] on. *)
Fixpoint list_loop (c : Cache) (now offset limit : Z) (els : list nat) (i : Z)
    (items : list ListItem) : list ListItem :=
  match els with
  | [] => items
  | el :: els' =>
      if i <? offset then list_loop c now offset limit els' (i + 1) items else
      if len items =? limit then items else
      let e := elem c el in
      let ttl := Z.quot (time_Sub (e_expiresAt e) now) Second in
      list_loop c now offset limit els' (i + 1)
        (items ++ [mkListItem (e_key e) (e_expiresAt e) (e_staleUntil e) (e_hits e) ttl])
  end.

(** The seconds left are rounded toward zero; [Duration.Seconds] goes through
    a [float64], which is exact enough for times below 2^22 seconds. *)
Definition List_ (now page limit : Z) (c : Cache) : list ListItem :=
  let page := if page <? 1 then 1 else page in
  let limit := if limit <? 1 then 50 else limit in
  let limit := if 500 <? limit then 500 else limit in
  let offset := i64 ((page - 1) * limit) in
  list_loop c now offset limit (c_lru c) 0 [].

(** ** negative.go and stale.go *)

Definition SetNegative (now : Z) (key : bytes) (rcode ttl : Z) (soa : bytes) (c : Cache) : Cache :=
  let ttl := clampTTL c ttl in
  set_negative c (<[key := mkNegativeEntry key rcode (now + ttl) soa]> (c_negative c)).

Definition GetNegative (now : Z) (key : bytes) (c : Cache) : option NegativeEntry * Cache :=
  match c_negative c !! key with
  | None => (None, set_stats c (count (c_stats c) 0 1 0 0 0 0))
  | Some entry =>
      if n_ExpiresAt entry <? now then
        let c := set_negative c (delete key (c_negative c)) in
        (None, set_stats c (count (c_stats c) 0 1 0 0 1 0))
      else (Some entry, set_stats c (count (c_stats c) 1 0 0 0 0 0))
  end.

Fixpoint soa_ttl (authorities : list ResourceRecord) : Z :=
  match authorities with
  | [] => 0
  | rr :: rest =>
      if negb (rr_Type rr =? TypeSOA) then soa_ttl rest else
      match rr_Data rr with
      | Some (SOAData _ _ _ _ _ _ minimum) => minimum * Second
      | _ => soa_ttl rest
      end
  end.

Definition TTLFromSOA (msg : option Message) : Z :=
  match msg with
  | None => 0
  | Some m => soa_ttl (m_Authorities m)
  end.

Definition GetStaleOnError (now : Z) (key : bytes) (c : Cache) : option Message * Cache :=
  match c_items c !! key with
  | None => (None, c)
  | Some el =>
      let item := elem c el in
      match e_lastGood item with
      | None => (None, c)
      | Some good =>
          if e_lastGoodAt item =? time_zero then (None, c) else
          if c_staleMaxAge c <? time_Sub now (e_lastGoodAt item) then
            (None, removeElementLocked el c)
          else (Some (cloneMessage good), c)
      end
  end.

(** ** Snapshots: Persist and Load without the JSON file *)

Record snapshotEntry := mkSnapshotEntry {
  s_Key : bytes; s_Wire : bytes; s_ExpiresAt : Z; s_StaleUntil : Z;
  s_LastGoodWire : bytes; s_LastGoodAt : Z; s_Hits : Z; s_OriginalTTL : Z
}.

Definition snapshot_entry (e : entry) : option snapshotEntry :=
  match (Encode (Some (e_value e))).2 with
  | Ok wire =>
      let lastGood := match e_lastGood e with
                      | Some g => match (Encode (Some g)).2 with Ok w => w | _ => [] end
                      | None => []
                      end in
      Some (mkSnapshotEntry (e_key e) wire (e_expiresAt e) (e_staleUntil e) lastGood
              (e_lastGoodAt e) (e_hits e) (e_originalTTL e))
  | _ => None
  end.

(** [els] and [negs]: the order in which the maps are ranged over. *)
Definition Persist_snapshot (els : list nat) (negs : list NegativeEntry) (c : Cache)
  : list snapshotEntry * list NegativeEntry :=
  (omap (fun el => snapshot_entry (elem c el)) els, negs).

(** The body of the first loop of [Load]. *)
Definition load_entry (now : Z) (c : Cache) (it : snapshotEntry) : Cache :=
  if s_StaleUntil it <? now then c else
  match Decode (s_Wire it) with
  | Ok msg =>
      let lastGood :=
        if 0 <? len (s_LastGoodWire it) then
          match Decode (s_LastGoodWire it) with Ok lg => Some lg | _ => None end
        else None in
      let e := mkEntry (s_Key it) msg (s_ExpiresAt it) (s_StaleUntil it) lastGood (s_LastGoodAt it)
                 (s_Hits it) (s_OriginalTTL it) false (s_ExpiresAt it <? now)
                 (u64 (len (s_Key it) + messageSizeEstimate msg)) in
      let '(el, c) := PushBack e c in
      let c := set_store c (c_lru c) (c_elems c) (c_next c) (<[e_key e := el]> (c_items c)) in
      set_stats c (set_memory (c_stats c) (u64 (st_MemoryBytes (c_stats c) + e_size e)))
  | _ => c
  end.

Definition load_negative (now : Z) (c : Cache) (neg : NegativeEntry) : Cache :=
  if now <? n_ExpiresAt neg then set_negative c (<[n_Key neg := neg]> (c_negative c)) else c.

Definition Load_snapshot (now : Z) (snap : list snapshotEntry * list NegativeEntry) (c : Cache)
  : Cache :=
  let c := set_store c [] ∅ (c_next c) ∅ in
  let c := set_negative c ∅ in
  let c := set_stats c (set_memory (c_stats c) 0) in
  let c := foldl (load_entry now) c snap.1 in
  let c := foldl (load_negative now) c snap.2 in
  let c := evict_loop (length (c_lru c)) c in
  touchStatsLocked now c.

End messages.
