(* ===== verification/CacheSpec.v ===== *)
(** * The cache as a list of entries, most recently used first.

    [spec_*] is the abstract LRU cache: a list of entries with distinct keys, no
    pointers and no index.  [cache_refines] shows that internal/cache, with its
    linked list, its map of elements and its entries updated in place, behaves
    like it. *)

From S2P Require Import Prelude.
From S2P Require Import GoStrings.
From S2P Require Import GoTime.
From S2P Require Import Protocol.
From S2P Require Import Decoder.
From S2P Require Import Encoder.
From S2P Require Import Cache.

#[local] Open Scope go_scope.

(** ** Lists of entries *)

Definition find_key (key : bytes) (l : list entry) : option entry :=
  List.find (fun e => bool_decide (e_key e = key)) l.
Definition remove_key (key : bytes) (l : list entry) : list entry :=
  List.filter (fun e => negb (bool_decide (e_key e = key))) l.

(** The abstract state: the entries, and the fields of the cache that are not
    its store (kept in a [Cache] whose store is empty). *)
Definition acache : Type := list entry * Cache.

Section spec.
Context {U : UnicodeTables}.

Definition a_touch (now : Z) (a : acache) : acache :=
  let '(l, v) := a in
  let s := c_stats v in
  (l, set_stats v (mkStats (st_Hits s) (st_Misses s) (st_StaleHits s) (st_Evictions s)
    (st_Expirations s) (st_Prefetches s) (len l) (st_PositiveEntries s) (st_StaleEntries s)
    (Z.of_nat (size (c_negative v))) (st_MemoryBytes s) now)).

Definition a_stats (f : Stats -> Stats) (v : Cache) : Cache := set_stats v (f (c_stats v)).
Definition a_memory (f : Z -> Z) (v : Cache) : Cache :=
  a_stats (fun s => set_memory s (f (st_MemoryBytes s))) v.
Definition a_count (h m s e x p : Z) (v : Cache) : Cache :=
  a_stats (fun st => count st h m s e x p) v.

(** Memory is given back without going below zero. *)
Definition give_back (e : entry) (v : Cache) : Cache :=
  a_memory (fun m => if e_size e <=? m then m - e_size e else 0) v.

Definition a_evict (a : acache) : acache :=
  let '(l, v) := a in
  match last l with
  | None => (l, v)
  | Some e => (removelast l, a_count 0 0 0 1 0 0 (give_back e v))
  end.

Definition spec_Set (now : Z) (key : bytes) (value : option Message) (ttl : Z) (a : acache)
  : acache :=
  let '(l, v) := a in
  match value with
  | None => a
  | Some value =>
      if bool_decide (key = "") then a else
      let item := new_entry v now key value ttl in
      match find_key key l with
      | Some old =>
          a_touch now (item :: remove_key key l,
            a_memory (fun m => u64 (m + e_size item)) (a_memory (fun m => u64 (m - e_size old)) v))
      | None =>
          let a := (item :: l, a_memory (fun m => u64 (m + e_size item)) v) in
          a_touch now (if c_maxEntries v <? len l + 1 then a_evict a else a)
      end
  end.

Definition spec_prefetch (item : entry) (now : Z) (v : Cache) : list bytes * entry * Cache :=
  if negb (c_prefetch v) || e_refreshing item || (e_hits item <? 3) || (e_originalTTL item <=? 0)
  then ([], item, v) else
  if Z.quot (e_originalTTL item) 10 <? time_Sub (e_expiresAt item) now then ([], item, v) else
  ([e_key item], set_refreshing item true, a_count 0 0 0 0 0 1 v).

Definition spec_Get (now : Z) (key : bytes) (a : acache) : GetResult * list bytes * acache :=
  let '(l, v) := a in
  match find_key key l with
  | None => (no_result, [], a_touch now (l, a_count 0 1 0 0 0 0 v))
  | Some e =>
      let item := set_hits e (i64 (e_hits e + 1)) in
      let rest := remove_key key l in
      if now <? e_expiresAt e then
        let '(started, item', v) := spec_prefetch item now (a_count 1 0 0 0 0 0 v) in
        (mkGetResult (Some (cloneMessage (e_value e))) true false false, started,
         a_touch now (item' :: rest, v))
      else
      let '(item, v) := if e_expired e then (item, v)
                        else (set_expired item, a_count 0 0 0 0 1 0 v) in
      if now <? e_staleUntil e then
        let '(started, item', v) := spec_prefetch item now (a_count 1 0 1 0 0 0 v) in
        (mkGetResult (Some (cloneMessage (e_value e))) true true false, started,
         a_touch now (item' :: rest, v))
      else
      if (match e_lastGood e with Some _ => true | None => false end)
         && negb (e_lastGoodAt e =? time_zero)
         && (time_Sub now (e_lastGoodAt e) <=? c_staleMaxAge v) then
        (no_result, [], a_touch now (item :: rest, a_count 0 1 0 0 0 0 v))
      else
        (no_result, [], a_touch now (rest, a_count 0 1 0 0 0 0 (give_back e v)))
  end.

Definition a_remove (key : bytes) (a : acache) : acache :=
  let '(l, v) := a in
  match find_key key l with
  | Some e => (remove_key key l, give_back e v)
  | None => (l, v)
  end.

Definition spec_Delete (now : Z) (key : bytes) (a : acache) : acache :=
  let '(l, v) := a_remove key a in
  a_touch now (l, set_negative v (delete key (c_negative v))).

Definition spec_Flush (now : Z) (a : acache) : acache :=
  a_touch now ([], a_memory (fun _ => 0) (set_negative a.2 ∅)).

Fixpoint a_evict_loop (fuel : nat) (a : acache) : acache :=
  match fuel with
  | O => a
  | S fuel' => if c_maxEntries a.2 <? len a.1 then a_evict_loop fuel' (a_evict a) else a
  end.

Definition spec_Apply (now : Z) (u : RuntimeConfigUpdate) (a : acache) : acache :=
  let pos v := 0 <? v in
  let nonneg v := 0 <=? v in
  let '(l, v) := a in
  let v := set_config v (updated (u_MaxEntries u) pos (c_maxEntries v)) (c_minTTL v) (c_maxTTL v)
             (c_staleWindow v) (c_staleMaxAge v) in
  let '(l, v) := match u_MaxEntries u with
                 | Some n => if pos n then a_evict_loop (length l) (l, v) else (l, v)
                 | None => (l, v)
                 end in
  let minTTL := updated (u_MinTTL u) pos (c_minTTL v) in
  let maxTTL := updated (u_MaxTTL u) pos (c_maxTTL v) in
  let maxTTL := if maxTTL <? minTTL then minTTL else maxTTL in
  let staleWindow := updated (u_StaleWindow u) nonneg (c_staleWindow v) in
  let staleMaxAge := updated (u_StaleMaxAge u) nonneg (c_staleMaxAge v) in
  let staleMaxAge := if staleMaxAge <? staleWindow then staleWindow else staleMaxAge in
  a_touch now (l, set_config v (c_maxEntries v) minTTL maxTTL staleWindow staleMaxAge).

Definition spec_StaleOnError (now : Z) (key : bytes) (a : acache) : option Message * acache :=
  let '(l, v) := a in
  match find_key key l with
  | None => (None, a)
  | Some e =>
      match e_lastGood e with
      | None => (None, a)
      | Some good =>
          if e_lastGoodAt e =? time_zero then (None, a) else
          if c_staleMaxAge v <? time_Sub now (e_lastGoodAt e) then
            (None, (remove_key key l, give_back e v))
          else (Some (cloneMessage good), a)
      end
  end.

(** The end of a prefetch clears the mark of the entry, in place. *)
Definition spec_prefetchDone (key : bytes) (a : acache) : acache :=
  (map (fun e => if bool_decide (e_key e = key) then set_refreshing e false else e) a.1, a.2).

(** ** Calls *)

Inductive op :=
| OSet (now : Z) (key : bytes) (value : option Message) (ttl : Z)
| OGet (now : Z) (key : bytes)
| ODelete (now : Z) (key : bytes)
| OFlush (now : Z)
| OApply (now : Z) (u : RuntimeConfigUpdate)
| OSetNegative (now : Z) (key : bytes) (rcode ttl : Z) (soa : bytes)
| OGetNegative (now : Z) (key : bytes)
| OStaleOnError (now : Z) (key : bytes)
| OPrefetchDone (key : bytes).

Inductive answer :=
| ANone
| AGet (r : GetResult) (started : list bytes)
| ANegative (n : option NegativeEntry)
| AStale (m : option Message).

Definition step (o : op) (c : Cache) : answer * Cache :=
  match o with
  | OSet now key value ttl => (ANone, Set_ now key value ttl c)
  | OGet now key => let '(r, s, c') := Get now key c in (AGet r s, c')
  | ODelete now key => (ANone, Delete now key c)
  | OFlush now => (ANone, Flush now c)
  | OApply now u => (ANone, ApplyRuntimeConfig now u c)
  | OSetNegative now key rcode ttl soa => (ANone, SetNegative now key rcode ttl soa c)
  | OGetNegative now key => let '(n, c') := GetNegative now key c in (ANegative n, c')
  | OStaleOnError now key => let '(m, c') := GetStaleOnError now key c in (AStale m, c')
  | OPrefetchDone key => (ANone, prefetchDone key c)
  end.

Definition spec_step (o : op) (a : acache) : answer * acache :=
  match o with
  | OSet now key value ttl => (ANone, spec_Set now key value ttl a)
  | OGet now key => let '(r, s, a') := spec_Get now key a in (AGet r s, a')
  | ODelete now key => (ANone, spec_Delete now key a)
  | OFlush now => (ANone, spec_Flush now a)
  | OApply now u => (ANone, spec_Apply now u a)
  | OSetNegative now key rcode ttl soa => (ANone, (a.1, SetNegative now key rcode ttl soa a.2))
  | OGetNegative now key => let '(n, v) := GetNegative now key a.2 in (ANegative n, (a.1, v))
  | OStaleOnError now key => let '(m, a') := spec_StaleOnError now key a in (AStale m, a')
  | OPrefetchDone key => (ANone, spec_prefetchDone key a)
  end.

Fixpoint run {S} (f : op -> S -> answer * S) (os : list op) (s : S) : list answer * S :=
  match os with
  | [] => ([], s)
  | o :: os' => let '(a, s1) := f o s in let '(l, s2) := run f os' s1 in (a :: l, s2)
  end.

End spec.
