(* ===== verification/CacheRefine.v ===== *)
(** * The pointer structure of the cache implements the abstract one. *)

From S2P Require Import Prelude.
From S2P Require Import GoStrings.
From S2P Require Import GoTime.
From S2P Require Import Protocol.
From S2P Require Import Decoder.
From S2P Require Import Encoder.
From S2P Require Import Cache.
From S2P Require Import CacheSpec.

#[local] Open Scope go_scope.

(** ** Lists *)

Lemma elem_of_list_remove x el l : x ∈ list_remove el l <-> x ∈ l /\ x <> el.
Proof.
  unfold list_remove. rewrite !list_elem_of_In, filter_In, negb_true_iff, Nat.eqb_neq. done.
Qed.

Lemma list_remove_split el l1 l2 :
  el ∉ l1 -> el ∉ l2 -> list_remove el (l1 ++ el :: l2) = l1 ++ l2.
Proof.
  assert (forall l, el ∉ l -> list_remove el l = l) as Hid.
  { induction l as [|x l IH]; [done|]. intros [Hx Hl]%not_elem_of_cons. cbn.
    destruct (Nat.eqb_spec x el); [congruence|]. cbn. f_equal. by apply IH. }
  intros H1 H2. unfold list_remove in *. rewrite List.filter_app. cbn [List.filter].
  rewrite Nat.eqb_refl. cbn [negb]. by rewrite (Hid l1), (Hid l2).
Qed.

Lemma remove_key_app key l k : remove_key key (l ++ k) = remove_key key l ++ remove_key key k.
Proof. apply List.filter_app. Qed.

Lemma remove_key_absent key l : Forall (fun e => e_key e <> key) l -> remove_key key l = l.
Proof.
  induction 1 as [|e l He Hl IH]; [done|]. cbn. rewrite bool_decide_eq_false_2 by done. cbn.
  f_equal. exact IH.
Qed.

Lemma remove_key_idem key l : remove_key key (remove_key key l) = remove_key key l.
Proof.
  apply remove_key_absent, Forall_forall. intros e He%list_elem_of_In.
  apply filter_In in He as [_ He]. by apply negb_true_iff, bool_decide_eq_false in He.
Qed.

Lemma remove_key_cons key e l : e_key e = key -> remove_key key (e :: l) = remove_key key l.
Proof. intros H. unfold remove_key. cbn. by rewrite bool_decide_eq_true_2. Qed.

Lemma find_key_absent key l : Forall (fun e => e_key e <> key) l -> find_key key l = None.
Proof.
  induction 1 as [|e l He Hl IH]; [done|]. unfold find_key in *. cbn.
  by rewrite bool_decide_eq_false_2.
Qed.

Lemma find_key_at key l e k :
  Forall (fun e => e_key e <> key) l -> e_key e = key -> find_key key (l ++ e :: k) = Some e.
Proof.
  unfold find_key. induction 1 as [|x l Hx Hl IH]; intros He; cbn.
  - by rewrite bool_decide_eq_true_2.
  - rewrite bool_decide_eq_false_2 by done. auto.
Qed.

Lemma remove_key_at key l e k :
  Forall (fun e => e_key e <> key) l -> Forall (fun e => e_key e <> key) k -> e_key e = key ->
  remove_key key (l ++ e :: k) = l ++ k.
Proof.
  intros Hl Hk He. rewrite remove_key_app. cbn. rewrite bool_decide_eq_true_2 by done. cbn.
  fold (remove_key key k). by rewrite !remove_key_absent.
Qed.

(** ** The store invariant

    The index and the list hold the same elements, each under the key of its
    entry; no element is in the list twice. *)

Record store_inv (c : Cache) : Prop := {
  si_nodup : NoDup (c_lru c);
  si_index : forall el, el ∈ c_lru c -> c_items c !! e_key (elem c el) = Some el;
  si_items : forall key el, c_items c !! key = Some el -> el ∈ c_lru c /\ e_key (elem c el) = key;
  si_fresh : forall el, el ∈ c_lru c -> (el < c_next c)%nat
}.

Definition view (c : Cache) : Cache := set_store c [] ∅ 0 ∅.
Definition abs_list (c : Cache) : list entry := map (elem c) (c_lru c).
Definition abs (c : Cache) : acache := (abs_list c, view c).

(** The store fields, on which [abs_list] and [store_inv] depend. *)
Definition same_store (c c' : Cache) : Prop :=
  c_lru c' = c_lru c /\ c_elems c' = c_elems c /\ c_next c' = c_next c /\ c_items c' = c_items c.

Lemma same_store_inv c c' : same_store c c' -> store_inv c -> store_inv c'.
Proof.
  destruct c, c'. unfold same_store. cbn. intros (-> & -> & -> & ->) [H1 H2 H3 H4].
  by constructor.
Qed.

Lemma same_store_abs c c' : same_store c c' -> abs_list c' = abs_list c.
Proof. destruct c, c'. unfold same_store. cbn. by intros (-> & -> & -> & ->). Qed.

Lemma elem_set_eq el e c : elem (set_elem el e c) el = e.
Proof. unfold elem, set_elem. cbn. by rewrite lookup_insert_eq. Qed.
Lemma elem_set_ne el e c x : x <> el -> elem (set_elem el e c) x = elem c x.
Proof. intros H. unfold elem, set_elem. cbn. by rewrite lookup_insert_ne. Qed.

Section store.
Context (c : Cache) (Hc : store_inv c).

(** Where the element of a key is, and what is around it. *)
Lemma store_split key el :
  c_items c !! key = Some el ->
  exists l1 l2, c_lru c = l1 ++ el :: l2 /\ (el ∉ l1) /\ (el ∉ l2)
    /\ e_key (elem c el) = key
    /\ Forall (fun x => e_key (elem c x) <> key) l1 /\ Forall (fun x => e_key (elem c x) <> key) l2.
Proof.
  intros Hk. destruct (si_items _ Hc _ _ Hk) as [Hin He].
  apply list_elem_of_split in Hin as (l1 & l2 & Hl). exists l1, l2.
  pose proof (si_nodup _ Hc) as Hnd. rewrite Hl in Hnd.
  apply NoDup_app in Hnd as (_ & Hdis & Hnd2). apply NoDup_cons in Hnd2 as [Hn2 _].
  assert (el ∉ l1) as Hn1 by (intros H; apply (Hdis _ H), elem_of_cons; by left).
  assert (forall x, x ∈ c_lru c -> x <> el -> e_key (elem c x) <> key) as Hne.
  { intros x Hx Hxe E. pose proof (si_index _ Hc x Hx) as Hi. rewrite E, Hk in Hi.
    by injection Hi as ->. }
  ands; try done; apply Forall_forall; intros x Hx; apply Hne; try (intros ->; done);
    rewrite Hl; apply elem_of_app; [by left|right; apply elem_of_cons; by right].
Qed.

Lemma Forall_abs key l :
  Forall (fun x => e_key (elem c x) <> key) l -> Forall (fun e => e_key e <> key) (map (elem c) l).
Proof. intros H. by apply Forall_map. Qed.

Lemma find_key_Some key el : c_items c !! key = Some el -> find_key key (abs_list c) = Some (elem c el).
Proof.
  intros Hk. destruct (store_split key el Hk) as (l1 & l2 & Hl & _ & _ & He & H1 & H2).
  unfold abs_list. rewrite Hl, map_app. apply find_key_at; [by apply Forall_abs|done].
Qed.

Lemma keys_absent key : c_items c !! key = None -> Forall (fun e => e_key e <> key) (abs_list c).
Proof.
  intros Hk. apply Forall_abs, Forall_forall. intros x Hx E.
  pose proof (si_index _ Hc x Hx) as Hi. rewrite E in Hi. congruence.
Qed.

Lemma find_key_None key : c_items c !! key = None -> find_key key (abs_list c) = None.
Proof. intros H. by apply find_key_absent, keys_absent. Qed.

Lemma length_abs : length (abs_list c) = length (c_lru c).
Proof. apply length_map. Qed.

(** The index has as many keys as the list has elements. *)
Lemma items_perm : (map_to_list (c_items c)).*2 ≡ₚ c_lru c.
Proof.
  apply NoDup_Permutation.
  - apply (NoDup_fmap_2_strong snd); [|apply NoDup_map_to_list].
    intros [k1 e1] [k2 e2] H1 H2 E. cbn in E. subst e2.
    rewrite elem_of_map_to_list in H1, H2.
    apply (si_items _ Hc) in H1 as [_ <-], H2 as [_ <-]. done.
  - apply Hc.
  - intros x. rewrite list_elem_of_fmap. split.
    + intros ([k e] & -> & H). rewrite elem_of_map_to_list in H. by apply (si_items _ Hc) in H as [? _].
    + intros H. exists (e_key (elem c x), x). split; [done|]. rewrite elem_of_map_to_list.
      by apply (si_index _ Hc).
Qed.

Lemma size_items : Z.of_nat (size (c_items c)) = len (abs_list c).
Proof.
  unfold len. rewrite length_abs, <- items_perm, length_fmap, length_map_to_list. done.
Qed.
End store.

(** ** The primitives of the list *)

Lemma set_elem_inv c el e :
  store_inv c -> el ∈ c_lru c -> e_key e = e_key (elem c el) -> store_inv (set_elem el e c).
Proof.
  intros [H1 H2 H3 H4] Hin Hk.
  assert (forall x, e_key (elem (set_elem el e c) x) = e_key (elem c x)) as Hkeys.
  { intros x. destruct (decide (x = el)) as [->|]; [by rewrite elem_set_eq|by rewrite elem_set_ne]. }
  constructor; try done; cbn [set_elem set_store c_lru c_items].
  - intros x. rewrite Hkeys. apply H2.
  - intros key x. rewrite Hkeys. apply H3.
Qed.

Lemma map_set_elem_absent c el e l : el ∉ l -> map (elem (set_elem el e c)) l = map (elem c) l.
Proof.
  intros H. apply map_ext_in. intros x Hx%list_elem_of_In. apply elem_set_ne. by intros ->.
Qed.

(** The element of [key] gets a new entry and moves to the front. *)
Lemma front_update c key el e :
  store_inv c -> c_items c !! key = Some el -> e_key e = key ->
  let c' := MoveToFront el (set_elem el e c) in
  store_inv c' /\ abs_list c' = e :: remove_key key (abs_list c) /\ view c' = view c
  /\ c_lru c' = el :: list_remove el (c_lru c) /\ c_elems c' = <[el := e]> (c_elems c)
  /\ c_items c' = c_items c.
Proof.
  intros Hc Hk He. destruct (store_split c Hc key el Hk) as (l1 & l2 & Hl & N1 & N2 & Hek & F1 & F2).
  assert (el ∈ c_lru c) as Hin by by apply (si_items _ Hc key).
  assert (store_inv (set_elem el e c)) as Hc1 by (apply set_elem_inv; congruence).
  unfold MoveToFront. rewrite bool_decide_eq_true_2 by done. cbv zeta.
  cbn [set_elem set_store c_lru c_elems c_items c_next].
  rewrite Hl, list_remove_split by done. split; [|split].
  - destruct Hc1 as [H1 H2 H3 H4]. cbn in H1, H2, H3, H4. rewrite Hl in H1, H2, H3, H4.
    constructor; cbn.
    + by rewrite Permutation_middle.
    + intros x Hx. apply H2. by rewrite <- Permutation_middle.
    + intros k x Hx. apply H3 in Hx as [Hx ?]. by rewrite <- Permutation_middle in Hx.
    + intros x Hx. apply H4. by rewrite <- Permutation_middle.
  - trans (elem (set_elem el e c) el :: map (elem (set_elem el e c)) (l1 ++ l2)); [done|].
    rewrite elem_set_eq. f_equal. unfold abs_list.
    rewrite map_set_elem_absent by (rewrite elem_of_app; tauto).
    rewrite Hl, !map_app. cbn [map].
    rewrite remove_key_at; [done|by apply Forall_abs..|done].
  - done.
Qed.

Lemma front_set c el rest e :
  store_inv c -> c_lru c = el :: rest -> e_key e = e_key (elem c el) ->
  store_inv (set_elem el e c) /\ abs_list (set_elem el e c) = e :: map (elem c) rest
  /\ c_lru (set_elem el e c) = el :: rest.
Proof.
  intros Hc Hl He. split; [|split; [|done]].
  - apply set_elem_inv; [done|rewrite Hl; apply elem_of_cons; by left|done].
  - unfold abs_list. cbn [set_elem set_store c_lru]. rewrite Hl. cbn [map].
    fold (set_elem el e c). rewrite elem_set_eq. f_equal. apply map_set_elem_absent.
    pose proof (si_nodup _ Hc) as Hnd. rewrite Hl in Hnd. by apply NoDup_cons in Hnd as [? _].
Qed.

Lemma push_front c key e :
  store_inv c -> c_items c !! key = None -> e_key e = key ->
  let '(el, c1) := PushFront e c in
  let c2 := set_store c1 (c_lru c1) (c_elems c1) (c_next c1) (<[key := el]> (c_items c1)) in
  store_inv c2 /\ abs_list c2 = e :: abs_list c /\ view c2 = view c.
Proof.
  intros Hc Hk He. unfold PushFront. cbv zeta. cbn [set_store c_lru c_elems c_next c_items].
  set (el := c_next c). set (c2 := set_store _ _ _ _ _).
  assert (el ∉ c_lru c) as Hnew by (intros H%(si_fresh _ Hc); unfold el in H; lia).
  assert (elem c2 el = e) as Eel by (unfold elem; cbn; by rewrite lookup_insert_eq).
  assert (forall x, x ∈ c_lru c -> elem c2 x = elem c x) as Eold.
  { intros x Hx. unfold elem. cbn. rewrite lookup_insert_ne; [done|congruence]. }
  split; [|split; [|done]].
  - constructor; cbn [c2 set_store c_lru c_items c_next].
    + apply NoDup_cons. split; [done|apply Hc].
    + intros x [->|Hx]%elem_of_cons.
      * rewrite Eel, He. apply lookup_insert_eq.
      * rewrite Eold by done. rewrite lookup_insert_ne; [by apply Hc|].
        intros E. pose proof (si_index _ Hc x Hx). congruence.
    + intros k x. destruct (decide (k = key)) as [->|Hne].
      * rewrite lookup_insert_eq. intros [= <-]. rewrite Eel. split; [apply elem_of_cons; by left|done].
      * rewrite lookup_insert_ne by done. intros Hx. apply (si_items _ Hc) in Hx as [Hx ?].
        rewrite Eold by done. split; [apply elem_of_cons; by right|done].
    + intros x [->|Hx]%elem_of_cons; [lia|]. apply (si_fresh _ Hc) in Hx. unfold el. lia.
  - unfold abs_list at 1. cbn [c2 set_store c_lru map]. fold c2. rewrite Eel. f_equal.
    apply map_ext_in. intros x Hx%list_elem_of_In. by apply Eold.
Qed.

Lemma remove_elem c key el :
  store_inv c -> c_items c !! key = Some el ->
  store_inv (removeElementLocked el c)
  /\ abs_list (removeElementLocked el c) = remove_key key (abs_list c)
  /\ view (removeElementLocked el c) = give_back (elem c el) (view c).
Proof.
  intros Hc Hk. destruct (store_split c Hc key el Hk) as (l1 & l2 & Hl & N1 & N2 & Hek & F1 & F2).
  pose proof (si_nodup _ Hc) as Hnd. rewrite Hl in Hnd.
  assert (c_lru (removeElementLocked el c) = l1 ++ l2) as Hl'.
  { cbn. rewrite Hl. by apply list_remove_split. }
  assert (forall x, x ∈ l1 ++ l2 -> x ∈ c_lru c /\ x <> el) as Hsub.
  { intros x Hx. rewrite Hl. split.
    - rewrite elem_of_app in Hx. rewrite elem_of_app, elem_of_cons. tauto.
    - intros ->. apply elem_of_app in Hx. tauto. }
  split; [|split; [|done]].
  - constructor; rewrite ?Hl'.
    + rewrite <- Permutation_middle in Hnd. by apply NoDup_cons in Hnd as [_ ?].
    + intros x Hx. apply Hsub in Hx as [Hx Hne]. cbn. rewrite Hek.
      change (elem _ x) with (elem c x). rewrite lookup_delete_ne; [by apply Hc|].
      intros E. pose proof (si_index _ Hc x Hx). congruence.
    + intros k x Hx. cbn in Hx. rewrite Hek in Hx. apply lookup_delete_Some in Hx as [Hne Hx].
      apply (si_items _ Hc) in Hx as [Hx E]. change (elem _ x) with (elem c x). split; [|done].
      rewrite Hl in Hx. rewrite elem_of_app, elem_of_cons in *. destruct Hx as [?|[->|?]]; auto.
      congruence.
    + intros x Hx. apply Hsub in Hx as [Hx _]. cbn. by apply (si_fresh _ Hc).
  - unfold abs_list. rewrite Hl', Hl, !map_app. cbn [map].
    rewrite remove_key_at; [done|by apply Forall_abs..|done].
Qed.

Lemma evict c :
  store_inv c -> store_inv (evictOldestLocked c) /\ abs (evictOldestLocked c) = a_evict (abs c).
Proof.
  intros Hc. unfold evictOldestLocked, a_evict, abs. cbn [fst snd].
  destruct (last (c_lru c)) as [el|] eqn:El.
  - apply last_Some in El as [l Hl].
    assert (el ∈ c_lru c) as Hin by (rewrite Hl; apply elem_of_app; right; by apply list_elem_of_singleton).
    pose proof (si_index _ Hc el Hin) as Hk. set (key := e_key (elem c el)) in *.
    destruct (remove_elem c key el Hc Hk) as (H1 & H2 & H3).
    assert (abs_list c = map (elem c) l ++ [elem c el]) as Hal
      by (unfold abs_list; rewrite Hl, map_app; done).
    rewrite Hal, last_snoc. cbv zeta. split; [by eapply same_store_inv; [|exact H1]|].
    rewrite (same_store_abs (removeElementLocked el c)) by done.
    rewrite H2, Hal, removelast_last, remove_key_at; [by rewrite app_nil_r, <- H3| |constructor|done].
    apply Forall_abs, Forall_forall. intros x Hx E.
    assert (x ∈ c_lru c) as Hx' by (rewrite Hl; apply elem_of_app; by left).
      pose proof (si_index _ Hc x Hx') as Hi. fold key in E. rewrite E, Hk in Hi.
      injection Hi as ->. pose proof (si_nodup _ Hc) as Hnd. rewrite Hl in Hnd.
      apply NoDup_app in Hnd as (_ & Hd & _). apply (Hd x Hx). by apply list_elem_of_singleton.
  - apply last_None in El. split; [done|]. unfold abs_list. rewrite El. done.
Qed.

(** ** Each call *)

(** The concrete state [c] is consistent and stands for [a]. *)
Definition stands_for (c : Cache) (a : acache) : Prop := store_inv c /\ abs c = a.

Lemma stands_stats c l v f :
  stands_for c (l, v) -> stands_for (set_stats c (f (c_stats c))) (l, a_stats f v).
Proof.
  intros [Hc E]. injection E as <- <-. split; [by eapply same_store_inv; [|exact Hc]|]. done.
Qed.

Lemma stands_touch now c a : stands_for c a -> stands_for (touchStatsLocked now c) (a_touch now a).
Proof.
  intros [Hc <-]. split; [by eapply same_store_inv; [|exact Hc]|].
  unfold abs, a_touch. cbv zeta. rewrite <- size_items by done. done.
Qed.

Lemma stands_evict c a : stands_for c a -> stands_for (evictOldestLocked c) (a_evict a).
Proof. intros [Hc <-]. by apply evict. Qed.

Lemma stands_evict_loop n c a : stands_for c a -> stands_for (evict_loop n c) (a_evict_loop n a).
Proof.
  revert c a. induction n as [|n IH]; intros c a H; [done|].
  cbn [evict_loop a_evict_loop]. pose proof H as [Hc <-].
  change (c_maxEntries (abs c).2) with (c_maxEntries c). change (abs c).1 with (abs_list c).
  unfold len. rewrite length_abs. bcase; [|done]. by apply IH, stands_evict.
Qed.

Section refine.
Context {U : UnicodeTables}.

Lemma Set_refines now key value ttl c :
  store_inv c -> stands_for (Set_ now key value ttl c) (spec_Set now key value ttl (abs c)).
Proof.
  intros Hc. unfold Set_, spec_Set, abs at 1. destruct value as [m|]; [|done].
  case_bool_decide; [done|]. cbv zeta.
  change (new_entry (view c) now key m ttl) with (new_entry c now key m ttl).
  set (item := new_entry c now key m ttl). assert (e_key item = key) as Hik by done.
  destruct (c_items c !! key) as [el|] eqn:Hk.
  - rewrite (find_key_Some c Hc key el Hk). apply stands_touch.
    set (c1 := set_stats c _).
    assert (store_inv c1) as Hc1 by by eapply same_store_inv; [|exact Hc].
    destruct (front_update c1 key el item Hc1 Hk Hik) as (H1 & H2 & H3 & _).
    apply (stands_stats _ _ _ (fun s => set_memory s (u64 (st_MemoryBytes s + e_size item)))).
    split; [done|]. unfold abs. by rewrite H2, H3.
  - rewrite (find_key_None c Hc key Hk).
    pose proof (push_front c key item Hc Hk Hik) as Hp.
    destruct (PushFront item c) as [el c1] eqn:Ep. destruct Hp as (H1 & H2 & H3).
    apply stands_touch. set (c2 := set_store c1 _ _ _ _) in *.
    assert (stands_for (set_stats c2 (set_memory (c_stats c2) (u64 (st_MemoryBytes (c_stats c2) + e_size item))))
      (item :: abs_list c, a_memory (fun m => u64 (m + e_size item)) (view c))) as Hs.
    { apply (stands_stats _ _ _ (fun s => set_memory s (u64 (st_MemoryBytes s + e_size item)))).
      split; [done|]. unfold abs. by rewrite H2, H3. }
    set (c3 := set_stats c2 _) in *.
    assert (len (c_lru c3) = len (abs_list c) + 1) as El.
    { unfold len. rewrite <- (length_abs c3). rewrite (same_store_abs c2 c3) by done. rewrite H2.
      cbn [length]. lia. }
    assert (c_maxEntries c3 = c_maxEntries (view c)) as Em.
    { change (c_maxEntries c3) with (c_maxEntries (view c2)). by rewrite H3. }
    rewrite El, Em. bcase; [by apply stands_evict|done].
Qed.

(** [maybePrefetchLocked] on the element at the front. *)
Lemma prefetch_refines el rest now c v :
  store_inv c -> c_lru c = el :: rest -> view c = v ->
  let '(s, c') := maybePrefetchLocked el now c in
  let '(s', item', v') := spec_prefetch (elem c el) now v in
  s = s' /\ stands_for c' (item' :: map (elem c) rest, v').
Proof.
  intros Hc Hl Hv. unfold maybePrefetchLocked, spec_prefetch. rewrite <- Hv.
  change (c_prefetch (view c)) with (c_prefetch c).
  assert (stands_for c (elem c el :: map (elem c) rest, view c)) as Hst.
  { split; [done|]. unfold abs, abs_list. by rewrite Hl. }
  bcase; [by split|]. cbv zeta. bcase; [by split|]. split; [done|].
  destruct (front_set c el rest (set_refreshing (elem c el) true) Hc Hl) as (H1 & H2 & _); [done|].
  apply (stands_stats _ _ _ (fun st => count st 0 0 0 0 0 1)).
  split; [done|]. unfold abs. by rewrite H2.
Qed.

Lemma Get_refines now key c :
  store_inv c ->
  let '(r, s, c') := Get now key c in
  let '(r', s', a') := spec_Get now key (abs c) in
  r = r' /\ s = s' /\ stands_for c' a'.
Proof.
  intros Hc. unfold Get, spec_Get, abs at 1. cbv zeta.
  destruct (c_items c !! key) as [el|] eqn:Hk.
  2:{ rewrite (find_key_None c Hc key Hk). ands; try done. apply stands_touch.
      by apply (stands_stats c _ _ (fun st => count st 0 1 0 0 0 0)). }
  rewrite (find_key_Some c Hc key el Hk). set (e := elem c el).
  set (item := set_hits e (i64 (e_hits e + 1))).
  assert (e_key item = key) as Hik by by apply (si_items _ Hc) in Hk as [_ ?].
  destruct (front_update c key el item Hc Hk Hik) as (H1 & H2 & H3 & Hlru & Hels & Hits).
  set (c1 := MoveToFront el (set_elem el item c)) in *.
  assert (elem c1 el = item) as Eel by (unfold elem; rewrite Hels, lookup_insert_eq; done).
  set (rest := list_remove el (c_lru c)) in *.
  assert (map (elem c1) rest = remove_key key (abs_list c)) as Hrest.
  { unfold abs_list in H2. rewrite Hlru in H2. cbn [map] in H2. by injection H2 as _ H2. }
  change (e_expiresAt item) with (e_expiresAt e). change (e_expired item) with (e_expired e).
  change (e_staleUntil item) with (e_staleUntil e). change (e_lastGood item) with (e_lastGood e).
  change (e_lastGoodAt item) with (e_lastGoodAt e). change (e_value item) with (e_value e).
  bcase.
  - set (c2 := set_stats c1 _).
    assert (store_inv c2) as Hc2 by by eapply same_store_inv; [|exact H1].
    pose proof (prefetch_refines el rest now c2 (a_count 1 0 0 0 0 0 (view c)) Hc2 Hlru) as Hp.
    change (elem c2) with (elem c1) in Hp. rewrite Eel, Hrest in Hp.
    destruct (maybePrefetchLocked el now c2) as [s c3], (spec_prefetch item now _) as [[s' it'] v'].
    destruct Hp as [-> Hp]; [unfold c2; cbn [view]; by rewrite <- H3|].
    ands; try done. by apply stands_touch.
  - set (c2 := if e_expired e then c1 else _).
    set (item2 := if e_expired e then item else set_expired item).
    set (v2 := if e_expired e then view c else a_count 0 0 0 0 1 0 (view c)).
    assert ((if e_expired e then (item, view c) else (set_expired item, a_count 0 0 0 0 1 0 (view c)))
      = (item2, v2)) as -> by (unfold item2, v2; by destruct (e_expired e)).
    assert (store_inv c2 /\ c_lru c2 = el :: rest /\ elem c2 el = item2
      /\ map (elem c2) rest = remove_key key (abs_list c) /\ view c2 = v2
      /\ c_items c2 = c_items c) as (Hc2 & Hl2 & He2 & Hr2 & Hv2 & Hi2).
    { unfold c2, item2, v2. destruct (e_expired e); [by ands|].
      destruct (front_set c1 el rest (set_expired item) H1 Hlru) as (F1 & F2 & F3);
        [by rewrite Eel|].
      ands; try done.
      - by eapply same_store_inv; [|exact F1].
      - exact (elem_set_eq el (set_expired item) c1).
      - rewrite <- Hrest. unfold abs_list in F2. rewrite F3 in F2. cbn [map] in F2.
        by injection F2 as _ F2.
      - by rewrite <- H3. }
    clearbody c2. assert (abs c2 = (item2 :: remove_key key (abs_list c), v2)) as Habs.
    { unfold abs, abs_list at 1. rewrite Hl2, Hv2. cbn [map]. by rewrite He2, Hr2. }
    bcase.
    + set (c3 := set_stats c2 _).
      assert (store_inv c3) as Hc3 by by eapply same_store_inv; [|exact Hc2].
      pose proof (prefetch_refines el rest now c3 (a_count 1 0 1 0 0 0 v2) Hc3 Hl2) as Hp.
      change (elem c3) with (elem c2) in Hp. rewrite He2, Hr2 in Hp.
      destruct (maybePrefetchLocked el now c3) as [s c4], (spec_prefetch item2 now _) as [[s' it'] v'].
      destruct Hp as [-> Hp]; [unfold c3; cbn [view]; by rewrite <- Hv2|].
      ands; try done. by apply stands_touch.
    + change (c_staleMaxAge v2) with (c_staleMaxAge v2).
      assert (c_staleMaxAge c2 = c_staleMaxAge v2) as -> by by rewrite <- Hv2.
      bcase; (ands; [done|done|apply stands_touch]).
      * apply (stands_stats c2 _ _ (fun st => count st 0 1 0 0 0 0)). by split.
      * apply (stands_stats _ _ _ (fun st => count st 0 1 0 0 0 0)).
        rewrite <- Hi2 in Hk. destruct (remove_elem c2 key el Hc2 Hk) as (R1 & R2 & R3).
        split; [done|]. unfold abs. rewrite R2, R3, Hv2, He2. unfold abs in Habs.
        injection Habs as -> _.
        rewrite remove_key_cons by (unfold item2; by destruct (e_expired e)).
        rewrite remove_key_idem. f_equal. unfold item2. by destruct (e_expired e).
Qed.

Lemma remove_refines key el c :
  store_inv c -> c_items c !! key = Some el ->
  stands_for (removeElementLocked el c) (remove_key key (abs_list c), give_back (elem c el) (view c)).
Proof.
  intros Hc Hk. destruct (remove_elem c key el Hc Hk) as (R1 & R2 & R3).
  split; [done|]. unfold abs. by rewrite R2, R3.
Qed.

Lemma Delete_refines now key c :
  store_inv c -> stands_for (Delete now key c) (spec_Delete now key (abs c)).
Proof.
  intros Hc. unfold Delete, spec_Delete, a_remove, abs at 1. cbv zeta.
  assert (forall c' l v, stands_for c' (l, v) ->
    stands_for (touchStatsLocked now (set_negative c' (delete key (c_negative c'))))
      (a_touch now (l, set_negative v (delete key (c_negative v))))) as Hend.
  { intros c' l v [H E]. injection E as <- <-. apply stands_touch.
    split; [by eapply same_store_inv; [|exact H]|done]. }
  destruct (c_items c !! key) as [el|] eqn:Hk.
  - rewrite (find_key_Some c Hc key el Hk). by apply Hend, remove_refines.
  - rewrite (find_key_None c Hc key Hk). by apply Hend.
Qed.

Lemma empty_store_inv c : store_inv (set_store c [] ∅ (c_next c) ∅).
Proof.
  constructor; cbn; [constructor|by intros el ?%elem_of_nil| |by intros el ?%elem_of_nil].
  intros key el. by rewrite lookup_empty.
Qed.

Lemma Flush_refines now c : stands_for (Flush now c) (spec_Flush now (abs c)).
Proof.
  unfold Flush, spec_Flush. apply stands_touch.
  split; [by eapply same_store_inv; [|exact (empty_store_inv c)]|done].
Qed.

Lemma stands_config c l v m a b d e :
  stands_for c (l, v) -> stands_for (set_config c m a b d e) (l, set_config v m a b d e).
Proof. intros [H E]. injection E as <- <-. split; [by eapply same_store_inv; [|exact H]|done]. Qed.

Lemma Apply_refines now u c :
  store_inv c -> stands_for (ApplyRuntimeConfig now u c) (spec_Apply now u (abs c)).
Proof.
  intros Hc. unfold ApplyRuntimeConfig, spec_Apply, abs at 1. cbv zeta.
  set (c1 := set_config c _ _ _ _ _). set (v1 := set_config (view c) _ _ _ _ _).
  assert (stands_for c1 (abs_list c, v1)) as H1 by by apply stands_config.
  set (c2 := match u_MaxEntries u with Some _ => _ | None => _ end).
  assert (exists l v, (match u_MaxEntries u with
      | Some n => if 0 <? n then a_evict_loop (length (abs_list c)) (abs_list c, v1) else (abs_list c, v1)
      | None => (abs_list c, v1) end) = (l, v) /\ stands_for c2 (l, v)) as (l & v & -> & H2).
  { unfold c2. destruct (u_MaxEntries u) as [n|]; [|by eauto]. destruct (0 <? n); [|by eauto].
    rewrite (length_abs c). change (length (c_lru c)) with (length (c_lru c1)).
    destruct (a_evict_loop _ _) as [l v] eqn:E. exists l, v. split; [done|]. rewrite <- E.
    by apply stands_evict_loop. }
  clearbody c2. pose proof H2 as [_ E]. injection E as _ Ev. apply stands_touch. rewrite <- Ev in *.
  by apply stands_config.
Qed.

Lemma StaleOnError_refines now key c :
  store_inv c ->
  let '(m, c') := GetStaleOnError now key c in
  let '(m', a') := spec_StaleOnError now key (abs c) in
  m = m' /\ stands_for c' a'.
Proof.
  intros Hc. unfold GetStaleOnError, spec_StaleOnError, abs at 1. cbv zeta.
  destruct (c_items c !! key) as [el|] eqn:Hk; [|by rewrite (find_key_None c Hc key Hk)].
  rewrite (find_key_Some c Hc key el Hk).
  destruct (e_lastGood (elem c el)) as [g|]; [|done].
  destruct (_ =? time_zero); [done|].
  change (c_staleMaxAge (view c)) with (c_staleMaxAge c).
  destruct (c_staleMaxAge c <? _); [|done]. split; [done|]. by apply remove_refines.
Qed.

Lemma prefetchDone_refines key c :
  store_inv c -> stands_for (prefetchDone key c) (spec_prefetchDone key (abs c)).
Proof.
  intros Hc. unfold prefetchDone, spec_prefetchDone. cbn [abs fst snd].
  destruct (c_items c !! key) as [el|] eqn:Hk.
  - destruct (store_split c Hc key el Hk) as (l1 & l2 & Hl & N1 & N2 & Hek & F1 & F2).
    set (e := set_refreshing _ _). assert (el ∈ c_lru c) as Hin by by apply (si_items _ Hc key).
    split; [by apply set_elem_inv|]. unfold abs. f_equal. unfold abs_list.
    cbn [set_elem set_store c_lru]. fold (set_elem el e c).
    assert (forall l, Forall (fun x => e_key (elem c x) <> key) l ->
      map (fun e => if bool_decide (e_key e = key) then set_refreshing e false else e) (map (elem c) l)
      = map (elem c) l) as Hid.
    { induction 1 as [|x l Hx Hf IH]; [done|]. cbn [map].
      rewrite bool_decide_eq_false_2 by done. by rewrite IH. }
    rewrite Hl, !map_app. cbn [map].
    rewrite !map_set_elem_absent, elem_set_eq, !Hid by done.
    by rewrite bool_decide_eq_true_2.
  - split; [done|]. unfold abs. f_equal.
    pose proof (keys_absent c Hc key Hk) as Hf. induction Hf as [|e l He Hl IH]; [done|].
    cbn [map]. rewrite bool_decide_eq_false_2 by done. by rewrite <- IH.
Qed.

Lemma step_refines o c :
  store_inv c ->
  (step o c).1 = (spec_step o (abs c)).1 /\ stands_for (step o c).2 (spec_step o (abs c)).2.
Proof.
  intros Hc. destruct o as [now key value ttl|now key|now key|now|now u|now key rc ttl soa|now key|now key|key];
    cbn [step spec_step].
  - split; [done|by apply Set_refines].
  - pose proof (Get_refines now key c Hc) as H.
    destruct (Get now key c) as [[r s] c'], (spec_Get now key (abs c)) as [[r' s'] a'].
    destruct H as (-> & -> & H). by split.
  - split; [done|by apply Delete_refines].
  - split; [done|by apply Flush_refines].
  - split; [done|by apply Apply_refines].
  - split; [done|]. split; [by eapply same_store_inv; [|exact Hc]|done].
  - unfold GetNegative. change (c_negative (abs c).2) with (c_negative c).
    destruct (c_negative c !! key) as [n|]; [destruct (_ <? now)|];
      (split; [done|]; split; [by eapply same_store_inv; [|exact Hc]|done]).
  - pose proof (StaleOnError_refines now key c Hc) as H.
    destruct (GetStaleOnError now key c) as [m c'], (spec_StaleOnError now key (abs c)) as [m' a'].
    destruct H as (-> & H). by split.
  - split; [done|by apply prefetchDone_refines].
Qed.

Lemma run_refines os c :
  store_inv c ->
  (run step os c).1 = (run spec_step os (abs c)).1
  /\ stands_for (run step os c).2 (run spec_step os (abs c)).2.
Proof.
  revert c. induction os as [|o os IH]; intros c Hc; [done|]. cbn [run].
  pose proof (step_refines o c Hc) as [H1 [Hc1 H2]].
  destruct (step o c) as [a c1], (spec_step o (abs c)) as [a' s1]. cbn [fst snd] in *. subst a' s1.
  specialize (IH c1 Hc1).
  destruct (run step os c1) as [l c2], (run spec_step os (abs c1)) as [l' s2]. cbn [fst snd] in *.
  destruct IH as [-> IH]. by split.
Qed.

Lemma New_inv opts : store_inv (New opts).
Proof.
  constructor; cbn; [constructor|by intros el ?%elem_of_nil| |by intros el ?%elem_of_nil].
  intros key el. by rewrite lookup_empty.
Qed.

(** C2. Refinement: from a new cache, every sequence of calls gives exactly
    the answers of the abstract LRU cache of [CacheSpec], and leaves the same
    entries in the same order, the same configuration, negative entries and
    statistics; in between, the index and the linked list always agree. *)
Theorem cache_refines opts os :
  let c := run step os (New opts) in
  let a := run spec_step os ([], New opts) in
  c.1 = a.1 /\ stands_for c.2 a.2.
Proof. apply (run_refines os (New opts)). apply New_inv. Qed.
End refine.
