(* ===== verification/CacheProps.v ===== *)
(** * What the cache guarantees. *)

From S2P Require Import Prelude.
From S2P Require Import GoStrings.
From S2P Require Import GoTime.
From S2P Require Import Protocol.
From S2P Require Import Decoder.
From S2P Require Import Encoder.
From S2P Require Import WireRoundtrip.
From S2P Require Import Cache.
From S2P Require Import CacheSpec.
From S2P Require Import CacheRefine.

#[local] Open Scope go_scope.

(** ** Bounds *)

Definition total_size (l : list entry) : Z := foldr (fun e n => e_size e + n) 0 l.

Lemma total_size_app l k : total_size (l ++ k) = total_size l + total_size k.
Proof. unfold total_size. induction l as [|e l IH]; cbn; [done|]. rewrite IH. lia. Qed.

(** Limits under which the memory estimate cannot wrap around: keys shorter
    than 64 KiB and at most 2^40 entries. *)
Definition entry_limit : Z := 2 ^ 40.

Section bounds.
Context {U : UnicodeTables}.

Definition entry_sized (e : entry) : Prop :=
  e_size e = len (e_key e) + messageSizeEstimate (e_value e) /\ 0 <= e_size e <= 2 ^ 17.

Record ainv (a : acache) : Prop := {
  ai_keys : NoDup (map e_key a.1);
  ai_max : 0 < c_maxEntries a.2 <= entry_limit;
  ai_len : len a.1 <= c_maxEntries a.2;
  ai_size : Forall entry_sized a.1;
  ai_memory : st_MemoryBytes (c_stats a.2) = total_size a.1
}.

(** The calls of the program: short keys, a sensible number of entries. *)
Definition op_ok (o : op) : Prop :=
  match o with
  | OSet _ key _ _ => len key < 65536
  | OApply _ u => match u_MaxEntries u with Some n => n <= entry_limit | None => True end
  | _ => True
  end.

Lemma total_size_bound l : Forall entry_sized l -> 0 <= total_size l <= 2 ^ 17 * len l.
Proof.
  induction 1 as [|e l [_ He] Hl IH]; [done|]. cbn [total_size foldr]. fold (total_size l). len_lia.
Qed.

Lemma messageSizeEstimate_range m : 0 <= messageSizeEstimate m <= 65535.
Proof.
  unfold messageSizeEstimate. pose proof (Encode_post (Some m)) as H.
  destruct (Encode (Some m)).2 as [wire| | |]; cbn in H; try lia.
  pose proof (len_nonneg wire). unfold MaxDNSPacketLen in H. lia.
Qed.

Lemma new_entry_sized v now key m ttl :
  len key < 65536 -> entry_sized (new_entry v now key m ttl).
Proof.
  intros Hk. unfold entry_sized. cbn [new_entry e_size e_key e_value].
  pose proof (messageSizeEstimate_range (cloneMessage m)). pose proof (len_nonneg key).
  unfold u64. rewrite Z.mod_small by lia. lia.
Qed.

Lemma find_key_split key l e :
  NoDup (map e_key l) -> find_key key l = Some e ->
  exists l1 l2, l = l1 ++ e :: l2 /\ e_key e = key /\ remove_key key l = l1 ++ l2
    /\ Forall (fun x => e_key x <> key) l1 /\ Forall (fun x => e_key x <> key) l2.
Proof.
  induction l as [|x l IH]; [done|]. cbn [map]. intros [Hx Hl]%NoDup_cons. unfold find_key. cbn.
  case_bool_decide as E.
  - intros [= ->]. exists [], l.
    assert (Forall (fun x => e_key x <> key) l) as Hf.
    { apply Forall_forall. intros y Hy E'. apply Hx. rewrite E, <- E'. by apply list_elem_of_fmap_2. }
    ands; try done. cbn. fold (remove_key key l). by apply remove_key_absent.
  - intros Hfind. destruct (IH Hl Hfind) as (l1 & l2 & -> & He & Hr & F1 & F2).
    exists (x :: l1), l2. ands; try done; [|by constructor]. cbn.
    fold (remove_key key (l1 ++ e :: l2)). by rewrite Hr.
Qed.

Lemma find_key_None_inv key l : find_key key l = None -> Forall (fun x => e_key x <> key) l.
Proof.
  unfold find_key. induction l as [|x l IH]; [by constructor|]. cbn. case_bool_decide; [done|].
  constructor; auto.
Qed.

Lemma absent_keys key l : Forall (fun x => e_key x <> key) l -> key ∉ map e_key l.
Proof. intros H (x & -> & Hx)%list_elem_of_fmap. rewrite Forall_forall in H. by apply (H x). Qed.

(** Replacing the entry of a key by one in front, or dropping it. *)
Lemma replace_front key l e item :
  NoDup (map e_key l) -> find_key key l = Some e -> e_key item = key ->
  NoDup (map e_key (item :: remove_key key l)) /\ NoDup (map e_key (remove_key key l))
  /\ len l = 1 + len (remove_key key l) /\ total_size l = e_size e + total_size (remove_key key l)
  /\ (forall P, Forall P l -> P e /\ Forall P (remove_key key l)).
Proof.
  intros Hnd Hf Hk. destruct (find_key_split key l e Hnd Hf) as (l1 & l2 & -> & He & -> & F1 & F2).
  rewrite map_app in Hnd. cbn [map] in Hnd. rewrite <- Permutation_middle in Hnd.
  rewrite <- map_app in Hnd. apply NoDup_cons in Hnd as [Hn Hnd]. ands.
  - cbn [map]. apply NoDup_cons. by rewrite Hk, <- He.
  - done.
  - len_lia.
  - rewrite !total_size_app. cbn. fold (total_size l2). lia.
  - intros P [H1 [H2 H3]%Forall_cons]%Forall_app. split; [done|]. by apply Forall_app.
Qed.

Lemma ainv_touch now a : ainv a -> ainv (a_touch now a).
Proof. destruct a as [l v]. intros [H1 H2 H3 H4 H5]. by constructor. Qed.

Lemma ainv_stats l v v' :
  ainv (l, v) -> c_maxEntries v' = c_maxEntries v ->
  st_MemoryBytes (c_stats v') = st_MemoryBytes (c_stats v) -> ainv (l, v').
Proof. intros [H1 H2 H3 H4 H5] E1 E2. constructor; cbn in *; by rewrite ?E1, ?E2. Qed.

(** The saturating subtraction of [removeElementLocked] is exact. *)
Lemma give_back_memory e v n :
  st_MemoryBytes (c_stats v) = e_size e + n -> 0 <= n ->
  st_MemoryBytes (c_stats (give_back e v)) = n.
Proof. intros H Hn. cbn. rewrite H. bcase; lia. Qed.

Lemma ainv_remove key l v e :
  ainv (l, v) -> find_key key l = Some e -> ainv (remove_key key l, give_back e v).
Proof.
  intros [H1 H2 H3 H4 H5] Hf. cbn [fst snd] in *.
  destruct (replace_front key l e e H1 Hf) as (_ & Hnd & Hlen & Hsz & HP).
  { by apply (find_key_split key l e H1) in Hf as (? & ? & _ & ? & _). }
  apply HP in H4 as [_ H4]. constructor; cbn [fst snd]; try done.
  { change (len (remove_key key l) <= c_maxEntries v). lia. }
  apply give_back_memory; [lia|]. apply (total_size_bound _ H4).
Qed.

Lemma ainv_evict a : ainv a \/ (exists e l v, a = (e :: l, v) /\ NoDup (map e_key (e :: l))
    /\ 0 < c_maxEntries v <= entry_limit /\ len (e :: l) <= c_maxEntries v + 1
    /\ Forall entry_sized (e :: l) /\ st_MemoryBytes (c_stats v) = total_size (e :: l)) ->
  ainv (a_evict a).
Proof.
  intros H. assert (NoDup (map e_key a.1) /\ 0 < c_maxEntries a.2 <= entry_limit
    /\ len a.1 <= c_maxEntries a.2 + 1 /\ Forall entry_sized a.1
    /\ st_MemoryBytes (c_stats a.2) = total_size a.1) as (H1 & H2 & H3 & H4 & H5).
  { destruct H as [[]|(e & l & v & -> & ?)]; [ands; try done; lia|done]. }
  clear H. destruct a as [l v]. cbn [fst snd a_evict] in *.
  destruct (last l) as [e|] eqn:El.
  - apply last_Some in El as [k ->]. rewrite removelast_last.
    rewrite map_app in H1. apply NoDup_app in H1 as (H1 & _ & _).
    apply Forall_app in H4 as [H4 _]. rewrite total_size_app in H5. change (total_size [e]) with (e_size e + 0) in H5.
    constructor; cbn [fst snd]; try done.
    + change (len k <= c_maxEntries v). len_lia.
    + apply (give_back_memory e v); [lia|]. apply (total_size_bound _ H4).
  - apply last_None in El as ->. constructor; cbn [fst snd]; [done|done|rewrite len_nil; lia|done|done].
Qed.

Lemma ainv_Set now key value ttl a : len key < 65536 -> ainv a -> ainv (spec_Set now key value ttl a).
Proof.
  intros Hk Ha. pose proof Ha as [H1 H2 H3 H4 H5]. destruct a as [l v]. cbn [fst snd] in *.
  unfold spec_Set. destruct value as [m|]; [|done]. case_bool_decide; [done|]. cbv zeta.
  set (item := new_entry v now key m ttl).
  assert (entry_sized item) as Hitem by by apply new_entry_sized.
  pose proof (total_size_bound _ H4) as Hb. pose proof Hitem as [_ Hs].
  unfold entry_limit in *. destruct (find_key key l) as [old|] eqn:Hf.
  - apply ainv_touch.
    destruct (replace_front key l old item H1 Hf) as (Hnd & _ & Hlen & Hsz & HP); [done|].
    pose proof (HP _ H4) as [Ho Hr]. pose proof (total_size_bound _ Hr) as Hb2.
    destruct Ho as [_ Ho].
    constructor; cbn [fst snd]; [done|done| |by constructor|].
    { change (len (item :: remove_key key l) <= c_maxEntries v). len_lia. }
    change (u64 (u64 (st_MemoryBytes (c_stats v) - e_size old) + e_size item)
      = e_size item + total_size (remove_key key l)).
    rewrite H5, Hsz. unfold u64.
    rewrite (Z.mod_small (e_size old + _ - _)) by lia. rewrite Z.mod_small by lia. lia.
  - assert (NoDup (map e_key (item :: l))) as Hnd.
    { cbn [map]. apply NoDup_cons. split; [|done]. by apply absent_keys, find_key_None_inv. }
    assert (u64 (st_MemoryBytes (c_stats v) + e_size item) = total_size (item :: l)) as Hmem.
    { rewrite H5. unfold u64. rewrite Z.mod_small by lia.
      change (total_size (item :: l)) with (e_size item + total_size l). lia. }
    apply ainv_touch. bcase.
    + apply ainv_evict. right. exists item, l. eexists. split; [done|].
      change (c_maxEntries (a_memory _ v)) with (c_maxEntries v).
      unfold entry_limit. ands; [done|lia|lia|len_lia|by constructor|done].
    + constructor; cbn [fst snd]; [done|done| |by constructor|done].
      change (len (item :: l) <= c_maxEntries v). len_lia.
Qed.

(** Entries that differ only in their marks and counters. *)
Definition same_content (e e' : entry) : Prop :=
  e_key e' = e_key e /\ e_value e' = e_value e /\ e_size e' = e_size e
  /\ e_expiresAt e' = e_expiresAt e /\ e_staleUntil e' = e_staleUntil e
  /\ e_lastGood e' = e_lastGood e /\ e_lastGoodAt e' = e_lastGoodAt e.

Lemma same_content_sized e e' : same_content e e' -> entry_sized e -> entry_sized e'.
Proof. intros (E1 & E2 & E3 & _). unfold entry_sized. by rewrite E1, E2, E3. Qed.

Lemma ainv_front key l v e e' v' :
  ainv (l, v) -> find_key key l = Some e -> same_content e e' ->
  c_maxEntries v' = c_maxEntries v -> st_MemoryBytes (c_stats v') = st_MemoryBytes (c_stats v) ->
  ainv (e' :: remove_key key l, v').
Proof.
  intros [H1 H2 H3 H4 H5] Hf Hs E1 E2. cbn [fst snd] in *.
  pose proof (find_key_split key l e H1 Hf) as (? & ? & _ & Hk & _).
  pose proof Hs as (Ek & _ & Es & _).
  destruct (replace_front key l e e' H1 Hf) as (Hnd & _ & Hlen & Hsz & HP); [congruence|].
  pose proof (HP _ H4) as [He Hr]. constructor; cbn [fst snd]; rewrite ?E1, ?E2; try done.
  - len_lia.
  - constructor; [by eapply same_content_sized|done].
  - change (total_size (e' :: remove_key key l)) with (e_size e' + total_size (remove_key key l)).
    rewrite Es. lia.
Qed.

Lemma spec_prefetch_content item now v :
  let '(_, item', v') := spec_prefetch item now v in
  same_content item item' /\ c_maxEntries v' = c_maxEntries v
  /\ st_MemoryBytes (c_stats v') = st_MemoryBytes (c_stats v).
Proof. unfold spec_prefetch. by repeat bcase. Qed.

Lemma same_content_trans a b c : same_content a b -> same_content b c -> same_content a c.
Proof.
  intros (?&?&?&?&?&?&?) (?&?&?&?&?&?&?). unfold same_content. ands; congruence.
Qed.

(** What a lookup leaves behind. *)
Lemma spec_Get_cases now key l v :
  let '(r, s, a') := spec_Get now key (l, v) in
  match find_key key l with
  | None => r = no_result /\ exists v', a' = a_touch now (l, v')
      /\ c_maxEntries v' = c_maxEntries v
      /\ st_MemoryBytes (c_stats v') = st_MemoryBytes (c_stats v)
  | Some e =>
      (exists e' v', a' = a_touch now (e' :: remove_key key l, v') /\ same_content e e'
        /\ c_maxEntries v' = c_maxEntries v
        /\ st_MemoryBytes (c_stats v') = st_MemoryBytes (c_stats v)
        /\ r = if now <? e_expiresAt e then mkGetResult (Some (cloneMessage (e_value e))) true false false
               else if now <? e_staleUntil e then mkGetResult (Some (cloneMessage (e_value e))) true true false
               else no_result)
      \/ (e_expiresAt e <= now /\ e_staleUntil e <= now /\ r = no_result /\
          exists v', a' = a_touch now (remove_key key l, v')
            /\ c_maxEntries v' = c_maxEntries v
            /\ st_MemoryBytes (c_stats v') = st_MemoryBytes (c_stats (give_back e v)))
  end.
Proof.
  unfold spec_Get. destruct (find_key key l) as [e|]; [|by eauto 10].
  set (item := set_hits e _). cbv zeta.
  assert (same_content e item) as Hi by done.
  destruct (now <? e_expiresAt e) eqn:E1.
  - pose proof (spec_prefetch_content item now (a_count 1 0 0 0 0 0 v)) as Hp.
    destruct (spec_prefetch item now _) as [[s it] v']. destruct Hp as (H1 & H2 & H3).
    left. exists it, v'. by ands.
  - set (p := if e_expired e then _ else _).
    assert (same_content e p.1 /\ c_maxEntries p.2 = c_maxEntries v
      /\ st_MemoryBytes (c_stats p.2) = st_MemoryBytes (c_stats v)
      /\ c_staleMaxAge p.2 = c_staleMaxAge v) as (Hp1 & Hp2 & Hp3 & Hp4)
      by (unfold p; by destruct (e_expired e)).
    assert (e_expired e = false -> True) by done.
    destruct p as [it v1] eqn:Ep. cbn [fst snd] in *.
    destruct (now <? e_staleUntil e) eqn:E2.
    + pose proof (spec_prefetch_content it now (a_count 1 0 1 0 0 0 v1)) as Hp.
      destruct (spec_prefetch it now _) as [[s it'] v']. destruct Hp as (H1 & H2 & H3).
      left. exists it', v'. ands; try done; [by eapply same_content_trans| |].
      * by rewrite H2.
      * by rewrite H3.
    + bcase.
      * left. by exists it, (a_count 0 1 0 0 0 0 v1).
      * right. ands; try lia; try done.
        exists (a_count 0 1 0 0 0 0 (give_back e v1)). ands; try done. cbn. by rewrite Hp3.
Qed.

Lemma ainv_Get now key a : ainv a -> ainv (spec_Get now key a).2.
Proof.
  intros Ha. destruct a as [l v]. pose proof (spec_Get_cases now key l v) as H.
  destruct (spec_Get now key (l, v)) as [[r s] a']. cbn [snd].
  destruct (find_key key l) as [e|] eqn:Hf.
  - destruct H as [(e' & v' & -> & Hs & H1 & H2 & _)|(_ & _ & _ & v' & -> & H1 & H2)].
    + apply ainv_touch. by eapply ainv_front.
    + apply ainv_touch. eapply ainv_stats; [by eapply ainv_remove|done|done].
  - destruct H as (_ & v' & -> & H1 & H2). apply ainv_touch. by eapply ainv_stats.
Qed.

Lemma ainv_evict_loop n a :
  NoDup (map e_key a.1) -> 0 < c_maxEntries a.2 <= entry_limit -> Forall entry_sized a.1 ->
  st_MemoryBytes (c_stats a.2) = total_size a.1 ->
  len a.1 <= c_maxEntries a.2 + Z.of_nat n -> ainv (a_evict_loop n a).
Proof.
  revert a. induction n as [|n IH]; intros [l v] H1 H2 H3 H4 H5; cbn [fst snd] in *.
  { constructor; cbn [fst snd a_evict_loop]; [done|done|lia|done|done]. }
  cbn [a_evict_loop fst snd]. bcase; [|constructor; cbn [fst snd]; [done|done|lia|done|done]].
  cbn [a_evict]. destruct (last l) as [e|] eqn:El.
  - apply last_Some in El as [k ->]. rewrite removelast_last.
    rewrite map_app in H1. apply NoDup_app in H1 as (H1 & _ & _).
    apply Forall_app in H3 as [H3 He]. rewrite total_size_app in H4.
    change (total_size [e]) with (e_size e + 0) in H4.
    apply IH; cbn [fst snd]; try done.
    + apply (give_back_memory e v); [lia|]. apply (total_size_bound _ H3).
    + change (len k <= c_maxEntries v + Z.of_nat n). len_lia.
  - apply last_None in El as ->. unfold len in Hb. cbn in Hb. lia.
Qed.

Lemma ainv_step o a : op_ok o -> ainv a -> ainv (spec_step o a).2.
Proof.
  intros Ho Ha. destruct a as [l v]. pose proof Ha as [H1 H2 H3 H4 H5]. cbn [fst snd] in *.
  destruct o as [now key value ttl|now key|now key|now|now u|now key rc ttl soa|now key|now key|key];
    cbn [spec_step op_ok snd] in *.
  - by apply ainv_Set.
  - pose proof (ainv_Get now key (l, v) Ha). by destruct (spec_Get now key (l, v)) as [[? ?] ?].
  - unfold spec_Delete, a_remove. destruct (find_key key l) as [e|] eqn:Hf; apply ainv_touch.
    + eapply ainv_stats; [by eapply ainv_remove|done|done].
    + by eapply ainv_stats.
  - apply ainv_touch. constructor; cbn [fst snd]; [constructor|done|change (0 <= c_maxEntries v); lia|constructor|done].
  - unfold spec_Apply. cbv zeta.
    set (v1 := set_config v _ _ _ _ _).
    assert (0 < c_maxEntries v1 <= entry_limit) as Hm.
    { unfold v1. cbn. destruct (u_MaxEntries u) as [n|]; cbn; [bcase; lia|done]. }
    set (p := match u_MaxEntries u with Some _ => _ | None => _ end).
    assert (ainv p) as Hp.
    { unfold p. destruct (u_MaxEntries u) as [n|] eqn:En; [destruct (0 <? n) eqn:E|].
      - apply ainv_evict_loop; try done. cbn [fst snd]. unfold len. lia.
      - eapply ainv_stats; [exact Ha| |done]. unfold v1. cbn. by rewrite E.
      - by eapply ainv_stats. }
    destruct p as [l' v']. apply ainv_touch. by eapply ainv_stats.
  - by eapply ainv_stats.
  - unfold GetNegative. destruct (c_negative v !! key); [destruct (_ <? now)|];
      cbn [snd]; by eapply ainv_stats.
  - unfold spec_StaleOnError. destruct (find_key key l) as [e|] eqn:Hf; [|done].
    destruct (e_lastGood e); [|done]. destruct (_ =? time_zero); [done|].
    destruct (_ <? time_Sub _ _); [|done]. by apply ainv_remove.
  - unfold spec_prefetchDone. cbn [fst snd].
    set (f := fun e => _). assert (forall e, e_key (f e) = e_key e /\ e_size (f e) = e_size e
      /\ (entry_sized e -> entry_sized (f e))) as Hfe.
    { intros e. unfold f. by destruct (bool_decide _). }
    constructor; cbn [fst snd]; try done.
    + rewrite map_map, (map_ext _ e_key); [done|]. intros e. apply Hfe.
    + by rewrite len_map.
    + apply Forall_map. eapply Forall_impl; [exact H4|]. intros e. apply Hfe.
    + rewrite H5. clear. induction l as [|e l IH]; [done|].
      change (total_size (e :: l)) with (e_size e + total_size l). rewrite IH.
      change (total_size (map f (e :: l))) with (e_size (f e) + total_size (map f l)).
      unfold f at 2. by destruct (bool_decide _).
Qed.

Lemma ainv_run os a : Forall op_ok os -> ainv a -> ainv (run spec_step os a).2.
Proof.
  revert a. induction os as [|o os IH]; intros a Hos Ha; [done|].
  apply Forall_cons in Hos as [Ho Hos]. cbn [run]. pose proof (ainv_step o a Ho Ha) as H.
  destruct (spec_step o a) as [x a1]. specialize (IH a1 Hos H).
  by destruct (run spec_step os a1).
Qed.

Definition opts_ok (opts : Options) : Prop := o_MaxEntries opts <= entry_limit.

Lemma ainv_New opts : opts_ok opts -> ainv ([], New opts).
Proof.
  unfold opts_ok, entry_limit. intros H. constructor; cbn [fst snd]; try done.
  - constructor.
  - cbn. unfold entry_limit. bcase; lia.
  - rewrite len_nil. cbn. bcase; lia.
Qed.

(** C26. Whatever calls are made, the cache never holds more than the
    configured number of entries, each under its own key, and the memory
    statistic is exactly the sum over the entries of the key length and the
    length of the encoded message. *)
Theorem cache_bounded opts os :
  opts_ok opts -> Forall op_ok os ->
  let c := (run step os (New opts)).2 in
  let es := abs_list c in
  len es <= c_maxEntries c /\ Z.of_nat (size (c_items c)) = len es /\ NoDup (map e_key es)
  /\ st_MemoryBytes (c_stats c)
     = foldr (fun e n => len (e_key e) + messageSizeEstimate (e_value e) + n) 0 es.
Proof.
  intros Hopts Hos c es.
  destruct (run_refines os (New opts) (New_inv opts)) as [_ [Hinv Habs]]. fold c in Hinv, Habs.
  pose proof (ainv_run os ([], New opts) Hos (ainv_New opts Hopts)) as [H1 H2 H3 H4 H5].
  change (abs (New opts)) with (([], New opts) : acache) in Habs.
  rewrite <- Habs in *. cbn [abs fst snd] in *. fold es in H1, H3, H4, H5.
  ands; [done|by apply size_items|done|].
  change (c_stats c) with (c_stats (view c)). rewrite H5. clear -H4. unfold total_size.
  induction H4 as [|e l [He _] Hl IH]; [done|]. cbn. by rewrite IH, He.
Qed.
End bounds.

Definition sample_cache_ops : list op :=
  [OSet 0 "a|A" (Some sample_message) (60 * Second); OSet 1 "b|A" (Some sample_message) 0;
   OGet 2 "a|A"; OSet 3 "c|A" (Some sample_message) (5 * Minute);
   OGetNegative 4 "a|A"; ODelete 5 "a|A"].

Lemma cache_bounded_witness :
  let c := (run (step (U := latin1)) sample_cache_ops (New (mkOptions 2 0 0 0 0 true))).2 in
  len (abs_list c) = 1 /\ st_MemoryBytes (c_stats c) = 81
  /\ len (abs_list c) <= c_maxEntries c.
Proof.
  intros c. split; [vm_compute; reflexivity|]. split; [vm_compute; reflexivity|].
  apply (cache_bounded (U := latin1) (mkOptions 2 0 0 0 0 true) sample_cache_ops).
  - unfold opts_ok, entry_limit. cbn. lia.
  - repeat constructor; cbn; unfold len; cbn; lia.
Defined.

(** ** Which value an entry holds *)

(** Calls that set or drop the entry of a key on purpose. *)
Definition affects (key : bytes) (o : op) : bool :=
  match o with
  | OSet _ k (Some _) _ => bool_decide (k = key) && negb (bool_decide (k = ""))
  | ODelete _ k => bool_decide (k = key)
  | OFlush _ => true
  | _ => false
  end.

Definition live_step (key : bytes) (acc : option (Z * Message * Z)) (o : op)
  : option (Z * Message * Z) :=
  if affects key o then
    match o with OSet t _ (Some m) ttl => Some (t, m, ttl) | _ => None end
  else acc.

(** The time, message and TTL of the last [Set] of a key, unless the key was
    deleted or the cache flushed since. *)
Definition live (key : bytes) (os : list op) : option (Z * Message * Z) :=
  foldl (live_step key) None os.

Definition reconfigures (o : op) : Prop := match o with OApply _ _ => True | _ => False end.

Section coherence.
Context {U : UnicodeTables}.

Lemma elem_of_remove_key e key l : e ∈ remove_key key l -> e ∈ l /\ e_key e <> key.
Proof.
  unfold remove_key. rewrite !list_elem_of_In, filter_In, negb_true_iff, bool_decide_eq_false. done.
Qed.

Lemma elem_of_find key l e : find_key key l = Some e -> e ∈ l /\ e_key e = key.
Proof.
  intros H%List.find_some. rewrite <- list_elem_of_In, bool_decide_eq_true in H. done.
Qed.

Lemma elem_of_removelast {A} (x : A) l : x ∈ removelast l -> x ∈ l.
Proof.
  destruct l as [|y l] using rev_ind; [done|]. rewrite removelast_last, elem_of_app. by left.
Qed.

Definition config_of (v : Cache) : Z * Z * Z * Z * Z :=
  (c_maxEntries v, c_minTTL v, c_maxTTL v, c_staleWindow v, c_staleMaxAge v).

Lemma a_evict_entries a x : x ∈ (a_evict a).1 -> x ∈ a.1.
Proof.
  destruct a as [l v]. cbn [a_evict]. destruct (last l); [|done]. cbn. apply elem_of_removelast.
Qed.

Lemma a_evict_config a : config_of (a_evict a).2 = config_of a.2.
Proof. destruct a as [l v]. cbn [a_evict]. by destruct (last l). Qed.

Lemma a_touch_config now a : config_of (a_touch now a).2 = config_of a.2.
Proof. by destruct a. Qed.

Lemma spec_prefetch_config item now v : config_of (spec_prefetch item now v).2 = config_of v.
Proof. unfold spec_prefetch. by repeat bcase. Qed.

(** Only a reconfiguration changes the configuration. *)
Lemma step_config o a : ~ reconfigures o -> config_of (spec_step o a).2.2 = config_of a.2.
Proof.
  destruct a as [l v].
  destruct o as [now key value ttl|now key|now key|now|now u|now key rc ttl soa|now key|now key|key];
    intros Hr; cbn [spec_step snd]; try done.
  - unfold spec_Set. destruct value; [|done]. case_bool_decide; [done|]. cbv zeta.
    destruct (find_key _ _); [done|]. rewrite a_touch_config.
    bcase; [by rewrite a_evict_config|done].
  - unfold spec_Get. destruct (find_key key l) as [e|]; [|done]. cbv zeta. bcase.
    + pose proof (spec_prefetch_config (set_hits e (i64 (e_hits e + 1))) now (a_count 1 0 0 0 0 0 v)) as Hp.
      by destruct (spec_prefetch _ _ _) as [[? ?] ?].
    + destruct (if e_expired e then _ else _) as [it v1] eqn:E.
      assert (config_of v1 = config_of v) as Hv1 by (destruct (e_expired e); injection E as <- <-; done).
      bcase; [|bcase; exact Hv1].
      pose proof (spec_prefetch_config it now (a_count 1 0 1 0 0 0 v1)) as Hp.
      destruct (spec_prefetch _ _ _) as [[? ?] ?]. cbn in Hp |- *. by rewrite <- Hv1.
  - unfold spec_Delete, a_remove. by destruct (find_key key l).
  - unfold GetNegative. destruct (c_negative v !! key); [|done]. by destruct (_ <? now).
  - unfold spec_StaleOnError. destruct (find_key key l) as [e|]; [|done].
    destruct (e_lastGood e); [|done]. destruct (_ =? time_zero); [done|]. by destruct (_ <? time_Sub _ _).
Qed.

(** Every entry after a call was there before, for a key the call does not
    affect, or is the one the call sets. *)
Lemma step_entries o l v e' :
  e' ∈ (spec_step o (l, v)).2.1 ->
  (exists e, e ∈ l /\ same_content e e' /\ affects (e_key e) o = false)
  \/ (exists t key m ttl, o = OSet t key (Some m) ttl /\ key <> "" /\ e' = new_entry v t key m ttl).
Proof.
  assert (forall e, same_content e e) as Hrefl by done.
  destruct o as [now key value ttl|now key|now key|now|now u|now key rc ttl soa|now key|now key|key];
    cbn [spec_step snd fst]; intros He'.
  - unfold spec_Set in He'. destruct value as [m|]; [|by eauto 10].
    cbn [affects]. case_bool_decide as Ek; [left; exists e'; ands; try done|].
    { by rewrite andb_false_r. }
    cbv zeta in He'. set (item := new_entry v now key m ttl) in *.
    assert (forall e, e ∈ l -> e_key e <> key -> exists e0, e0 ∈ l /\ same_content e0 e
      /\ bool_decide (key = e_key e0) && negb false = false) as Hold.
    { intros e He Hne. exists e. ands; try done. by rewrite bool_decide_eq_false_2. }
    destruct (find_key key l) as [old|] eqn:Hf.
    + apply elem_of_cons in He' as [->|He']; [right; by exists now, key, m, ttl|].
      apply elem_of_remove_key in He' as [? ?]. left. by apply Hold.
    + assert (e' ∈ item :: l) as Hin.
      { destruct (c_maxEntries v <? len l + 1); [|done].
        destruct (a_evict _) as [l' v'] eqn:E. cbn in He'. change l' with (l', v').1 in He'.
        rewrite <- E in He'. by apply a_evict_entries in He'. }
      apply elem_of_cons in Hin as [->|Hin]; [right; by exists now, key, m, ttl|].
      left. apply Hold; [done|]. apply find_key_None_inv in Hf. rewrite Forall_forall in Hf. auto.
  - left. pose proof (spec_Get_cases now key l v) as Hg.
    destruct (spec_Get now key (l, v)) as [[r s] a']. cbn [snd] in He'.
    destruct (find_key key l) as [e|] eqn:Hf.
    + apply elem_of_find in Hf as [Hin Hk].
      destruct Hg as [(e1 & v1 & -> & Hs & _)|(_ & _ & _ & v1 & -> & _)]; cbn in He'.
      * apply elem_of_cons in He' as [->|He']; [by exists e|].
        apply elem_of_remove_key in He' as [? _]. by exists e'.
      * apply elem_of_remove_key in He' as [? _]. by exists e'.
    + destruct Hg as (_ & v1 & -> & _). by exists e'.
  - left. unfold spec_Delete, a_remove in He'. cbn [affects].
    assert (e' ∈ l /\ e_key e' <> key) as [Hin Hne].
    { destruct (find_key key l) as [e|] eqn:Hf; cbn in He'.
      - by apply elem_of_remove_key in He'.
      - apply find_key_None_inv in Hf. rewrite Forall_forall in Hf. auto. }
    exists e'. ands; try done. by apply bool_decide_eq_false_2.
  - by apply elem_of_nil in He'.
  - left. exists e'. ands; try done. unfold spec_Apply in He'. cbv zeta in He'.
    assert (forall n a, e' ∈ (a_evict_loop n a).1 -> e' ∈ a.1) as Hloop.
    { induction n as [|n IH]; intros a; [done|]. cbn [a_evict_loop]. bcase; [|done].
      intros H%IH. by apply a_evict_entries in H. }
    destruct (u_MaxEntries u) as [n|]; [|exact He']. destruct (0 <? n); [|exact He'].
    destruct (a_evict_loop _ _) as [l' v'] eqn:E. cbn in He'. change l' with (l', v').1 in He'.
    rewrite <- E in He'. by apply Hloop in He'.
  - left. by exists e'.
  - left. exists e'. ands; try done. unfold GetNegative in He'.
    destruct (c_negative v !! key); [destruct (_ <? now)|]; done.
  - left. exists e'. ands; try done. unfold spec_StaleOnError in He'.
    destruct (find_key key l) as [e|]; [|done]. destruct (e_lastGood e); [|done].
    destruct (_ =? time_zero); [done|]. destruct (_ <? time_Sub _ _); [|done].
    by apply elem_of_remove_key in He' as [? _].
  - left. cbn in He'. apply list_elem_of_fmap in He' as (e & -> & He). exists e.
    ands; try done. by destruct (bool_decide _).
Qed.

(** Each entry is the one the last [Set] of its key built. *)
Definition coherent (v0 : Cache) (os : list op) (a : acache) : Prop :=
  config_of a.2 = config_of v0 /\
  forall e, e ∈ a.1 -> exists t m ttl,
    live (e_key e) os = Some (t, m, ttl) /\ same_content (new_entry v0 t (e_key e) m ttl) e.

Lemma new_entry_config v v0 t key m ttl :
  config_of v = config_of v0 -> new_entry v t key m ttl = new_entry v0 t key m ttl.
Proof. unfold config_of. intros [= E1 E2 E3 E4 E5]. unfold new_entry, clampTTL. by rewrite E2, E3, E4. Qed.

Lemma live_app key os o : live key (os ++ [o]) = live_step key (live key os) o.
Proof. unfold live. by rewrite foldl_app. Qed.

Lemma coherent_step v0 os o a :
  ~ reconfigures o -> coherent v0 os a -> coherent v0 (os ++ [o]) (spec_step o a).2.
Proof.
  intros Hr [Hcfg Hco]. split; [by rewrite step_config|]. destruct a as [l v]. cbn [fst snd] in *.
  intros e' [(e & He & Hs & Haff)|(t & key & m & ttl & -> & Hk & ->)]%step_entries.
  - destruct (Hco e He) as (t & m & ttl & Hl & Hse). exists t, m, ttl.
    assert (e_key e' = e_key e) as -> by apply Hs. rewrite live_app. unfold live_step. rewrite Haff.
    split; [done|]. by eapply same_content_trans.
  - exists t, m, ttl. rewrite (new_entry_config v v0) by done. split; [|done].
    change (e_key (new_entry v0 t key m ttl)) with key. rewrite live_app. unfold live_step, affects.
    rewrite bool_decide_eq_true_2 by done. by rewrite bool_decide_eq_false_2.
Qed.

Lemma run_app {S} (f : op -> S -> answer * S) os ps s :
  (run f (os ++ ps) s).2 = (run f ps (run f os s).2).2.
Proof.
  revert s. induction os as [|o os IH]; intros s; [done|]. cbn [app run].
  destruct (f o s) as [a s1]. specialize (IH s1).
  destruct (run f (os ++ ps) s1), (run f os s1). cbn in *. done.
Qed.

Lemma coherent_run v0 os :
  Forall (fun o => ~ reconfigures o) os -> c_lru v0 = [] ->
  coherent v0 os (run spec_step os ([], v0)).2.
Proof.
  intros Hos Hv0. induction os as [|o os IH] using rev_ind.
  { split; [done|]. intros e He. by apply elem_of_nil in He. }
  apply Forall_app in Hos as [Hos Ho]. apply Forall_cons in Ho as [Ho _].
  rewrite run_app. cbn [run]. specialize (IH Hos).
  pose proof (coherent_step v0 os o _ Ho IH) as H.
  by destruct (spec_step o _) as [x a'].
Qed.

(** C14. Lookups never invent or mix up data: after any calls that do not
    reconfigure the cache, what [Get] returns for a key is the message of the
    last [Set] of that very key, not deleted or flushed since; it is returned
    as fresh only before its (clamped) TTL has passed and as stale only in the
    stale window after it; and [GetStaleOnError] returns it only while it is
    not older than the maximal stale age. *)
Theorem cache_coherent opts os now key :
  Forall (fun o => ~ reconfigures o) os ->
  let c0 := New opts in
  let c := (run step os c0).2 in
  match (Get now key c).1.1 with
  | mkGetResult (Some msg) hit stale onError =>
      exists t m ttl, live key os = Some (t, m, ttl) /\ msg = cloneMessage (cloneMessage m)
        /\ hit = true /\ onError = false
        /\ let d := clampTTL c0 ttl in
           if stale then t + d <= now < t + d + c_staleWindow c0 else now < t + d
  | r => r = no_result
  end
  /\ forall msg, (GetStaleOnError now key c).1 = Some msg ->
       exists t m ttl, live key os = Some (t, m, ttl) /\ msg = cloneMessage (cloneMessage m)
         /\ time_Sub now t <= c_staleMaxAge c0.
Proof.
  intros Hos c0 c. destruct (run_refines os c0 (New_inv opts)) as [_ [Hinv Habs]].
  fold c in Hinv, Habs. pose proof (coherent_run c0 os Hos eq_refl) as [Hcfg Hco].
  change (abs c0) with (([], c0) : acache) in Habs. rewrite <- Habs in Hco, Hcfg.
  cbn [abs fst snd] in Hco, Hcfg.
  pose proof (Get_refines now key c Hinv) as Hg. pose proof (spec_Get_cases now key (abs_list c) (view c)) as Hs.
  pose proof (StaleOnError_refines now key c Hinv) as Hst.
  assert (forall e, find_key key (abs_list c) = Some e -> exists t m ttl,
    live key os = Some (t, m, ttl) /\ same_content (new_entry c0 t key m ttl) e) as Hlive.
  { intros e [He <-]%elem_of_find. by apply Hco. }
  split.
  - change (abs c) with (abs_list c, view c) in Hg.
    destruct (Get now key c) as [[r s] c'], (spec_Get now key (abs_list c, view c)) as [[r' s'] a'].
    destruct Hg as (-> & _ & _). cbn [fst].
    destruct (find_key key (abs_list c)) as [e|].
    + destruct (Hlive e eq_refl) as (t & m & ttl & Hl & (_ & Ev & _ & Ee & Es & _)).
      cbn [new_entry e_value e_expiresAt e_staleUntil] in Ev, Ee, Es.
      destruct Hs as [(e' & v' & _ & _ & _ & _ & ->)|(_ & _ & -> & _)]; [|done].
      rewrite Ev, Ee, Es. bcase; [|bcase]; [| |done]; exists t, m, ttl; ands; try done; lia.
    + by destruct Hs as [-> _].
  - intros msg Hmsg. unfold spec_StaleOnError, abs in Hst.
    destruct (GetStaleOnError now key c) as [m' c']. cbn [fst] in Hmsg. subst m'.
    destruct (find_key key (abs_list c)) as [e|]; [|by destruct Hst].
    destruct (Hlive e eq_refl) as (t & m & ttl & Hl & (_ & Ev & _ & Ee & Es & Eg & Et)).
    cbn [new_entry e_lastGood e_lastGoodAt] in Eg, Et. rewrite Eg, Et in Hst.
    destruct (t =? time_zero); [by destruct Hst|].
    destruct (c_staleMaxAge (view c) <? time_Sub now t) eqn:E; destruct Hst as [Hst _]; [done|].
    injection Hst as ->. exists t, m, ttl. ands; try done.
    apply (f_equal snd) in Hcfg. unfold config_of in Hcfg. cbn [snd] in Hcfg. rewrite <- Hcfg. lia.
Qed.
End coherence.

Lemma cache_coherent_witness :
  let opts := mkOptions 2 0 0 0 (2 * Hour) false in
  let c := (run (step (U := latin1)) sample_cache_ops (New opts)).2 in
  g_Stale (Get (U := latin1) (6 * Minute) "c|A" c).1.1 = false
  /\ exists m, (GetStaleOnError (U := latin1) Hour "c|A" c).1 = Some m /\
     exists t m' ttl, live "c|A" sample_cache_ops = Some (t, m', ttl) /\ t = 3
       /\ m = cloneMessage (U := latin1) (cloneMessage (U := latin1) m').
Proof.
  intros opts c. split; [vm_compute; reflexivity|].
  destruct (cache_coherent (U := latin1) opts sample_cache_ops Hour "c|A"
    ltac:(repeat constructor; intros H; exact H)) as [_ H].
  fold c in H. destruct (GetStaleOnError Hour "c|A" c).1 as [m|] eqn:E;
    [|exfalso; vm_compute in E; discriminate E].
  exists m. split; [reflexivity|]. destruct (H m eq_refl) as (t & m' & ttl & H1 & H2 & _).
  exists t, m', ttl. split; [exact H1|]. split; [|exact H2].
  vm_compute in H1. injection H1 as <- _ _. reflexivity.
Defined.

(** ** What is retained *)

(** The key a call brings to the front. *)
Definition uses (o : op) : list bytes :=
  match o with OSet _ k _ _ | OGet _ k => [k] | _ => [] end.

(** Calls that leave the entry of [key] alone until it expires at [deadline]. *)
Definition keeps (key : bytes) (deadline : Z) (o : op) : Prop :=
  match o with
  | OSet _ k _ _ | ODelete _ k | OStaleOnError _ k => k <> key
  | OGet now k => k = key -> now < deadline
  | OFlush _ | OApply _ _ => False
  | _ => True
  end.

Section retention.
Context {U : UnicodeTables} (v0 : Cache) (t : Z) (key : bytes) (m : Message) (ttl : Z).
Let e0 : entry := new_entry v0 t key m ttl.

(** The entry is in the list and only keys of [S] are in front of it. *)
Definition retained (S : gset bytes) (a : acache) : Prop :=
  ainv a /\ c_maxEntries a.2 = c_maxEntries v0 /\
  exists l1 e l2, a.1 = l1 ++ e :: l2 /\ same_content e0 e
    /\ Forall (fun x => e_key x ∈ S) l1.

Lemma retained_intro S l1 e l2 v :
  ainv (l1 ++ e :: l2, v) -> c_maxEntries v = c_maxEntries v0 -> same_content e0 e ->
  Forall (fun x => e_key x ∈ S) l1 -> retained S (l1 ++ e :: l2, v).
Proof. intros. split; [done|]. split; [done|]. by exists l1, e, l2. Qed.

Lemma remove_key_around k l1 e l2 :
  e_key e <> k -> remove_key k (l1 ++ e :: l2) = remove_key k l1 ++ e :: remove_key k l2.
Proof.
  intros H. rewrite remove_key_app. f_equal. unfold remove_key. cbn.
  by rewrite bool_decide_eq_false_2.
Qed.

Lemma Forall_remove_key P k l : Forall P l -> Forall P (remove_key k l).
Proof.
  rewrite !Forall_forall. intros H x [Hx _]%elem_of_remove_key. auto.
Qed.

(** Eviction takes another entry, as fewer keys than the limit are in front. *)
Lemma retained_evict (S : gset bytes) l1 e l2 v :
  NoDup (map e_key (l1 ++ e :: l2)) -> Forall (fun x => e_key x ∈ S) l1 ->
  Z.of_nat (size S) < c_maxEntries v -> c_maxEntries v < len (l1 ++ e :: l2) ->
  exists l2', (a_evict (l1 ++ e :: l2, v)).1 = l1 ++ e :: l2'.
Proof.
  intros Hnd HS Hsize Hlen. destruct l2 as [|x l2 _] using rev_ind.
  - exfalso. rewrite map_app in Hnd. apply NoDup_app in Hnd as (Hnd & _ & _).
    assert (size (list_to_set (map e_key l1) : gset bytes) <= size S)%nat as Hle.
    { apply subseteq_size. intros k. rewrite elem_of_list_to_set, list_elem_of_fmap.
      intros (x & -> & Hx). rewrite Forall_forall in HS. by apply HS. }
    rewrite size_list_to_set, length_map in Hle by done. unfold len in Hlen.
    rewrite length_app in Hlen. cbn in Hlen. lia.
  - exists l2. cbn [a_evict].
    replace (l1 ++ e :: l2 ++ [x]) with ((l1 ++ e :: l2) ++ [x]) by by rewrite <- app_assoc.
    by rewrite last_snoc, removelast_last.
Qed.

Lemma retained_step S o a :
  Forall (fun k => k ∈ S) (filter (fun k => k <> key) (uses o)) ->
  Z.of_nat (size S) < c_maxEntries v0 ->
  op_ok o -> keeps key (e_expiresAt e0) o -> retained S a -> retained S (spec_step o a).2.
Proof.
  intros Hu Hsize Hok Hkeep (Ha & Hmax & l1 & e & l2 & Hl & Hs & HS).
  pose proof (ainv_step o a Hok Ha) as Ha'.
  assert (~ reconfigures o) as Hnr by (destruct o; cbn in *; tauto).
  pose proof (step_config o a Hnr) as Hcfg.
  assert (c_maxEntries (spec_step o a).2.2 = c_maxEntries v0) as Hmax'.
  { apply (f_equal (fun x => x.1.1.1.1)) in Hcfg. by rewrite <- Hmax. }
  split; [done|]. split; [done|]. clear Hmax' Hcfg Ha'.
  destruct a as [l v]. cbn [fst snd] in *. subst l. pose proof Ha as [Hnd _ Hlen _ _].
  cbn [fst snd] in Hnd, Hlen.
  assert (e_key e = key) as Hke by by destruct Hs.
  assert (forall k, k <> key -> exists l1' e' l2', remove_key k (l1 ++ e :: l2) = l1' ++ e' :: l2'
    /\ same_content e0 e' /\ Forall (fun x => e_key x ∈ S) l1') as Hrem.
  { intros k Hk. exists (remove_key k l1), e, (remove_key k l2).
    rewrite remove_key_around by congruence. ands; try done. by apply Forall_remove_key. }
  assert (exists l1' e' l2', l1 ++ e :: l2 = l1' ++ e' :: l2'
    /\ same_content e0 e' /\ Forall (fun x => e_key x ∈ S) l1') as Hsame by by exists l1, e, l2.
  destruct o as [now k value tl|now k|now k|now|now u|now k rc tl soa|now k|now k|k];
    cbn [spec_step snd fst keeps uses op_ok] in *; try done.
  - unfold spec_Set. destruct value as [mv|]; [|done]. case_bool_decide; [done|]. cbv zeta.
    set (item := new_entry v now k mv tl).
    assert (k ∈ S) as HkS.
    { rewrite Forall_forall in Hu. apply Hu. apply list_elem_of_filter. split; [done|].
      by apply list_elem_of_singleton. }
    destruct (find_key k (l1 ++ e :: l2)) as [old|] eqn:Hf.
    + destruct (Hrem k Hkeep) as (l1' & e' & l2' & E & ? & ?). exists (item :: l1'), e', l2'.
      cbn [a_touch fst]. rewrite E. ands; try done. by constructor.
    + bcase.
      * destruct (retained_evict S (item :: l1) e l2 (a_memory (fun m0 => u64 (m0 + e_size item)) v))
          as [l2' E]; cbn [app map] in *.
        -- apply NoDup_cons. split; [|done]. by apply absent_keys, find_key_None_inv.
        -- by constructor.
        -- change (Z.of_nat (size S) < c_maxEntries v). by rewrite Hmax.
        -- change (c_maxEntries v < len (item :: l1 ++ e :: l2)). len_lia.
        -- destruct (a_evict _) as [l' v'] eqn:Ev. cbn [fst a_touch] in *. subst l'.
           exists (item :: l1), e, l2'. ands; try done. by constructor.
      * exists (item :: l1), e, l2. cbn. ands; try done. by constructor.
  - pose proof (spec_Get_cases now k (l1 ++ e :: l2) v) as Hg.
    destruct (spec_Get now k (l1 ++ e :: l2, v)) as [[r s] a']. cbn [snd].
    destruct (find_key k (l1 ++ e :: l2)) as [e1|] eqn:Hf.
    + assert (k = key -> e1 = e) as Hek.
      { intros ->. destruct (find_key_split key _ _ Hnd Hf) as (k1 & k2 & E & Hk1 & _ & F1 & F2).
        assert (e ∈ k1 ++ e1 :: k2) as Hin by (rewrite <- E; apply elem_of_app; right; by left).
        apply elem_of_app in Hin as [Hin|Hin].
        - rewrite Forall_forall in F1. exfalso. by apply (F1 e).
        - apply elem_of_cons in Hin as [->|Hin]; [done|]. rewrite Forall_forall in F2.
          exfalso. by apply (F2 e). }
      destruct (decide (k = key)) as [->|Hk].
      * rewrite (Hek eq_refl) in *. specialize (Hkeep eq_refl).
        assert (e_expiresAt e = e_expiresAt e0) as Hexp by apply Hs.
        destruct Hg as [(e' & v' & -> & Hse & _)|(He & _)]; [|lia].
        exists [], e', (remove_key key (l1 ++ e :: l2)). cbn. ands; try done.
        by eapply same_content_trans.
      * destruct (Hrem k Hk) as (l1' & e' & l2' & E & ? & ?).
        assert (k ∈ S) as HkS.
        { rewrite Forall_forall in Hu. apply Hu. apply list_elem_of_filter. split; [done|].
          by apply list_elem_of_singleton. }
        destruct Hg as [(e2 & v' & -> & Hse & _)|(_ & _ & _ & v' & -> & _)]; cbn [a_touch fst]; rewrite E.
        -- exists (e2 :: l1'), e', l2'. ands; try done. constructor; [|done].
           destruct Hse as (-> & _). by apply elem_of_find in Hf as [_ ->].
        -- by exists l1', e', l2'.
    + destruct Hg as (_ & v' & -> & _). exact Hsame.
  - unfold spec_Delete, a_remove. destruct (find_key k _); [|exact Hsame].
    cbn [a_touch fst]. by apply Hrem.
  - destruct (GetNegative now k v). exact Hsame.
  - unfold spec_StaleOnError. destruct (find_key k _) as [e1|]; [|exact Hsame].
    destruct (e_lastGood e1); [|exact Hsame]. destruct (_ =? time_zero); [exact Hsame|].
    destruct (_ <? time_Sub _ _); [|exact Hsame]. by apply Hrem.
  - unfold spec_prefetchDone. cbn [fst]. rewrite map_app. cbn [map].
    eexists _, _, _. ands; [done| |].
    + destruct (bool_decide _); [|done]. by eapply same_content_trans.
    + apply Forall_map. eapply Forall_impl; [exact HS|]. intros x Hx. by destruct (bool_decide _).
Qed.

Lemma retained_run S os a :
  Forall (fun k => k ∈ S) (filter (fun k => k <> key) (flat_map uses os)) ->
  Z.of_nat (size S) < c_maxEntries v0 ->
  Forall op_ok os -> Forall (keeps key (e_expiresAt e0)) os -> retained S a ->
  retained S (run spec_step os a).2.
Proof.
  revert a. induction os as [|o os IH]; intros a Hu Hsize Hok Hk Ha; [done|].
  apply Forall_cons in Hok as [Ho Hok], Hk as [Hko Hk]. cbn [flat_map] in Hu.
  rewrite filter_app in Hu. apply Forall_app in Hu as [Huo Hu]. cbn [run].
  pose proof (retained_step S o a Huo Hsize Ho Hko Ha) as H.
  destruct (spec_step o a) as [x a1]. specialize (IH a1 Hu Hsize Hok Hk H).
  by destruct (run spec_step os a1).
Qed.
End retention.

Section retention_theorem.
Context {U : UnicodeTables}.

(** C23. LRU retention: an entry that was set survives, and is returned fresh,
    as long as its TTL lasts and fewer distinct other keys than the maximal
    number of entries are looked up or set after it; the calls may come in
    any order, and from a cache in any reachable state. *)
Theorem cache_retains opts os0 os t key m ttl now :
  opts_ok opts -> Forall op_ok os0 -> Forall op_ok os ->
  key <> "" -> len key < 65536 ->
  let c := (run step os0 (New opts)).2 in
  let deadline := t + clampTTL c ttl in
  Forall (keeps key deadline) os -> now < deadline ->
  Z.of_nat (size (list_to_set (filter (fun k => k <> key) (flat_map uses os)) : gset bytes))
    < c_maxEntries c ->
  let c' := (run step (OSet t key (Some m) ttl :: os) c).2 in
  (Get now key c').1.1
  = mkGetResult (Some (cloneMessage (cloneMessage m))) true false false.
Proof.
  intros Hopts Hok0 Hok Hkey Hklen c deadline Hkeep Hnow Hsize c'.
  destruct (run_refines os0 (New opts) (New_inv opts)) as [_ [Hinv Habs]]. fold c in Hinv, Habs.
  pose proof (ainv_run os0 ([], New opts) Hok0 (ainv_New opts Hopts)) as Ha.
  change (abs (New opts)) with (([], New opts) : acache) in Habs. rewrite <- Habs in Ha.
  set (S := list_to_set _ : gset bytes) in Hsize.
  destruct (run_refines (OSet t key (Some m) ttl :: os) c Hinv) as [_ [Hinv' Habs']].
  fold c' in Hinv', Habs'.
  assert (retained (view c) t key m ttl S (abs c')) as Hret.
  { rewrite Habs'. cbn [run].
    destruct (spec_step (OSet t key (Some m) ttl) (abs c)) as [x a1] eqn:E.
    assert (a1 = spec_Set t key (Some m) ttl (abs c)) as E1 by by injection E.
    assert (retained (view c) t key m ttl S a1) as H1.
    { pose proof (ainv_step (OSet t key (Some m) ttl) (abs c) Hklen Ha) as Ha1.
      pose proof (step_config (OSet t key (Some m) ttl) (abs c) ltac:(intros [])) as Hcfg.
      rewrite E in Ha1, Hcfg. cbn [snd] in Ha1, Hcfg. split; [done|]. split.
      { by apply (f_equal (fun x => x.1.1.1.1)) in Hcfg. }
      assert (exists l2, a1.1 = new_entry (view c) t key m ttl :: l2) as [l2 ->];
        [|by exists [], (new_entry (view c) t key m ttl), l2].
      rewrite E1. unfold spec_Set, abs. rewrite bool_decide_eq_false_2 by done. cbv zeta.
      destruct (find_key key (abs_list c)) eqn:Hfk; [by eexists|]. bcase; [|by eexists].
      destruct (retained_evict ∅ [] (new_entry (view c) t key m ttl) (abs_list c)
        (a_memory (fun m0 => u64 (m0 + e_size (new_entry (view c) t key m ttl))) (view c))) as [l2 El2].
      - cbn [app map]. apply NoDup_cons. split; [|apply Ha].
        apply absent_keys, find_key_None_inv. done.
      - constructor.
      - apply Ha.
      - cbn [app]. change (c_maxEntries (view c) < len (new_entry (view c) t key m ttl :: abs_list c)).
        len_lia.
      - exists l2. cbn [app] in El2. rewrite <- El2. by destruct (a_evict _). }
    pose proof (retained_run (view c) t key m ttl S os a1) as Hr.
    destruct (run spec_step os a1) as [y a2]. cbn [snd] in *. apply Hr; try done.
    apply Forall_forall. intros k Hk. by apply elem_of_list_to_set. }
  destruct Hret as (Ha' & _ & l1 & e & l2 & Hl & Hs & _). cbn [abs fst] in Hl.
  pose proof (Get_refines now key c' Hinv') as Hg.
  pose proof (spec_Get_cases now key (abs_list c') (view c')) as Hsp.
  change (abs c') with (abs_list c', view c') in Hg.
  destruct (Get now key c') as [[r s] c2], (spec_Get now key (abs_list c', view c')) as [[r' s'] a'].
  destruct Hg as (-> & _ & _). cbn [fst].
  assert (find_key key (abs_list c') = Some e) as Hf.
  { rewrite Hl. destruct Hs as (Hk & _). apply find_key_at; [|done].
    pose proof (ai_keys _ Ha') as Hnd. cbn [abs fst] in Hnd. rewrite Hl, map_app in Hnd.
    apply NoDup_app in Hnd as (_ & Hd & _). apply Forall_forall. intros x Hx E.
    apply (Hd (e_key x)); [by apply list_elem_of_fmap_2|]. cbn [map]. rewrite E, Hk.
    apply elem_of_cons. by left. }
  rewrite Hf in Hsp. destruct Hs as (_ & Ev & _ & Ee & _).
  change (e_expiresAt (new_entry (view c) t key m ttl)) with deadline in Ee.
  destruct Hsp as [(e' & v' & _ & _ & _ & _ & ->)|(He & _)]; [|lia].
  rewrite Ev, Ee. bcase; [done|lia].
Qed.
End retention_theorem.

Lemma cache_retains_witness :
  let opts := mkOptions 2 0 0 0 0 false in
  let os := [OSet 1 "b|A" (Some sample_message) 0; OGet 2 "a|A"; OGet 3 "b|A"; ODelete 4 "x"] in
  let c' := (run (step (U := latin1)) (OSet 0 "a|A" (Some sample_message) 0 :: os) (New opts)).2 in
  g_Hit (Get (U := latin1) (20 * Second) "a|A" c').1.1 = true.
Proof.
  intros opts os c'.
  pose proof (cache_retains (U := latin1) opts [] os 0 "a|A" sample_message 0 (20 * Second)) as H.
  cbn zeta in H. change (run step [] (New opts)).2 with (New opts) in H.
  fold os in H. unfold c'. rewrite H; [reflexivity|..].
  - unfold opts_ok, entry_limit. cbn. lia.
  - constructor.
  - repeat constructor.
  - discriminate.
  - reflexivity.
  - repeat constructor; try discriminate; intros _; vm_compute; reflexivity.
  - vm_compute. reflexivity.
  - vm_compute. reflexivity.
Defined.
