(* ===== verification/GoNet.v ===== *)
(** * The part of package net the program uses: addresses as text.

    A [net.IP] is its bytes; the nil slice is kept apart where the program
    tests for it. *)

From S2P Require Import Prelude.
From S2P Require Import GoStrings.

#[local] Open Scope go_scope.

(** ** IP.String *)

(** A digit of [hexDigit], and [netip.appendHex]: no leading zeros. *)
Definition hex_digit (n : Z) : byte := byte_of_Z (if n <? 10 then 48 + n else 87 + n).
Definition append_hex (x : Z) : bytes :=
  (if 0x1000 <=? x then [hex_digit (Z.shiftr x 12)] else [])
  ++ (if 0x100 <=? x then [hex_digit (Z.land (Z.shiftr x 8) 15)] else [])
  ++ (if 0x10 <=? x then [hex_digit (Z.land (Z.shiftr x 4) 15)] else [])
  ++ [hex_digit (Z.land x 15)].

(** The eight 16-bit groups of an IPv6 address. *)
Fixpoint groups (b : bytes) : list Z :=
  match b with
  | hi :: lo :: k => Z_of_byte hi * 256 + Z_of_byte lo :: groups k
  | _ => []
  end.

Fixpoint zero_run (g : list Z) : nat :=
  match g with x :: k => if x =? 0 then S (zero_run k) else 0%nat | [] => 0%nat end.

(** The first longest run of at least two zero groups: [zeroStart], [zeroEnd]. *)
Fixpoint best_run (g : list Z) (i : nat) (start stop : nat) : nat * nat :=
  match g with
  | [] => (start, stop)
  | x :: k =>
      let l := zero_run g in
      if (2 <=? l)%nat && (stop - start <? l)%nat then best_run k (S i) i (i + l)
      else best_run k (S i) start stop
  end.

Definition join_hex (g : list Z) : bytes := Join (map append_hex g) ":".

(** [netip.Addr.appendTo6] *)
Definition ip6_String (b : bytes) : bytes :=
  let g := groups b in
  let '(start, stop) := best_run g 0 255 255 in
  if (start <? 8)%nat then join_hex (take start g) ++ "::" ++ join_hex (drop stop g)
  else join_hex g.

Definition ip4_String (b : bytes) : bytes :=
  Join (map (fun c => itoa (Z_of_byte c)) b) ".".

(** The prefix of an IPv4-mapped address. *)
Definition v4_in_v6 : bytes := map byte_of_Z [0; 0; 0; 0; 0; 0; 0; 0; 0; 0; 255; 255].

(** [IP.To4] *)
Definition ip_To4 (ip : bytes) : option bytes :=
  if len ip =? 4 then Some ip
  else if (len ip =? 16) && HasPrefix ip v4_in_v6 then Some (drop 12 ip)
  else None.

Definition hex_byte (c : byte) : bytes :=
  [hex_digit (Z_of_byte c / 16); hex_digit (Z_of_byte c mod 16)].

(** [IP.String] *)
Definition ip_String (ip : bytes) : bytes :=
  if len ip =? 0 then "<nil>" else
  if negb (len ip =? 4) && negb (len ip =? 16) then "?" ++ flat_map hex_byte ip else
  match ip_To4 ip with
  | Some p4 => ip4_String p4
  | None => ip6_String ip
  end.

Example ip_String_v4 : ip_String (map byte_of_Z [192; 0; 2; 7]) = "192.0.2.7".
Proof. vm_compute. reflexivity. Qed.
Example ip_String_v6 :
  ip_String (map byte_of_Z [0x20; 0x01; 0x0d; 0xb8; 0; 0; 0; 0; 0; 0; 0; 0; 0; 0; 0; 0x53])
  = "2001:db8::53".
Proof. vm_compute. reflexivity. Qed.
Example ip_String_v6_all :
  ip_String (map byte_of_Z [0; 1; 0; 0; 0; 0; 0; 2; 0; 0; 0; 0; 0; 0; 0; 0]) = "1:0:0:2::".
Proof. vm_compute. reflexivity. Qed.

(** ** ParseIP *)

Definition is_digit (c : byte) : bool := (48 <=? Z_of_byte c) && (Z_of_byte c <=? 57).

(** [netip.parseIPv4Fields]: [first] at the first byte, [dot] after a dot. *)
Fixpoint parse_v4 (s : bytes) (first dot : bool) (val pos digLen : Z) (fields : list Z)
  : option (list Z) :=
  match s with
  | [] => if pos <? 3 then None else Some (fields ++ [val])
  | c :: k =>
      if is_digit c then
        if (digLen =? 1) && (val =? 0) then None else
        let val := val * 10 + (Z_of_byte c - 48) in
        if 255 <? val then None else parse_v4 k false false val pos (digLen + 1) fields
      else if bool_decide (c = "."%char) then
        if first || bool_decide (k = []) || dot then None else
        if pos =? 3 then None else parse_v4 k false true 0 (pos + 1) 0 (fields ++ [val])
      else None
  end.
Definition parseIPv4 (s : bytes) : option (list Z) := parse_v4 s true false 0 0 0 [].

Definition hex_value (c : byte) : option Z :=
  let z := Z_of_byte c in
  if (48 <=? z) && (z <=? 57) then Some (z - 48)
  else if (97 <=? z) && (z <=? 102) then Some (z - 87)
  else if (65 <=? z) && (z <=? 70) then Some (z - 55)
  else None.

(** The digits of a group: their number, their value and what follows; more
    than four are an error. *)
Fixpoint hex_group (s : bytes) (off acc : Z) : option (Z * Z * bytes) :=
  match s with
  | c :: k =>
      match hex_value c with
      | Some v =>
          if 3 <? off then None else
          let acc := acc * 16 + v in
          if 65535 <? acc then None else hex_group k (off + 1) acc
      | None => Some (off, acc, s)
      end
  | [] => Some (off, acc, [])
  end.

(** The loop of [netip.parseIPv6]: eight groups at most. *)
Fixpoint v6_loop (fuel : nat) (s : bytes) (ip : list Z) (ellipsis : option nat)
  : option (list Z * option nat * bytes) :=
  match fuel with
  | O => Some (ip, ellipsis, s)
  | S fuel' =>
      match hex_group s 0 0 with
      | None => None
      | Some (off, acc, rest) =>
          if off =? 0 then None else
          match rest with
          | "."%char :: _ =>
              if negb (bool_decide (is_Some ellipsis)) && negb (len ip =? 12) then None else
              if 16 <? len ip + 4 then None else
              match parseIPv4 s with
              | Some f => Some (ip ++ f, ellipsis, [])
              | None => None
              end
          | _ =>
              let ip := ip ++ [Z.shiftr acc 8; Z.land acc 255] in
              match rest with
              | [] => Some (ip, ellipsis, [])
              | c :: k =>
                  if negb (bool_decide (c = ":"%char)) || bool_decide (k = []) then None else
                  match k with
                  | ":"%char :: k' =>
                      match ellipsis with
                      | Some _ => None
                      | None =>
                          if bool_decide (k' = []) then Some (ip, Some (length ip), [])
                          else v6_loop fuel' k' ip (Some (length ip))
                      end
                  | _ => v6_loop fuel' k ip ellipsis
                  end
              end
          end
      end
  end.

Definition v6_finish (r : option (list Z * option nat * bytes)) : option (list Z) :=
  match r with
  | Some (ip, ellipsis, []) =>
      match ellipsis with
      | Some e =>
          if len ip <? 16 then Some (take e ip ++ repeat 0 (16 - length ip) ++ drop e ip) else None
      | None => if len ip <? 16 then None else Some ip
      end
  | _ => None
  end.

Definition parseIPv6 (s : bytes) : option (list Z) :=
  match s with
  | ":"%char :: ":"%char :: [] => Some (repeat 0 16)
  | ":"%char :: ":"%char :: k => v6_finish (v6_loop 8 k [] (Some 0%nat))
  | _ => v6_finish (v6_loop 8 s [] None)
  end.

(** The first of the bytes [.], [:] and [%] decides; a zone is never accepted. *)
Definition ParseIP (s : bytes) : option bytes :=
  match List.find (fun c => bool_decide (c = "."%char) || bool_decide (c = ":"%char)
                            || bool_decide (c = "%"%char)) s with
  | Some "."%char =>
      match parseIPv4 s with Some f => Some (v4_in_v6 ++ map byte_of_Z f) | None => None end
  | Some ":"%char =>
      if existsb (fun c => bool_decide (c = "%"%char)) s then None else
      match parseIPv6 s with Some f => Some (map byte_of_Z f) | None => None end
  | _ => None
  end.

(** [IP.Equal]: an IPv4 address equals its IPv4-mapped form. *)
Definition ip_Equal (a b : bytes) : bool :=
  if len a =? len b then bool_decide (a = b)
  else if (len a =? 4) && (len b =? 16) then bool_decide (b = v4_in_v6 ++ a)
  else if (len a =? 16) && (len b =? 4) then bool_decide (a = v4_in_v6 ++ b)
  else false.

Example ParseIP_v4 : ParseIP "192.0.2.7" = Some (v4_in_v6 ++ map byte_of_Z [192; 0; 2; 7]).
Proof. vm_compute. reflexivity. Qed.
Example ParseIP_v6 : ParseIP "2001:db8::53"
  = Some (map byte_of_Z [0x20; 0x01; 0x0d; 0xb8; 0; 0; 0; 0; 0; 0; 0; 0; 0; 0; 0; 0x53]).
Proof. vm_compute. reflexivity. Qed.
Example ParseIP_v6_v4 : ParseIP "::FFFF:1.2.3.4" = ParseIP "1.2.3.4".
Proof. vm_compute. reflexivity. Qed.
Example ParseIP_bad : map ParseIP ["1.2.3"; "1.2.3.4.5"; "01.2.3.4"; "1.2.3.256"; ":1"; "1:::2"; "fe80::1%eth0"; "x"]
  = repeat None 8.
Proof. vm_compute. reflexivity. Qed.

(** ** net.SplitHostPort: the host, or [None] for an error *)

Fixpoint last_index (s : bytes) (c : byte) (i found : Z) : Z :=
  match s with
  | [] => found
  | x :: s' => last_index s' c (i + 1) (if decide (x = c) then i else found)
  end.
Definition LastIndexByte (s : bytes) (c : byte) : Z := last_index s c 0 (-1).

Definition SplitHost (hostport : bytes) : option bytes :=
  let i := LastIndexByte hostport ":"%char in
  if i <? 0 then None else
  let bracketed := match hostport with c :: _ => bool_decide (c = "["%char) | [] => false end in
  let parts :=
    if bracketed then
      let stop := IndexByte hostport "]"%char in
      if (stop <? 0) || negb (stop + 1 =? i) then None
      else Some (sub hostport 1 stop, drop 1 hostport, drop (Z.to_nat (stop + 1)) hostport)
    else
      let host := sub hostport 0 i in
      if 0 <=? IndexByte host ":"%char then None else Some (host, hostport, hostport) in
  match parts with
  | Some (host, from_j, from_k) =>
      if (0 <=? IndexByte from_j "["%char) || (0 <=? IndexByte from_k "]"%char) then None else Some host
  | None => None
  end.

Example SplitHost_v6 : SplitHost "[2001:db8::1]:53" = Some "2001:db8::1".
Proof. vm_compute. reflexivity. Qed.
Example SplitHost_bad : SplitHost "2001:db8::1:53" = None.
Proof. vm_compute. reflexivity. Qed.
