(* ===== verification/Pipeline.v ===== *)
(** * internal/resolver/pipeline.go: resolution events and their subscribers. *)

From S2P Require Import Prelude.
From S2P Require Import GoStrings.
From S2P Require Import Protocol.

#[local] Open Scope go_scope.

(** ** Events *)

Record ResolutionEvent := mkEvent {
  ev_QueryID : bytes;
  ev_Timestamp : Z;
  ev_Step : Z;
  ev_StepType : bytes;
  ev_Server : bytes;
  ev_ServerName : bytes;
  ev_Query : bytes;
  ev_QueryType : bytes;
  ev_Latency : Z;
  ev_Success : bool;
  ev_RawRequest : bytes;
  ev_RawResponse : bytes;
  ev_ParsedMsg : option Message;
  ev_ErrorMsg : bytes
}.

(** An event the resolver itself reports: no server, no packets. *)
Definition local_event (queryID : bytes) (now step : Z) (stepType query queryType errorMsg : bytes)
  : ResolutionEvent :=
  mkEvent queryID now step stepType "" "" query queryType 0 true "" "" None errorMsg.

(** ** The hub

    A channel is a bounded queue; channels live in a heap because the
    subscriber keeps its channel after [Unsubscribe]. *)

Record chan (A : Type) := mkChan { ch_cap : Z; ch_buf : list A; ch_closed : bool }.
Arguments mkChan {_} _ _ _.
Arguments ch_cap {_} _.
Arguments ch_buf {_} _.
Arguments ch_closed {_} _.

Record Hub (A : Type) := mkHub { hub_subscribers : gset nat; hub_chans : gmap nat (chan A) }.
Arguments mkHub {_} _ _.
Arguments hub_subscribers {_} _.
Arguments hub_chans {_} _.

Definition EventHub : Type := Hub ResolutionEvent.

Section hub.
Context {A : Type}.

Definition new_hub : Hub A := mkHub ∅ ∅.

(** A new channel of the given capacity. *)
Definition add_chan (buffer : Z) (h : Hub A) : nat * Hub A :=
  let ch := fresh (dom (hub_chans h)) in
  (ch, mkHub ({[ch]} ∪ hub_subscribers h) (<[ch := mkChan buffer [] false]> (hub_chans h))).

Definition Subscribe (buffer : Z) (h : Hub A) : nat * Hub A :=
  add_chan (if buffer <=? 0 then 64 else buffer) h.

(** [close(ch)] of a closed channel panics. *)
Definition close_chan {E} (ch : nat) (m : gmap nat (chan A)) : result E (gmap nat (chan A)) :=
  match m !! ch with
  | Some c => if ch_closed c then Panic else Ok (<[ch := mkChan (ch_cap c) (ch_buf c) true]> m)
  | None => Panic
  end.

Definition Unsubscribe {E} (ch : nat) (h : Hub A) : result E (Hub A) :=
  if bool_decide (ch ∈ hub_subscribers h) then
    m ← close_chan ch (hub_chans h);
    Ok (mkHub (hub_subscribers h ∖ {[ch]}) m)
  else Ok h.

(** [select { case ch <- event: default: }]: a send on a closed channel
    panics, on a full one the default case is taken. *)
Definition try_send {E} (event : A) (m : gmap nat (chan A)) (ch : nat)
  : result E (gmap nat (chan A)) :=
  match m !! ch with
  | Some c =>
      if ch_closed c then Panic
      else if len (ch_buf c) <? ch_cap c then
        Ok (<[ch := mkChan (ch_cap c) (ch_buf c ++ [event]) false]> m)
      else Ok m
  | None => Ok m
  end.

(** [order]: the order in which the map of subscribers is ranged over. *)
Fixpoint send_all {E} (event : A) (order : list nat) (m : gmap nat (chan A))
  : result E (gmap nat (chan A)) :=
  match order with
  | [] => Ok m
  | ch :: order' => m' ← try_send event m ch; send_all event order' m'
  end.

Definition Publish {E} (event : A) (h : Hub A) : result E (Hub A) :=
  m ← send_all event (elements (hub_subscribers h)) (hub_chans h);
  Ok (mkHub (hub_subscribers h) m).

(** The subscriber takes the oldest event. *)
Definition receive (ch : nat) (h : Hub A) : option A * Hub A :=
  match hub_chans h !! ch with
  | Some (mkChan cap (e :: buf) closed) =>
      (Some e, mkHub (hub_subscribers h) (<[ch := mkChan cap buf closed]> (hub_chans h)))
  | _ => (None, h)
  end.

(** ** Runs *)

Inductive hub_op :=
| HSubscribe (buffer : Z)
| HUnsubscribe (ch : nat)
| HPublish (e : A)
| HReceive (ch : nat).

Definition hub_step {E} (o : hub_op) (h : Hub A) : result E (Hub A) :=
  match o with
  | HSubscribe n => Ok (Subscribe n h).2
  | HUnsubscribe ch => Unsubscribe ch h
  | HPublish e => Publish e h
  | HReceive ch => Ok (receive ch h).2
  end.

Fixpoint hub_run {E} (os : list hub_op) (h : Hub A) : result E (Hub A) :=
  match os with
  | [] => Ok h
  | o :: os' => h' ← hub_step o h; hub_run os' h'
  end.

(** Subscribers are open channels, and no queue is longer than its capacity. *)
Record hub_inv (h : Hub A) : Prop := {
  hub_open : forall ch, ch ∈ hub_subscribers h ->
    exists c, hub_chans h !! ch = Some c /\ ch_closed c = false;
  hub_cap : forall ch c, hub_chans h !! ch = Some c -> len (ch_buf c) <= ch_cap c
}.

(** What [Publish] does to the channel of a subscriber. *)
Definition delivered (e : A) (c : chan A) : chan A :=
  if len (ch_buf c) <? ch_cap c then mkChan (ch_cap c) (ch_buf c ++ [e]) (ch_closed c) else c.

Lemma send_all_spec {E} e order (m : gmap nat (chan A)) :
  NoDup order ->
  (forall ch, ch ∈ order -> exists c, m !! ch = Some c /\ ch_closed c = false) ->
  exists m', send_all (E := E) e order m = Ok m' /\
    forall ch, m' !! ch = if bool_decide (ch ∈ order) then delivered e <$> m !! ch else m !! ch.
Proof.
  revert m. induction order as [|x order IH]; intros m Hnd Ho; cbn [send_all].
  { exists m. split; [done|]. intros ch. by rewrite bool_decide_eq_false_2 by apply not_elem_of_nil. }
  apply NoDup_cons in Hnd as [Hx Hnd].
  destruct (Ho x (list_elem_of_here _ _)) as (c & Hc & Hcl).
  assert (try_send (E := E) e m x = Ok (<[x := delivered e c]> m)) as ->.
  { unfold try_send, delivered. rewrite Hc, Hcl. bcase; [done|]. by rewrite insert_id. }
  cbn [mbind result_bind]. destruct (IH (<[x := delivered e c]> m)) as (m' & -> & Hm'); [done| |].
  { intros ch Hch. rewrite lookup_insert_ne by (intros ->; done). apply Ho. by right. }
  exists m'. split; [done|]. intros ch. rewrite Hm'. destruct (decide (ch = x)) as [->|Hne].
  - rewrite (bool_decide_eq_false_2 (x ∈ order)) by done.
    rewrite bool_decide_eq_true_2 by left. by rewrite lookup_insert_eq, Hc.
  - rewrite lookup_insert_ne by done.
    rewrite (bool_decide_ext (ch ∈ x :: order) (ch ∈ order)) by (rewrite elem_of_cons; naive_solver).
    done.
Qed.

Lemma Publish_ok {E} e h : hub_inv h ->
  exists m, Publish (E := E) e h = Ok (mkHub (hub_subscribers h) m)
    /\ hub_inv (mkHub (hub_subscribers h) m)
    /\ forall ch, m !! ch = if bool_decide (ch ∈ hub_subscribers h)
         then delivered e <$> hub_chans h !! ch else hub_chans h !! ch.
Proof.
  intros [Ho Hc]. unfold Publish.
  destruct (send_all_spec (E := E) e (elements (hub_subscribers h)) (hub_chans h)) as (m & -> & Hm).
  { apply NoDup_elements. }
  { intros ch Hch%elem_of_elements. by apply Ho. }
  assert (forall ch, m !! ch = if bool_decide (ch ∈ hub_subscribers h)
    then delivered e <$> hub_chans h !! ch else hub_chans h !! ch) as Hm'.
  { intros ch. rewrite Hm. by rewrite (bool_decide_ext _ _ (elem_of_elements _ _)). }
  exists m. ands; [done| |done]. split; cbn [hub_subscribers hub_chans].
  - intros ch Hch. rewrite Hm', bool_decide_eq_true_2 by done.
    destruct (Ho ch Hch) as (c & -> & Hcl). eexists. split; [done|].
    unfold delivered. by bcase.
  - intros ch c. rewrite Hm'. bcase; [|apply Hc]. intros Hl.
    apply fmap_Some in Hl as (c0 & Hc0 & ->). apply Hc in Hc0. unfold delivered.
    bcase; cbn [ch_buf ch_cap]; [|done]. len_lia.
Qed.

Lemma hub_inv_new : hub_inv new_hub.
Proof. split; cbn; [set_solver|]. intros ch c. by rewrite lookup_empty. Qed.

Lemma add_chan_inv n h : 0 <= n -> hub_inv h -> hub_inv (add_chan n h).2.
Proof.
  intros Hn [Ho Hc]. unfold add_chan. cbn [snd].
  set (x := fresh _). split; cbn [hub_subscribers hub_chans].
  - intros ch [->%elem_of_singleton|Hch]%elem_of_union.
    + rewrite lookup_insert_eq. by eexists.
    + rewrite lookup_insert_ne; [by apply Ho|]. intros <-. destruct (Ho _ Hch) as (c & E1 & _).
      eapply (is_fresh (dom (hub_chans h))), elem_of_dom_2, E1.
  - intros ch c. rewrite lookup_insert_Some. intros [[_ <-]|[_ H]]; [|by eapply Hc].
    cbn [ch_buf ch_cap]. by rewrite len_nil.
Qed.

Lemma hub_step_ok {E} o h : hub_inv h -> exists h', hub_step (E := E) o h = Ok h' /\ hub_inv h'.
Proof.
  intros Hi. destruct o as [n|ch|e|ch]; cbn [hub_step].
  - eexists. split; [done|]. apply add_chan_inv; [bcase; lia|done].
  - unfold Unsubscribe. bcase; [|by exists h]. apply bool_decide_eq_true in Hb.
    destruct Hi as [Ho Hc]. destruct (Ho _ Hb) as (c & E1 & E2). unfold close_chan. rewrite E1, E2.
    eexists. split; [done|]. split; cbn [hub_subscribers hub_chans].
    + intros ch' [Hch Hne]%elem_of_difference. rewrite lookup_insert_ne by set_solver. by apply Ho.
    + intros ch' c'. rewrite lookup_insert_Some. intros [[_ <-]|[_ H]]; [|by eapply Hc].
      cbn [ch_buf ch_cap]. apply (Hc ch c E1).
  - destruct (Publish_ok (E := E) e h Hi) as (m & -> & Hi' & _). by eexists.
  - eexists. split; [done|]. destruct Hi as [Ho Hc]. unfold receive.
    destruct (hub_chans h !! ch) as [[cap [|e buf] closed]|] eqn:E1; try done.
    split; cbn [hub_subscribers hub_chans snd].
    + intros ch' Hch. destruct (Ho _ Hch) as (c & E2 & E3). destruct (decide (ch' = ch)) as [->|].
      * rewrite lookup_insert_eq. rewrite E1 in E2. injection E2 as <-. by eexists.
      * rewrite lookup_insert_ne by done. eauto.
    + intros ch' c. rewrite lookup_insert_Some. intros [[_ <-]|[_ H]]; [|by eapply Hc].
      apply Hc in E1. cbn [ch_buf ch_cap] in *. len_lia.
Qed.

Lemma hub_run_ok {E} os h : hub_inv h -> exists h', hub_run (E := E) os h = Ok h' /\ hub_inv h'.
Proof.
  revert h. induction os as [|o os IH]; intros h Hi; cbn [hub_run]; [by exists h|].
  destruct (hub_step_ok (E := E) o h Hi) as (h' & -> & Hi'). by apply IH.
Qed.

End hub.

Definition NewEventHub : EventHub := new_hub.

(** After any sequence of subscriptions, cancellations, publications and
    receptions, publishing an event returns: no send reaches a closed channel
    and no channel is closed twice. Each subscriber whose queue has room gets
    the event at its end, a full queue drops it, and no queue outgrows its
    capacity. *)
Theorem Publish_delivers os e :
  exists h m, hub_run (E := unit) os NewEventHub = Ok h
    /\ Publish (E := unit) e h = Ok (mkHub (hub_subscribers h) m)
    /\ (forall ch c, m !! ch = Some c -> len (ch_buf c) <= ch_cap c)
    /\ forall ch, m !! ch = if bool_decide (ch ∈ hub_subscribers h)
         then delivered e <$> hub_chans h !! ch else hub_chans h !! ch.
Proof.
  destruct (hub_run_ok (E := unit) os NewEventHub hub_inv_new) as (h & E & Hi).
  destruct (Publish_ok (E := unit) e h Hi) as (m & HP & [_ Hc] & Hm).
  by exists h, m.
Qed.
