(* ===== verification/Hints.v ===== *)
(** * internal/resolver/hints.go: the root servers. *)

From S2P Require Import Prelude.
From S2P Require Import GoStrings.
From S2P Require Import GoTime.

#[local] Open Scope go_scope.

Record RootServer := mkRootServer {
  rs_Name : bytes;
  rs_IPv4 : bytes;
  rs_IPv6 : bytes;
  rs_LastLatency : Z;
  rs_LastSeen : Z;
  rs_State : bytes;
  rs_StateCode : Z;
  rs_ConsecutiveFailures : Z;
  rs_LastFailure : Z;
  rs_LastError : bytes;
  rs_TotalSuccesses : Z;
  rs_TotalFailures : Z
}.

Record UpstreamStatus := mkUpstreamStatus {
  us_Server : bytes;
  us_ServerName : bytes;
  us_LastLatency : Z;
  us_LastSeen : Z;
  us_State : bytes;
  us_StateCode : Z;
  us_ConsecutiveFailures : Z;
  us_LastFailure : Z;
  us_LastError : bytes;
  us_TotalSuccesses : Z;
  us_TotalFailures : Z
}.

(** The zero value of the struct. *)
Definition zero_status : UpstreamStatus :=
  mkUpstreamStatus "" "" 0 time_zero "" 0 0 time_zero "" 0 0.

Definition hint (name ipv4 ipv6 : bytes) : RootServer :=
  mkRootServer name ipv4 ipv6 0 time_zero "closed" 0 0 time_zero "" 0 0.

Definition DefaultRootHints : list RootServer := [
  hint "a.root-servers.net" "198.41.0.4" "2001:503:ba3e::2:30";
  hint "b.root-servers.net" "170.247.170.2" "2801:1b8:10::b";
  hint "c.root-servers.net" "192.33.4.12" "2001:500:2::c";
  hint "d.root-servers.net" "199.7.91.13" "2001:500:2d::d";
  hint "e.root-servers.net" "192.203.230.10" "2001:500:a8::e";
  hint "f.root-servers.net" "192.5.5.241" "2001:500:2f::f";
  hint "g.root-servers.net" "192.112.36.4" "2001:500:12::d0d";
  hint "h.root-servers.net" "198.97.190.53" "2001:500:1::53";
  hint "i.root-servers.net" "192.36.148.17" "2001:7fe::53";
  hint "j.root-servers.net" "192.58.128.30" "2001:503:c27::2:30";
  hint "k.root-servers.net" "193.0.14.129" "2001:7fd::1";
  hint "l.root-servers.net" "199.7.83.42" "2001:500:9f::42";
  hint "m.root-servers.net" "202.12.27.33" "2001:dc3::35"
].

Definition RootHintIPs : list bytes :=
  map rs_IPv4 (List.filter (fun h => negb (bool_decide (rs_IPv4 h = ""))) DefaultRootHints).
