(* ===== verification/Recursive.v ===== *)
(** * internal/resolver/recursive.go: following referrals from the root.

    The questions asked of name servers ([queryFunc] or [queryFastest]), the
    look-up of name-server hosts, the counters and the clock are the operations
    of the class [Upstream] over a state [W] of everything outside the loop. *)

From S2P Require Import Prelude.
From S2P Require Import GoStrings.
From S2P Require Import Protocol.
From S2P Require Import Names.
From S2P Require Import Cache.
From S2P Require Import GoNet.
From S2P Require Import Pipeline.
From S2P Require Import Hints.

#[local] Open Scope go_scope.

(** ** Configuration and errors *)

Record Config := mkConfig {
  UpstreamTimeout : Z;
  Retries : Z;
  MaxCNAMEDepth : Z;
  MaxRecursionDepth : Z;
  QNAMEMinimization : bool;
  CaseRandomization : bool;
  EDNSEnabled : bool;
  MaxUDPSize : Z;
  CBFailureThreshold : Z;
  CBSuccessThreshold : Z;
  CBOpenTimeout : Z
}.

Inductive resolve_error :=
| ErrReferralLoop
| ErrUpstream (e : bytes)
| ErrNilResponse
| ErrCNAMEDepth
| ErrCNAMELoop
| ErrNoNextServers
| ErrRecursionDepth
| ErrName (e : error).

(** ** The world outside the loop *)

(** The answer of a query function: a message pointer, the events of the hop
    and an error. *)
Record answer := mkAnswer {
  a_msg : option Message; a_events : list ResolutionEvent; a_err : option bytes
}.

Class Upstream (W : Type) := {
  (** [queryFunc ctx queryID step qname qtype servers] *)
  query : bytes -> Z -> bytes -> Z -> list bytes -> W -> answer * W;
  (** [lookupIPs] under an optional timeout; an error or addresses, nil ones too *)
  lookupIPs : option Z -> bytes -> W -> option (list (option bytes)) * W;
  incCounter : bytes -> W -> W;
  time_Now : W -> Z * W
}.

Section recursive.
Context {U : UnicodeTables} {W : Type} {UP : Upstream W}.

(** ** Reading a response *)

Definition referralStateKey (qname : bytes) (qtype : Z) (servers : list bytes) : bytes :=
  let s := sort_strings servers in
  normalizeFQDN qname ++ "|" ++ TypeToString qtype ++ "|" ++ Join s ",".

Definition hasAnswer (msg : Message) (qname : bytes) (qtype : Z) : bool :=
  let qname := normalizeFQDN qname in
  existsb (fun rr =>
    (bool_decide (normalizeFQDN (rr_Name rr) = qname) && (rr_Type rr =? qtype))
    || ((rr_Type rr =? TypeCNAME) && (qtype =? TypeCNAME))) (m_Answers msg).

Fixpoint findCNAME_loop (answers : list ResourceRecord) (qname : bytes) : option bytes :=
  match answers with
  | [] => None
  | rr :: rest =>
      if negb (rr_Type rr =? TypeCNAME) || negb (bool_decide (normalizeFQDN (rr_Name rr) = qname))
      then findCNAME_loop rest qname
      else match rr_Data rr with
           | Some (CNAMEData name) => Some (normalizeFQDN name)
           | _ => findCNAME_loop rest qname
           end
  end.
Definition findCNAME (msg : Message) (qname : bytes) : option bytes :=
  findCNAME_loop (m_Answers msg) (normalizeFQDN qname).

(** resolver.go *)
Definition shouldCacheAsNODATA (msg : option Message) (qname : bytes) (qtype : Z) : bool :=
  match msg with
  | None => false
  | Some m =>
      if negb (h_RCode (m_Header m) =? RCodeNoError) then false
      else if hasAnswer m qname qtype then false
      else 0 <? TTLFromSOA msg
  end.

Definition glueIP (rr : ResourceRecord) : bytes :=
  match rr_Data rr with
  | Some (AData a) => ip_String a
  | Some (AAAAData a) => ip_String a
  | _ => ""
  end.

(** ** Referrals *)

(** The zone of the last NS record and the set of name-server names. *)
Definition nsScan (rrs : list ResourceRecord) : bytes * gset bytes :=
  foldl (fun '(zone, names) rr =>
    if negb (rr_Type rr =? TypeNS) then (zone, names) else
    (rr_Name rr,
     match rr_Data rr with
     | Some (NSData n) => {[normalizeFQDN n]} ∪ names
     | _ => names
     end)) (".", ∅) rrs.

(** The loop over the accepted glue: addresses of the name servers, once each. *)
Fixpoint glueServers (nsNames : gset bytes) (rrs : list ResourceRecord) (seen : gset bytes)
    (servers : list bytes) : list bytes :=
  match rrs with
  | [] => servers
  | rr :: rest =>
      if negb (bool_decide (normalizeFQDN (rr_Name rr) ∈ nsNames)) && negb (bool_decide (nsNames = ∅))
      then glueServers nsNames rest seen servers else
      let ip := glueIP rr in
      if bool_decide (ip = "") then glueServers nsNames rest seen servers else
      if bool_decide (ip ∈ seen) then glueServers nsNames rest seen servers else
      glueServers nsNames rest ({[ip]} ∪ seen) (servers ++ [ip])
  end.

(** The loop over the addresses of one host. *)
Fixpoint addIPs (ips : list (option bytes)) (seen : gset bytes) (servers : list bytes)
  : gset bytes * list bytes :=
  match ips with
  | [] => (seen, servers)
  | None :: rest => addIPs rest seen servers
  | Some ip :: rest =>
      let addr := ip_String ip in
      if bool_decide (addr ∈ seen) then addIPs rest seen servers
      else addIPs rest ({[addr]} ∪ seen) (servers ++ [addr])
  end.

Fixpoint lookupHosts (names : list bytes) (timeout : option Z) (seen : gset bytes)
    (servers : list bytes) (w : W) : list bytes * W :=
  match names with
  | [] => (servers, w)
  | host :: rest =>
      match lookupIPs timeout host w with
      | (None, w) => lookupHosts rest timeout seen servers w
      | (Some ips, w) =>
          let '(seen, servers) := addIPs ips seen servers in
          lookupHosts rest timeout seen servers w
      end
  end.

(** The host names asked for, sorted. *)
Definition nsHosts (nsNames : gset bytes) : list bytes :=
  sort_strings (map (fun n => TrimSuffix (normalizeFQDN n) ".") (elements nsNames)).

Definition resolveNSHostnames (nsNames : gset bytes) (timeout : Z) (w : W) : list bytes * W :=
  if bool_decide (nsNames = ∅) then ([], w) else
  lookupHosts (nsHosts nsNames) (if 0 <? timeout then Some timeout else None) ∅ [] w.

Definition nextReferralServers (msg : Message) (cfg : Config) (w : W) : list bytes * W :=
  let '(zone, nsNames) := nsScan (m_Authorities msg ++ m_Answers msg) in
  if bool_decide (nsNames = ∅) then ([], w) else
  let glueCandidates := m_Additionals msg ++ m_Answers msg in
  let '(validGlue, rejected) := FilterGlueByBailiwick zone glueCandidates in
  let w := Nat.iter (Z.to_nat rejected) (incCounter "bailiwick_rejected") w in
  let servers := glueServers nsNames validGlue ∅ [] in
  if len servers =? 0 then resolveNSHostnames nsNames (UpstreamTimeout cfg) w
  else (servers, w).

(** ** The loop *)

(** The variables of [resolveRecursive]. *)
Record loop := mkLoop {
  l_qname : bytes;
  l_servers : list bytes;
  l_cnameDepth : Z;
  l_steps : Z;
  l_events : list ResolutionEvent;
  l_visitedCNAME : gset bytes;
  l_visitedStates : gset bytes;
  l_qmin : bool
}.

(** What [resolveRecursive] returns: the events so far and a message or an error. *)
Definition outcome : Type := list ResolutionEvent * result resolve_error Message.

Inductive flow := Continue (s : loop) | Return (o : outcome).

(** The name and type asked at a step. *)
Definition questionAt (qname : bytes) (qtype step : Z) (qmin : bool) : result error (bytes * Z) :=
  if qmin then
    queryName ← MinimizedQNameForHop qname (step - 1);
    Ok (queryName, if bool_decide (queryName <> normalizeFQDN qname) then TypeNS else qtype)
  else Ok (qname, qtype).

(** The part of the body after the response: [s] holds the updated [steps],
    [visitedStates] and [events]. *)
Definition handleResponse (cfg : Config) (queryID : bytes) (qtype : Z) (queryName : bytes)
    (resp : Message) (s : loop) (w : W) : flow * W :=
  let qname := l_qname s in
  let events := l_events s in
  let rcode := h_RCode (m_Header resp) in
  if rcode =? RCodeNameError then
    if negb (bool_decide (queryName = normalizeFQDN qname)) then
      (Continue (mkLoop qname (l_servers s) (l_cnameDepth s) (l_steps s) events
                   (l_visitedCNAME s) (l_visitedStates s) false), w)
    else (Return (events, Ok resp), w)
  else
  let follow target :=
    if MaxCNAMEDepth cfg <=? l_cnameDepth s then (Return (events, Err ErrCNAMEDepth), w) else
    let n := ToLower (normalizeFQDN target) in
    if bool_decide (n ∈ l_visitedCNAME s) then (Return (events, Err ErrCNAMELoop), w) else
    let '(now, w) := time_Now w in
    let e := local_event queryID now (len events + 1) "cname_follow" qname
               (TypeToString qtype) "" in
    (Continue (mkLoop target RootHintIPs (l_cnameDepth s + 1) 0 (events ++ [e])
                 ({[n]} ∪ l_visitedCNAME s) (l_visitedStates s) (l_qmin s)), w) in
  let rest :=
    if hasAnswer resp qname qtype then (Return (events, Ok resp), w) else
    if shouldCacheAsNODATA (Some resp) qname qtype then (Return (events, Ok resp), w) else
    if negb (rcode =? RCodeNoError) then (Return (events, Ok resp), w) else
    let '(nextServers, w) := nextReferralServers resp cfg w in
    if len nextServers =? 0 then
      if h_AA (m_Header resp) || (0 <? len (m_Answers resp)) || (0 <? len (m_Authorities resp))
      then (Return (events, Ok resp), w)
      else (Return (events, Err ErrNoNextServers), w)
    else
      (Continue (mkLoop qname nextServers (l_cnameDepth s) (l_steps s) events
                   (l_visitedCNAME s) (l_visitedStates s) (l_qmin s)), w) in
  match findCNAME resp qname with
  | Some target => if negb (qtype =? TypeCNAME) then follow target else rest
  | None => rest
  end.

(** One test of the loop condition and one execution of the body. *)
Definition step (cfg : Config) (queryID : bytes) (qtype : Z) (s : loop) (w : W) : flow * W :=
  if negb (l_steps s <? MaxRecursionDepth cfg)
  then (Return (l_events s, Err ErrRecursionDepth), w) else
  let steps := l_steps s + 1 in
  match questionAt (l_qname s) qtype steps (l_qmin s) with
  | Ok (queryName, queryType) =>
      let state := referralStateKey queryName queryType (l_servers s) in
      if bool_decide (state ∈ l_visitedStates s)
      then (Return (l_events s, Err ErrReferralLoop), w) else
      let '(a, w) := query queryID steps queryName queryType (l_servers s) w in
      let s := mkLoop (l_qname s) (l_servers s) (l_cnameDepth s) steps
                 (l_events s ++ a_events a) (l_visitedCNAME s)
                 ({[state]} ∪ l_visitedStates s) (l_qmin s) in
      match a_err a, a_msg a with
      | Some e, _ => (Return (l_events s, Err (ErrUpstream e)), w)
      | None, None => (Return (l_events s, Err ErrNilResponse), w)
      | None, Some resp => handleResponse cfg queryID qtype queryName resp s w
      end
  | Err e => (Return (l_events s, Err (ErrName e)), w)
  | Panic => (Return (l_events s, Panic), w)
  | Fuel => (Return (l_events s, Fuel), w)
  end.

Fixpoint run (fuel : nat) (cfg : Config) (queryID : bytes) (qtype : Z) (s : loop) (w : W)
  : outcome * W :=
  match fuel with
  | O => ((l_events s, Fuel), w)
  | S fuel' =>
      match step cfg queryID qtype s w with
      | (Return o, w) => (o, w)
      | (Continue s, w) => run fuel' cfg queryID qtype s w
      end
  end.

Definition start (cfg : Config) (qname : bytes) : loop :=
  mkLoop qname RootHintIPs 0 0 [] ∅ ∅ (QNAMEMinimization cfg).

(** One round for every step between two CNAME records, and the test that
    ends the loop. *)
Definition budget (cfg : Config) : Z :=
  (MaxCNAMEDepth cfg `max` 0 + 1) * (MaxRecursionDepth cfg `max` 0).

Definition resolveRecursive (queryID qname : bytes) (qtype : Z) (cfg : Config) (w : W)
  : outcome * W :=
  run (S (Z.to_nat (budget cfg))) cfg queryID qtype (start cfg qname) w.
End recursive.
