(* ===== verification/RecursiveProps.v ===== *)
(** * Properties of the referral loop: how many questions a resolution asks,
    whom it asks, and what it may return. *)

From S2P Require Import Prelude.
From S2P Require Import GoStrings.
From S2P Require Import Protocol.
From S2P Require Import Names.
From S2P Require Import Cache.
From S2P Require Import GoNet.
From S2P Require Import Pipeline.
From S2P Require Import Hints.
From S2P Require Import Recursive.

#[local] Open Scope go_scope.

(** ** The record of the questions asked *)

Record call := mkCall {
  k_step : Z; k_name : bytes; k_type : Z; k_servers : list bytes; k_answer : answer
}.

(** The response of a question that was answered. *)
Definition k_resp (k : call) : option Message :=
  match a_err (k_answer k) with None => a_msg (k_answer k) | Some _ => None end.

(** Any world, with a list of the questions asked so far beside it. *)
#[export] Instance logged {W} {UP : Upstream W} : Upstream (W * list call) := {|
  query id step name type servers '(w, log) :=
    let '(a, w) := query id step name type servers w in
    (a, (w, log ++ [mkCall step name type servers a]));
  lookupIPs timeout host '(w, log) :=
    let '(r, w) := lookupIPs timeout host w in (r, (w, log));
  incCounter reason '(w, log) := (incCounter reason w, log);
  time_Now '(w, log) := let '(t, w) := time_Now w in (t, (w, log))
|}.

(** What a resolution asks of the world: questions, and look-ups of hosts. *)
Inductive occurrence := Asked (k : call) | LookedUp (host : bytes) (r : option (list (option bytes))).

Definition the_call (o : occurrence) : option call :=
  match o with Asked k => Some k | LookedUp _ _ => None end.
Definition calls (log : list occurrence) : list call := omap the_call log.

(** Any world, with both beside it. *)
#[export] Instance recorded {W} {UP : Upstream W} : Upstream (W * list occurrence) := {|
  query id step name type servers '(w, log) :=
    let '(a, w) := query id step name type servers w in
    (a, (w, log ++ [Asked (mkCall step name type servers a)]));
  lookupIPs timeout host '(w, log) :=
    let '(r, w) := lookupIPs timeout host w in (r, (w, log ++ [LookedUp host r]));
  incCounter reason '(w, log) := (incCounter reason w, log);
  time_Now '(w, log) := let '(t, w) := time_Now w in (t, (w, log))
|}.

Lemma elem_of_calls k log : k ∈ calls log <-> Asked k ∈ log.
Proof.
  unfold calls. rewrite list_elem_of_omap. split; [|intros H; by exists (Asked k)].
  intros ([k'|] & H & E); [|done]. by injection E as ->.
Qed.

(** ** Worlds that answer alike

    The loop does the same in two worlds whose operations give the same values. *)
Section simulation.
Context {U : UnicodeTables} {W1 W2 : Type} {U1 : Upstream W1} {U2 : Upstream W2} (R : W1 -> W2 -> Prop).

Definition alike {A} (x : A * W1) (y : A * W2) : Prop := x.1 = y.1 /\ R x.2 y.2.

Context (alike_query : forall id n name type servers w1 w2, R w1 w2 ->
  alike (query id n name type servers w1) (query id n name type servers w2)).
Context (alike_lookup : forall timeout host w1 w2, R w1 w2 -> alike (lookupIPs timeout host w1) (lookupIPs timeout host w2)).
Context (alike_count : forall reason w1 w2, R w1 w2 -> R (incCounter reason w1) (incCounter reason w2)).
Context (alike_now : forall w1 w2, R w1 w2 -> alike (time_Now w1) (time_Now w2)).

Lemma alike_lookupHosts names timeout seen servers w1 w2 :
  R w1 w2 -> alike (lookupHosts names timeout seen servers w1) (lookupHosts names timeout seen servers w2).
Proof.
  revert seen servers w1 w2. induction names as [|h names IH]; intros seen servers w1 w2 H; [done|].
  cbn [lookupHosts]. destruct (alike_lookup timeout h w1 w2 H) as [E H'].
  destruct (lookupIPs timeout h w1) as [r v1], (lookupIPs timeout h w2) as [r2 v2]. cbn in E, H'. subst r2.
  destruct r as [ips|]; [|by apply IH]. destruct (addIPs ips seen servers). by apply IH.
Qed.

Lemma alike_nextReferralServers resp cfg w1 w2 :
  R w1 w2 -> alike (nextReferralServers resp cfg w1) (nextReferralServers resp cfg w2).
Proof.
  intros H. unfold nextReferralServers. destruct (nsScan _) as [zone names]. bcase; [done|].
  destruct (FilterGlueByBailiwick _ _) as [valid rej].
  assert (R (Nat.iter (Z.to_nat rej) (incCounter "bailiwick_rejected") w1)
            (Nat.iter (Z.to_nat rej) (incCounter "bailiwick_rejected") w2)) as Hi.
  { generalize (Z.to_nat rej) as n. intros n. induction n as [|n IH]; [done|]. by apply alike_count. }
  bcase; [|done]. unfold resolveNSHostnames. bcase; [done|]. by apply alike_lookupHosts.
Qed.

Lemma alike_handleResponse cfg id qtype name resp s w1 w2 :
  R w1 w2 -> alike (handleResponse cfg id qtype name resp s w1) (handleResponse cfg id qtype name resp s w2).
Proof.
  intros H. unfold handleResponse. cbv zeta. destruct (alike_nextReferralServers resp cfg w1 w2 H) as [En Hn].
  destruct (alike_now w1 w2 H) as [Et Ht].
  destruct (nextReferralServers resp cfg w1) as [ns v1], (nextReferralServers resp cfg w2) as [ns2 v2].
  destruct (time_Now w1) as [t u1], (time_Now w2) as [t2 u2]. cbn in En, Hn, Et, Ht. subst ns2 t2.
  repeat first [done | case_match; simplify_eq/=].
Qed.

Lemma alike_step cfg id qtype s w1 w2 :
  R w1 w2 -> alike (step cfg id qtype s w1) (step cfg id qtype s w2).
Proof.
  intros H. unfold step. bcase; [done|]. destruct (questionAt _ _ _ _) as [[n t]|e| |]; try done. bcase; [done|].
  destruct (alike_query id (l_steps s + 1) n t (l_servers s) w1 w2 H) as [E H'].
  destruct (query id _ n t _ w1) as [a v1], (query id _ n t _ w2) as [a2 v2]. cbn in E, H'. subst a2.
  destruct (a_err a), (a_msg a); try done. by apply alike_handleResponse.
Qed.

Lemma alike_run fuel cfg id qtype s w1 w2 :
  R w1 w2 -> alike (run fuel cfg id qtype s w1) (run fuel cfg id qtype s w2).
Proof.
  revert s w1 w2. induction fuel as [|fuel IH]; intros s w1 w2 H; cbn [run]; [done|].
  destruct (alike_step cfg id qtype s w1 w2 H) as [E H'].
  destruct (step cfg id qtype s w1) as [f v1], (step cfg id qtype s w2) as [f2 v2]. cbn in E, H'. subst f2.
  destruct f; [by apply IH|done].
Qed.
End simulation.

(** Recording changes nothing. *)
Section recording.
Context {U : UnicodeTables} {W : Type} {UP : Upstream W}.

Lemma run_recorded fuel cfg id qtype s (w : W) (log : list occurrence) :
  let '(o, (w', _)) := run fuel cfg id qtype s (w, log) in run fuel cfg id qtype s w = (o, w').
Proof.
  assert (alike (fun w (x : W * list occurrence) => w = x.1)
    (run fuel cfg id qtype s w) (run fuel cfg id qtype s (w, log))) as [E H].
  { apply alike_run; [..|done].
    - intros id' n name type servers w1 [w2 l] ->. cbn. by destruct (query id' n name type servers w2).
    - intros timeout host w1 [w2 l] ->. cbn. by destruct (lookupIPs timeout host w2).
    - by intros reason w1 [w2 l] ->.
    - intros w1 [w2 l] ->. cbn. by destruct (time_Now w2). }
  destruct (run fuel cfg id qtype s w) as [o v], (run fuel cfg id qtype s (w, log)) as [o2 [v2 l2]].
  cbn in E, H. by subst.
Qed.

Lemma run_logged fuel cfg id qtype s (w : W) (log : list occurrence) :
  let '(o, (w', log')) := run fuel cfg id qtype s (w, log) in
  run fuel cfg id qtype s (w, calls log) = (o, (w', calls log')).
Proof.
  assert (alike (fun (x : W * list call) (y : W * list occurrence) => x = (y.1, calls y.2))
    (run fuel cfg id qtype s (w, calls log)) (run fuel cfg id qtype s (w, log))) as [E H].
  { apply alike_run; [..|done].
    - intros id' n name type servers ? [w2 l] ->. cbn. destruct (query id' n name type servers w2).
      split; [done|]. cbn. unfold calls. by rewrite omap_app.
    - intros timeout host ? [w2 l] ->. cbn. destruct (lookupIPs timeout host w2).
      split; [done|]. cbn. unfold calls. by rewrite omap_app, app_nil_r.
    - by intros reason ? [w2 l] ->.
    - intros ? [w2 l] ->. cbn. by destruct (time_Now w2). }
  destruct (run fuel cfg id qtype s (w, calls log)) as [o v], (run fuel cfg id qtype s (w, log)) as [o2 [v2 l2]].
  cbn in E, H. by subst.
Qed.
End recording.

(** ** What a response refers to *)

Definition ns_records (resp : Message) : list ResourceRecord :=
  List.filter (fun rr => rr_Type rr =? TypeNS) (m_Authorities resp ++ m_Answers resp).

(** The zone the response delegates: the owner of its last NS record. *)
Definition delegated (resp : Message) : bytes := default "." (rr_Name <$> last (ns_records resp)).

Section referrals.
Context {U : UnicodeTables}.

(** The name servers the response names. *)
Definition names_server (resp : Message) (n : bytes) : Prop :=
  exists ns x, ns ∈ ns_records resp /\ rr_Data ns = Some (NSData x) /\ n = normalizeFQDN x.

(** An address of one of them that the response itself holds. *)
Definition has_address (resp : Message) (rr : ResourceRecord) : Prop :=
  rr ∈ m_Additionals resp ++ m_Answers resp /\ is_address rr = true
  /\ names_server resp (normalizeFQDN (rr_Name rr)) /\ glueIP rr <> "".

(** The host that is looked up for a name server. *)
Definition host_of (n : bytes) : bytes := TrimSuffix (normalizeFQDN n) ".".

(** A server to which [resp] refers: an address the response holds, of a name in
    the zone it delegates, or an address found by one of the look-ups [log] for
    the host of a name server.  Names that only look like names of the zone are
    excepted. *)
Inductive referral (log : list occurrence) (resp : Message) (ip : bytes) : Prop :=
| referral_glue rr :
    has_address resp rr -> ip = glueIP rr ->
    (~ looks_in_zone (rr_Name rr) (delegated resp) -> in_zone (rr_Name rr) (delegated resp)) ->
    referral log resp ip
| referral_host n ips a :
    names_server resp n -> LookedUp (host_of n) (Some ips) ∈ log -> Some a ∈ ips -> ip = ip_String a ->
    referral log resp ip.

(** A response that leads nowhere: it holds no address of a name server in the
    zone it delegates, and the look-ups of the hosts of all of them gave none. *)
Definition dead_end (log : list occurrence) (resp : Message) : Prop :=
  (forall rr, has_address resp rr -> ~ in_zone (rr_Name rr) (delegated resp))
  /\ forall n, names_server resp n -> exists r, LookedUp (host_of n) r ∈ log
       /\ forall ips a, r = Some ips -> Some a ∉ ips.

Lemma nsScan_spec rrs :
  let ns := List.filter (fun rr => rr_Type rr =? TypeNS) rrs in
  (nsScan rrs).1 = default "." (rr_Name <$> last ns)
  /\ forall n, n ∈ (nsScan rrs).2 <-> exists rr x, rr ∈ ns /\ rr_Data rr = Some (NSData x) /\ n = normalizeFQDN x.
Proof.
  induction rrs as [|r rrs IH] using rev_ind; cbn zeta.
  { split; [done|]. intros n. cbn. rewrite elem_of_empty. split; [done|]. intros (rr & x & H & _). by apply elem_of_nil in H. }
  destruct IH as [IH1 IH2]. unfold nsScan in *. rewrite foldl_app, List.filter_app.
  destruct (foldl _ _ rrs) as [zone names]. cbn [fst snd] in IH1, IH2. cbn [foldl List.filter].
  destruct (rr_Type r =? TypeNS); cbn [negb].
  2: { by rewrite app_nil_r. }
  split; [by rewrite last_snoc|]. intros n. cbn [snd].
  assert ((exists rr x, rr ∈ List.filter (fun rr => rr_Type rr =? TypeNS) rrs ++ [r] /\ rr_Data rr = Some (NSData x)
             /\ n = normalizeFQDN x)
          <-> n ∈ names \/ exists x, rr_Data r = Some (NSData x) /\ n = normalizeFQDN x) as ->.
  { rewrite IH2. setoid_rewrite elem_of_app. setoid_rewrite list_elem_of_singleton. naive_solver. }
  destruct (rr_Data r) as [d|]; [|naive_solver]. destruct d; try naive_solver.
  rewrite elem_of_union, elem_of_singleton. naive_solver.
Qed.

Lemma nsScan_zone resp : (nsScan (m_Authorities resp ++ m_Answers resp)).1 = delegated resp.
Proof. apply nsScan_spec. Qed.
Lemma nsScan_names resp n : n ∈ (nsScan (m_Authorities resp ++ m_Answers resp)).2 <-> names_server resp n.
Proof. apply (proj2 (nsScan_spec _)). Qed.

Lemma referral_mono log log' resp ip : log ⊆ log' -> referral log resp ip -> referral log' resp ip.
Proof. intros Hs [rr ? ? ?|n ips a ? H ? ?]; [by eapply referral_glue|]. eapply referral_host; [done|by apply Hs|done..]. Qed.

(** The accepted glue, and that none is skipped. *)
Lemma glueServers_elem names rrs seen servers ip :
  ip ∈ glueServers names rrs seen servers ->
  ip ∈ servers \/ exists rr, rr ∈ rrs /\ ip = glueIP rr /\ ip <> "" /\
    (normalizeFQDN (rr_Name rr) ∈ names \/ names = ∅).
Proof.
  revert seen servers. induction rrs as [|rr rrs IH]; intros seen servers; cbn [glueServers]; [auto|].
  assert (forall seen servers, ip ∈ glueServers names rrs seen servers -> ip ∈ servers \/
    exists rr', rr' ∈ rr :: rrs /\ ip = glueIP rr' /\ ip <> "" /\
    (normalizeFQDN (rr_Name rr') ∈ names \/ names = ∅)) as IH'.
  { intros s1 s2 H. apply IH in H as [H|(r & H & ?)]; [by left|right]. exists r. split; [by right|done]. }
  case_bool_decide as H1; case_bool_decide as H2; cbn [negb andb]; try apply IH';
    (case_bool_decide as H3; [apply IH'|]); (case_bool_decide as H4; [apply IH'|]);
    intros [[H|Hs%list_elem_of_singleton]%elem_of_app|H]%IH'; eauto;
    right; exists rr; rewrite Hs; (ands; [left|done|done|auto]).
Qed.

Lemma glueServers_prefix names rrs seen servers : servers `prefix_of` glueServers names rrs seen servers.
Proof.
  revert seen servers. induction rrs as [|rr rrs IH]; intros seen servers; cbn [glueServers]; [done|].
  repeat (bcase; [apply IH|]). etrans; [|apply IH]. by apply prefix_app_r.
Qed.

Lemma glueServers_none names rrs rr :
  glueServers names rrs ∅ [] = [] -> rr ∈ rrs -> normalizeFQDN (rr_Name rr) ∈ names -> glueIP rr = "".
Proof.
  induction rrs as [|r rrs IH]; intros H Hr Hn; [by apply elem_of_nil in Hr|]. cbn [glueServers] in H.
  apply elem_of_cons in Hr as [<-|Hr].
  - rewrite bool_decide_eq_true_2 in H by done. cbn [negb andb] in H. case_bool_decide as E; [done|].
    rewrite bool_decide_eq_false_2 in H by set_solver.
    destruct (glueServers_prefix names rrs ({[glueIP rr]} ∪ ∅) ([] ++ [glueIP rr])) as [k Hk]. by rewrite H in Hk.
  - repeat (bcase_in H; [by apply IH|]).
    destruct (glueServers_prefix names rrs ({[glueIP r]} ∪ ∅) ([] ++ [glueIP r])) as [k Hk]. by rewrite H in Hk.
Qed.

Lemma addIPs_elem ips seen servers ip :
  ip ∈ (addIPs ips seen servers).2 ->
  ip ∈ servers \/ exists a, Some a ∈ ips /\ ip = ip_String a.
Proof.
  revert seen servers. induction ips as [|[a|] ips IH]; intros seen servers; cbn [addIPs]; [auto| |].
  - bcase; intros [H|(b & H & ?)]%IH; eauto using list_elem_of_further.
    apply elem_of_app in H as [H|Hs%list_elem_of_singleton]; [auto|subst ip].
    right. exists a. split; [left|done].
  - intros [H|(b & H & ?)]%IH; eauto using list_elem_of_further.
Qed.

Lemma addIPs_prefix ips seen servers : servers `prefix_of` (addIPs ips seen servers).2.
Proof.
  revert seen servers. induction ips as [|[a|] ips IH]; intros seen servers; cbn [addIPs]; [done| |apply IH].
  bcase; [apply IH|]. etrans; [|apply IH]. by apply prefix_app_r.
Qed.

Lemma addIPs_none ips : (addIPs ips ∅ []).2 = [] -> addIPs ips ∅ [] = (∅, []) /\ forall a, Some a ∉ ips.
Proof.
  induction ips as [|[a|] ips IH]; cbn [addIPs]; intros H.
  - split; [done|]. intros a. apply not_elem_of_nil.
  - rewrite bool_decide_eq_false_2 in H by set_solver.
    destruct (addIPs_prefix ips ({[ip_String a]} ∪ ∅) ([] ++ [ip_String a])) as [k Hk]. by rewrite H in Hk.
  - destruct (IH H) as [-> Hn]. split; [done|]. intros a [?|?]%elem_of_cons; [done|]. by eapply Hn.
Qed.
End referrals.

(** ** What a resolution may return *)

(** Why a response ends the resolution of [qname], given the look-ups [log] made
    since: the name does not exist; or the response is not one to follow a CNAME
    from, and it answers the question, shows there is no data, reports an error,
    or leads nowhere. *)
Inductive final {U : UnicodeTables} (qtype : Z) (queryName qname : bytes) (log : list occurrence)
    (resp : Message) : Prop :=
| final_nxdomain :
    h_RCode (m_Header resp) = RCodeNameError -> queryName = normalizeFQDN qname ->
    final qtype queryName qname log resp
| final_answer :
    findCNAME resp qname = None \/ qtype = TypeCNAME -> hasAnswer resp qname qtype = true ->
    final qtype queryName qname log resp
| final_nodata :
    findCNAME resp qname = None \/ qtype = TypeCNAME -> shouldCacheAsNODATA (Some resp) qname qtype = true ->
    final qtype queryName qname log resp
| final_error :
    findCNAME resp qname = None \/ qtype = TypeCNAME ->
    h_RCode (m_Header resp) <> RCodeNoError -> h_RCode (m_Header resp) <> RCodeNameError ->
    final qtype queryName qname log resp
| final_dead_end :
    findCNAME resp qname = None \/ qtype = TypeCNAME ->
    h_RCode (m_Header resp) = RCodeNoError -> dead_end log resp ->
    h_AA (m_Header resp) = true \/ m_Answers resp <> [] \/ m_Authorities resp <> [] ->
    final qtype queryName qname log resp.

Section steps.
Context {U : UnicodeTables} {W : Type} {UP : Upstream W}.

(** The look-ups are those recorded, and none is left out. *)
Lemma lookupHosts_run names timeout seen servers (w : W) (log : list occurrence) :
  let '(found, (_, log')) := lookupHosts names timeout seen servers (w, log) in
  exists lks, log' = log ++ lks /\ calls lks = []
    /\ (forall ip, ip ∈ found -> ip ∈ servers \/ exists host ips a,
          host ∈ names /\ LookedUp host (Some ips) ∈ lks /\ Some a ∈ ips /\ ip = ip_String a)
    /\ servers `prefix_of` found
    /\ (seen = ∅ -> found = [] -> forall host, host ∈ names ->
          exists r, LookedUp host r ∈ lks /\ forall ips a, r = Some ips -> Some a ∉ ips).
Proof.
  revert seen servers w log. induction names as [|host names IH]; intros seen servers w log; cbn [lookupHosts].
  { exists []. ands; [by rewrite app_nil_r|done|auto|done|]. by intros _ _ h ?%elem_of_nil. }
  cbn [lookupIPs recorded]. destruct (lookupIPs timeout host w) as [[ips|] w1].
  - destruct (addIPs ips seen servers) as [seen' servers'] eqn:Ea.
    specialize (IH seen' servers' w1 (log ++ [LookedUp host (Some ips)])).
    destruct (lookupHosts _ _ _ _ _) as [found [w2 log2]]. destruct IH as (lks & -> & Hc & Hf & Hp & Hn).
    exists (LookedUp host (Some ips) :: lks).
    pose proof (addIPs_prefix ips seen servers) as Hp'. rewrite Ea in Hp'. cbn [snd] in Hp'.
    ands; [by rewrite <- app_assoc|done| |by etrans|].
    + intros ip [H|(h & i & a & H1 & H2 & H3)]%Hf.
      * assert (ip ∈ (addIPs ips seen servers).2) as H' by by rewrite Ea.
        apply addIPs_elem in H' as [H'|(a & Ha & ->)]; [by left|right]. exists host, ips, a. ands; try done; left.
      * right. exists h, i, a. ands; [by right|by right|apply H3..].
    + intros -> Ef h. subst found. apply prefix_nil_inv in Hp as ->. apply prefix_nil_inv in Hp' as ->.
      destruct (addIPs_none ips) as [E Hno]; [by rewrite Ea|]. rewrite Ea in E. injection E as ->.
      intros [->|Hh]%elem_of_cons.
      * exists (Some ips). split; [left|]. by intros ? a [= <-].
      * destruct (Hn eq_refl eq_refl h Hh) as (r & Hr & ?). exists r. split; [by right|done].
  - specialize (IH seen servers w1 (log ++ [LookedUp host None])).
    destruct (lookupHosts _ _ _ _ _) as [found [w2 log2]]. destruct IH as (lks & -> & Hc & Hf & Hp & Hn).
    exists (LookedUp host None :: lks). ands; [by rewrite <- app_assoc|done| |done|].
    + intros ip [H|(h & i & a & H1 & H2 & H3)]%Hf; [by left|right].
      exists h, i, a. ands; [by right|by right|apply H3..].
    + intros -> Ef h [->|Hh]%elem_of_cons; [exists None; split; [left|done]|].
      destruct (Hn eq_refl Ef h Hh) as (r & Hr & ?). exists r. split; [by right|done].
Qed.

(** The servers of a response are those it refers to; without any it leads nowhere. *)
Lemma nextReferralServers_run resp cfg (w : W) (log : list occurrence) :
  let '(servers, (_, log')) := nextReferralServers resp cfg (w, log) in
  exists lks, log' = log ++ lks /\ calls lks = [] /\ Forall (referral lks resp) servers
    /\ (servers = [] -> dead_end lks resp).
Proof.
  pose proof (nsScan_zone resp) as Hz. pose proof (nsScan_names resp) as Hs. unfold nextReferralServers.
  destruct (nsScan (m_Authorities resp ++ m_Answers resp)) as [zone names]. cbn [fst snd] in Hz, Hs. subst zone.
  case_bool_decide as Hn.
  { exists []. ands; [by rewrite app_nil_r|done|done|]. intros _. split.
    - intros rr (_ & _ & H%Hs & _). set_solver.
    - intros n H%Hs. set_solver. }
  rewrite FilterGlue_filter. set (glue := List.filter _ _). set (n := Z.to_nat _).
  assert (Nat.iter n (incCounter "bailiwick_rejected") (w, log)
    = (Nat.iter n (incCounter "bailiwick_rejected") w, log)) as ->.
  { clearbody n. induction n as [|n IH]; [done|]. unfold Nat.iter in *. cbn [nat_rect]. by rewrite IH. }
  set (w1 := Nat.iter _ _ w). clearbody w1 n.
  assert (forall rr, rr ∈ glue <-> rr ∈ m_Additionals resp ++ m_Answers resp /\ is_address rr = true
            /\ (in_zone (rr_Name rr) (delegated resp) \/ looks_in_zone (rr_Name rr) (delegated resp))) as Hg.
  { intros rr. unfold glue. rewrite list_elem_of_In, filter_In, andb_true_iff, <- list_elem_of_In, InBailiwick_zone. tauto. }
  destruct (len (glueServers names glue ∅ []) =? 0) eqn:El.
  - assert (glueServers names glue ∅ [] = []) as Eg by (apply len_zero; lia).
    assert (forall rr, has_address resp rr -> ~ in_zone (rr_Name rr) (delegated resp)) as Hno.
    { intros rr (H1 & H2 & H3%Hs & H4) Hin. apply H4. eapply glueServers_none; [exact Eg| |exact H3].
      apply Hg. auto. }
    unfold resolveNSHostnames. rewrite bool_decide_eq_false_2 by done.
    pose proof (lookupHosts_run (nsHosts names) (if 0 <? UpstreamTimeout cfg then Some (UpstreamTimeout cfg) else None)
      ∅ [] w1 log) as H.
    destruct (lookupHosts _ _ _ _ _) as [servers [w2 log2]]. destruct H as (lks & -> & Hc & Hf & _ & Hd).
    assert (forall n, names_server resp n -> host_of n ∈ nsHosts names) as Hh.
    { intros m Hm%Hs. unfold nsHosts. rewrite elem_of_sort_strings. apply list_elem_of_fmap. exists m.
      split; [done|by apply elem_of_elements]. }
    exists lks. ands; [done|done| |].
    + apply Forall_forall. intros ip Hip. apply Hf in Hip as [Hip|(h & ips & a & H1 & H2 & H3 & ->)];
        [by apply elem_of_nil in Hip|].
      unfold nsHosts in H1. rewrite elem_of_sort_strings in H1.
      apply list_elem_of_fmap in H1 as (m & -> & Hm%elem_of_elements). by eapply referral_host; [apply Hs|..].
    + intros ->. split; [done|]. intros m Hm. by apply Hd, Hh.
  - exists []. ands; [by rewrite app_nil_r|done| |].
    + apply Forall_forall. intros ip [H|(rr & Hr & -> & He & Ho)]%glueServers_elem; [by apply elem_of_nil in H|].
      apply Hg in Hr as (H1 & H2 & H3). destruct Ho as [Ho| ->]; [|done].
      apply (referral_glue _ _ _ rr); [|done|tauto]. by split; [|split; [|split; [apply Hs|]]].
    + intros E. by rewrite E in El.
Qed.
End steps.

(** ** What a step does *)

Definition call_key {U : UnicodeTables} (k : call) : bytes :=
  referralStateKey (k_name k) (k_type k) (k_servers k).

Section cases.
Context {U : UnicodeTables} {W : Type} {UP : Upstream W} (cfg : Config) (id : bytes) (qtype : Z).

(** The next round keeps the name, with the same servers or those the
    response refers to, or starts over at the root with the target of a CNAME. *)
Definition continues (s : loop) (k : call) (lks : list occurrence) (s' : loop) : Prop :=
  exists resp, k_resp k = Some resp
    /\ l_visitedStates s' = {[call_key k]} ∪ l_visitedStates s
    /\ (l_qmin s' = true -> l_qmin s = true)
    /\ (l_qname s' = l_qname s /\ l_cnameDepth s' = l_cnameDepth s /\ l_steps s' = l_steps s + 1
          /\ (l_servers s' = l_servers s \/ Forall (referral lks resp) (l_servers s'))
        \/ findCNAME resp (l_qname s) = Some (l_qname s')
          /\ l_cnameDepth s < MaxCNAMEDepth cfg /\ l_cnameDepth s' = l_cnameDepth s + 1
          /\ l_steps s' = 0 /\ l_servers s' = RootHintIPs).

Definition goes (s : loop) (k : call) (lks : list occurrence) (f : flow) : Prop :=
  match f with
  | Continue s' => continues s k lks s'
  | Return (_, Ok m) => k_resp k = Some m /\ final qtype (k_name k) (l_qname s) lks m
  | Return (_, Err _) => True
  | Return _ => False
  end.

Lemma handleResponse_goes s0 k resp ev (w : W) log f w' log' :
  k_resp k = Some resp ->
  handleResponse cfg id qtype (k_name k) resp
    (mkLoop (l_qname s0) (l_servers s0) (l_cnameDepth s0) (l_steps s0 + 1) ev (l_visitedCNAME s0)
       ({[call_key k]} ∪ l_visitedStates s0) (l_qmin s0)) (w, log) = (f, (w', log')) ->
  exists lks, log' = log ++ lks /\ calls lks = [] /\ goes s0 k lks f.
Proof.
  intros Hk. unfold handleResponse. cbn [l_qname l_servers l_cnameDepth l_steps l_events
    l_visitedCNAME l_visitedStates l_qmin]. cbv zeta.
  assert (forall f', goes s0 k [] f' -> (f', (w, log)) = (f, (w', log')) ->
    exists lks, log' = log ++ lks /\ calls lks = [] /\ goes s0 k lks f) as Hnone.
  { intros f' H [= -> -> ->]. exists []. by rewrite app_nil_r. }
  destruct (h_RCode (m_Header resp) =? RCodeNameError) eqn:Hnx.
  { case_bool_decide as Hq; cbn [negb]; apply Hnone.
    - split; [done|]. apply final_nxdomain; [lia|done].
    - exists resp. ands; [done..|]. left. auto. }
  match goal with |- (match _ with Some target => if _ then _ else ?r | None => _ end) = _ -> _ =>
    assert (findCNAME resp (l_qname s0) = None \/ qtype = TypeCNAME -> r = (f, (w', log')) ->
      exists lks, log' = log ++ lks /\ calls lks = [] /\ goes s0 k lks f) as Hrest end.
  { intros Hcn. bcase; [apply Hnone; split; [done|by apply final_answer]|].
    destruct (shouldCacheAsNODATA _ _ _) eqn:Hnd;
      [apply Hnone; split; [done|by apply final_nodata]|].
    destruct (h_RCode (m_Header resp) =? RCodeNoError) eqn:Hrc; cbn [negb];
      [|apply Hnone; split; [done|apply final_error; [done|lia..]]].
    pose proof (nextReferralServers_run resp cfg w log) as Href.
    destruct (nextReferralServers resp cfg (w, log)) as [ns [w1 log1]].
    destruct Href as (lks & -> & Hc & Hf & Hd). bcase.
    - assert (ns = []) as -> by (apply len_zero; lia). specialize (Hd eq_refl).
      destruct (h_AA (m_Header resp)) eqn:?, (0 <? len (m_Answers resp)) eqn:Ha,
        (0 <? len (m_Authorities resp)) eqn:Hu; cbn [orb]; intros [= <- <- <-]; exists lks; split; try done;
        (split; [done|]); try done; (split; [done|]); (apply final_dead_end; [done|lia|done|]);
        (destruct (m_Answers resp); [|auto]); (destruct (m_Authorities resp); [|auto]); auto; done.
    - intros [= <- <- <-]. exists lks. split; [done|]. split; [done|]. exists resp. ands; [done..|]. left.
      ands; try done. by right. }
  destruct (findCNAME resp (l_qname s0)) as [target|] eqn:Hc; [|apply Hrest; by left].
  destruct (qtype =? TypeCNAME) eqn:Ht; cbn [negb]; [apply Hrest; right; lia|].
  bcase; [by apply Hnone|]. bcase; [by apply Hnone|].
  cbn [time_Now recorded]. destruct (time_Now w) as [now w1]. intros [= <- <- <-].
  exists []. split; [by rewrite app_nil_r|]. split; [done|].
  exists resp. ands; [done..|]. right. ands; try done. cbn [l_cnameDepth]. lia.
Qed.

Lemma questionAt_ok q t n b : exists name type, questionAt q t n b = Ok (name, type).
Proof.
  unfold questionAt. destruct b; [|by eauto].
  destruct (MinimizedQNameForHop_total q (n - 1)) as (s & -> & _). cbn. eauto.
Qed.

(** A step stops before it asks, or asks a question that was not asked before. *)
Lemma step_cases s (w : W) log f w' log' :
  step cfg id qtype s (w, log) = (f, (w', log')) ->
  (log' = log /\ exists e, f = Return (l_events s, Err e))
  \/ exists k lks, log' = log ++ Asked k :: lks /\ calls lks = []
      /\ k_step k = l_steps s + 1 /\ l_steps s < MaxRecursionDepth cfg
      /\ questionAt (l_qname s) qtype (k_step k) (l_qmin s) = Ok (k_name k, k_type k)
      /\ k_servers k = l_servers s /\ (call_key k ∉ l_visitedStates s) /\ goes s k lks f.
Proof.
  unfold step. bcase; [intros [= <- <- <-]; eauto|]. cbv zeta.
  destruct (questionAt_ok (l_qname s) qtype (l_steps s + 1) (l_qmin s)) as (n & t & E).
  rewrite E. case_bool_decide as Hv; [intros [= <- <- <-]; eauto|].
  cbn [query recorded]. destruct (query id (l_steps s + 1) n t (l_servers s) w) as [a w1] eqn:Eq.
  set (k := mkCall (l_steps s + 1) n t (l_servers s) a). intros H. right. exists k.
  assert (exists lks, log' = (log ++ [Asked k]) ++ lks /\ calls lks = [] /\ goes s k lks f) as (lks & -> & Hc & Hg).
  { cbn [l_events] in H.
    assert (forall e, (Return (l_events s ++ a_events a, Err e), (w1, log ++ [Asked k])) = (f, (w', log')) ->
      exists lks, log' = (log ++ [Asked k]) ++ lks /\ calls lks = [] /\ goes s k lks f) as Herr.
    { intros e [= <- <- <-]. exists []. by rewrite app_nil_r. }
    destruct (a_err a) as [e|] eqn:He; [by eapply Herr|].
    destruct (a_msg a) as [resp|] eqn:Hm; [|by eapply Herr].
    eapply handleResponse_goes; [|exact H]. unfold k_resp. cbn. by rewrite He. }
  exists lks. rewrite <- app_assoc. ands; try done. lia.
Qed.
End cases.

(** ** The whole loop *)

Section resolution.
Context {U : UnicodeTables} {W : Type} {UP : Upstream W}.
Context (cfg : Config) (id qname : bytes) (qtype : Z).

(** The names a resolution may be after: the name asked for, and the targets
    of the CNAME records the responses gave for such names. *)
Inductive cname_chain (log : list occurrence) : bytes -> Prop :=
| chain_start : cname_chain log qname
| chain_follow k resp q target :
    Asked k ∈ log -> k_resp k = Some resp -> cname_chain log q ->
    findCNAME resp q = Some target -> cname_chain log target.

(** Where a list of servers comes from: the root hints, or a response among
    [log] that refers to each of them. *)
Definition sources (log : list occurrence) (servers : list bytes) : Prop :=
  servers = RootHintIPs \/
  exists k resp, Asked k ∈ log /\ k_resp k = Some resp /\ Forall (referral log resp) servers.

(** The question of [k] is one for a name of the chain; it is minimized only
    when the configuration says so. *)
Definition asked_for (log : list occurrence) (k : call) : Prop :=
  exists q b, cname_chain log q /\ (b = true -> QNAMEMinimization cfg = true)
    /\ questionAt q qtype (k_step k) b = Ok (k_name k, k_type k).

Definition justified (log : list occurrence) : Prop :=
  forall i k, log !! i = Some (Asked k) ->
    sources (take i log) (k_servers k) /\ asked_for (take i log) k.

Lemma cname_chain_mono log log' q : log ⊆ log' -> cname_chain log q -> cname_chain log' q.
Proof.
  intros Hs. induction 1 as [|k' resp q target Hk Hr _ IH Hc]; [apply chain_start|].
  eapply chain_follow; [|done..]. by apply Hs.
Qed.

Lemma sources_mono log log' servers : log ⊆ log' -> sources log servers -> sources log' servers.
Proof.
  intros Hs [->|(k' & resp & Hk & Hr & H)]; [by left|right]. exists k', resp.
  split; [by apply Hs|]. split; [done|]. eapply Forall_impl; [exact H|]. intros ip. by apply referral_mono.
Qed.

Lemma justified_step log k lks :
  justified log -> sources log (k_servers k) -> asked_for log k -> calls lks = [] ->
  justified (log ++ Asked k :: lks).
Proof.
  intros Hj Hs Ha Hc i k' Hi. apply lookup_app_Some in Hi as [Hi|[Hle Hi]].
  - rewrite take_app_le by (apply Nat.lt_le_incl; by eapply lookup_lt_Some). by apply Hj.
  - destruct (i - length log)%nat as [|j] eqn:Ei.
    + injection Hi as ->. replace i with (length log) by lia. by rewrite take_app_length.
    + change (lks !! j = Some (Asked k')) in Hi. apply list_elem_of_lookup_2, elem_of_calls in Hi. rewrite Hc in Hi. by apply elem_of_nil in Hi.
Qed.

(** The rounds left: the steps of this name and those of the names that may
    still follow. *)
Definition rounds_left (s : loop) : Z :=
  (MaxCNAMEDepth cfg `max` 0 - l_cnameDepth s) * (MaxRecursionDepth cfg `max` 0)
  + (MaxRecursionDepth cfg `max` 0 - l_steps s).

Record loop_inv (s : loop) (log : list occurrence) : Prop := {
  li_depth : 0 <= l_cnameDepth s <= MaxCNAMEDepth cfg `max` 0;
  li_steps : 0 <= l_steps s <= MaxRecursionDepth cfg `max` 0;
  li_budget : len (calls log) + rounds_left s <= budget cfg;
  li_states : forall x, x ∈ l_visitedStates s <-> x ∈ map call_key (calls log);
  li_nodup : NoDup (map call_key (calls log));
  li_sources : sources log (l_servers s);
  li_justified : justified log;
  li_qmin : l_qmin s = true -> QNAMEMinimization cfg = true;
  li_chain : cname_chain log (l_qname s)
}.

Lemma rounds_left_nonneg s log : loop_inv s log -> 0 <= rounds_left s.
Proof. intros Hi. pose proof (li_depth _ _ Hi). pose proof (li_steps _ _ Hi). unfold rounds_left. nia. Qed.

Lemma start_inv : loop_inv (start cfg qname) [].
Proof.
  split; unfold start; cbn [l_qname l_servers l_cnameDepth l_steps l_visitedStates l_qmin map];
    try done; try lia.
  - unfold rounds_left, budget. cbn [l_cnameDepth l_steps]. change (len (calls [])) with 0. nia.
  - intros x. change (map call_key (calls [])) with (@nil bytes). rewrite elem_of_nil. set_solver.
  - constructor.
  - by left.
  - apply chain_start.
Qed.

(** What holds of the record of questions whatever the outcome. *)
Record log_ok (log : list occurrence) : Prop := {
  lo_budget : len (calls log) <= budget cfg;
  lo_nodup : NoDup (map call_key (calls log));
  lo_justified : justified log
}.

Lemma loop_inv_log s log : loop_inv s log -> log_ok log.
Proof.
  intros Hi. pose proof (rounds_left_nonneg _ _ Hi). destruct Hi. split; [lia|done..].
Qed.

Definition returns (o : outcome) (log : list occurrence) : Prop :=
  log_ok log /\
  match o.2 with
  | Ok m => exists before k lks q, log = before ++ Asked k :: lks /\ calls lks = [] /\ k_resp k = Some m
              /\ cname_chain before q /\ final qtype (k_name k) q lks m
  | Err _ => True
  | _ => False
  end.

Lemma calls_snoc log k lks : calls lks = [] -> calls (log ++ Asked k :: lks) = calls log ++ [k].
Proof. intros H. unfold calls in *. rewrite omap_app. cbn. by rewrite H. Qed.

(** One round keeps the invariant and uses up one of the rounds. *)
Lemma step_inv s (w : W) log f w' log' :
  loop_inv s log -> step cfg id qtype s (w, log) = (f, (w', log')) ->
  match f with
  | Continue s' => loop_inv s' log' /\ rounds_left s' < rounds_left s
  | Return o => returns o log'
  end.
Proof.
  intros Hi Hs. apply step_cases in Hs. pose proof (loop_inv_log _ _ Hi) as Hl.
  pose proof (rounds_left_nonneg _ _ Hi) as Hr.
  destruct Hs as [[-> [e ->]]|(k & lks & -> & Hc & Hstep & Hlt & Hq & Hsv & Hnew & Hgo)]; [by split|].
  assert (log ⊆ log ++ Asked k :: lks) as Hsub by (intros x Hx; apply elem_of_app; by left).
  assert (lks ⊆ log ++ Asked k :: lks) as Hsub2 by (intros x Hx; apply elem_of_app; right; by right).
  assert (asked_for log k) as Hask.
  { exists (l_qname s), (l_qmin s). ands; [apply Hi..|]. by rewrite Hstep in *. }
  assert (justified (log ++ Asked k :: lks)) as Hj.
  { apply justified_step; [apply Hi| |done|done]. rewrite Hsv. apply Hi. }
  assert (NoDup (map call_key (calls (log ++ Asked k :: lks)))) as Hnd.
  { rewrite calls_snoc, map_app by done. apply NoDup_app. ands; [apply Hi| |apply NoDup_singleton].
    intros x Hx ->%list_elem_of_singleton. apply Hnew, (li_states _ _ Hi), Hx. }
  assert (1 <= rounds_left s) as Hr1.
  { destruct (li_depth _ _ Hi), (li_steps _ _ Hi). unfold rounds_left. nia. }
  assert (len (calls (log ++ Asked k :: lks)) = len (calls log) + 1) as Hlen.
  { rewrite calls_snoc, len_app by done. done. }
  assert (log_ok (log ++ Asked k :: lks)) as Hl'.
  { split; [|done|done]. rewrite Hlen. pose proof (li_budget _ _ Hi). lia. }
  assert (Asked k ∈ log ++ Asked k :: lks) as Hk by (apply elem_of_app; right; by left).
  destruct f as [s'|[ev o]]; cbn [goes] in Hgo.
  - destruct Hgo as (resp & Hresp & Hvis & Hqm & Hgo).
    assert (rounds_left s' < rounds_left s /\ 0 <= l_cnameDepth s' <= MaxCNAMEDepth cfg `max` 0
      /\ 0 <= l_steps s' <= MaxRecursionDepth cfg `max` 0) as (Hm & Hd & Hst).
    { pose proof (li_depth _ _ Hi) as Hd0. pose proof (li_steps _ _ Hi) as Hs0.
      assert (l_cnameDepth s < MaxCNAMEDepth cfg -> l_cnameDepth s < MaxCNAMEDepth cfg `max` 0)
        as HM by lia.
      assert (l_steps s < MaxRecursionDepth cfg `max` 0) as HR by lia.
      unfold rounds_left. clear -Hgo Hd0 Hs0 HM HR.
      generalize dependent (MaxCNAMEDepth cfg `max` 0).
      generalize dependent (MaxRecursionDepth cfg `max` 0). intros R Hs0 HR M Hd0 HM.
      destruct Hgo as [(_ & -> & -> & _)|(_ & H & -> & -> & _)]; [|specialize (HM H)]; ands; nia. }
    split; [|done]. split; try done.
    + rewrite Hlen. pose proof (li_budget _ _ Hi). lia.
    + intros x. rewrite Hvis, calls_snoc, map_app by done. cbn [map]. rewrite elem_of_app, elem_of_union,
        elem_of_singleton, list_elem_of_singleton, (li_states _ _ Hi). tauto.
    + destruct Hgo as [(_ & _ & _ & [->|Hf])|(_ & _ & _ & _ & ->)]; [|right|by left].
      * eapply sources_mono; [exact Hsub|apply Hi].
      * exists k, resp. split; [done|]. split; [done|]. eapply Forall_impl; [exact Hf|].
        intros ip. by apply referral_mono.
    + intros H. apply Hi. by apply Hqm.
    + destruct Hgo as [(-> & _)|(Hcn & _)]; [eapply cname_chain_mono; [exact Hsub|apply Hi]|].
      eapply chain_follow; [exact Hk|exact Hresp| |exact Hcn]. eapply cname_chain_mono; [exact Hsub|apply Hi].
  - split; [done|]. cbn [snd]. destruct o as [m|e| |]; [|done..]. destruct Hgo as [Hm Hf].
    exists log, k, lks, (l_qname s). ands; try done. apply Hi.
Qed.

Lemma run_returns fuel s (w : W) log :
  loop_inv s log -> rounds_left s < Z.of_nat fuel ->
  let '(o, (_, log')) := run fuel cfg id qtype s (w, log) in returns o log'.
Proof.
  revert s w log. induction fuel as [|fuel IH]; intros s w log Hi Hf.
  { pose proof (rounds_left_nonneg _ _ Hi). lia. }
  cbn [run]. destruct (step cfg id qtype s (w, log)) as [f [w1 log1]] eqn:E.
  pose proof (step_inv _ _ _ _ _ _ Hi E) as H. destruct f as [s'|o]; [|done].
  destruct H as [H1 H2]. apply IH; [done|lia].
Qed.

Lemma resolveRecursive_returns (w : W) :
  let '(o, (w', log)) := resolveRecursive id qname qtype cfg (w, [] : list occurrence) in
  resolveRecursive id qname qtype cfg w = (o, w') /\ returns o log.
Proof.
  pose proof (run_recorded (S (Z.to_nat (budget cfg))) cfg id qtype (start cfg qname) w []) as E.
  pose proof (run_returns (S (Z.to_nat (budget cfg))) (start cfg qname) w [] start_inv) as H.
  unfold resolveRecursive. destruct (run _ cfg id qtype _ (w, [] : list occurrence)) as [o [w' log]].
  split; [exact E|apply H]. pose proof (li_budget _ _ start_inv) as Hb. change (len (calls [])) with 0 in Hb. lia.
Qed.
End resolution.

(** ** Facts for the callers of the loop *)

Lemma resolveRecursive_safe `{U : UnicodeTables} {W} {UP : Upstream W} cfg id qname qtype (w : W) :
  safe (resolveRecursive id qname qtype cfg w).1.2.
Proof.
  pose proof (resolveRecursive_returns cfg id qname qtype w) as H.
  destruct (resolveRecursive id qname qtype cfg (w, [] : list occurrence)) as [o [w' log]].
  destruct H as [-> [_ Ho]]. cbn. by destruct o.2.
Qed.

(** What every operation of the world keeps, a resolution keeps. *)
Section preserved.
Context {U : UnicodeTables} {W : Type} {UP : Upstream W} (P : W -> Prop).
Context (Hquery : forall id n name type servers w, P w -> P (query id n name type servers w).2).
Context (Hlookup : forall timeout host w, P w -> P (lookupIPs timeout host w).2).
Context (Hcount : forall reason w, P w -> P (incCounter reason w)).
Context (Hnow : forall w, P w -> P (time_Now w).2).

Lemma lookupHosts_preserved names timeout seen servers w :
  P w -> P (lookupHosts names timeout seen servers w).2.
Proof.
  revert seen servers w. induction names as [|h names IH]; intros seen servers w Hw;
    cbn [lookupHosts]; [done|]. pose proof (Hlookup timeout h w Hw) as Hl.
  destruct (lookupIPs timeout h w) as [[ips|] w1]; [|by apply IH].
  destruct (addIPs ips seen servers). by apply IH.
Qed.

Lemma nextReferralServers_preserved resp cfg w : P w -> P (nextReferralServers resp cfg w).2.
Proof.
  intros Hw. unfold nextReferralServers. destruct (nsScan _) as [zone names]. bcase; [done|].
  destruct (FilterGlueByBailiwick _ _) as [valid rej].
  assert (P (Nat.iter (Z.to_nat rej) (incCounter "bailiwick_rejected") w)) as Hi.
  { generalize (Z.to_nat rej) as n. intros n. induction n as [|n IH]; [done|]. by apply Hcount. }
  bcase; [|done]. unfold resolveNSHostnames. bcase; [done|]. by apply lookupHosts_preserved.
Qed.

Lemma handleResponse_preserved cfg id qtype name resp s w :
  P w -> P (handleResponse cfg id qtype name resp s w).2.
Proof.
  intros Hw. unfold handleResponse. cbv zeta. pose proof (nextReferralServers_preserved resp cfg w Hw) as Hn.
  pose proof (Hnow w Hw) as Ht.
  repeat first [done | case_match; simplify_eq/=].
Qed.

Lemma step_preserved cfg id qtype s w : P w -> P (step cfg id qtype s w).2.
Proof.
  intros Hw. unfold step. bcase; [done|].
  destruct (questionAt _ _ _ _) as [[n t]|e| |]; try done. bcase; [done|].
  pose proof (Hquery id (l_steps s + 1) n t (l_servers s) w Hw) as Hq.
  destruct (query id (l_steps s + 1) n t (l_servers s) w) as [a w1].
  destruct (a_err a), (a_msg a); try done. by apply handleResponse_preserved.
Qed.

Lemma resolveRecursive_preserved cfg id qname qtype w :
  P w -> P (resolveRecursive id qname qtype cfg w).2.
Proof.
  unfold resolveRecursive. generalize (S (Z.to_nat (budget cfg))) as fuel.
  generalize (start cfg qname) as s. intros s fuel. revert s w.
  induction fuel as [|fuel IH]; intros s w Hw; cbn [run]; [done|].
  pose proof (step_preserved cfg id qtype s w Hw) as Hs.
  destruct (step cfg id qtype s w) as [[s'|o] w1]; [by apply IH|done].
Qed.
End preserved.

(** ** The theorems *)

(** C15. A resolution always returns: it asks at most
    (MaxCNAMEDepth + 1) * MaxRecursionDepth questions, never the same question
    to the same set of servers twice, and no index in it is out of range.  The
    questions are those of the run itself: recording them changes nothing. *)
Theorem resolution_bounded `{U : UnicodeTables} {W} {UP : Upstream W} cfg id qname qtype (w : W) :
  let '(o, (w', log)) := resolveRecursive id qname qtype cfg (w, [] : list call) in
  resolveRecursive id qname qtype cfg w = (o, w')
  /\ safe o.2 /\ len log <= budget cfg /\ NoDup (map call_key log).
Proof.
  pose proof (resolveRecursive_returns cfg id qname qtype w) as H.
  pose proof (run_logged (S (Z.to_nat (budget cfg))) cfg id qtype (start cfg qname) w []) as E.
  change (calls []) with (@nil call) in E. unfold resolveRecursive in *.
  destruct (run _ cfg id qtype _ (w, [] : list occurrence)) as [o [w' log]]. rewrite E.
  destruct H as [H0 [[Hb Hn _] Ho]]. ands; [done| |done..]. by destruct o.2.
Qed.

(** C12. Whom a resolution asks, and what.  Each question goes to the root
    servers or to servers an earlier response of the same resolution refers to:
    by an address the response holds for one of the name servers it names, whose
    name lies in the zone it delegates, or by an address that an earlier look-up
    of this resolution found for the host of one.  A name that ends with the text
    of the zone within a label is excepted: it is accepted too
    ([InBailiwick_no_boundary]).  The zone is the owner of the last NS record of
    the response; that the server was asked about it is not checked
    ([foreign_referral]).  It is a question for the name asked for or for a name
    that an earlier response gave as the target of a CNAME; it is minimized only
    when the configuration says so. *)
Theorem resolution_sources `{U : UnicodeTables} {W} {UP : Upstream W} cfg id qname qtype (w : W) :
  let '(o, (w', log)) := resolveRecursive id qname qtype cfg (w, [] : list occurrence) in
  resolveRecursive id qname qtype cfg w = (o, w')
  /\ forall i k, log !! i = Some (Asked k) ->
       sources (take i log) (k_servers k) /\ asked_for cfg qname qtype (take i log) k.
Proof.
  pose proof (resolveRecursive_returns cfg id qname qtype w) as H.
  destruct (resolveRecursive _ _ _ _ _) as [o [w' log]]. destruct H as [H [[_ _ Hj] _]].
  split; [exact H|exact Hj].
Qed.

(** C30. What a resolution returns is the response to its last question, and
    that response ends the search for the name reached through the CNAME
    records: a name error for the whole name; or, when it is no CNAME to follow,
    an answer, a proof that there is no data, an error code, or a response that
    leads nowhere: it holds no address of a name server in the zone it delegates,
    and the host of every name server it names was looked up in vain. *)
Theorem resolution_answer `{U : UnicodeTables} {W} {UP : Upstream W} cfg id qname qtype (w : W) :
  let '(o, (w', log)) := resolveRecursive id qname qtype cfg (w, [] : list occurrence) in
  resolveRecursive id qname qtype cfg w = (o, w')
  /\ forall m, o.2 = Ok m ->
    exists before k lks q, log = before ++ Asked k :: lks /\ calls lks = [] /\ k_resp k = Some m
      /\ cname_chain qname before q /\ final qtype (k_name k) q lks m.
Proof.
  pose proof (resolveRecursive_returns cfg id qname qtype w) as H.
  destruct (resolveRecursive _ _ _ _ _) as [o [w' log]]. destruct H as [H [_ Ho]].
  split; [exact H|]. intros m E. by rewrite E in Ho.
Qed.

(** ** A small tree of zones *)

Definition rr (name : bytes) (type : Z) (d : RData) : ResourceRecord :=
  mkRR name type ClassIN 300 (Some d) "".
Definition response (aa : bool) (rcode : Z) (an ns ar : list ResourceRecord) : Message :=
  mkMessage (mkHeader 0 true 0 aa false false false 0 rcode 0 0 0 0) [] an ns ar.
Definition refer (zone host : bytes) (a b c d : Z) : Message :=
  response false 0 [] [rr zone TypeNS (NSData host)]
    [rr host TypeA (AData (map byte_of_Z [a; b; c; d]))].

(** The root knows com, com knows example.com, whose server answers for
    a.b.example.com; b.example.com exists only as a part of that name. *)
Definition tree (name : bytes) (type : Z) (servers : list bytes) : Message :=
  if bool_decide (servers = RootHintIPs) then refer "com." "ns.com." 192 0 2 1 else
  if bool_decide (servers = ["192.0.2.1"]) then refer "example.com." "ns.example.com." 192 0 2 2 else
  if bool_decide (name = "a.b.example.com.") && (type =? TypeA) then
    response true 0 [rr "a.b.example.com." TypeA (AData (map byte_of_Z [198; 51; 100; 7]))] [] []
  else
    response true 0 []
      [rr "example.com." TypeSOA (SOAData "ns.example.com." "h.example.com." 1 2 3 4 300)] [].

#[local] Instance tree_upstream : Upstream unit := {|
  query _ _ name type servers w := (mkAnswer (Some (tree name type servers)) [] None, w);
  lookupIPs _ _ w := (None, w);
  incCounter _ w := w;
  time_Now w := (0, w)
|}.

Definition tree_config (qmin : bool) : Config :=
  mkConfig 5000000000 3 10 10 qmin true true 4096 5 2 30000000000.

(** With minimization a response without data for a part of the name is taken
    as one for the whole name: a record that exists is reported as absent. *)
Theorem minimized_nodata_hides_answer :
  match (@resolveRecursive latin1 _ _ "q" "a.b.example.com." TypeA (tree_config true) tt).1.2,
        (@resolveRecursive latin1 _ _ "q" "a.b.example.com." TypeA (tree_config false) tt).1.2 with
  | Ok m, Ok m' =>
      m_Answers m = []
      /\ @shouldCacheAsNODATA latin1 (Some m) "a.b.example.com." TypeA = true
      /\ map glueIP (m_Answers m') = ["198.51.100.7"]
  | _, _ => False
  end.
Proof. vm_compute. auto. Qed.

(** The servers of com refer to a server of net, with its address: it is asked. *)
Theorem foreign_referral :
  nextReferralServers (U := latin1) (refer "net." "ns.net." 192 0 2 9) (tree_config false) tt
  = (["192.0.2.9" : bytes], tt).
Proof. vm_compute. reflexivity. Qed.
