(* ===== verification/Randomizers.v ===== *)
(** * internal/security: query identifiers, source ports and the case of names.

    [crypto/rand] is a stream: the [i]-th read gives bytes or an error. *)

From S2P Require Import Prelude.
From S2P Require Import GoStrings.
From S2P Require Import Protocol.

#[local] Open Scope go_scope.

(** ** case_randomizer.go *)

Definition isLetter (b : byte) : bool :=
  let b := Z_of_byte b in
  (97 <=? b) && (b <=? 122) || (65 <=? b) && (b <=? 90).

(** The body of the loop, for one byte of the name and one of the mask. *)
Definition randomize_byte (b mask : byte) : byte :=
  let ch := Z_of_byte b in
  let b := if (97 <=? ch) && (ch <=? 122) && (Z.land (Z_of_byte mask) 1 =? 0)
           then byte_of_Z (ch - 32) else b in
  if (65 <=? ch) && (ch <=? 90) && (Z.land (Z_of_byte mask) 1 =? 1)
  then byte_of_Z (ch + 32) else b.

(** [read n]: the [n] bytes of [rand.Read], or an error. *)
Definition RandomizeQName (read : nat -> option bytes) (name : bytes) : option bytes :=
  if bool_decide (name = "") then Some name else
  match read (length name) with
  | Some mask => Some (zip_with randomize_byte name mask)
  | None => None
  end.

Section matches.
Context {U : UnicodeTables}.

Definition Matches (sent received : bytes) : bool :=
  if bool_decide (sent = "") || bool_decide (received = "") then false else
  if negb (len sent =? len received) then false else
  if negb (EqualFold sent received) then false else
  forallb (fun '(s, r) => negb (isLetter s && negb (bool_decide (s = r)))) (zip sent received).
End matches.

(** ** qid_randomizer.go *)

Abbreviation inFlight := (gset Z) (only parsing).

Definition randomUint16 (b : option bytes) : option Z :=
  match b with
  | Some b => match @Uint16 unit b with Ok v => Some v | _ => None end
  | None => None
  end.

Inductive qid_error := ErrRandom | ErrNoUniqueID.

(** [read i]: the two bytes of the [i]-th draw. *)
Fixpoint acquire_loop (n : nat) (i : nat) (read : nat -> option bytes) (q : inFlight)
  : result qid_error (Z * gset Z) :=
  match n with
  | O => Err ErrNoUniqueID
  | S n' =>
      match randomUint16 (read i) with
      | None => Err ErrRandom
      | Some id =>
          if bool_decide (id ∈ q) then acquire_loop n' (S i) read q
          else Ok (id, {[id]} ∪ q)
      end
  end.
Definition Acquire (read : nat -> option bytes) (q : inFlight) : result qid_error (Z * gset Z) :=
  acquire_loop 1024 0 read q.
Definition Release (id : Z) (q : inFlight) : inFlight := q ∖ {[id]}.

(** ** port_randomizer.go *)

Definition minEphemeralPort := 1024.
Definition maxEphemeralPort := 65535.

Definition RandomPort (b : option bytes) : option Z :=
  let span := maxEphemeralPort - minEphemeralPort + 1 in
  match randomUint16 b with
  | Some v => Some (minEphemeralPort + v mod span)
  | None => None
  end.

(** [listen port]: the socket the system gives for the port, if it does. *)
Fixpoint listen_loop {C} (n : nat) (i : nat) (read : nat -> option bytes) (listen : Z -> option C)
  : option (Z * C) :=
  match n with
  | O => None
  | S n' =>
      match RandomPort (read i) with
      | None => None
      | Some port =>
          match listen port with
          | Some conn => Some (port, conn)
          | None => listen_loop n' (S i) read listen
          end
      end
  end.
Definition ListenUDP {C} (read : nat -> option bytes) (listen : Z -> option C) : option (Z * C) :=
  listen_loop 10 0 read listen.

(** ** Properties of the case of names *)

(** The byte as a number: a letter's bit 5 is replaced by the mask's bit 0. *)
Lemma Z_randomize_byte b mask :
  Z_of_byte (randomize_byte b mask) =
  let ch := Z_of_byte b in
  if isLetter b then
    (if Z.testbit (Z_of_byte mask) 0
     then (if ch <=? 90 then ch + 32 else ch) else (if ch <=? 90 then ch else ch - 32))
  else ch.
Proof.
  unfold isLetter, randomize_byte. cbv zeta. pose proof (Z_of_byte_range b) as Hr.
  set (ch := Z_of_byte b) in *. set (m := Z_of_byte mask).
  assert (Z.land m 1 = Z.b2z (Z.testbit m 0)) as ->.
  { change 1 with (Z.ones 1). rewrite Z.land_ones by lia. symmetry. apply Z.bit0_mod. }
  destruct (Z.testbit m 0), ((97 <=? ch) && (ch <=? 122)) eqn:E1,
    ((65 <=? ch) && (ch <=? 90)) eqn:E2, (ch <=? 90) eqn:E3; try lia; cbn;
    rewrite ?Z_of_byte_of_Z; fold ch; try rewrite Z.mod_small; lia.
Qed.

Lemma randomize_byte_lower b mask :
  is_ascii b = true -> byte_to_lower (randomize_byte b mask) = byte_to_lower b.
Proof.
  intros Ha. pose proof Ha as Hb. unfold is_ascii in Hb. apply Z_of_byte_inj.
  pose proof (Z_randomize_byte b mask) as E. cbv zeta in E. unfold isLetter in E.
  pose proof (Z_of_byte_range b).
  rewrite !Z_of_byte_to_lower by (try done; unfold is_ascii; rewrite E; repeat bcase; lia).
  rewrite E. unfold ascii_to_lower. repeat bcase; lia.
Qed.

Lemma randomize_byte_case b mask :
  isLetter b = true ->
  let r := Z_of_byte (randomize_byte b mask) in
  if Z.testbit (Z_of_byte mask) 0 then 97 <= r <= 122 else 65 <= r <= 90.
Proof.
  intros Hl. cbv zeta. rewrite Z_randomize_byte, Hl. unfold isLetter in Hl. cbv zeta in *.
  repeat bcase; lia.
Qed.

Lemma fold_eq_ascii `{U : UnicodeTables} a b :
  is_ascii a = true -> is_ascii b = true ->
  fold_eq (Z_of_byte a) (Z_of_byte b) = true <-> byte_to_lower a = byte_to_lower b.
Proof.
  intros Ha Hb. trans (Z_of_byte (byte_to_lower a) = Z_of_byte (byte_to_lower b)).
  2: { split; [apply Z_of_byte_inj|by intros ->]. }
  rewrite !Z_of_byte_to_lower by done. unfold is_ascii in *.
  pose proof (Z_of_byte_range a). pose proof (Z_of_byte_range b).
  unfold fold_eq, ascii_to_lower. cbv zeta. destruct (Z_of_byte a =? Z_of_byte b) eqn:E.
  { apply Z.eqb_eq in E as ->. done. }
  assert ((Z.max (Z_of_byte a) (Z_of_byte b) <? 128) = true) as -> by lia.
  repeat bcase; lia.
Qed.

Lemma EqualFold_ascii `{U : UnicodeTables} s t :
  all_ascii s = true -> all_ascii t = true ->
  EqualFold s t = true <-> map byte_to_lower s = map byte_to_lower t.
Proof.
  revert t. induction s as [|a s IH]; intros [|b t]; try done.
  rewrite !all_ascii_cons. intros [Ha Hs]%andb_true_iff [Hb Ht]%andb_true_iff.
  cbn [EqualFold map]. rewrite Ha, Hb. cbn [andb].
  rewrite andb_true_iff, fold_eq_ascii, IH by done. split; [by intros [-> ->]|by intros [= -> ->]].
Qed.

(** The 0x20 check is exact: among names of ASCII bytes, the only name that
    matches the one sent is that name itself, whatever the letters are. *)
Theorem Matches_exact `{U : UnicodeTables} sent received :
  all_ascii sent = true -> all_ascii received = true -> sent <> "" ->
  Matches sent received = true <-> received = sent.
Proof.
  intros Hs Hr Hne. unfold Matches. rewrite (bool_decide_eq_false_2 (sent = "")) by done. cbn [orb].
  assert (forallb (fun '(s, r) => negb (isLetter s && negb (bool_decide (s = r)))) (zip sent sent) = true)
    as Hrefl.
  { clear. induction sent as [|a k IH]; [done|]. cbn [zip zip_with forallb].
    rewrite (bool_decide_eq_true_2 (a = a)) by done. by rewrite andb_false_r. }
  split; [|intros ->].
  2: { rewrite bool_decide_eq_false_2, Z.eqb_refl, (proj2 (EqualFold_ascii _ _ Hs Hs)) by done. done. }
  bcase; [done|]. bcase; [done|]. bcase; [done|]. apply negb_false_iff in Hb1.
  apply EqualFold_ascii in Hb1; [|done..]. clear Hne Hb Hb0 Hrefl.
  revert received Hr Hb1. induction sent as [|a k IH]; intros [|b t]; try done.
  rewrite !all_ascii_cons in *. intros [Hb Ht]%andb_true_iff. apply andb_true_iff in Hs as [Ha Hk].
  cbn [map zip zip_with forallb]. intros [= Hab Hkt] [Hl Hall]%andb_true_iff.
  f_equal; [|by apply IH]. case_bool_decide as He; [done|]. rewrite andb_true_r in Hl.
  apply negb_true_iff in Hl. apply (f_equal Z_of_byte) in Hab.
  rewrite !Z_of_byte_to_lower in Hab by done. apply Z_of_byte_inj. unfold isLetter in Hl. cbv zeta in Hl.
  pose proof (Z_of_byte_range a). pose proof (Z_of_byte_range b). unfold ascii_to_lower in Hab.
  destruct ((65 <=? Z_of_byte a) && (Z_of_byte a <=? 90)) eqn:?; [lia|].
  destruct ((65 <=? Z_of_byte b) && (Z_of_byte b <=? 90)) eqn:?; lia.
Qed.

Lemma Matches_exact_witness :
  @Matches latin1 "wWw.ExAmPle.com." "www.example.com." = false
  /\ @Matches latin1 "wWw.ExAmPle.com." "wWw.ExAmPle.com." = true.
Proof.
  split.
  - apply not_true_iff_false. intros H.
    by apply (Matches_exact (U := latin1) "wWw.ExAmPle.com." "www.example.com." eq_refl eq_refl) in H.
  - by apply (Matches_exact (U := latin1) "wWw.ExAmPle.com." "wWw.ExAmPle.com." eq_refl eq_refl).
Defined.

(** Randomization keeps the name a resolver sees: on an ASCII name only the
    case of letters changes, and the case of each letter is one bit of the
    random mask, so every spelling of the name can be sent. *)
Theorem RandomizeQName_spec read name mask :
  all_ascii name = true -> read (length name) = Some mask -> length mask = length name ->
  exists name', RandomizeQName read name = Some name'
    /\ map byte_to_lower name' = map byte_to_lower name
    /\ forall i b m, name !! i = Some b -> mask !! i = Some m ->
         exists c, name' !! i = Some c /\
           if isLetter b
           then if Z.testbit (Z_of_byte m) 0 then 97 <= Z_of_byte c <= 122
                else 65 <= Z_of_byte c <= 90
           else c = b.
Proof.
  intros Ha Hread Hlen. unfold RandomizeQName. case_bool_decide as Hn.
  { subst name. exists "". split; [done|]. split; [done|]. intros i b m Hb. by rewrite lookup_nil in Hb. }
  rewrite Hread. eexists. split; [done|]. split.
  - clear Hread Hn. revert mask Hlen. induction name as [|b k IH]; intros [|m mask] Hlen; try done.
    rewrite all_ascii_cons in Ha. apply andb_true_iff in Ha as [Hb Hk].
    cbn [zip_with map]. rewrite randomize_byte_lower, IH by (try done; by injection Hlen). done.
  - intros i b m Hb Hm. exists (randomize_byte b m). rewrite lookup_zip_with, Hb. cbn. rewrite Hm.
    split; [done|]. destruct (isLetter b) eqn:El; [by apply randomize_byte_case|].
    apply Z_of_byte_inj. rewrite Z_randomize_byte, El. done.
Qed.

Lemma RandomizeQName_spec_witness :
  exists name', RandomizeQName (fun _ => Some (map byte_of_Z [7; 2; 255; 0])) "a.bC" = Some name'
    /\ name' = "a.bC".
Proof.
  destruct (RandomizeQName_spec (fun _ => Some (map byte_of_Z [7; 2; 255; 0])) "a.bC"
    (map byte_of_Z [7; 2; 255; 0]) eq_refl eq_refl eq_refl) as (name' & H & _).
  exists name'. split; [exact H|]. vm_compute in H. by injection H as <-.
Defined.

(** ** Query identifiers *)

Lemma randomUint16_range b v : randomUint16 b = Some v -> is_u16 v.
Proof.
  unfold randomUint16. destruct b as [b|]; [|done].
  destruct (@Uint16 unit b) as [w| | |] eqn:E; try done. intros [= <-]. by apply Uint16_range in E.
Qed.

Lemma Acquire_ok read q id q' :
  Acquire read q = Ok (id, q') -> (id ∉ q) /\ is_u16 id /\ q' = {[id]} ∪ q.
Proof.
  unfold Acquire. assert (forall n i, acquire_loop n i read q = Ok (id, q') ->
    (id ∉ q) /\ is_u16 id /\ q' = {[id]} ∪ q) as H; [|apply H].
  induction n as [|n IH]; intros i; cbn [acquire_loop]; [done|].
  destruct (randomUint16 (read i)) as [v|] eqn:E; [|done].
  case_bool_decide as Hv; [apply IH|]. intros [= <- <-]. apply randomUint16_range in E. done.
Qed.

(** The users of the randomizer: each acquires an identifier, keeps it while
    its query is outstanding and releases it at the end. *)
Inductive qid_op := QAcquire (read : nat -> option bytes) | QRelease (n : nat).

Definition qid_step (o : qid_op) (s : list Z * gset Z) : list Z * gset Z :=
  let '(held, q) := s in
  match o with
  | QAcquire read =>
      match Acquire read q with Ok (id, q') => (id :: held, q') | _ => (held, q) end
  | QRelease n =>
      match held !! n with
      | Some id => (delete n held, Release id q)
      | None => (held, q)
      end
  end.

(** C40. The identifiers of outstanding queries are pairwise different, at any
    point of any interleaving of acquisitions and releases, and the set of
    identifiers in flight is exactly theirs. *)
Theorem query_ids_distinct (os : list qid_op) :
  let '(held, q) := foldl (fun s o => qid_step o s) ([], ∅) os in
  NoDup held /\ Forall is_u16 held /\ forall id, id ∈ q <-> id ∈ held.
Proof.
  induction os as [|o os IH] using rev_ind; [cbn; split; [constructor|split; [constructor|set_solver]]|].
  rewrite foldl_app. cbn [foldl]. destruct (foldl _ _ os) as [held q]. destruct IH as (H1 & H2 & H3).
  destruct o as [read|n]; cbn [qid_step].
  - destruct (Acquire read q) as [[id q']| | |] eqn:E; try done.
    apply Acquire_ok in E as (Hn & Hr & ->). ands; [by constructor; [rewrite <- H3|]|by constructor|].
    intros x. rewrite elem_of_union, elem_of_singleton, elem_of_cons, H3. done.
  - destruct (held !! n) as [id|] eqn:E; [|done].
    rewrite (delete_take_drop held n). pose proof (take_drop_middle held n id E) as Hsplit.
    rewrite <- Hsplit in H1, H2, H3. apply NoDup_app in H1 as (N1 & N2 & N3%NoDup_cons).
    destruct N3 as [N3 N4]. rewrite Forall_app, Forall_cons in H2. destruct H2 as (F1 & _ & F2).
    ands.
    + apply NoDup_app. ands; [done| |done]. intros x Hx Hx'. apply (N2 x Hx). by right.
    + by apply Forall_app.
    + intros x. unfold Release. rewrite elem_of_difference, H3, !elem_of_app, elem_of_cons,
        elem_of_singleton.
      assert (id ∉ take n held) by (intros Hx; apply (N2 id Hx); left).
      split; [naive_solver|]. intros [Hx|Hx]; split; auto; by intros ->.
Qed.

(** ** Source ports *)

(** A query leaves from an unprivileged port the system accepted. *)
Theorem ListenUDP_port {C} (read : nat -> option bytes) (listen : Z -> option C) port conn :
  ListenUDP read listen = Some (port, conn) ->
  minEphemeralPort <= port <= maxEphemeralPort /\ listen port = Some conn.
Proof.
  unfold ListenUDP. assert (forall n i, listen_loop n i read listen = Some (port, conn) ->
    minEphemeralPort <= port <= maxEphemeralPort /\ listen port = Some conn) as H; [|apply H].
  induction n as [|n IH]; intros i; cbn [listen_loop]; [done|].
  destruct (RandomPort (read i)) as [p|] eqn:E; [|done].
  destruct (listen p) as [c|] eqn:El; [|apply IH]. intros [= -> ->]. split; [|done].
  unfold RandomPort in E. cbv zeta in E. destruct (randomUint16 (read i)) as [v|]; [|done].
  injection E as <-. unfold minEphemeralPort, maxEphemeralPort. dlia.
Qed.

Lemma ListenUDP_port_witness :
  minEphemeralPort <= 1279 <= maxEphemeralPort /\ Some 1279 = Some 1279.
Proof.
  apply (ListenUDP_port (fun _ => Some (map byte_of_Z [0; 255])) (fun p => Some p) 1279 1279).
  vm_compute. reflexivity.
Defined.
