(* ===== verification/GoFloat.v ===== *)
(** * float64: the arithmetic of the rate limiter, the metrics and the settings.

    The operations are those of binary64 with rounding to nearest even; they
    compute on [spec_float]. Integers below 2^53 are exact, which the lemmas
    show for the operations the limiter applies to them. *)

From S2P Require Import Prelude.
From S2P Require Import GoTime.
From Stdlib Require Import Floats.SpecFloat.

Abbreviation float64 := spec_float (only parsing).

Definition f_of_int (z : Z) : float64 := binary_normalize 53 1024 z 0 false.
Definition f_add (a b : float64) : float64 := SFadd 53 1024 a b.
Definition f_sub (a b : float64) : float64 := SFsub 53 1024 a b.
Definition f_mul (a b : float64) : float64 := SFmul 53 1024 a b.
Definition f_div (a b : float64) : float64 := SFdiv 53 1024 a b.
Definition f_ltb (a b : float64) : bool := SFltb a b.
Definition f_leb (a b : float64) : bool := SFleb a b.

(** The value of [int(f)] for a float in range; out of range Go leaves the
    result to the platform, here amd64's. *)
Definition f_to_int (f : float64) : Z :=
  match f with
  | S754_zero _ => 0
  | S754_finite s m e =>
      let v := if 0 <=? e then Z.shiftl (Zpos m) e else Z.shiftr (Zpos m) (- e) in
      let v := if s then - v else v in
      if (MinInt64 <=? v) && (v <=? MaxInt64) then v else MinInt64
  | _ => MinInt64
  end.

(** [Duration.Seconds] *)
Definition Seconds (d : Z) : float64 :=
  let sec := Z.quot d Second in
  let nsec := Z.rem d Second in
  f_add (f_of_int sec) (f_div (f_of_int nsec) (f_of_int 1000000000)).

(** ** Exactness on small integers *)

Abbreviation shl k p := (Nat.iter k xO p) (only parsing).

Lemma shl_S k p : Nat.iter (S k) xO p = xO (Nat.iter k xO p).
Proof. done. Qed.

Lemma shl_add a b p : Nat.iter a xO (Nat.iter b xO p) = Nat.iter (a + b) xO p.
Proof. induction a as [|a IH]; [done|]. cbn [Nat.add]. by rewrite !shl_S, IH. Qed.

Lemma shl_value k p : Zpos (Nat.iter k xO p) = Zpos p * 2 ^ Z.of_nat k.
Proof.
  induction k as [|k IH]; [cbn; lia|]. rewrite shl_S, Nat2Z.inj_succ, Z.pow_succ_r by lia.
  rewrite Pos2Z.inj_xO, IH. lia.
Qed.

Lemma shl_digits k p : Zpos (digits2_pos (Nat.iter k xO p)) = Zpos (digits2_pos p) + Z.of_nat k.
Proof. induction k as [|k IH]; [cbn; lia|]. rewrite shl_S. cbn [digits2_pos]. lia. Qed.

Lemma shl_inj k p q : Nat.iter k xO p = Nat.iter k xO q -> p = q.
Proof. induction k as [|k IH]; [done|]. rewrite !shl_S. intros [= E]. by apply IH. Qed.

Lemma shl_iter d p : Pos.iter xO p d = Nat.iter (Pos.to_nat d) xO p.
Proof. apply Pos2Nat.inj_iter. Qed.

Lemma digits2_bounds p : 2 ^ (Zpos (digits2_pos p) - 1) <= Zpos p < 2 ^ Zpos (digits2_pos p).
Proof.
  induction p as [p IH|p IH|]; [..|cbn; lia]; cbn [digits2_pos];
    rewrite Pos2Z.inj_succ, Z.pow_succ_r by lia;
    replace (Z.succ (Zpos (digits2_pos p)) - 1) with (Z.succ (Zpos (digits2_pos p) - 1)) by lia;
    rewrite Z.pow_succ_r by lia; lia.
Qed.

Lemma digits2_le p n : 0 <= n -> Zpos p < 2 ^ n -> Zpos (digits2_pos p) <= n.
Proof.
  intros Hn Hp. pose proof (digits2_bounds p) as [Hb _].
  destruct (Z.le_gt_cases (Zpos (digits2_pos p)) n) as [|Hgt]; [done|exfalso].
  pose proof (Z.pow_le_mono_r 2 n (Zpos (digits2_pos p) - 1)). lia.
Qed.

Lemma iter_pos_nat {A} (f : A -> A) n x : iter_pos f n x = Nat.iter (Pos.to_nat n) f x.
Proof.
  revert x. induction n as [n IH|n IH|]; intros x; cbn [iter_pos].
  - rewrite !IH, Pos2Nat.inj_xI, <- Nat.iter_add. rewrite Nat.iter_swap.
    change (f (Nat.iter ?k f ?y)) with (Nat.iter (S k) f y). f_equal. lia.
  - rewrite !IH, Pos2Nat.inj_xO, <- Nat.iter_add. f_equal. lia.
  - done.
Qed.

Lemma shr_1_shl k p :
  Nat.iter k shr_1 (Build_shr_record (Zpos (Nat.iter k xO p)) false false)
  = Build_shr_record (Zpos p) false false.
Proof.
  induction k as [|k IH]; [done|]. rewrite Nat.iter_succ_r. by rewrite shl_S.
Qed.

Lemma shr_exact m n e : 0 <= n ->
  shr (Build_shr_record (Zpos (Nat.iter (Z.to_nat n) xO m)) false false) e n
  = (Build_shr_record (Zpos m) false false, e + n).
Proof.
  intros Hn. destruct n as [|n|n]; [|..|lia].
  - cbn. by rewrite Z.add_0_r.
  - cbn [shr]. rewrite iter_pos_nat, Z2Nat.inj_pos, shr_1_shl. done.
Qed.

(** Rounding a number whose surplus bits are zeros drops them. *)
Lemma round_exact m e n :
  0 <= n -> Zpos (digits2_pos m) = 53 -> -1022 <= e + n -> e + n <= 971 ->
  binary_round_aux 53 1024 false (Zpos (Nat.iter (Z.to_nat n) xO m)) e loc_Exact
  = S754_finite false m (e + n).
Proof.
  intros Hn Hd H1 H2. unfold binary_round_aux, shr_fexp. cbn [shr_record_of_loc Zdigits2].
  assert (fexp 53 1024 (Zpos (digits2_pos (Nat.iter (Z.to_nat n) xO m)) + e) - e = n) as ->.
  { rewrite shl_digits, Hd. unfold fexp, emin. lia. }
  rewrite shr_exact by done. cbn [shr_m loc_of_shr_record round_nearest_even Zdigits2].
  assert (fexp 53 1024 (Zpos (digits2_pos m) + (e + n)) - (e + n) = 0) as ->.
  { rewrite Hd. unfold fexp, emin. lia. }
  cbn [shr shr_m]. by assert ((e + n <=? 1024 - 53) = true) as -> by lia.
Qed.

Lemma round_id m e :
  Zpos (digits2_pos m) = 53 -> -1022 <= e -> e <= 971 ->
  binary_round_aux 53 1024 false (Zpos m) e loc_Exact = S754_finite false m e.
Proof.
  intros Hd H1 H2. pose proof (round_exact m e 0 ltac:(lia) Hd ltac:(lia) ltac:(lia)) as H.
  by rewrite Z.add_0_r in H.
Qed.

(** The normal form of a positive integer: its bits, filled up to 53. *)
Definition fl (p : positive) : float64 :=
  S754_finite false (Nat.iter (Z.to_nat (53 - Zpos (digits2_pos p))) xO p)
    (Zpos (digits2_pos p) - 53).

Lemma normalize_shl k p : (k <= 900)%nat -> Zpos p < 2 ^ 53 ->
  binary_normalize 53 1024 (Zpos (Nat.iter k xO p)) (- Z.of_nat k) false = fl p.
Proof.
  intros Hk Hp. apply digits2_le in Hp; [|lia]. cbn [binary_normalize].
  unfold binary_round, shl_align, fl. set (d := Zpos (digits2_pos p)) in *.
  assert (1 <= d) by lia.
  assert (fexp 53 1024 (Zpos (digits2_pos (Nat.iter k xO p)) + - Z.of_nat k) = d - 53) as ->.
  { rewrite shl_digits. fold d. unfold fexp, emin. lia. }
  destruct (d - 53 - - Z.of_nat k) as [|n|n] eqn:E.
  - replace k with (Z.to_nat (53 - d)) by lia.
    replace (- Z.of_nat (Z.to_nat (53 - d))) with (d - 53) by lia.
    rewrite round_id; [done| |lia|lia]. rewrite shl_digits. fold d. lia.
  - replace k with (Z.to_nat (Zpos n) + Z.to_nat (53 - d))%nat by lia.
    rewrite <- shl_add. rewrite round_exact; [f_equal; lia|lia| |lia|lia].
    rewrite shl_digits. fold d. lia.
  - rewrite shl_iter, shl_add.
    replace (Pos.to_nat n + k)%nat with (Z.to_nat (53 - d)) by lia.
    rewrite round_id; [done| |lia|lia]. rewrite shl_digits. fold d. lia.
Qed.

Lemma f_of_int_pos p : Zpos p < 2 ^ 53 -> f_of_int (Zpos p) = fl p.
Proof. intros H. exact (normalize_shl 0 p ltac:(lia) H). Qed.

Lemma fl_align p : Zpos p < 2 ^ 53 ->
  fst (shl_align (Nat.iter (Z.to_nat (53 - Zpos (digits2_pos p))) xO p)
         (Zpos (digits2_pos p) - 53) (-52)) = Nat.iter 52 xO p.
Proof.
  intros Hp. apply digits2_le in Hp; [|lia]. unfold shl_align. set (d := Zpos (digits2_pos p)) in *.
  assert (1 <= d) by lia. destruct (-52 - (d - 53)) as [|n|n] eqn:E; [|lia|]; cbn [fst].
  - f_equal. lia.
  - rewrite shl_iter, shl_add. f_equal. lia.
Qed.

(** Taking one from a positive integer is exact. *)
Lemma f_sub_one n : 1 <= n < 2 ^ 53 -> f_sub (f_of_int n) (f_of_int 1) = f_of_int (n - 1).
Proof.
  intros Hn. destruct n as [|p|p]; [lia| |lia].
  rewrite !f_of_int_pos by lia. unfold f_sub, fl, SFsub.
  pose proof (digits2_le p 53 ltac:(lia) ltac:(lia)) as Hd.
  replace (Z.min (Zpos (digits2_pos p) - 53) (Zpos (digits2_pos 1) - 53)) with (-52) by (cbn; lia).
  rewrite (fl_align p) by lia. rewrite (fl_align 1) by lia. cbn [cond_Zopp].
  rewrite !shl_value. rewrite <- Z.mul_sub_distr_r.
  destruct (Zpos p - 1) as [|q|q] eqn:E; [done| |lia]. rewrite <- shl_value.
  rewrite f_of_int_pos by lia. apply (normalize_shl 52 q); lia.
Qed.

(** Adding one to a small integer is exact. *)
Lemma f_add_one n : 0 <= n -> n + 1 < 2 ^ 53 -> f_add (f_of_int n) (f_of_int 1) = f_of_int (n + 1).
Proof.
  intros Hn Hm. destruct n as [|p|p]; [done| |lia].
  rewrite !f_of_int_pos by lia. unfold f_add, fl, SFadd.
  pose proof (digits2_le p 53 ltac:(lia) ltac:(lia)) as Hd.
  replace (Z.min (Zpos (digits2_pos p) - 53) (Zpos (digits2_pos 1) - 53)) with (-52) by (cbn; lia).
  rewrite (fl_align p) by lia. rewrite (fl_align 1) by lia. cbn [cond_Zopp].
  rewrite !shl_value. rewrite <- Z.mul_add_distr_r.
  change (Zpos p + 1) with (Zpos (p + 1)) in *. rewrite <- shl_value.
  rewrite f_of_int_pos by lia. apply (normalize_shl 52 (p + 1)); lia.
Qed.

(** Rounding treats both signs alike. *)
Lemma round_sign s m e l :
  binary_round_aux 53 1024 s m e l
  = match binary_round_aux 53 1024 false m e l with
    | S754_zero _ => S754_zero s
    | S754_finite _ m e => S754_finite s m e
    | S754_infinity _ => S754_infinity s
    | S754_nan => S754_nan
    end.
Proof.
  unfold binary_round_aux. destruct (shr_fexp 53 1024 m e l) as [mrs e'].
  destruct (shr_fexp _ _ _ _ _) as [mrs'' e'']. destruct (shr_m mrs''); try done. by destruct (e'' <=? _).
Qed.

Lemma round_neg m e :
  binary_round 53 1024 true m e
  = match binary_round 53 1024 false m e with
    | S754_zero _ => S754_zero true
    | S754_finite _ m e => S754_finite true m e
    | S754_infinity _ => S754_infinity true
    | S754_nan => S754_nan
    end.
Proof. unfold binary_round. destruct (shl_align _ _ _). apply round_sign. Qed.

Lemma f_of_int_finite n s : Z.abs n < 2 ^ 53 -> f_of_int n <> S754_infinity s.
Proof.
  intros Hn. destruct n as [|p|p]; [done|rewrite f_of_int_pos by lia; done|].
  pose proof (f_of_int_pos p ltac:(lia)) as H. unfold f_of_int in *. cbn [binary_normalize] in *.
  by rewrite round_neg, H.
Qed.

(** A small integer is its own conversion. *)
Lemma f_to_int_int n : Z.abs n < 2 ^ 53 -> f_to_int (f_of_int n) = n.
Proof.
  assert (forall s p, Zpos p < 2 ^ 53 ->
    f_to_int (match fl p with S754_finite _ m e => S754_finite s m e | f => f end) = if s then Zneg p else Zpos p) as H.
  { intros s p Hp. unfold fl, f_to_int. pose proof (digits2_bounds p) as [P1 P2].
    set (d := Zpos (digits2_pos p)) in *. assert (d <= 53).
    { destruct (Z.le_gt_cases d 53); [done|]. pose proof (Z.pow_le_mono_r 2 53 (d - 1)). lia. }
    assert (1 <= d) by (unfold d; lia).
    replace (if 0 <=? d - 53 then _ else _) with (Zpos p); [unfold MinInt64, MaxInt64; destruct s; bcase; lia|].
    rewrite shl_value, Z2Nat.id by lia. bcase.
    - replace (d - 53) with 0 by lia. replace (53 - d) with 0 by lia. rewrite Z.shiftl_0_r. lia.
    - rewrite Z.shiftr_div_pow2 by lia. replace (- (d - 53)) with (53 - d) by lia. rewrite Z.div_mul; lia. }
  intros Hn. destruct n as [|p|p]; [done| |].
  - rewrite f_of_int_pos by lia. exact (H false p ltac:(lia)).
  - pose proof (f_of_int_pos p ltac:(lia)) as E. unfold f_of_int in *. cbn [binary_normalize] in *.
    rewrite round_neg, E. exact (H true p ltac:(lia)).
Qed.

(** Scaling an integer by a power of two and back changes nothing. *)
Lemma normalize_scaled n k : Z.abs n < 2 ^ 53 -> (k <= 900)%nat ->
  binary_normalize 53 1024 (n * 2 ^ Z.of_nat k) (- Z.of_nat k) (n <? 0) = f_of_int n.
Proof.
  intros Hn Hk. destruct n as [|p|p].
  - done.
  - rewrite <- shl_value. rewrite f_of_int_pos by lia.
    rewrite <- (normalize_shl k p) by lia. done.
  - rewrite <- Pos2Z.opp_pos, Z.mul_opp_l, <- shl_value. cbn [Z.opp].
    pose proof (normalize_shl k p Hk ltac:(lia)) as H1. pose proof (f_of_int_pos p ltac:(lia)) as H2.
    unfold f_of_int in *. cbn [binary_normalize] in H1, H2.
    change (binary_round 53 1024 true (Nat.iter k xO p) (- Z.of_nat k) = binary_round 53 1024 true p 0).
    by rewrite !round_neg, H1, H2.
Qed.

Lemma f_add_zero n : 0 <= n < 2 ^ 53 -> f_add (f_of_int n) (S754_zero false) = f_of_int n.
Proof. intros Hn. destruct n as [|p|p]; [done| |lia]. by rewrite f_of_int_pos by lia. Qed.

Lemma Pos_compare_shl k p q : Pos.compare_cont Eq (Nat.iter k xO p) (Nat.iter k xO q)
  = Pos.compare_cont Eq p q.
Proof. induction k as [|k IH]; [done|]. by rewrite !shl_S. Qed.

(** Comparison of small integers is exact. *)
Lemma f_ltb_int a b : 0 <= a < 2 ^ 53 -> 0 <= b < 2 ^ 53 ->
  f_ltb (f_of_int a) (f_of_int b) = (a <? b).
Proof.
  intros Ha Hb. destruct a as [|p|p], b as [|q|q]; try lia; rewrite ?f_of_int_pos by lia; try done.
  unfold f_ltb, SFltb, fl, SFcompare. pose proof (digits2_bounds p) as [P1 P2].
  pose proof (digits2_bounds q) as [Q1 Q2]. set (d := Zpos (digits2_pos p)) in *.
  set (e := Zpos (digits2_pos q)) in *.
  destruct (Z.compare_spec (d - 53) (e - 53)) as [E|E|E].
  - replace e with d by lia. rewrite Pos_compare_shl.
    change (Pos.compare_cont Eq p q) with (Pos.compare p q).
    destruct (Pos.compare_spec p q); lia.
  - symmetry. apply Z.ltb_lt. pose proof (Z.pow_le_mono_r 2 d (e - 1)). lia.
  - symmetry. apply Z.ltb_ge. pose proof (Z.pow_le_mono_r 2 e (d - 1)). lia.
Qed.

Lemma Seconds_zero : Seconds 0 = S754_zero false.
Proof. vm_compute. reflexivity. Qed.

Example Seconds_quarter : Seconds 250000000 = f_div (f_of_int 1) (f_of_int 4).
Proof. vm_compute. reflexivity. Qed.
