(* ===== verification/RateLimits.v ===== *)
(** * internal/security/rrl.go and ratelimit.go: limits per response tuple and
    per client address.

    The mutex makes every call atomic; the clock is read once per call. *)

From S2P Require Import Prelude.
From S2P Require Import GoStrings.
From S2P Require Import GoTime.
From S2P Require Import GoFloat.
From Stdlib Require Import Floats.SpecFloat Sorting.Sorted.

#[local] Open Scope go_scope.

(** ** Response rate limiting *)

Record rrlBucket := mkRRLBucket {
  rb_windowStart : Z; rb_count : Z; rb_slipped : Z; rb_lastSeen : Z
}.

Record RRL := mkRRL {
  rrl_buckets : gmap bytes rrlBucket;
  rrl_limit : Z;
  rrl_slip : Z;
  rrl_gcInterval : Z;
  rrl_lastGC : Z;
  rrl_drops : Z
}.

Definition NewRRL (now limitPerSec slip : Z) : RRL :=
  let limitPerSec := if limitPerSec <=? 0 then 10 else limitPerSec in
  let slip := if slip <=? 0 then 2 else slip in
  mkRRL ∅ limitPerSec slip Minute now 0.

Definition set_rrl (r : RRL) (buckets : gmap bytes rrlBucket) (lastGC drops : Z) : RRL :=
  mkRRL buckets (rrl_limit r) (rrl_slip r) (rrl_gcInterval r) lastGC drops.

Definition rrl_gcLocked (now : Z) (buckets : gmap bytes rrlBucket) : gmap bytes rrlBucket :=
  filter (fun kv => negb (2 * Minute <? time_Sub now (rb_lastSeen kv.2)) = true) buckets.

(** The bucket's part of [Allow]: the decision, whether the response counts as
    dropped, and the bucket afterwards. *)
Definition rrl_bucket_allow (limit slip now : Z) (b : rrlBucket) : bool * rrlBucket :=
  let b := if Second <=? time_Sub now (rb_windowStart b)
           then mkRRLBucket now 0 0 (rb_lastSeen b) else b in
  let count := i64 (rb_count b + 1) in
  if count <=? limit then (true, mkRRLBucket (rb_windowStart b) count (rb_slipped b) now) else
  let slipped := i64 (rb_slipped b + 1) in
  (Z.rem slipped slip =? 0, mkRRLBucket (rb_windowStart b) count slipped now).

Definition RRL_Allow (now : Z) (tuple : bytes) (r : RRL) : bool * RRL :=
  let r := if rrl_gcInterval r <=? time_Sub now (rrl_lastGC r)
           then set_rrl r (rrl_gcLocked now (rrl_buckets r)) now (rrl_drops r) else r in
  match rrl_buckets r !! tuple with
  | None =>
      (true, set_rrl r (<[tuple := mkRRLBucket now 1 0 now]> (rrl_buckets r)) (rrl_lastGC r)
               (rrl_drops r))
  | Some b =>
      let '(ok, b) := rrl_bucket_allow (rrl_limit r) (rrl_slip r) now b in
      (ok, set_rrl r (<[tuple := b]> (rrl_buckets r)) (rrl_lastGC r)
             (if ok then rrl_drops r else u64 (rrl_drops r + 1)))
  end.

Definition RRL_Update (limitPerSec slip : Z) (r : RRL) : RRL :=
  mkRRL (rrl_buckets r) (if 0 <? limitPerSec then limitPerSec else rrl_limit r)
    (if 0 <? slip then slip else rrl_slip r) (rrl_gcInterval r) (rrl_lastGC r) (rrl_drops r).

(** The new clock reads [now] when it is set. *)
Definition RRL_SetClock (now : Z) (r : RRL) : RRL := set_rrl r (rrl_buckets r) now (rrl_drops r).
Definition RRL_Drops (r : RRL) : Z := rrl_drops r.
Definition RRL_Config (r : RRL) : Z * Z := (rrl_limit r, rrl_slip r).
Definition RRL_Size (r : RRL) : Z := Z.of_nat (size (rrl_buckets r)).

(** ** Rate limiting by client address *)

Record ipBucket := mkIPBucket { ib_tokens : float64; ib_lastSeen : Z; ib_drops : Z }.

Record BlockedIP := mkBlockedIP { bi_IP : bytes; bi_Drops : Z; bi_LastSeen : Z }.

Record RateLimiter := mkRateLimiter {
  rl_buckets : gmap bytes ipBucket;
  rl_rate : float64;
  rl_burst : float64;
  rl_gcInterval : Z;
  rl_lastGC : Z
}.

Definition NewRateLimiter (now : Z) (rate : float64) (burst : Z) : RateLimiter :=
  let rate := if f_leb rate (f_of_int 0) then f_of_int 100 else rate in
  let burst := if burst <=? 0 then 200 else burst in
  mkRateLimiter ∅ rate (f_of_int burst) Minute now.

Definition rl_gcLocked (now : Z) (buckets : gmap bytes ipBucket) : gmap bytes ipBucket :=
  filter (fun kv => negb (2 * Minute <? time_Sub now (ib_lastSeen kv.2)) = true) buckets.

(** The bucket's part of [Allow]. *)
Definition ip_bucket_allow (rate burst : float64) (now : Z) (b : ipBucket) : bool * ipBucket :=
  let elapsed := Seconds (time_Sub now (ib_lastSeen b)) in
  let tokens := f_add (ib_tokens b) (f_mul elapsed rate) in
  let tokens := if f_ltb burst tokens then burst else tokens in
  if f_ltb tokens (f_of_int 1) then (false, mkIPBucket tokens now (u64 (ib_drops b + 1)))
  else (true, mkIPBucket (f_sub tokens (f_of_int 1)) now (ib_drops b)).

Definition set_rl (r : RateLimiter) (buckets : gmap bytes ipBucket) (lastGC : Z) : RateLimiter :=
  mkRateLimiter buckets (rl_rate r) (rl_burst r) (rl_gcInterval r) lastGC.

Definition Limiter_Allow (now : Z) (ip : bytes) (r : RateLimiter) : bool * RateLimiter :=
  let r := if rl_gcInterval r <=? time_Sub now (rl_lastGC r)
           then set_rl r (rl_gcLocked now (rl_buckets r)) now else r in
  match rl_buckets r !! ip with
  | None =>
      (true, set_rl r (<[ip := mkIPBucket (f_sub (rl_burst r) (f_of_int 1)) now 0]> (rl_buckets r))
               (rl_lastGC r))
  | Some b =>
      let '(ok, b) := ip_bucket_allow (rl_rate r) (rl_burst r) now b in
      (ok, set_rl r (<[ip := b]> (rl_buckets r)) (rl_lastGC r))
  end.

Definition Limiter_Update (rate : float64) (burst : Z) (r : RateLimiter) : RateLimiter :=
  mkRateLimiter (rl_buckets r) (if f_ltb (f_of_int 0) rate then rate else rl_rate r)
    (if 0 <? burst then f_of_int burst else rl_burst r) (rl_gcInterval r) (rl_lastGC r).

Definition Limiter_SetClock (now : Z) (r : RateLimiter) : RateLimiter :=
  set_rl r (rl_buckets r) now.
Definition Limiter_Size (r : RateLimiter) : Z := Z.of_nat (size (rl_buckets r)).
Definition Limiter_Config (r : RateLimiter) : float64 * Z := (rl_rate r, f_to_int (rl_burst r)).

(** The order of [sort.Slice]: more drops first, then by address. *)
Definition blocked_leb (a b : BlockedIP) : bool :=
  if bi_Drops a =? bi_Drops b then bytes_leb (bi_IP a) (bi_IP b) else bi_Drops b <? bi_Drops a.
Fixpoint insert_blocked (x : BlockedIP) (l : list BlockedIP) : list BlockedIP :=
  match l with
  | [] => [x]
  | y :: l' => if blocked_leb x y then x :: y :: l' else y :: insert_blocked x l'
  end.
Definition sort_blocked (l : list BlockedIP) : list BlockedIP := foldr insert_blocked [] l.

Definition BlockedIPs (limit : Z) (r : RateLimiter) : list BlockedIP :=
  let limit := if limit <=? 0 then 50 else limit in
  let out := omap (fun '(ip, b) =>
    if ib_drops b =? 0 then None else Some (mkBlockedIP ip (ib_drops b) (ib_lastSeen b)))
    (map_to_list (rl_buckets r)) in
  let out := sort_blocked out in
  if limit <? len out then take (Z.to_nat limit) out else out.

Definition TotalDrops (r : RateLimiter) : Z :=
  foldl (fun total b => u64 (total + ib_drops b)) 0 (map_to_list (rl_buckets r)).*2.

(** ** Runs *)

(** The decisions for [x] in a run of calls [(time, key)]. *)
Fixpoint decisions {S} (allow : Z -> bytes -> S -> bool * S) (x : bytes) (cs : list (Z * bytes))
    (s : S) : list bool :=
  match cs with
  | [] => []
  | (t, k) :: cs' =>
      let '(ok, s) := allow t k s in
      if bool_decide (k = x) then ok :: decisions allow x cs' s else decisions allow x cs' s
  end.

Definition calls_for (x : bytes) (cs : list (Z * bytes)) : Z :=
  len (List.filter (fun c => bool_decide (c.2 = x)) cs).

Lemma calls_for_cons x t k cs :
  calls_for x ((t, k) :: cs) = (if bool_decide (k = x) then 1 else 0) + calls_for x cs.
Proof. unfold calls_for. cbn [List.filter snd]. bcase; [by rewrite len_cons|done]. Qed.

(** ** The response limit of one window *)

Lemma time_Sub_small t u : - Hour <= t - u <= Hour -> time_Sub t u = t - u.
Proof.
  unfold time_Sub, MinInt64, MaxInt64, Hour, Minute, Second. cbv zeta. intros. repeat bcase; lia.
Qed.

(** [k] responses for [x] were counted in the window that began after [t0]. *)
Definition in_window (x : bytes) (t0 k : Z) (r : RRL) : Prop :=
  match rrl_buckets r !! x with
  | None => k = 0
  | Some b =>
      k = 0 /\ Second <= t0 - rb_windowStart b
      \/ 1 <= k /\ t0 <= rb_windowStart b < t0 + Second /\ rb_count b = k
         /\ rb_slipped b = Z.max 0 (k - rrl_limit r) /\ t0 <= rb_lastSeen b < t0 + Second
  end.

(** The [i]-th response of a window is sent when it is within the limit or
    its turn to slip through. *)
Definition verdict (limit slip i : Z) : bool := (i <=? limit) || (Z.rem (i - limit) slip =? 0).

Lemma gc_keeps x (t0 k now : Z) (r r' : RRL) :
  in_window x t0 k r -> t0 <= now < t0 + Second -> rrl_limit r' = rrl_limit r ->
  rrl_buckets r' = rrl_gcLocked now (rrl_buckets r) -> in_window x t0 k r'.
Proof.
  unfold in_window. intros H Hn Hl ->. unfold rrl_gcLocked. rewrite Hl.
  destruct (filter _ (rrl_buckets r) !! x) as [b|] eqn:E.
  - apply map_lookup_filter_Some in E as [E _]. by rewrite E in H.
  - destruct (rrl_buckets r !! x) as [b|] eqn:Eb; [|done].
    destruct H as [[-> _]|(H1 & H2 & _ & _ & H3)]; [done|exfalso].
    apply map_lookup_filter_None in E as [E|E]; [by rewrite E in Eb|].
    apply (E b Eb). cbn [snd]. rewrite time_Sub_small; unfold Hour, Minute, Second in *; [|lia].
    apply negb_true_iff. lia.
Qed.

Lemma RRL_Allow_window x (t0 k now : Z) key r ok r' :
  1 <= rrl_limit r -> 0 <= k < MaxInt64 -> in_window x t0 k r -> t0 <= now < t0 + Second ->
  RRL_Allow now key r = (ok, r') ->
  rrl_limit r' = rrl_limit r /\ rrl_slip r' = rrl_slip r /\
  if bool_decide (key = x) then ok = verdict (rrl_limit r) (rrl_slip r) (k + 1)
    /\ in_window x t0 (k + 1) r'
  else in_window x t0 k r'.
Proof.
  intros Hl Hk Hw Hn. unfold RRL_Allow.
  set (r1 := if rrl_gcInterval r <=? _ then _ else r).
  assert (rrl_limit r1 = rrl_limit r /\ rrl_slip r1 = rrl_slip r /\ in_window x t0 k r1)
    as (L1 & S1 & W1).
  { unfold r1. bcase; [|done]. ands; [done|done|]. by eapply gc_keeps. }
  clearbody r1. rewrite <- L1, <- S1. rewrite <- L1 in Hl. clear r L1 S1 Hw. rename r1 into r.
  destruct (rrl_buckets r !! key) as [b|] eqn:Eb.
  - destruct (rrl_bucket_allow _ _ now b) as [o b'] eqn:Ea. intros [= <- <-]. ands; [done..|].
    case_bool_decide as Hx.
    2: { unfold in_window in *. cbn [rrl_buckets rrl_limit set_rrl]. by rewrite lookup_insert_ne. }
    subst key. unfold in_window in *. cbn [rrl_buckets rrl_limit set_rrl]. rewrite lookup_insert_eq.
    rewrite Eb in W1. unfold rrl_bucket_allow in Ea. cbv zeta in Ea. unfold MaxInt64, Second in *.
    destruct W1 as [[-> Hs]|(K1 & K2 & K3 & K4 & K5)].
    + rewrite (time_Sub_pos now (rb_windowStart b) 1000000000) in Ea by (unfold MaxInt64; lia).
      assert ((1000000000 <=? now - rb_windowStart b) = true) as E1 by lia. rewrite E1 in Ea.
      cbn [rb_count rb_windowStart rb_slipped] in Ea.
      change (i64 (0 + 1)) with 1 in Ea. assert ((1 <=? rrl_limit r) = true) as E2 by lia.
      rewrite E2 in Ea. injection Ea as <- <-. split; [unfold verdict; by rewrite Z.add_0_l, E2|right].
      cbn [rb_count rb_windowStart rb_slipped rb_lastSeen]. lia.
    + rewrite (time_Sub_pos now (rb_windowStart b) 1000000000) in Ea by (unfold MaxInt64; lia).
      assert ((1000000000 <=? now - rb_windowStart b) = false) as E1 by lia. rewrite E1, K3, K4 in Ea.
      rewrite (i64_small (k + 1)) in Ea by (unfold is_i64, MinInt64, MaxInt64; lia).
      unfold verdict. destruct (k + 1 <=? rrl_limit r) eqn:E2; injection Ea as <- <-;
        cbn [rb_count rb_windowStart rb_slipped rb_lastSeen orb].
      * split; [done|right]. lia.
      * rewrite (Z.max_r 0 (k - rrl_limit r)) by lia.
        rewrite (i64_small (k - rrl_limit r + 1)) by (unfold is_i64, MinInt64, MaxInt64; lia).
        replace (k - rrl_limit r + 1) with (k + 1 - rrl_limit r) by lia. split; [done|right]. lia.
  - intros [= <- <-]. ands; [done..|]. unfold in_window in *. cbn [rrl_buckets rrl_limit set_rrl].
    case_bool_decide as Hx; [subst key|by rewrite lookup_insert_ne].
    rewrite lookup_insert_eq. rewrite Eb in W1. subst k. cbn. unfold verdict, Second in *.
    split; [|right; lia]. symmetry. apply orb_true_iff. left. lia.
Qed.

Lemma decisions_window x t0 cs k r :
  1 <= rrl_limit r -> 0 <= k -> k + len cs <= MaxInt64 -> in_window x t0 k r ->
  Forall (fun c => t0 <= c.1 < t0 + Second) cs ->
  decisions RRL_Allow x cs r =
    map (fun i => verdict (rrl_limit r) (rrl_slip r) (k + Z.of_nat i))
      (seq 1 (Z.to_nat (calls_for x cs))).
Proof.
  revert k r. induction cs as [|[t key] cs IH]; intros k r Hl Hk Hb Hw Ht; [done|].
  apply Forall_cons in Ht as [Hn Ht]. cbn [fst] in Hn. rewrite len_cons in Hb.
  pose proof (len_nonneg cs). cbn [decisions].
  destruct (RRL_Allow t key r) as [ok r'] eqn:E.
  apply (RRL_Allow_window x t0 k) in E as (HL & HS & E); try done; [|lia].
  rewrite calls_for_cons. pose proof (len_nonneg (List.filter (fun c : Z * bytes => bool_decide (c.2 = x)) cs)).
  fold (calls_for x cs) in *. case_bool_decide as Hx.
  - destruct E as [-> Hw']. rewrite (IH (k + 1) r') by (try done; rewrite ?HL; lia).
    replace (Z.to_nat (1 + calls_for x cs)) with (S (Z.to_nat (calls_for x cs))) by lia.
    cbn [seq map]. f_equal. rewrite <- (seq_shift _ 1), map_map, HL, HS. apply map_ext.
    intros i. f_equal. lia.
  - rewrite Z.add_0_l, (IH k r') by (try done; rewrite ?HL; lia). by rewrite HL, HS.
Qed.

(** [x] was quiet in the second before [t0]: its last response and the window in
    which it was counted are at least a second old, or there was none. *)
Definition quiet_before (t0 : Z) (x : bytes) (r : RRL) : Prop :=
  forall b, rrl_buckets r !! x = Some b -> Second <= t0 - rb_windowStart b /\ Second <= t0 - rb_lastSeen b.

(** C38. For a tuple that was quiet in the second before, the limiter decides
    within the next second about its responses by their number alone: the first
    [limit] are sent, after that every [slip]-th one, the others are dropped,
    whatever the calls for other tuples and the collection of idle buckets do in
    between.  A window that slides and one that starts at the first response are
    the same here; [rrl_edge] shows where they are not. *)
Theorem rrl_window r x t0 cs :
  1 <= rrl_limit r -> 1 <= rrl_slip r -> len cs <= MaxInt64 ->
  quiet_before t0 x r ->
  Forall (fun c => t0 <= c.1 < t0 + Second) cs ->
  decisions RRL_Allow x cs r =
    map (fun i => verdict (rrl_limit r) (rrl_slip r) (Z.of_nat i))
      (seq 1 (Z.to_nat (calls_for x cs))).
Proof.
  intros Hl _ Hb Hx Ht. rewrite (decisions_window x t0 cs 0); try done; try lia.
  unfold in_window. destruct (rrl_buckets r !! x) as [b|] eqn:E; [|done]. left. by destruct (Hx b E).
Qed.

Lemma rrl_window_witness :
  decisions RRL_Allow "a" [(10, "a"); (11, "b"); (12, "a"); (13, "a"); (14, "a"); (15, "a")]
    (NewRRL 0 2 2) = [true; true; false; true; false].
Proof.
  rewrite (rrl_window (NewRRL 0 2 2) "a" 10).
  - vm_compute. reflexivity.
  - done.
  - done.
  - done.
  - intros b H. change (rrl_buckets (NewRRL 0 2 2)) with (∅ : gmap bytes rrlBucket) in H.
    by rewrite lookup_empty in H.
  - repeat constructor; done.
Defined.

(** The windows do not slide: with a limit of two a second, three responses are
    sent within a tenth of a second at the edge of two windows. *)
Theorem rrl_edge :
  decisions RRL_Allow "a" [(0, "a"); (9 * Second / 10, "a"); (Second, "a"); (Second, "a"); (Second, "a")]
    (NewRRL 0 2 2) = [true; true; true; true; false].
Proof. vm_compute. reflexivity. Qed.

(** ** The burst of one client *)

(** [k] packets of [x] were seen at time [t]. *)
Definition burst_state (x : bytes) (t B k : Z) (r : RateLimiter) : Prop :=
  rl_burst r = f_of_int B /\ (exists m e, rl_rate r = S754_finite false m e) /\
  match rl_buckets r !! x with
  | None => k = 0
  | Some b => 1 <= k /\ ib_tokens b = f_of_int (Z.max 0 (B - k)) /\ ib_lastSeen b = t
  end.

Lemma rl_gc_keeps x (t B k now : Z) (r : RateLimiter) :
  burst_state x t B k r -> now = t ->
  burst_state x t B k (set_rl r (rl_gcLocked now (rl_buckets r)) now).
Proof.
  intros (H1 & H2 & H3) ->. unfold burst_state. ands; [done..|]. cbn [rl_buckets set_rl]. unfold rl_gcLocked.
  rewrite map_lookup_filter. destruct (rl_buckets r !! x) as [b|] eqn:Eb; [|done].
  cbn [mbind option_bind]. case_guard as Hg; [done|]. exfalso. apply Hg. cbn [snd].
  destruct H3 as (_ & _ & ->). rewrite time_Sub_small; unfold Hour, Minute, Second in *; lia.
Qed.

Lemma Limiter_Allow_burst x (t B k : Z) key r ok r' :
  1 <= B < 2 ^ 53 -> 0 <= k -> burst_state x t B k r ->
  Limiter_Allow t key r = (ok, r') ->
  if bool_decide (key = x) then ok = (k + 1 <=? B) /\ burst_state x t B (k + 1) r'
  else burst_state x t B k r'.
Proof.
  intros HB Hk Hw. unfold Limiter_Allow.
  set (r1 := if rl_gcInterval r <=? _ then _ else r).
  assert (burst_state x t B k r1) as W by (unfold r1; bcase; [by apply rl_gc_keeps|done]).
  clearbody r1. clear r Hw. rename r1 into r. destruct W as (W1 & (m & e & W2) & W3).
  destruct (rl_buckets r !! key) as [b|] eqn:Eb.
  - destruct (ip_bucket_allow _ _ t b) as [o b'] eqn:Ea. intros [= <- <-].
    case_bool_decide as Hx.
    2: { unfold burst_state; ands; [done|by exists m, e|]. cbn [rl_buckets set_rl]. by rewrite lookup_insert_ne. }
    subst key. rewrite Eb in W3. destruct W3 as (K1 & K2 & K3).
    unfold ip_bucket_allow in Ea. cbv zeta in Ea.
    rewrite K3, (time_Sub_small t t), Z.sub_diag, Seconds_zero, K2, W1, W2 in Ea
      by (unfold Hour, Minute, Second; lia).
    change (f_mul (S754_zero false) (S754_finite false m e)) with (S754_zero false) in Ea.
    rewrite f_add_zero, f_ltb_int in Ea by lia.
    assert ((B <? Z.max 0 (B - k)) = false) as E1 by lia. rewrite E1, f_ltb_int in Ea by lia.
    unfold burst_state. cbn [rl_buckets rl_burst rl_rate set_rl]. rewrite lookup_insert_eq.
    destruct (Z.max 0 (B - k) <? 1) eqn:E2; injection Ea as <- <-; cbn [ib_tokens ib_lastSeen].
    + assert (Z.max 0 (B - k) = Z.max 0 (B - (k + 1))) as -> by lia.
      split; [lia|]. unfold burst_state; ands; [done|by exists m, e|lia|done|done].
    + rewrite f_sub_one by lia. split; [lia|]. unfold burst_state; ands; [done|by exists m, e|lia|f_equal; lia|done].
  - intros [= <- <-]. unfold burst_state. cbn [rl_buckets rl_burst rl_rate set_rl].
    case_bool_decide as Hx; [subst key|unfold burst_state; ands; [done|by exists m, e|by rewrite lookup_insert_ne]].
    rewrite Eb in W3. subst k. rewrite lookup_insert_eq, W1, f_sub_one by lia.
    cbn [ib_tokens ib_lastSeen]. split; [lia|]. unfold burst_state; ands; [done|by exists m, e|lia|f_equal; lia|done].
Qed.

Lemma decisions_burst x (t B : Z) cs k r :
  1 <= B < 2 ^ 53 -> 0 <= k -> burst_state x t B k r -> Forall (fun c => c.1 = t) cs ->
  decisions Limiter_Allow x cs r =
    map (fun i => k + Z.of_nat i <=? B) (seq 1 (Z.to_nat (calls_for x cs))).
Proof.
  intros HB. revert k r. induction cs as [|[t' key] cs IH]; intros k r Hk Hw Ht; [done|].
  apply Forall_cons in Ht as [Hn Ht]. cbn [fst] in Hn. subst t'. cbn [decisions].
  destruct (Limiter_Allow t key r) as [ok r'] eqn:E.
  apply (Limiter_Allow_burst x t B k) in E; try done.
  rewrite calls_for_cons. pose proof (len_nonneg (List.filter (fun c : Z * bytes => bool_decide (c.2 = x)) cs)).
  fold (calls_for x cs) in *. case_bool_decide as Hx.
  - destruct E as [-> Hw']. rewrite (IH (k + 1) r') by (try done; lia).
    replace (Z.to_nat (1 + calls_for x cs)) with (S (Z.to_nat (calls_for x cs))) by lia.
    cbn [seq map]. f_equal. rewrite <- (seq_shift _ 1), map_map. apply map_ext.
    intros i. f_equal. lia.
  - rewrite Z.add_0_l. by apply IH.
Qed.

(** C39. The token bucket in binary64 arithmetic: of the packets a client sends
    at one instant, exactly the first [burst] pass, whatever other clients send
    in between. *)
Theorem limiter_burst r x t B m e cs :
  rl_rate r = S754_finite false m e -> rl_burst r = f_of_int B -> 1 <= B < 2 ^ 53 ->
  rl_buckets r !! x = None -> Forall (fun c => c.1 = t) cs ->
  decisions Limiter_Allow x cs r =
    map (fun i => Z.of_nat i <=? B) (seq 1 (Z.to_nat (calls_for x cs))).
Proof.
  intros Hr Hb HB Hx Ht. rewrite (decisions_burst x t B cs 0); try done.
  unfold burst_state; ands; [done|by exists m, e|]. by rewrite Hx.
Qed.

Lemma limiter_burst_witness :
  decisions Limiter_Allow "a" [(5, "a"); (5, "b"); (5, "a"); (5, "a")]
    (NewRateLimiter 0 (f_of_int 100) 2) = [true; true; false].
Proof.
  rewrite (limiter_burst (NewRateLimiter 0 (f_of_int 100) 2) "a" 5 2 7036874417766400 (-46)).
  - vm_compute. reflexivity.
  - vm_compute. reflexivity.
  - vm_compute. reflexivity.
  - done.
  - done.
  - repeat constructor.
Defined.

(** ** The list of blocked clients *)

Definition blocked_before (a b : BlockedIP) : Prop := blocked_leb a b = true.

#[export] Instance blocked_before_trans : Transitive blocked_before.
Proof.
  intros a b c. unfold blocked_before, blocked_leb.
  destruct (bi_Drops a =? bi_Drops b) eqn:E1, (bi_Drops b =? bi_Drops c) eqn:E2,
    (bi_Drops a =? bi_Drops c) eqn:E3; try lia. apply bytes_leb_trans.
Qed.

Lemma blocked_total a b : blocked_leb a b = false -> blocked_before b a.
Proof.
  unfold blocked_before, blocked_leb. rewrite (Z.eqb_sym (bi_Drops b)).
  destruct (bi_Drops a =? bi_Drops b) eqn:E; [|lia].
  intros H. destruct (bytes_leb_total (bi_IP a) (bi_IP b)) as [H'|H']; [by rewrite H in H'|done].
Qed.

Lemma insert_blocked_perm x l : insert_blocked x l ≡ₚ x :: l.
Proof.
  induction l as [|y l IH]; [done|]. cbn [insert_blocked]. bcase; [done|]. rewrite IH. apply Permutation_swap.
Qed.

Lemma sort_blocked_perm l : sort_blocked l ≡ₚ l.
Proof.
  induction l as [|x l IH]; [done|]. cbn [sort_blocked foldr]. fold (sort_blocked l).
  by rewrite insert_blocked_perm, IH.
Qed.

Lemma insert_blocked_sorted x l : Sorted blocked_before l -> Sorted blocked_before (insert_blocked x l).
Proof.
  induction 1 as [|y l Hl IH Hh]; cbn [insert_blocked]; [by repeat constructor|].
  bcase; [by repeat constructor|]. constructor; [done|].
  apply blocked_total in Hb. destruct l as [|z l]; cbn [insert_blocked]; [by constructor|].
  inversion Hh. bcase; by constructor.
Qed.

Lemma sort_blocked_sorted l : Sorted blocked_before (sort_blocked l).
Proof. induction l as [|x l IH]; [constructor|]. by apply insert_blocked_sorted. Qed.

(** The list of blocked clients is the top of the list, most drops first,
    of all clients with dropped packets: nothing that was left out comes before
    an entry of the list. *)
Theorem BlockedIPs_top r limit :
  let n := if limit <=? 0 then 50 else limit in
  exists rest, len (BlockedIPs limit r) <= n
    /\ Sorted blocked_before (BlockedIPs limit r ++ rest)
    /\ (rest <> [] -> len (BlockedIPs limit r) = n)
    /\ forall ip drops seen,
         mkBlockedIP ip drops seen ∈ BlockedIPs limit r ++ rest <->
         drops <> 0 /\ exists b, rl_buckets r !! ip = Some b /\ ib_drops b = drops /\ ib_lastSeen b = seen.
Proof.
  intros n. unfold BlockedIPs. fold n. set (out := omap _ _).
  assert (0 < n) as Hn by (unfold n; bcase; lia).
  exists (if n <? len (sort_blocked out) then drop (Z.to_nat n) (sort_blocked out) else []).
  assert ((if n <? len (sort_blocked out) then take (Z.to_nat n) (sort_blocked out) else sort_blocked out)
    ++ (if n <? len (sort_blocked out) then drop (Z.to_nat n) (sort_blocked out) else [])
    = sort_blocked out) as E by (bcase; [apply take_drop|apply app_nil_r]).
  rewrite E. ands.
  - bcase; [|lia]. unfold len. rewrite length_take. lia.
  - apply sort_blocked_sorted.
  - bcase; [|done]. intros _. unfold len in *. rewrite length_take. lia.
  - intros ip drops seen. rewrite (sort_blocked_perm out). unfold out.
    rewrite list_elem_of_omap. split.
    + intros ([k b] & Hin & H). apply elem_of_map_to_list in Hin.
      destruct (ib_drops b =? 0) eqn:Ed; [done|]. injection H as -> <- <-. split; [lia|]. by exists b.
    + intros (Hd & b & Hb & <- & <-). exists (ip, b). split; [by apply elem_of_map_to_list|].
      by assert ((ib_drops b =? 0) = false) as -> by lia.
Qed.
