(* ===== verification/Iterative.v ===== *)
(** * internal/resolver/iterative.go: one question to one server, and to many.

    The network, [crypto/rand] and the clock are the operations of the class
    [Network] over a state [W]; errors are their texts. *)

From S2P Require Import Prelude.
From S2P Require Import GoStrings.
From S2P Require Import GoTime.
From S2P Require Import Protocol.
From S2P Require Import Decoder.
From S2P Require Import Encoder.
From S2P Require Import Names.
From S2P Require Import GoNet.
From S2P Require Import Randomizers.
From S2P Require Import Pipeline.
From S2P Require Import Recursive.

#[local] Open Scope go_scope.

(** ** The network *)

Class Network (W : Type) := {
  (** [r.qid] *)
  qidAcquire : W -> result bytes Z * W;
  qidRelease : Z -> W -> W;
  (** [rand.Read] of so many bytes *)
  randRead : nat -> W -> option bytes * W;
  (** sockets: [r.ports.ListenUDP], [DialContext], [SetDeadline], [Close] *)
  udpListen : W -> result bytes nat * W;
  tcpDial : Z -> bytes -> Z -> W -> result bytes nat * W;
  connDeadline : nat -> Z -> W -> option bytes * W;
  connClose : nat -> W -> W;
  (** a datagram sent to an address and port, and one received into a buffer:
      its bytes, the address and the port it came from *)
  udpWrite : nat -> bytes -> bytes -> Z -> W -> option bytes * W;
  udpRead : nat -> Z -> W -> result bytes (bytes * bytes * Z) * W;
  (** a stream: bytes written, and exactly so many bytes read *)
  tcpWrite : nat -> bytes -> W -> option bytes * W;
  tcpReadFull : nat -> Z -> W -> result bytes bytes * W;
  securityCounter : bytes -> W -> W;
  clock : W -> Z * W
}.

(** ** Queries and results *)

Record queryResult := mkQueryResult {
  q_server : bytes;
  q_serverName : bytes;
  q_requestWire : bytes;
  q_responseWire : bytes;
  q_message : option Message;
  q_latency : Z;
  q_err : option bytes
}.

Definition set_err (res : queryResult) (e : bytes) : queryResult :=
  mkQueryResult (q_server res) (q_serverName res) (q_requestWire res) (q_responseWire res)
    (q_message res) (q_latency res) (Some e).
Definition set_request (res : queryResult) (wire : bytes) : queryResult :=
  mkQueryResult (q_server res) (q_serverName res) wire (q_responseWire res)
    (q_message res) (q_latency res) (q_err res).
Definition set_response (res : queryResult) (wire : bytes) : queryResult :=
  mkQueryResult (q_server res) (q_serverName res) (q_requestWire res) wire
    (q_message res) (q_latency res) (q_err res).
Definition set_message (res : queryResult) (m : Message) (latency : Z) : queryResult :=
  mkQueryResult (q_server res) (q_serverName res) (q_requestWire res) (q_responseWire res)
    (Some m) latency (q_err res).

Definition stepTypeFor (step : Z) : bytes :=
  if step =? 1 then "root_query" else if step =? 2 then "tld_query" else "auth_query".

Definition buildUpstreamQuery (id : Z) (qname : bytes) (qtype : Z) (cfg : Config) : Message :=
  mkMessage (mkHeader id false 0 false false true false 0 0 0 0 0 0)
    [mkQuestion qname qtype ClassIN] [] []
    (if EDNSEnabled cfg
     then [mkRR "." TypeOPT (u16 (MaxUDPSize cfg)) 0
             (Some (OPTData (u16 (MaxUDPSize cfg)) 0 0 0 "")) ""]
     else []).

(** The backoff of an attempt: [time.Duration(1<<attempt)*100ms + jitter]. *)
Definition backoff (attempt jitter : Z) : Z :=
  i64 (i64 (i64 (Z.shiftl 1 attempt) * (100 * Millisecond)) + jitter).

Definition randomJitter (max : Z) (b : option bytes) : Z :=
  if max <=? 0 then 0 else
  match randomUint16 b with
  | Some v => v mod (u16 (max / Millisecond + 1)) * Millisecond
  | None => 0
  end.

Section iterative.
Context {U : UnicodeTables}.

(** The counter to increment and the error; [None] accepts the response. *)
Definition validateResponseQuestion (sentName : bytes) (qtype : Z) (caseRandomization : bool)
    (decoded : Message) : option (bytes * bytes) :=
  match m_Questions decoded with
  | [] => Some ("poisoning_question_missing", "response question missing")
  | q :: _ =>
      if negb (bool_decide (normalizeFQDN (q_Name q) = normalizeFQDN sentName)) then
        Some ("poisoning_name_mismatch", "response qname mismatch")
      else if negb (q_Type q =? qtype) || negb (q_Class q =? ClassIN) then
        Some ("poisoning_question_mismatch", "response question mismatch")
      else if caseRandomization && negb (Matches sentName (q_Name q)) then
        Some ("poisoning_case_mismatch", "0x20 case mismatch")
      else None
  end.

Context {W : Type} {N : Network W} (upstreamPort : Z).

(** The checks both transports make of a decoded response. *)
Definition checkResponse (id : Z) (sentName : bytes) (qtype : Z) (cfg : Config) (decoded : Message)
    (w : W) : option bytes * W :=
  if negb (h_ID (m_Header decoded) =? id) then
    (Some "query id mismatch", securityCounter "poisoning_id_mismatch" w)
  else
    match validateResponseQuestion sentName qtype (CaseRandomization cfg) decoded with
    | Some (reason, err) => (Some err, securityCounter reason w)
    | None => (None, w)
    end.

(** [queryTCP] once the connection is open; the caller closes it. *)
Definition tcpExchange (conn : nat) (wire : bytes) (id : Z) (sentName : bytes) (qtype : Z)
    (cfg : Config) (started : Z) (res : queryResult) (w : W) : queryResult * W :=
  let '(now, w) := clock w in
  match connDeadline conn (now + UpstreamTimeout cfg) w with
  | (Some e, w) => (set_err res e, w)
  | (None, w) =>
  match tcpWrite conn (PutUint16 (u16 (len wire))) w with
  | (Some e, w) => (set_err res ("tcp fallback write len: " ++ e), w)
  | (None, w) =>
  match tcpWrite conn wire w with
  | (Some e, w) => (set_err res ("tcp fallback write payload: " ++ e), w)
  | (None, w) =>
  match tcpReadFull conn 2 w with
  | (Ok lenBuf, w) =>
      match @Uint16 error lenBuf with
      | Ok size =>
          if (size <=? 0) || (MaxDNSPacketLen <? size)
          then (set_err res "tcp fallback invalid response size", w) else
          match tcpReadFull conn size w with
          | (Ok payload, w) =>
              let res := set_response res payload in
              match Decode payload with
              | Ok decoded =>
                  match checkResponse id sentName qtype cfg decoded w with
                  | (Some e, w) => (set_err res e, w)
                  | (None, w) =>
                      let '(now, w) := clock w in
                      (set_message res decoded (time_Sub now started), w)
                  end
              | _ => (set_err res "tcp fallback decode response", w)
              end
          | (_, w) => (set_err res "tcp fallback read payload", w)
          end
      | _ => (set_err res "tcp fallback read len", w)
      end
  | (_, w) => (set_err res "tcp fallback read len", w)
  end end end end.

Definition queryTCP (server wire : bytes) (id : Z) (sentName : bytes) (qtype : Z) (cfg : Config)
    (started : Z) (w : W) : queryResult * W :=
  let res := mkQueryResult server server wire "" None 0 None in
  match ParseIP server with
  | None => (set_err res ("invalid server ip: " ++ server), w)
  | Some ip =>
      match tcpDial (UpstreamTimeout cfg) ip upstreamPort w with
      | (Ok conn, w) =>
          let '(res, w) := tcpExchange conn wire id sentName qtype cfg started res w in
          (res, connClose conn w)
      | (Err e, w) => (set_err res ("tcp fallback dial: " ++ e), w)
      | (_, w) => (set_err res "tcp fallback dial", w)
      end
  end.

(** [queryOnce] once the socket is open; the caller closes it. *)
Definition udpExchange (conn : nat) (server wire : bytes) (id : Z) (sentName : bytes) (qtype : Z)
    (cfg : Config) (start : Z) (res : queryResult) (w : W) : queryResult * W :=
  let '(now, w) := clock w in
  match connDeadline conn (now + UpstreamTimeout cfg) w with
  | (Some e, w) => (set_err res e, w)
  | (None, w) =>
  match ParseIP server with
  | None => (set_err res ("invalid server ip: " ++ server), w)
  | Some ip =>
  match udpWrite conn wire ip upstreamPort w with
  | (Some e, w) => (set_err res ("send query: " ++ e), w)
  | (None, w) =>
  match udpRead conn (MaxUDPSize cfg) w with
  | (Ok (respWire, addrIP, addrPort), w) =>
      if negb (ip_Equal addrIP ip) || negb (addrPort =? upstreamPort) then
        (set_err res "response source mismatch", securityCounter "poisoning_source_mismatch" w)
      else
      let res := set_response res respWire in
      match Decode respWire with
      | Ok decoded =>
          match checkResponse id sentName qtype cfg decoded w with
          | (Some e, w) => (set_err res e, w)
          | (None, w) =>
              if h_TC (m_Header decoded) then
                queryTCP server wire id sentName qtype cfg start w
              else
                let '(now, w) := clock w in
                (set_message res decoded (time_Sub now start), w)
          end
      | _ => (set_err res "decode response", w)
      end
  | (_, w) => (set_err res "read response", w)
  end end end end.

(** The name sent: the normalised one, its case randomized when configured. *)
Definition spell (cfg : Config) (qname : bytes) (w : W) : option bytes * W :=
  let sentName := normalizeFQDN qname in
  if CaseRandomization cfg && negb (bool_decide (sentName = "")) then
    match randRead (length sentName) w with
    | (mask, w) => (RandomizeQName (fun _ => mask) sentName, w)
    end
  else (Some sentName, w).

(** [queryOnce] between the acquisition of the identifier and its release. *)
Definition queryWithID (id : Z) (server qname : bytes) (qtype : Z) (cfg : Config) (start : Z)
    (res : queryResult) (w : W) : queryResult * W :=
  match spell cfg qname w with
  | (None, w) => (set_err res "randomize qname", w)
  | (Some sentName, w) =>
      let msg := buildUpstreamQuery id sentName qtype cfg in
      match (Encode (Some msg)).2 with
      | Ok wire =>
          let res := set_request res wire in
          match udpListen w with
          | (Ok conn, w) =>
              let '(res, w) := udpExchange conn server wire id sentName qtype cfg start res w in
              (res, connClose conn w)
          | (Err e, w) => (set_err res e, w)
          | (_, w) => (set_err res "listen", w)
          end
      | _ => (set_err res "encode request", w)
      end
  end.

Definition queryOnce (server qname : bytes) (qtype : Z) (cfg : Config) (w : W) : queryResult * W :=
  let '(start, w) := clock w in
  let res := mkQueryResult server server "" "" None 0 None in
  match qidAcquire w with
  | (Ok id, w) =>
      let '(res, w) := queryWithID id server qname qtype cfg start res w in
      (res, qidRelease id w)
  | (Err e, w) => (set_err res e, w)
  | (_, w) => (set_err res "acquire", w)
  end.

(** [done]: whether the context is cancelled while the attempt's backoff runs. *)
Fixpoint retry_loop (n : nat) (attempt : Z) (done : Z -> bool) (server qname : bytes) (qtype : Z)
    (cfg : Config) (last : queryResult) (w : W) : queryResult * W :=
  match n with
  | O => (last, w)
  | S n' =>
      let '(res, w) := queryOnce server qname qtype cfg w in
      match q_err res with
      | None => (res, w)
      | Some _ =>
          let '(b, w) := randRead 2 w in
          let jitter := randomJitter (50 * Millisecond) b in
          if done (backoff attempt jitter) then (set_err res "context done", w)
          else retry_loop n' (attempt + 1) done server qname qtype cfg res w
      end
  end.

(** The zero value of the result, returned when no attempt is made. *)
Definition zero_result : queryResult := mkQueryResult "" "" "" "" None 0 None.

Definition queryWithRetries (done : Z -> bool) (server qname : bytes) (qtype : Z) (cfg : Config)
    (w : W) : queryResult * W :=
  retry_loop (Z.to_nat (Retries cfg)) 0 done server qname qtype cfg zero_result w.
End iterative.
