(* ===== verification/IterativeProps.v ===== *)
(** * Properties of one upstream query: which responses are accepted, and that
    nothing acquired for it is kept. *)

From S2P Require Import Prelude.
From S2P Require Import GoStrings.
From S2P Require Import GoTime.
From S2P Require Import Protocol.
From S2P Require Import Decoder.
From S2P Require Import Encoder.
From S2P Require Import Names.
From S2P Require Import GoNet.
From S2P Require Import Randomizers.
From S2P Require Import Recursive.
From S2P Require Import Iterative.

#[local] Open Scope go_scope.

(** ** What a query does on the network *)

Inductive net_event :=
| Acquired (id : Z)
| Drew (b : option bytes)
| Listened (conn : nat)
| Sent (conn : nat) (data ip : bytes) (port : Z)
| Received (conn : nat) (data addr : bytes) (port : Z)
| Dialed (conn : nat) (ip : bytes) (port : Z)
| Wrote (conn : nat) (data : bytes)
| ReadFull (conn : nat) (n : Z) (data : bytes).

(** Any network, with what succeeds on it beside it. *)
#[export] Instance overheard {W} {N : Network W} : Network (W * list net_event) := {|
  qidAcquire '(w, log) :=
    match qidAcquire w with
    | (Ok id, w) => (Ok id, (w, log ++ [Acquired id]))
    | (r, w) => (r, (w, log))
    end;
  qidRelease id '(w, log) := (qidRelease id w, log);
  randRead n '(w, log) := let '(b, w) := randRead n w in (b, (w, log ++ [Drew b]));
  udpListen '(w, log) :=
    match udpListen w with
    | (Ok c, w) => (Ok c, (w, log ++ [Listened c]))
    | (r, w) => (r, (w, log))
    end;
  tcpDial t ip p '(w, log) :=
    match tcpDial t ip p w with
    | (Ok c, w) => (Ok c, (w, log ++ [Dialed c ip p]))
    | (r, w) => (r, (w, log))
    end;
  connDeadline c t '(w, log) := let '(r, w) := connDeadline c t w in (r, (w, log));
  connClose c '(w, log) := (connClose c w, log);
  udpWrite c b ip p '(w, log) :=
    match udpWrite c b ip p w with
    | (None, w) => (None, (w, log ++ [Sent c b ip p]))
    | (r, w) => (r, (w, log))
    end;
  udpRead c n '(w, log) :=
    match udpRead c n w with
    | (Ok (b, addr, p), w) => (Ok (b, addr, p), (w, log ++ [Received c b addr p]))
    | (r, w) => (r, (w, log))
    end;
  tcpWrite c b '(w, log) :=
    match tcpWrite c b w with
    | (None, w) => (None, (w, log ++ [Wrote c b]))
    | (r, w) => (r, (w, log))
    end;
  tcpReadFull c n '(w, log) :=
    match tcpReadFull c n w with
    | (Ok b, w) => (Ok b, (w, log ++ [ReadFull c n b]))
    | (r, w) => (r, (w, log))
    end;
  securityCounter r '(w, log) := (securityCounter r w, log);
  clock '(w, log) := let '(t, w) := clock w in (t, (w, log))
|}.

Section accepted.
Context {U : UnicodeTables} {W : Type} {N : Network W} (port : Z).

(** A response that matches the query that was sent. *)
Record matches_query (id : Z) (sent : bytes) (qtype : Z) (cfg : Config) (m : Message) : Prop := {
  mq_id : h_ID (m_Header m) = id;
  mq_question : exists q rest, m_Questions m = q :: rest
    /\ normalizeFQDN (q_Name q) = normalizeFQDN sent
    /\ q_Type q = qtype /\ q_Class q = ClassIN
    /\ (CaseRandomization cfg = true -> Matches sent (q_Name q) = true)
}.

Lemma validate_ok sent qtype cfg m :
  validateResponseQuestion sent qtype (CaseRandomization cfg) m = None ->
  exists q rest, m_Questions m = q :: rest /\ normalizeFQDN (q_Name q) = normalizeFQDN sent
    /\ q_Type q = qtype /\ q_Class q = ClassIN
    /\ (CaseRandomization cfg = true -> Matches sent (q_Name q) = true).
Proof.
  unfold validateResponseQuestion. destruct (m_Questions m) as [|q rest]; [done|].
  case_bool_decide as Hn; cbn [negb]; [|done]. bcase; [done|]. bcase; [done|]. intros _.
  exists q, rest. ands; [done|done|lia|lia|]. intros Hc. rewrite Hc in Hb0. cbn [andb] in Hb0.
  by apply negb_false_iff in Hb0.
Qed.

Lemma checkResponse_ok id sent qtype cfg m (w w' : W) :
  checkResponse id sent qtype cfg m w = (None, w') -> matches_query id sent qtype cfg m.
Proof.
  unfold checkResponse. bcase; [done|]. destruct (validateResponseQuestion _ _ _ _) as [[a b]|] eqn:E; [done|].
  intros _. split; [lia|]. by apply validate_ok.
Qed.

(** A result without an error holds a response that was accepted. *)
Definition accepts (id : Z) (sent : bytes) (qtype : Z) (cfg : Config) (res : queryResult) (m : Message) : Prop :=
  q_message res = Some m /\ Decode (q_responseWire res) = Ok m /\ matches_query id sent qtype cfg m.

(** The packet of a query: it has the identifier and asks the question. *)
Definition query_packet (id : Z) (sent : bytes) (qtype : Z) (wire : bytes) : Prop :=
  exists request, (Encode (Some request)).2 = Ok wire /\ h_ID (m_Header request) = id
    /\ h_QR (m_Header request) = false /\ m_Questions request = [mkQuestion sent qtype ClassIN]
    /\ m_Answers request = [] /\ m_Authorities request = [].

(** The name as it is sent: normalised, or respelled with the mask that was drawn. *)
Inductive spelled (cfg : Config) (qname : bytes) : list net_event -> bytes -> Prop :=
| spelled_plain : CaseRandomization cfg = false -> spelled cfg qname [] (normalizeFQDN qname)
| spelled_random mask sent :
    CaseRandomization cfg = true ->
    RandomizeQName (fun _ => Some mask) (normalizeFQDN qname) = Some sent ->
    (all_ascii (normalizeFQDN qname) = true -> length mask = length (normalizeFQDN qname) ->
     map byte_to_lower sent = map byte_to_lower (normalizeFQDN qname)) ->
    spelled cfg qname [Drew (Some mask)] sent.

(** What a successful query does after its packet was sent from [conn]: it takes
    the datagram that comes back, unless that is marked as truncated; then the
    packet is sent again over a stream to the same address, and the response is
    what the stream gives, as long as it says. *)
Inductive answered (id : Z) (sent : bytes) (qtype : Z) (cfg : Config) (conn : nat) (ip wire : bytes)
    (res : queryResult) (m : Message) : list net_event -> Prop :=
| answered_udp addr :
    ip_Equal addr ip = true -> accepts id sent qtype cfg res m -> h_TC (m_Header m) = false ->
    answered id sent qtype cfg conn ip wire res m [Received conn (q_responseWire res) addr port]
| answered_tcp addr datagram m0 c lenBuf size :
    ip_Equal addr ip = true -> Decode datagram = Ok m0 -> matches_query id sent qtype cfg m0 ->
    h_TC (m_Header m0) = true ->
    @Uint16 error lenBuf = Ok size -> accepts id sent qtype cfg res m ->
    answered id sent qtype cfg conn ip wire res m
      [Received conn datagram addr port; Dialed c ip port; Wrote c (PutUint16 (u16 (len wire))); Wrote c wire;
       ReadFull c 2 lenBuf; ReadFull c size (q_responseWire res)].

Lemma checkResponse_heard id sent qtype cfg m (w : W) (log : list net_event) :
  checkResponse id sent qtype cfg m (w, log)
  = let '(e, w') := checkResponse id sent qtype cfg m w in (e, (w', log)).
Proof.
  unfold checkResponse. bcase; [done|]. by destruct (validateResponseQuestion _ _ _ _) as [[a b]|].
Qed.

Lemma tcpExchange_heard conn wire id sent qtype cfg started res (w : W) (log : list net_event) :
  let '(r, (w', log')) := tcpExchange conn wire id sent qtype cfg started res (w, log) in
  tcpExchange conn wire id sent qtype cfg started res w = (r, w')
  /\ (q_err r = None -> exists m lenBuf size,
       log' = log ++ [Wrote conn (PutUint16 (u16 (len wire))); Wrote conn wire;
                      ReadFull conn 2 lenBuf; ReadFull conn size (q_responseWire r)]
       /\ @Uint16 error lenBuf = Ok size /\ accepts id sent qtype cfg r m).
Proof.
  unfold tcpExchange. cbn [clock connDeadline tcpWrite tcpReadFull overheard].
  destruct (clock w) as [now w2]. destruct (connDeadline conn _ w2) as [[e|] w3]; [done|].
  destruct (tcpWrite conn _ w3) as [[e|] w4]; [done|].
  destruct (tcpWrite conn wire w4) as [[e|] w5]; [done|].
  destruct (tcpReadFull conn 2 w5) as [[lenBuf|e| |] w6]; try done.
  destruct (@Uint16 error lenBuf) as [size|e| |] eqn:El; try done.
  bcase; [done|]. destruct (tcpReadFull conn size w6) as [[payload|e| |] w7]; try done.
  destruct (Decode payload) as [m|e| |] eqn:Em; try done.
  rewrite checkResponse_heard. destruct (checkResponse id sent qtype cfg m w7) as [[e|] w8] eqn:Ec; [done|].
  destruct (clock w8) as [now' w9]. split; [done|]. intros _. exists m, lenBuf, size.
  split; [by rewrite <- !app_assoc|]. split; [done|]. split; [done|]. split; [done|].
  by eapply checkResponse_ok.
Qed.

Lemma queryTCP_heard server ip wire id sent qtype cfg started (w : W) (log : list net_event) :
  ParseIP server = Some ip ->
  let '(r, (w', log')) := queryTCP port server wire id sent qtype cfg started (w, log) in
  queryTCP port server wire id sent qtype cfg started w = (r, w')
  /\ (q_err r = None -> exists m c lenBuf size,
       log' = log ++ [Dialed c ip port; Wrote c (PutUint16 (u16 (len wire))); Wrote c wire;
                      ReadFull c 2 lenBuf; ReadFull c size (q_responseWire r)]
       /\ @Uint16 error lenBuf = Ok size /\ accepts id sent qtype cfg r m).
Proof.
  intros Hip. unfold queryTCP. rewrite Hip. cbn [tcpDial overheard].
  destruct (tcpDial _ ip port w) as [[c|e| |] w2]; try done.
  pose proof (tcpExchange_heard c wire id sent qtype cfg started
    (mkQueryResult server server wire "" None 0 None) w2 (log ++ [Dialed c ip port])) as H.
  destruct (tcpExchange _ _ _ _ _ _ _ _ (w2, _)) as [r [w3 log3]]. destruct H as [-> H].
  cbn [connClose overheard]. split; [done|]. intros He. destruct (H He) as (m & lenBuf & size & -> & H').
  exists m, c, lenBuf, size. split; [by rewrite <- app_assoc|done].
Qed.

Lemma udpExchange_heard conn server wire id sent qtype cfg start res (w : W) (log : list net_event) :
  let '(r, (w', log')) := udpExchange port conn server wire id sent qtype cfg start res (w, log) in
  udpExchange port conn server wire id sent qtype cfg start res w = (r, w')
  /\ (q_err r = None -> exists ip m rest, ParseIP server = Some ip
       /\ log' = log ++ Sent conn wire ip port :: rest /\ answered id sent qtype cfg conn ip wire r m rest).
Proof.
  unfold udpExchange. cbn [clock connDeadline udpWrite udpRead overheard].
  destruct (clock w) as [now w2]. destruct (connDeadline conn _ w2) as [[e|] w3]; [done|].
  destruct (ParseIP server) as [ip|] eqn:Eip; [|done].
  destruct (udpWrite conn wire ip port w3) as [[e|] w4]; [done|].
  destruct (udpRead conn _ w4) as [[[[resp addr] aport]|e| |] w5]; try done.
  bcase; [done|]. apply orb_false_iff in Hb as [Ha%negb_false_iff Hp%negb_false_iff].
  apply Z.eqb_eq in Hp as ->. destruct (Decode resp) as [m|e| |] eqn:Em; try done.
  rewrite checkResponse_heard. destruct (checkResponse id sent qtype cfg m w5) as [[e|] w6] eqn:Ec; [done|].
  apply checkResponse_ok in Ec. destruct (h_TC (m_Header m)) eqn:Etc.
  - pose proof (queryTCP_heard server ip wire id sent qtype cfg start w6
      ((log ++ [Sent conn wire ip port]) ++ [Received conn resp addr port]) Eip) as H.
    destruct (queryTCP _ _ _ _ _ _ _ _ (w6, _)) as [r [w7 log7]]. destruct H as [-> H].
    split; [done|]. intros He. destruct (H He) as (m' & c & lenBuf & size & -> & Hl & Hacc).
    exists ip, m'. eexists. split; [done|]. split; [by rewrite <- !app_assoc|]. by eapply answered_tcp.
  - destruct (clock w6) as [now' w7]. split; [done|]. intros _. exists ip, m. eexists. split; [done|].
    split; [by rewrite <- !app_assoc|]. by apply answered_udp.
Qed.

Lemma spell_heard cfg qname (w : W) (log : list net_event) :
  let '(x, (w', log')) := spell cfg qname (w, log) in
  spell cfg qname w = (x, w')
  /\ forall sent, x = Some sent -> exists drawn, log' = log ++ drawn /\ spelled cfg qname drawn sent.
Proof.
  unfold spell. assert (normalizeFQDN qname <> "") as Hne.
  { destruct (normalizeFQDN_dot qname) as [k ->]. by destruct k. }
  rewrite bool_decide_eq_false_2 by done. destruct (CaseRandomization cfg) eqn:Ec; cbn [andb negb].
  - cbn [randRead overheard]. destruct (randRead _ w) as [mask w2]. split; [done|]. intros sent E.
    exists [Drew mask]. split; [done|]. destruct mask as [mask|].
    + apply spelled_random; [done|done|]. intros Ha Hl.
      destruct (RandomizeQName_spec (fun _ => Some mask) (normalizeFQDN qname) mask Ha eq_refl Hl)
        as (sent' & E' & H & _). congruence.
    + unfold RandomizeQName in E. by rewrite bool_decide_eq_false_2 in E.
  - split; [done|]. intros sent [= <-]. exists []. split; [by rewrite app_nil_r|]. by apply spelled_plain.
Qed.

(** C13. Protection against forged responses.  A query that ends without an
    error acquired an identifier, and sent to the server, from a socket of its
    own, a packet with that identifier and one question: the name asked for, with
    the letters respelled by the mask it drew when case randomization is on, the
    type, and the class IN.  It accepted what came back on that socket from the
    address and port the packet was sent to; a truncated response makes it send
    the packet again over a stream to that address and accept what the stream
    gives.  The response accepted decodes, has the identifier, and repeats the
    question, in the spelling that was sent.  The events are those of the run:
    overhearing it changes nothing. *)
Theorem queryOnce_accepts server qname qtype cfg (w : W) :
  let '(res, (w', log)) := queryOnce port server qname qtype cfg (w, [] : list net_event) in
  queryOnce port server qname qtype cfg w = (res, w')
  /\ (q_err res = None -> exists id sent drawn conn wire ip m rest,
       log = Acquired id :: drawn ++ Listened conn :: Sent conn wire ip port :: rest
       /\ spelled cfg qname drawn sent /\ query_packet id sent qtype wire
       /\ ParseIP server = Some ip /\ answered id sent qtype cfg conn ip wire res m rest).
Proof.
  unfold queryOnce. cbn [clock qidAcquire qidRelease overheard]. destruct (clock w) as [start w1].
  destruct (qidAcquire w1) as [[id|e| |] w2]; try done. unfold queryWithID.
  pose proof (spell_heard cfg qname w2 ([] ++ [Acquired id])) as Hs.
  destruct (spell cfg qname (w2, [] ++ [Acquired id])) as [[sent|] [w3 log3]]; destruct Hs as [-> Hs]; [|done].
  destruct (Hs sent eq_refl) as (drawn & -> & Hsp).
  destruct (Encode _).2 as [wire|e| |] eqn:Ee; try done. cbn [udpListen overheard].
  destruct (udpListen w3) as [[conn|e| |] w4]; try done.
  set (res := set_request _ _).
  pose proof (udpExchange_heard conn server wire id sent qtype cfg start res w4
    ((([] ++ [Acquired id]) ++ drawn) ++ [Listened conn])) as H.
  destruct (udpExchange _ _ _ _ _ _ _ _ _ _ (w4, _)) as [r [w5 log5]]. destruct H as [-> H].
  cbn [connClose overheard]. split; [done|]. intros He. destruct (H He) as (ip & m & rest & Hip & -> & Ha).
  exists id, sent, drawn, conn, wire, ip, m, rest. split; [by rewrite <- !app_assoc|].
  split; [done|]. split; [|done]. by exists (buildUpstreamQuery id sent qtype cfg).
Qed.
End accepted.

(** ** Identifiers and sockets *)

Inductive resource := RId (id : Z) | RConn (conn : nat).

#[export] Instance resource_eq_dec : EqDecision resource.
Proof. solve_decision. Defined.

(** The resources held, the last acquired first; [None] after one was given
    back that is not the last one held. *)
Definition give_back (r : resource) (st : option (list resource)) : option (list resource) :=
  match st with
  | Some (x :: k) => if bool_decide (x = r) then Some k else None
  | _ => None
  end.

Definition take_one (r : resource) (st : option (list resource)) : option (list resource) :=
  cons r <$> st.

(** Any network, with the resources held beside it. *)
#[export] Instance tracked {W} {N : Network W} : Network (W * option (list resource)) := {|
  qidAcquire '(w, st) :=
    match qidAcquire w with
    | (Ok id, w) => (Ok id, (w, take_one (RId id) st))
    | (r, w) => (r, (w, st))
    end;
  qidRelease id '(w, st) := (qidRelease id w, give_back (RId id) st);
  randRead n '(w, st) := let '(r, w) := randRead n w in (r, (w, st));
  udpListen '(w, st) :=
    match udpListen w with
    | (Ok c, w) => (Ok c, (w, take_one (RConn c) st))
    | (r, w) => (r, (w, st))
    end;
  tcpDial t ip p '(w, st) :=
    match tcpDial t ip p w with
    | (Ok c, w) => (Ok c, (w, take_one (RConn c) st))
    | (r, w) => (r, (w, st))
    end;
  connDeadline c t '(w, st) := let '(r, w) := connDeadline c t w in (r, (w, st));
  connClose c '(w, st) := (connClose c w, give_back (RConn c) st);
  udpWrite c b ip p '(w, st) := let '(r, w) := udpWrite c b ip p w in (r, (w, st));
  udpRead c n '(w, st) := let '(r, w) := udpRead c n w in (r, (w, st));
  tcpWrite c b '(w, st) := let '(r, w) := tcpWrite c b w in (r, (w, st));
  tcpReadFull c n '(w, st) := let '(r, w) := tcpReadFull c n w in (r, (w, st));
  securityCounter r '(w, st) := (securityCounter r w, st);
  clock '(w, st) := let '(t, w) := clock w in (t, (w, st))
|}.

Section resources.
Context {U : UnicodeTables} {W : Type} {N : Network W} (port : Z).
Implicit Types st : option (list resource).

Lemma checkResponse_tracked id sent qtype cfg m (w : W) st :
  (checkResponse id sent qtype cfg m (w, st)).2.2 = st.
Proof.
  unfold checkResponse. bcase; [done|].
  by destruct (validateResponseQuestion _ _ _ _) as [[a b]|].
Qed.

Lemma give_take r st : give_back r (take_one r st) = st \/ st = None.
Proof. destruct st as [k|]; [left|by right]. cbn. by rewrite bool_decide_eq_true_2. Qed.

Lemma tcpExchange_tracked conn wire id sent qtype cfg started res (w : W) st :
  (tcpExchange conn wire id sent qtype cfg started res (w, st)).2.2 = st.
Proof.
  unfold tcpExchange. cbn [clock connDeadline tcpWrite tcpReadFull tracked].
  destruct (clock w) as [now w2]. destruct (connDeadline conn _ w2) as [[e|] w3]; [done|].
  destruct (tcpWrite conn _ w3) as [[e|] w4]; [done|].
  destruct (tcpWrite conn wire w4) as [[e|] w5]; [done|].
  destruct (tcpReadFull conn 2 w5) as [[lenBuf|e| |] w6]; try done.
  destruct (@Uint16 error lenBuf) as [size|e| |]; try done.
  bcase; [done|]. destruct (tcpReadFull conn size w6) as [[payload|e| |] w7]; try done.
  destruct (Decode payload) as [m|e| |]; try done.
  pose proof (checkResponse_tracked id sent qtype cfg m w7 st) as H.
  destruct (checkResponse id sent qtype cfg m (w7, st)) as [[e|] [w8 st']]; [done|].
  cbn in H. subst st'. by destruct (clock w8).
Qed.

Lemma queryTCP_tracked server wire id sent qtype cfg started (w : W) (k : list resource) :
  (queryTCP port server wire id sent qtype cfg started (w, Some k)).2.2 = Some k.
Proof.
  unfold queryTCP. destruct (ParseIP server) as [ip|]; [|done]. cbn [tcpDial tracked].
  destruct (tcpDial _ ip port w) as [[c|e| |] w2]; try done.
  pose proof (tcpExchange_tracked c wire id sent qtype cfg started
    (mkQueryResult server server wire "" None 0 None) w2 (take_one (RConn c) (Some k))) as H.
  destruct (tcpExchange _ _ _ _ _ _ _ _ _) as [r [w3 st]]. cbn in H. subst st.
  cbn. by rewrite bool_decide_eq_true_2.
Qed.

Lemma udpExchange_tracked conn server wire id sent qtype cfg start res (w : W) (k : list resource) :
  (udpExchange port conn server wire id sent qtype cfg start res (w, Some k)).2.2 = Some k.
Proof.
  unfold udpExchange. cbn [clock connDeadline udpWrite udpRead tracked].
  destruct (clock w) as [now w2]. destruct (connDeadline conn _ w2) as [[e|] w3]; [done|].
  destruct (ParseIP server) as [ip|]; [|done].
  destruct (udpWrite conn wire ip port w3) as [[e|] w4]; [done|].
  destruct (udpRead conn _ w4) as [[[[resp addr] aport]|e| |] w5]; try done.
  bcase; [done|]. destruct (Decode resp) as [m|e| |]; try done.
  pose proof (checkResponse_tracked id sent qtype cfg m w5 (Some k)) as H.
  destruct (checkResponse id sent qtype cfg m (w5, Some k)) as [[e|] [w6 st']]; [done|].
  cbn in H. subst st'. destruct (h_TC (m_Header m)); [apply queryTCP_tracked|]. by destruct (clock w6).
Qed.

Lemma queryOnce_tracked server qname qtype cfg (w : W) (k : list resource) :
  (queryOnce port server qname qtype cfg (w, Some k)).2.2 = Some k.
Proof.
  unfold queryOnce. cbn [clock qidAcquire qidRelease tracked]. destruct (clock w) as [start w1].
  destruct (qidAcquire w1) as [[id|e| |] w2]; try done. unfold queryWithID.
  assert (exists w3, (spell cfg qname (w2, take_one (RId id) (Some k))).2 = (w3, Some (RId id :: k)))
    as [w3 Hw].
  { unfold spell. bcase; [|by eexists]. cbn [randRead tracked]. destruct (randRead _ w2). by eexists. }
  destruct (spell cfg qname (w2, take_one (RId id) (Some k))) as [[sent|] [w4 st]]; cbn in Hw;
    injection Hw as -> ->; [|cbn; by rewrite bool_decide_eq_true_2].
  destruct (Encode _).2 as [wire|e| |]; try (cbn; by rewrite bool_decide_eq_true_2).
  cbn [udpListen tracked].
  destruct (udpListen w3) as [[c|e| |] w5]; try (cbn; by rewrite bool_decide_eq_true_2).
  set (res := set_request _ _).
  pose proof (udpExchange_tracked c server wire id sent qtype cfg start res w5
    (RConn c :: RId id :: k)) as H.
  change (take_one (RConn c) (Some (RId id :: k))) with (Some (RConn c :: RId id :: k)).
  destruct (udpExchange _ _ _ _ _ _ _ _ _ _ _) as [r [w6 st]]. cbn in H. subst st. cbn.
  rewrite bool_decide_eq_true_2 by done. cbn. by rewrite bool_decide_eq_true_2.
Qed.
End resources.

(** C35. A query keeps nothing: on every path, errors and retries included, the
    identifier and the sockets acquired for it are given back, in the reverse
    order, and nothing else is. *)
Theorem query_releases `{U : UnicodeTables} {W} {N : Network W} port done server qname qtype cfg
    (w : W) (held : list resource) :
  (queryWithRetries port done server qname qtype cfg (w, Some held)).2.2 = Some held.
Proof.
  unfold queryWithRetries. generalize (zero_result) as last, 0 as attempt.
  generalize (Z.to_nat (Retries cfg)) as n. intros n. revert w.
  induction n as [|n IH]; intros w last attempt; cbn [retry_loop]; [done|].
  pose proof (queryOnce_tracked port server qname qtype cfg w held) as H.
  destruct (queryOnce _ _ _ _ _ (w, Some held)) as [res [w1 st]]. cbn in H. subst st.
  destruct (q_err res); [|done]. cbn [randRead tracked]. destruct (randRead 2 w1) as [b w2].
  bcase; [done|]. apply IH.
Qed.

(** ** A network that answers *)

Definition sample_response : Message :=
  mkMessage (mkHeader 7 true 0 true false true true 0 0 0 0 0 0)
    [mkQuestion "wWw.example.com." TypeA ClassIN]
    [mkRR "www.example.com." TypeA ClassIN 60 (Some (AData (map byte_of_Z [198; 51; 100; 7]))) ""]
    [] [].

Definition sample_wire : bytes :=
  match (@Encode latin1 (Some sample_response)).2 with Ok w => w | _ => "" end.

(** Every query gets identifier 7 and [sample_wire] from 192.0.2.7. *)
#[local] Instance sample_network : Network unit := {|
  qidAcquire w := (Ok 7, w);
  qidRelease _ w := w;
  randRead n w := (Some (byte_of_Z 1 :: byte_of_Z 0 :: repeat (byte_of_Z 1) (n - 2)), w);
  udpListen w := (Ok 0%nat, w);
  tcpDial _ _ _ w := (Err "refused", w);
  connDeadline _ _ w := (None, w);
  connClose _ w := w;
  udpWrite _ _ _ _ w := (None, w);
  udpRead _ _ w := (Ok (sample_wire, map byte_of_Z [192; 0; 2; 7], 53), w);
  tcpWrite _ _ w := (None, w);
  tcpReadFull _ _ w := (Err "closed", w);
  securityCounter _ w := w;
  clock w := (0, w)
|}.

Definition sample_config : Config :=
  mkConfig (5 * Second) 3 10 10 true true true 4096 5 2 (30 * Second).

Lemma queryOnce_accepts_witness :
  exists m (log : list net_event) conn wire ip id,
    q_message (@queryOnce latin1 _ _ 53 "192.0.2.7" "www.example.com" TypeA sample_config tt).1 = Some m
    /\ h_ID (m_Header m) = id /\ Acquired id ∈ log /\ Sent conn wire ip 53 ∈ log.
Proof.
  pose proof (queryOnce_accepts (U := latin1) 53 "192.0.2.7" "www.example.com" TypeA sample_config tt) as H.
  destruct (queryOnce _ _ _ _ _ (tt, [] : list net_event)) as [res [w' log]] eqn:E.
  destruct H as [H1 H2]. rewrite H1. cbn [fst].
  assert (q_err res = None) as He.
  { replace res with (res, w').1 by reflexivity. rewrite <- H1. vm_compute. reflexivity. }
  destruct (H2 He) as (id & sent & drawn & conn & wire & ip & m & rest & El & _ & _ & _ & Ha).
  exists m, log, conn, wire, ip, id. rewrite El.
  assert (accepts id sent TypeA sample_config res m) as (Hm & _ & [Hi _]) by (by destruct Ha).
  split; [exact Hm|]. split; [exact Hi|]. split; [left|].
  right. apply elem_of_app. right. right. left.
Defined.

(** The same response from another address is refused. *)
Example other_source_refused :
  q_err (@queryOnce latin1 _ _ 53 "192.0.2.8" "www.example.com" TypeA sample_config tt).1
  = Some "response source mismatch".
Proof. vm_compute. reflexivity. Qed.

(** A spelling that was not sent is refused. *)
Example other_spelling_refused :
  q_err (@queryOnce latin1 _ _ 53 "192.0.2.7" "vww.example.com" TypeA sample_config tt).1
  = Some "response qname mismatch".
Proof. vm_compute. reflexivity. Qed.
