(* ===== verification/Race.v ===== *)
(** * queryFastest of internal/resolver/iterative.go: asking all servers at once.

    The goroutines, the channel of results and the loop that collects them are
    a transition system.  A step is what happens between two synchronisations;
    other resolutions, which share the circuit breakers and the statistics, may
    change those at any time. *)

From S2P Require Import Prelude.
From S2P Require Import GoStrings.
From S2P Require Import GoTime.
From S2P Require Import Protocol.
From S2P Require Import Names.
From S2P Require Import CircuitBreaker.
From S2P Require Import Pipeline.
From S2P Require Import Hints.
From S2P Require Import Recursive.
From S2P Require Import Iterative.

#[local] Open Scope go_scope.

(** ** State shared by all resolutions: resolver.go *)

Record shared := mkShared {
  sh_breakers : gmap bytes CircuitBreaker;
  sh_upstream : gmap bytes UpstreamStatus
}.

Definition getBreakerLocked (server : bytes) (cfg : Config) (breakers : gmap bytes CircuitBreaker)
  : CircuitBreaker * gmap bytes CircuitBreaker :=
  match breakers !! server with
  | Some cb => (cb, breakers)
  | None =>
      let cb := NewCircuitBreaker (CBFailureThreshold cfg) (CBSuccessThreshold cfg)
                  (CBOpenTimeout cfg) in
      (cb, <[server := cb]> breakers)
  end.

(** [getBreaker] followed by [Allow]. *)
Definition breakerAllow (now : Z) (server : bytes) (cfg : Config) (sh : shared) : bool * shared :=
  let '(cb, breakers) := getBreakerLocked server cfg (sh_breakers sh) in
  let '(ok, cb) := Allow now cb in
  (ok, mkShared (<[server := cb]> breakers) (sh_upstream sh)).

Definition breakerReport (now : Z) (server : bytes) (failed : bool) (sh : shared) : shared :=
  match sh_breakers sh !! server with
  | Some cb =>
      mkShared (<[server := if failed then OnFailure now cb else OnSuccess cb]> (sh_breakers sh))
        (sh_upstream sh)
  | None => sh
  end.

Definition observeUpstreamResult (now : Z) (server serverName : bytes) (latency : Z)
    (err : option bytes) (upstream : gmap bytes UpstreamStatus) : gmap bytes UpstreamStatus :=
  if bool_decide (TrimSpace server = "") then upstream else
  let s := default zero_status (upstream !! server) in
  let name := if negb (bool_decide (TrimSpace serverName = ""))
                 && negb (bool_decide (serverName = server)) then serverName else us_ServerName s in
  let last := if 0 <? latency then Z.quot latency Millisecond else us_LastLatency s in
  let '(text, ok, failed) :=
    match err with
    | Some e => (e, us_TotalSuccesses s, u64 (us_TotalFailures s + 1))
    | None => ("", u64 (us_TotalSuccesses s + 1), us_TotalFailures s)
    end in
  <[server := mkUpstreamStatus server name last now (us_State s) (us_StateCode s)
                (us_ConsecutiveFailures s) (us_LastFailure s) text ok failed]> upstream.

Definition observe (now : Z) (server serverName : bytes) (latency : Z) (err : option bytes)
    (sh : shared) : shared :=
  mkShared (sh_breakers sh)
    (observeUpstreamResult now server serverName latency err (sh_upstream sh)).

(** ** The race *)

(** A goroutine that waits for its server, or has reported and is about to send. *)
Inductive goroutine := Waiting (server : bytes) | Sending (res : queryResult).

(** The main function: starting goroutines, collecting results, or done. *)
Inductive main :=
| Spawning (rest : list bytes) (started : Z)
| Collecting
| Returned (msg : option Message) (events : list ResolutionEvent) (err : option bytes).

Record race := mkRace {
  r_main : main;
  r_goroutines : list goroutine;
  r_chan : list queryResult;
  r_waiter : bool;   (* the goroutine that closes the channel was started *)
  r_closed : bool;
  r_events : list ResolutionEvent;
  r_firstErr : option bytes;
  r_shared : shared
}.

Section race.
Context {U : UnicodeTables} (queryID : bytes) (hop : Z) (qname : bytes) (qtype : Z) (cfg : Config).
Context (servers : list bytes).

(** [make(chan queryResult, len(servers))] *)
Definition chan_cap : Z := len servers.

(** What [queryFastest] does first. *)
Definition race_start (sh : shared) : race :=
  if len servers =? 0
  then mkRace (Returned None [] (Some "no upstream servers")) [] [] false false [] None sh
  else mkRace (Spawning servers 0) [] [] false false [] None sh.

Definition circuit_open (server : bytes) : queryResult :=
  mkQueryResult server "" "" "" None 0 (Some "circuit open").

(** The event of a received result. *)
Definition result_event (now : Z) (res : queryResult) : ResolutionEvent :=
  mkEvent queryID now hop (stepTypeFor hop) (q_server res) (q_serverName res) (normalizeFQDN qname)
    (TypeToString qtype) (Z.quot (q_latency res) Millisecond)
    (match q_err res with None => true | Some _ => false end)
    (q_requestWire res) (q_responseWire res) (q_message res)
    (match q_err res with None => "" | Some e => e end).

(** The result that ends the race. *)
Definition wins (res : queryResult) : option Message :=
  match q_err res with None => q_message res | Some _ => None end.

Inductive race_step : race -> race -> Prop :=
(** the breaker admits the query: a goroutine starts *)
| spawn_go now s rest n gs ch ev fe sh sh' :
    breakerAllow now s cfg sh = (true, sh') ->
    race_step (mkRace (Spawning (s :: rest) n) gs ch false false ev fe sh)
      (mkRace (Spawning rest (n + 1)) (Waiting s :: gs) ch false false ev fe sh')
(** the breaker is open: the error is recorded and sent to the channel *)
| spawn_open now now' s rest n gs ch ev fe sh sh' :
    breakerAllow now s cfg sh = (false, sh') -> len ch < chan_cap ->
    race_step (mkRace (Spawning (s :: rest) n) gs ch false false ev fe sh)
      (mkRace (Spawning rest n) gs (ch ++ [circuit_open s]) false false ev fe
         (observe now' s "" 0 (Some "circuit open") sh'))
| spawn_none gs ch ev fe sh :
    race_step (mkRace (Spawning [] 0) gs ch false false ev fe sh)
      (mkRace (Returned None [] (Some "all circuits open")) gs ch false false ev fe sh)
| spawn_done n gs ch ev fe sh :
    0 < n ->
    race_step (mkRace (Spawning [] n) gs ch false false ev fe sh)
      (mkRace Collecting gs ch true false ev fe sh)
(** a goroutine ends its query with some result, reports it and then sends it *)
| finish now now' gs1 s gs2 res m ch wt cl ev fe sh :
    race_step (mkRace m (gs1 ++ Waiting s :: gs2) ch wt cl ev fe sh)
      (mkRace m (gs1 ++ Sending res :: gs2) ch wt cl ev fe
         (observe now' s (q_serverName res) (q_latency res) (q_err res)
            (breakerReport now s (match q_err res with Some _ => true | None => false end) sh)))
| send gs1 res gs2 m ch wt ev fe sh :
    len ch < chan_cap ->
    race_step (mkRace m (gs1 ++ Sending res :: gs2) ch wt false ev fe sh)
      (mkRace m (gs1 ++ gs2) (ch ++ [res]) wt false ev fe sh)
(** the goroutine that waits for the others closes the channel *)
| close m ch ev fe sh :
    race_step (mkRace m [] ch true false ev fe sh) (mkRace m [] ch true true ev fe sh)
(** the main function receives *)
| receive_winner now gs res ch wt cl ev fe sh m :
    wins res = Some m ->
    race_step (mkRace Collecting gs (res :: ch) wt cl ev fe sh)
      (mkRace (Returned (Some m) (ev ++ [result_event now res]) None) gs ch wt cl
         (ev ++ [result_event now res]) fe sh)
| receive_loser now gs res ch wt cl ev fe sh :
    wins res = None ->
    race_step (mkRace Collecting gs (res :: ch) wt cl ev fe sh)
      (mkRace Collecting gs ch wt cl (ev ++ [result_event now res])
         (match fe with None => q_err res | Some _ => fe end) sh)
| receive_closed gs wt ev fe sh :
    race_step (mkRace Collecting gs [] wt true ev fe sh)
      (mkRace (Returned None ev
                 (Some (match fe with Some e => e | None => "all upstream queries failed" end)))
         gs [] wt true ev fe sh)
(** another resolution *)
| elsewhere m gs ch wt cl ev fe sh sh' :
    race_step (mkRace m gs ch wt cl ev fe sh) (mkRace m gs ch wt cl ev fe sh').

Definition reachable (sh : shared) : race -> Prop := rtc race_step (race_start sh).

(** ** Invariants *)

(** The event of a result that does not end the race. *)
Definition loses (e : ResolutionEvent) : Prop := ev_Success e = true -> ev_ParsedMsg e = None.

Definition outcome_ok (msg : option Message) (ev : list ResolutionEvent) (err : option bytes) : Prop :=
  match msg with
  | Some m => err = None /\ exists ev' e, ev = ev' ++ [e] /\ ev_Success e = true
                /\ ev_ParsedMsg e = Some m /\ Forall loses ev'
  | None => is_Some err /\ Forall loses ev /\ (ev = [] \/ len ev = len servers)
  end.

(** Every server is still to be started, under way, in the channel or received. *)
Record race_inv (r : race) : Prop := {
  ri_count : (match r_main r with Spawning rest _ => len rest | _ => 0 end)
             + len (r_goroutines r) + len (r_chan r) + len (r_events r) = len servers;
  ri_closed : r_closed r = true -> r_goroutines r = [] /\ r_waiter r = true;
  ri_main : match r_main r with
            | Spawning _ n => 0 <= n /\ r_events r = [] /\ r_waiter r = false
            | Collecting => Forall loses (r_events r) /\ r_waiter r = true
            | Returned msg ev err => outcome_ok msg ev err
            end
}.

Lemma wins_event now res : wins res = None -> loses (result_event now res).
Proof. unfold wins, loses, result_event. cbn. by destruct (q_err res). Qed.

Lemma race_start_inv sh : race_inv (race_start sh).
Proof.
  unfold race_start. bcase; split; cbn; try done.
  - change (0 + 0 + 0 + 0 = len servers). lia.
  - ands; [by eexists|constructor|by left].
  - change (len servers + 0 + 0 + 0 = len servers). lia.
Qed.

Lemma race_step_inv r r' : race_inv r -> race_step r r' -> race_inv r'.
Proof.
  intros [Hc Hcl Hm] Hs. destruct Hs; cbn [r_main r_goroutines r_chan r_waiter r_closed r_events] in *;
    split; cbn [r_main r_goroutines r_chan r_waiter r_closed r_events];
    try len_lia; try done; try naive_solver lia.
  - destruct Hm as (_ & -> & _). unfold outcome_ok. ands; [by eexists|constructor|by left].
  - destruct Hm as (_ & -> & _). split; [constructor|done].
  - intros Hx. apply Hcl in Hx as [Hx _]. by destruct gs1.
  - split; [done|]. eexists ev, _. ands; [done| | |apply Hm]; unfold wins in *; cbn.
    + by destruct (q_err res).
    + by destruct (q_err res).
  - split; [|apply Hm]. apply Forall_app. split; [apply Hm|]. constructor; [|done]. by apply wins_event.
  - destruct Hm as [Hm _]. unfold outcome_ok. ands; [by eexists|done|right].
    destruct (Hcl eq_refl) as [-> _]. len_lia.
Qed.

Lemma reachable_inv sh r : reachable sh r -> race_inv r.
Proof.
  intros H. unfold reachable in H. pose proof (race_start_inv sh) as Hi. revert Hi.
  induction H as [|r1 r2 r3 Hs _ IH]; [done|]. intros Hi. apply IH. by eapply race_step_inv.
Qed.

(** What is left to do: every step but those of other resolutions does some. *)
Definition goroutine_work (g : goroutine) : Z := match g with Waiting _ => 3 | Sending _ => 2 end.
Definition work_left (r : race) : Z :=
  (match r_main r with Spawning rest _ => 4 * len rest + 3 | Collecting => 2 | Returned _ _ _ => 0 end)
  + foldr Z.add 0 (map goroutine_work (r_goroutines r)) + len (r_chan r)
  + (if r_closed r then 0 else 1).

Lemma work_app gs1 gs2 :
  foldr Z.add 0 (map goroutine_work (gs1 ++ gs2)) =
  foldr Z.add 0 (map goroutine_work gs1) + foldr Z.add 0 (map goroutine_work gs2).
Proof. induction gs1 as [|g gs1 IH]; cbn; [done|]. rewrite IH. lia. Qed.

Lemma race_step_work r r' :
  race_step r r' -> work_left r' < work_left r \/ exists sh, r' = mkRace (r_main r) (r_goroutines r)
    (r_chan r) (r_waiter r) (r_closed r) (r_events r) (r_firstErr r) sh.
Proof.
  intros Hs. destruct Hs; [left..|right; by eexists]; unfold work_left;
    cbn [r_main r_goroutines r_chan r_closed]; rewrite ?work_app; cbn [map foldr goroutine_work];
    try (destruct cl); len_lia.
Qed.

(** A race that has not returned can go on, with some work done. *)
Lemma race_progress r :
  race_inv r -> (exists msg ev err, r_main r = Returned msg ev err) \/
  exists r', race_step r r' /\ work_left r' < work_left r.
Proof.
  intros [Hc Hcl Hm]. destruct r as [m gs ch wt cl ev fe sh].
  cbn [r_main r_goroutines r_chan r_waiter r_closed r_events] in *.
  assert (forall r', race_step (mkRace m gs ch wt cl ev fe sh) r' ->
    r_main r' <> m \/ len (r_goroutines r') <> len gs \/ len (r_chan r') <> len ch
    \/ r_closed r' <> cl \/ r_goroutines r' <> gs ->
    exists r', race_step (mkRace m gs ch wt cl ev fe sh) r'
      /\ work_left r' < work_left (mkRace m gs ch wt cl ev fe sh)) as Hgo.
  { intros r' Hs Hd. exists r'. split; [done|].
    destruct (race_step_work _ _ Hs) as [|[sh' ->]]; [done|]. cbn in Hd. naive_solver. }
  destruct m as [[|s rest] n| |msg ev' err]; [right..|left; by eexists _, _, _].
  - destruct Hm as (Hn & -> & ->). destruct cl; [by destruct (Hcl eq_refl)|].
    destruct (decide (n = 0)) as [->|].
    + eapply Hgo; [apply spawn_none|]. by left.
    + eapply Hgo; [apply spawn_done; lia|]. by left.
  - destruct Hm as (Hn & -> & ->). destruct cl; [by destruct (Hcl eq_refl)|].
    destruct (breakerAllow 0 s cfg sh) as [[] sh'] eqn:E.
    + eapply Hgo; [by eapply spawn_go|]. left. cbn. intros [= H]. by apply (f_equal length) in H; cbn in H; lia.
    + eapply Hgo; [eapply (spawn_open 0 0); [done|unfold chan_cap; len_lia]|]. left. cbn.
      intros [= H]. by apply (f_equal length) in H; cbn in H; lia.
  - destruct Hm as [_ ->]. destruct ch as [|res ch].
    + destruct gs as [|[s|res] gs].
      * destruct cl; [eapply Hgo; [apply receive_closed|]; by left|].
        eapply Hgo; [apply close|]. cbn. auto.
      * eapply Hgo; [apply (finish 0 0 [] s gs zero_result)|]. cbn. do 4 right. done.
      * destruct cl; [by destruct (Hcl eq_refl)|].
        eapply Hgo; [apply (send [] res gs); unfold chan_cap; len_lia|]. cbn. right. left. len_lia.
    + destruct (wins res) as [m|] eqn:E.
      * eapply Hgo; [by apply (receive_winner 0)|]. by left.
      * eapply Hgo; [by apply (receive_loser 0)|]. cbn. right. right. left. len_lia.
Qed.
End race.

(** C21. Asking many servers at once cannot get stuck.  Whatever the servers
    answer and in whatever order: a goroutine that has its result can always
    put it in the channel, which has room and is not closed, also after the
    race was decided; until the function returns there is always a next step;
    every step leaves less to do, those of other resolutions aside, which
    leave the race as it is. *)
Theorem race_never_blocks `{U : UnicodeTables} queryID hop qname qtype cfg servers sh r :
  reachable queryID hop qname qtype cfg servers sh r ->
  (forall res, Sending res ∈ r_goroutines r ->
     r_closed r = false /\ len (r_chan r) < chan_cap servers)
  /\ ((exists msg ev err, r_main r = Returned msg ev err) \/
       exists r', race_step queryID hop qname qtype cfg servers r r' /\ work_left r' < work_left r)
  /\ (forall r', race_step queryID hop qname qtype cfg servers r r' ->
       work_left r' < work_left r \/
       exists sh', r' = mkRace (r_main r) (r_goroutines r) (r_chan r) (r_waiter r) (r_closed r)
                          (r_events r) (r_firstErr r) sh').
Proof.
  intros Hr. apply reachable_inv in Hr as Hi. ands.
  - intros res Hres. destruct Hi as [Hc Hcl Hm].
    assert (0 < len (r_goroutines r)).
    { destruct (r_goroutines r); [by apply elem_of_nil in Hres|len_lia]. }
    split; [|unfold chan_cap; pose proof (len_nonneg (r_events r)); destruct (r_main r); len_lia].
    destruct (r_closed r); [|done]. destruct (Hcl eq_refl) as [E _]. rewrite E in Hres.
    by apply elem_of_nil in Hres.
  - by apply race_progress.
  - intros r'. apply race_step_work.
Qed.

(** C29. What the race returns: the message of the first result received that
    has one, with the events of the results received until then; an error only
    when no server was asked or the results of all of them are failures. *)
Theorem race_result `{U : UnicodeTables} queryID hop qname qtype cfg servers sh r msg ev err :
  reachable queryID hop qname qtype cfg servers sh r -> r_main r = Returned msg ev err ->
  match msg with
  | Some m => err = None /\ exists ev' e, ev = ev' ++ [e] /\ ev_Success e = true
                /\ ev_ParsedMsg e = Some m /\ Forall loses ev'
  | None => is_Some err /\ Forall loses ev /\ (ev = [] \/ len ev = len servers)
  end.
Proof. intros Hr Hm. apply reachable_inv in Hr as [_ _ Hi]. by rewrite Hm in Hi. Qed.

(** ** A run with two servers *)

Definition race_cfg : Config := mkConfig (5 * Second) 3 10 10 true true true 4096 5 2 (30 * Second).
Definition race_msg : Message := mkMessage zero_header [] [] [] [].
Definition lost : queryResult := mkQueryResult "b" "b" "" "" None 0 (Some "read response").
Definition won : queryResult := mkQueryResult "a" "a" "" "" (Some race_msg) 0 None.

(** The second server fails first, the first one then answers. *)
Lemma race_run : exists r ev, @reachable latin1 "q" 1 "x." TypeA race_cfg ["a"; "b"] (mkShared ∅ ∅) r
  /\ r_main r = Returned (Some race_msg) ev None /\ len ev = 2.
Proof.
  eexists _, _. split.
  - unfold reachable, race_start. cbn.
    eapply rtc_l; [eapply (spawn_go _ _ _ _ _ _ 0); reflexivity|].
    eapply rtc_l; [eapply (spawn_go _ _ _ _ _ _ 0); reflexivity|].
    eapply rtc_l; [eapply spawn_done; lia|].
    eapply rtc_l; [eapply (finish _ _ _ _ _ _ 0 0 [] _ _ lost)|].
    eapply rtc_l; [eapply (send _ _ _ _ _ _ []); done|].
    eapply rtc_l; [eapply (finish _ _ _ _ _ _ 0 0 [] _ _ won)|].
    eapply rtc_l; [eapply (send _ _ _ _ _ _ []); done|].
    eapply rtc_l; [eapply (receive_loser _ _ _ _ _ _ 0); reflexivity|].
    eapply rtc_l; [eapply (receive_winner _ _ _ _ _ _ 0); reflexivity|].
    apply rtc_refl.
  - split; reflexivity.
Defined.

Lemma race_never_blocks_witness : exists r,
  @reachable latin1 "q" 1 "x." TypeA race_cfg ["a"; "b"] (mkShared ∅ ∅) r
  /\ ((exists msg ev err, r_main r = Returned msg ev err) \/
       exists r', @race_step latin1 "q" 1 "x." TypeA race_cfg ["a"; "b"] r r'
         /\ work_left r' < work_left r).
Proof.
  destruct race_run as (r & ev & Hr & _). exists r. split; [exact Hr|].
  exact (proj1 (proj2 (race_never_blocks (U := latin1) _ _ _ _ _ _ _ _ Hr))).
Defined.

Lemma race_result_witness : exists r ev,
  @reachable latin1 "q" 1 "x." TypeA race_cfg ["a"; "b"] (mkShared ∅ ∅) r
  /\ exists ev' e, ev = ev' ++ [e] /\ ev_ParsedMsg e = Some race_msg.
Proof.
  destruct race_run as (r & ev & Hr & Hm & _). exists r, ev. split; [exact Hr|].
  destruct (race_result (U := latin1) _ _ _ _ _ _ _ _ _ _ _ Hr Hm) as (_ & ev' & e & E1 & _ & E2 & _).
  by exists ev', e.
Defined.
