(* ===== verification/GoParse.v ===== *)
(** * package strconv: ParseBool, Atoi and ParseFloat. *)

From S2P Require Import Prelude.
From S2P Require Import GoStrings.
From S2P Require Import GoTime.
From S2P Require Import GoNet.
From S2P Require Import GoFloat.
From Stdlib Require Import Floats.SpecFloat.

#[local] Open Scope go_scope.

(** ** ParseBool *)

Definition ParseBool (s : bytes) : option bool :=
  if bool_decide (s ∈ ["1"; "t"; "T"; "true"; "TRUE"; "True"]) then Some true
  else if bool_decide (s ∈ ["0"; "f"; "F"; "false"; "FALSE"; "False"]) then Some false
  else None.

(** ** Atoi *)

(** The sign of a number and what follows. *)
Definition parse_sign (s : bytes) : bool * bytes :=
  match s with
  | "+"%char :: k => (false, k)
  | "-"%char :: k => (true, k)
  | _ => (false, s)
  end.

(** The value and whether there was no error; a number out of range is an error
    with the nearest [int] as its value. *)
Definition Atoi_err (s : bytes) : Z * bool :=
  let '(neg, d) := parse_sign s in
  if bool_decide (d = "") || negb (forallb is_digit d) then (0, false) else
  let v := if neg then - digits_value d else digits_value d in
  if v <? MinInt64 then (MinInt64, false) else
  if MaxInt64 <? v then (MaxInt64, false) else (v, true).

Definition Atoi (s : bytes) : option Z :=
  let '(v, ok) := Atoi_err s in if ok then Some v else None.

(** [n, _ := strconv.Atoi(s)] *)
Definition Atoi_value (s : bytes) : Z := (Atoi_err s).1.

(** ** ParseFloat *)

(** [num / den] rounded to nearest even: the quotient to 66 bits at least, and
    one more bit for what is lost. *)
Definition f_of_ratio (neg : bool) (num den : Z) : float64 :=
  if num =? 0 then S754_zero neg else
  let shift := Z.max 0 (Z.log2 den - Z.log2 num + 66) in
  let n := Z.shiftl num shift in
  let m := 2 * (n / den) + (if n mod den =? 0 then 0 else 1) in
  binary_normalize 53 1024 (if neg then - m else m) (- (shift + 1)) neg.

Definition lower (c : byte) : Z := Z.lor (Z_of_byte c) 0x20.

(** How many bytes of [s] and of the lower-case [prefix] agree. *)
Fixpoint commonPrefixLenIgnoreCase (s prefix : bytes) : Z :=
  match s, prefix with
  | c :: k, p :: q =>
      let z := Z_of_byte c in
      let z := if (65 <=? z) && (z <=? 90) then z + 32 else z in
      if z =? Z_of_byte p then 1 + commonPrefixLenIgnoreCase k q else 0
  | _, _ => 0
  end.

(** [special] when it takes the whole string. *)
Definition special (s : bytes) : option float64 :=
  let '(neg, d) := parse_sign s in
  let n := commonPrefixLenIgnoreCase d "infinity" in
  let n := if (3 <? n) && (n <? 8) then 3 else n in
  if ((n =? 3) || (n =? 8)) && (n =? len d) then Some (S754_infinity neg)
  else if (commonPrefixLenIgnoreCase s "nan" =? 3) && (len s =? 3) then Some S754_nan
  else None.

(** Underscores only between digits, or a digit and the prefix of a base;
    [last] is the class of the byte before. *)
Fixpoint underscore_loop (hex : bool) (s : bytes) (last : ascii) : bool :=
  match s with
  | [] => negb (bool_decide (last = "_"%char))
  | c :: k =>
      if is_digit c || (hex && (97 <=? lower c) && (lower c <=? 102)) then underscore_loop hex k "0"
      else if bool_decide (c = "_"%char) then
        if bool_decide (last = "0"%char) then underscore_loop hex k "_" else false
      else if bool_decide (last = "_"%char) then false
      else underscore_loop hex k "!"
  end.
Definition underscoreOK (s : bytes) : bool :=
  let s := (parse_sign s).2 in
  match s with
  | "0"%char :: b :: k =>
      if (lower b =? 98) || (lower b =? 111) || (lower b =? 120)
      then underscore_loop (lower b =? 120) k "0" else underscore_loop false s "^"
  | _ => underscore_loop false s "^"
  end.

(** The mantissa [readFloat] reads: its value as an integer, how many digits it
    has after the leading zeros, how many are before the point ([None] without
    one), whether any digit or underscore was seen, and what follows. *)
Record mantissa := mkMantissa {
  mant : Z; nd : Z; dp : option Z; sawdigits : bool; underscores : bool
}.

Fixpoint read_mantissa (hex : bool) (s : bytes) (m : mantissa) : mantissa * bytes :=
  let base := if hex then 16 else 10 in
  match s with
  | [] => (m, [])
  | c :: k =>
      if bool_decide (c = "_"%char) then
        read_mantissa hex k (mkMantissa (mant m) (nd m) (dp m) (sawdigits m) true)
      else if bool_decide (c = "."%char) then
        match dp m with
        | Some _ => (m, s)
        | None => read_mantissa hex k (mkMantissa (mant m) (nd m) (Some (nd m)) (sawdigits m) (underscores m))
        end
      else if bool_decide (c = "0"%char) && (nd m =? 0) then
        read_mantissa hex k
          (mkMantissa 0 0 ((fun d => d - 1) <$> dp m) true (underscores m))
      else if is_digit c || (hex && (97 <=? lower c) && (lower c <=? 102)) then
        read_mantissa hex k
          (mkMantissa (mant m * base + default 0 (hex_value c)) (nd m + 1) (dp m) true (underscores m))
      else (m, s)
  end.

(** The digits of the exponent, which stops growing at five of them; the last
    component tells whether an underscore was seen. *)
Fixpoint read_exponent (s : bytes) (e : Z) (us : bool) : Z * bool * bytes :=
  match s with
  | c :: k =>
      if bool_decide (c = "_"%char) then read_exponent k e true
      else if is_digit c then
        read_exponent k (if e <? 10000 then e * 10 + (Z_of_byte c - 48) else e) us
      else (e, us, s)
  | [] => (e, us, [])
  end.

(** [readFloat] on the whole string: the sign, the base, the mantissa and the
    exponent of the base (ten or two). *)
Definition readFloat (s : bytes) : option (bool * bool * Z * Z) :=
  let '(neg, d) := parse_sign s in
  let '(hex, d) := match d with
                   | "0"%char :: x :: ((_ :: _) as k) =>
                       if lower x =? 120 then (true, k) else (false, d)
                   | _ => (false, d)
                   end in
  let '(m, rest) := read_mantissa hex d (mkMantissa 0 0 None false false) in
  if negb (sawdigits m) then None else
  let point := default (nd m) (dp m) in
  let exp := (if hex then 4 else 1) * (point - nd m) in
  let finish e us rest :=
    if negb (bool_decide (rest = [])) then None
    else if (underscores m || us) && negb (underscoreOK s) then None
    else Some (neg, hex, mant m, exp + e) in
  match rest with
  | x :: k =>
      if lower x =? (if hex then 112 else 101) then
        let '(eneg, k) := parse_sign k in
        match k with
        | c :: _ =>
            if is_digit c then
              let '(e, us, rest) := read_exponent k 0 false in
              finish (if eneg then - e else e) us rest
            else None
        | [] => None
        end
      else None
  | [] => if hex then None else finish 0 false []
  end.

(** [None] for a syntax error and for a number out of range. *)
Definition ParseFloat (s : bytes) : option float64 :=
  match special s with
  | Some f => Some f
  | None =>
      match readFloat s with
      | None => None
      | Some (neg, hex, m, e) =>
          let f :=
            if m =? 0 then S754_zero neg
            else if hex then f_of_ratio neg (m * 2 ^ Z.min 3000 (Z.max 0 e)) (2 ^ Z.max 0 (- e))
            else
              let digits := len (itoa_loop (S (Z.to_nat (Z.log2 m))) m []) + e in
              if 310 <? digits then S754_infinity neg
              else if digits <? -330 then S754_zero neg
              else f_of_ratio neg (m * 10 ^ Z.max 0 e) (10 ^ Z.max 0 (- e)) in
          match f with S754_infinity _ => None | _ => Some f end
      end
  end.

(** ** Examples *)

Example ParseFloat_100 : ParseFloat "100" = Some (f_of_int 100).
Proof. by vm_compute. Qed.
Example ParseFloat_fraction : ParseFloat "-1_23.50_0_0e+1_2" = Some (f_of_int (-123500000000000)).
Proof. by vm_compute. Qed.
Example ParseFloat_bad : map ParseFloat [""; "+"; "1__2"; "_1"; "1_"; "1e"; "1e400"; "0x1"; "+nan"; "1 "]
  = repeat None 10.
Proof. by vm_compute. Qed.
Example ParseFloat_hex : ParseFloat "0x1.8p1" = Some (f_of_int 3).
Proof. by vm_compute. Qed.
(** 4.9406564584124654e-324 is the least positive number. *)
Example ParseFloat_denormal : ParseFloat "4.9406564584124654e-324" = Some (S754_finite false 1 (-1074)).
Proof. by vm_compute. Qed.
Example ParseFloat_tenth : ParseFloat "0.1" = Some (S754_finite false 7205759403792794 (-56)).
Proof. by vm_compute. Qed.
Example Atoi_ok : map Atoi ["0"; "-12"; "+7"; "9223372036854775807"; "9223372036854775808"; ""; "1x"]
  = [Some 0; Some (-12); Some 7; Some MaxInt64; None; None; None].
Proof. by vm_compute. Qed.
