(* ===== verification/GoFormat.v ===== *)
(** * strconv.FormatFloat, strconv.Quote and the verb %v of fmt for a float64. *)

From S2P Require Import Prelude.
From S2P Require Import GoStrings.
From S2P Require Import GoNet.
From S2P Require Import GoFloat.
From S2P Require Import GoParse.
From Stdlib Require Import Floats.SpecFloat.

#[local] Open Scope go_scope.

(** ** The shortest decimal *)

(** The decimal digits of a positive integer, as many as it has. *)
Definition decimal (n : Z) : bytes := itoa_loop (S (Z.to_nat (Z.log2 n))) n [].

(** The exponent [dp] with 10^(dp-1) <= num/den < 10^dp. *)
Definition decimal_point (num den : Z) : Z :=
  if den <=? num then len (decimal (num / den))
  else let c := (den + num - 1) / num in 1 - len (decimal (c - 1)).

(** [num/den] cut to [n] digits: the digits, the exponent of the last one, and
    twice what is cut off compared to one unit of the last digit. *)
Definition cut_digits (num den n : Z) : Z * Z * comparison :=
  let p := decimal_point num den - n in
  let num := num * 10 ^ Z.max 0 (- p) in
  let den := den * 10 ^ Z.max 0 p in
  (num / den, p, Z.compare (2 * (num mod den)) den).

Definition read_back (d p : Z) : float64 := f_of_ratio false (d * 10 ^ Z.max 0 p) (10 ^ Z.max 0 (- p)).

(** The first number of digits, from [n] on, with a decimal that reads back as
    [f]; of two such decimals the nearer one.  Seventeen digits are enough for
    every float64, so the search has seventeen steps. *)
Fixpoint shortest (fuel : nat) (f : float64) (num den n : Z) : Z * Z :=
  let '(d, p, c) := cut_digits num den n in
  match fuel with
  | O => (d, p)
  | S fuel' =>
      let down := SFeqb (read_back d p) f in
      let up := SFeqb (read_back (d + 1) p) f in
      match down, up with
      | true, true =>
          match c with
          | Lt => (d, p)
          | Gt => (d + 1, p)
          | Eq => if Z.even d then (d, p) else (d + 1, p)
          end
      | true, false => (d, p)
      | false, true => (d + 1, p)
      | false, false => shortest fuel' f num den (n + 1)
      end
  end.

Fixpoint strip_zeros (s : bytes) : bytes :=
  match s with
  | [] => []
  | c :: k => match strip_zeros k with
              | [] => if decide (c = "0"%char) then [] else [c]
              | k' => c :: k'
              end
  end.

(** The digits without trailing zeros and the position of the point, as
    [decimalSlice] has them. *)
Definition shortest_digits (m : positive) (e : Z) : bytes * Z :=
  let num := Zpos m * 2 ^ Z.max 0 e in
  let den := 2 ^ Z.max 0 (- e) in
  let '(d, p) := shortest 17 (S754_finite false m e) num den 1 in
  let s := decimal d in
  (strip_zeros s, len s + p).

(** ** Formats *)

Definition zeros (n : Z) : bytes := repeat "0"%char (Z.to_nat n).

(** [fmtF] with as many decimals as there are digits *)
Definition fmtF (neg : bool) (digits : bytes) (dp : Z) : bytes :=
  (if neg then "-" else "")
  ++ (if 0 <? dp then take (Z.to_nat dp) digits ++ zeros (dp - len digits) else "0")
  ++ (if dp <? len digits then "." ++ zeros (- dp) ++ drop (Z.to_nat dp) digits else "").

(** [fmtE] with as many decimals as there are digits *)
Definition fmtE (neg : bool) (digits : bytes) (dp : Z) : bytes :=
  let exp := dp - 1 in
  (if neg then "-" else "")
  ++ take 1 digits ++ (if 1 <? len digits then "." ++ drop 1 digits else "")
  ++ "e" ++ (if exp <? 0 then "-" else "+")
  ++ (if Z.abs exp <? 10 then "0" else "") ++ itoa (Z.abs exp).

(** [strconv.FormatFloat(f, 'f', -1, 64)] *)
Definition FormatFloat_f (f : float64) : bytes :=
  match f with
  | S754_nan => "NaN"
  | S754_infinity neg => if neg then "-Inf" else "+Inf"
  | S754_zero neg => fmtF neg [] 0
  | S754_finite neg m e => let '(digits, dp) := shortest_digits m e in fmtF neg digits dp
  end.

(** [fmt.Sprintf] of a float64 with %v: format 'g' with the shortest digits,
    which has an exponent from the sixth place on. *)
Definition float_v (f : float64) : bytes :=
  match f with
  | S754_nan => "NaN"
  | S754_infinity neg => if neg then "-Inf" else "+Inf"
  | S754_zero neg => fmtF neg [] 0
  | S754_finite neg m e =>
      let '(digits, dp) := shortest_digits m e in
      let exp := dp - 1 in
      if (exp <? -4) || (6 <=? exp) then fmtE neg digits dp else fmtF neg digits dp
  end.

(** ** Quoting *)

(** [strconv.Quote], also the verb %q of fmt *)
Section quote.
Context {U : UnicodeTables}.

Definition IsPrint (r : Z) : bool :=
  if r <? 0x100 then (0x20 <=? r) && (r <? 0x7f) || (0xa1 <=? r) && negb (r =? 0xad)
  else unicode_print r.

Definition hex_digits (n : nat) (r : Z) : bytes :=
  map (fun i => hex_digit (Z.land (Z.shiftr r (4 * Z.of_nat (n - 1 - i))) 15)) (seq 0 n).

(** [appendEscapedRune] of a rune that [DecodeRune] returned *)
Definition appendEscapedRune (r : Z) : bytes :=
  if (r =? 0x22) || (r =? 0x5c) then [byte_of_Z 0x5c; byte_of_Z r]
  else if IsPrint r then EncodeRune r
  else if r =? 7 then "\a" else if r =? 8 then "\b" else if r =? 12 then "\f"
  else if r =? 10 then "\n" else if r =? 13 then "\r" else if r =? 9 then "\t"
  else if r =? 11 then "\v"
  else if (r <? 0x20) || (r =? 0x7f) then "\x" ++ hex_digits 2 r
  else if r <? 0x10000 then "\u" ++ hex_digits 4 r
  else "\U" ++ hex_digits 8 r.

Fixpoint quote_loop (fuel : nat) (s : bytes) : bytes :=
  match fuel, s with
  | S fuel', c :: _ =>
      let '(r, w) := DecodeRune s in
      (if (r =? RuneError) && (w =? 1)%nat then "\x" ++ hex_byte c else appendEscapedRune r)
      ++ quote_loop fuel' (drop w s)
  | _, _ => []
  end.
Definition quotation_mark : byte := byte_of_Z 0x22.
Definition Quote (s : bytes) : bytes := quotation_mark :: quote_loop (length s) s ++ [quotation_mark].
End quote.

(** ** Examples *)

Example float_v_ints : map (fun n => float_v (f_of_int n)) [0; 7; 120; 999999; 1000000; 123456789; -25; 9007199254740993]
  = ["0"; "7"; "120"; "999999"; "1e+06"; "1.23456789e+08"; "-25"; "9.007199254740992e+15"].
Proof. by vm_compute. Qed.
Example float_v_fractions : map (fun s => float_v <$> ParseFloat s)
    ["0.1"; "0.3"; "2.5"; "0.0001"; "0.00001"; "33.333333333333336"]
  = map Some ["0.1"; "0.3"; "2.5"; "0.0001"; "1e-05"; "33.333333333333336"].
Proof. by vm_compute. Qed.
(** 0.1 + 0.2 *)
Example float_v_sum : float_v (f_add (f_div (f_of_int 1) (f_of_int 10)) (f_div (f_of_int 2) (f_of_int 10)))
  = "0.30000000000000004".
Proof. by vm_compute. Qed.
Example FormatFloat_large : FormatFloat_f (f_of_int 123456789) = "123456789".
Proof. by vm_compute. Qed.
Example Quote_escapes : Quote (U := latin1) (map byte_of_Z [97; 34; 92; 10; 1; 127; 195; 169; 255; 226; 130; 172])
  = quotation_mark :: "a" ++ [byte_of_Z 0x5c; quotation_mark] ++ "\\\n\x01\x7f" ++ map byte_of_Z [195; 169] ++ "\xff\u20ac" ++ [quotation_mark].
Proof. by vm_compute. Qed.

(** ** Text of one line *)

Definition newline : byte := byte_of_Z 10.
Definition one_line (s : bytes) : Prop := newline ∉ s.

Lemma one_line_nil : one_line [].
Proof. apply not_elem_of_nil. Qed.

Lemma one_line_cons c s : c <> newline -> one_line s -> one_line (c :: s).
Proof. unfold one_line. rewrite elem_of_cons. intros H1 H2 [<-|H]; auto. Qed.

Lemma one_line_app s k : one_line s -> one_line k -> one_line (s ++ k).
Proof. unfold one_line. rewrite elem_of_app. tauto. Qed.

Lemma one_line_sub s k : one_line k -> (forall c, c ∈ s -> c ∈ k) -> one_line s.
Proof. unfold one_line. auto. Qed.

Lemma one_line_take n s : one_line s -> one_line (take n s).
Proof. intros H. apply (one_line_sub _ s H). intros c Hc. by apply elem_of_take in Hc as (i & Hi & _); eapply list_elem_of_lookup_2. Qed.

Lemma one_line_drop n s : one_line s -> one_line (drop n s).
Proof. intros H. apply (one_line_sub _ s H). intros c Hc. rewrite <- (take_drop n s). apply elem_of_app. by right. Qed.

#[export] Hint Resolve one_line_nil one_line_app one_line_take one_line_drop : go.

(** A literal without a line break. *)
Lemma one_line_literal s : bool_decide (newline ∈ s) = false -> one_line s.
Proof. by intros H%bool_decide_eq_false. Qed.
#[export] Hint Extern 1 (one_line (_ :: _)) => (apply one_line_literal; vm_compute; reflexivity) : go.

Lemma byte_not_newline z : 0 <= z < 256 -> z <> 10 -> byte_of_Z z <> newline.
Proof. intros Hz H E%(f_equal Z_of_byte). unfold newline in E. rewrite !Z_of_byte_of_Z, !Z.mod_small in E by lia. lia. Qed.

Lemma one_line_itoa_loop fuel n acc : one_line acc -> one_line (itoa_loop fuel n acc).
Proof.
  revert n acc. induction fuel as [|fuel IH]; intros n acc H; [done|]. cbn [itoa_loop].
  assert (one_line (byte_of_Z (48 + n mod 10) :: acc)).
  { apply one_line_cons; [|done]. apply byte_not_newline; dlia. }
  bcase; auto.
Qed.

Lemma one_line_itoa n : one_line (itoa n).
Proof. apply one_line_itoa_loop, one_line_nil. Qed.

Lemma one_line_zeros n : one_line (zeros n).
Proof. unfold one_line, zeros. rewrite list_elem_of_In. by intros H%repeat_spec. Qed.

Lemma one_line_strip s : one_line s -> one_line (strip_zeros s).
Proof.
  induction s as [|c s IH]; [done|]. intros H. assert (one_line (strip_zeros s)) as Hs.
  { apply IH. unfold one_line in *. rewrite elem_of_cons in H. tauto. }
  assert (c <> newline) by (intros ->; apply H, elem_of_cons; by left).
  cbn [strip_zeros]. destruct (strip_zeros s); [case_decide|]; auto using one_line_cons with go.
Qed.

#[export] Hint Resolve one_line_itoa one_line_zeros : go.

Lemma one_line_digits m e : one_line (shortest_digits m e).1.
Proof.
  unfold shortest_digits. destruct (shortest _ _ _ _ _) as [d p]. cbn [fst].
  apply one_line_strip, one_line_itoa_loop, one_line_nil.
Qed.

Lemma one_line_fmtF neg digits dp : one_line digits -> one_line (fmtF neg digits dp).
Proof. intros H. unfold fmtF. repeat apply one_line_app; repeat case_match; auto 6 with go. Qed.

Lemma one_line_fmtE neg digits dp : one_line digits -> one_line (fmtE neg digits dp).
Proof. intros H. unfold fmtE. repeat apply one_line_app; repeat case_match; auto 6 with go. Qed.

Lemma one_line_float f : one_line (float_v f).
Proof.
  destruct f as [neg|neg| |neg m e]; cbn [float_v]; [auto using one_line_fmtF with go|by destruct neg; auto with go|auto with go|].
  pose proof (one_line_digits m e) as H. destruct (shortest_digits m e) as [digits dp]. cbn [fst] in H.
  bcase; auto using one_line_fmtE, one_line_fmtF.
Qed.

Section quote_lemmas.
Context {U : UnicodeTables}.

Lemma one_line_hex_digits n r : one_line (hex_digits n r).
Proof.
  unfold one_line, hex_digits. rewrite list_elem_of_In. intros (i & Hi & _)%in_map_iff. revert Hi.
  unfold hex_digit. set (z := Z.land _ 15). assert (0 <= z < 16) as Hz.
  { unfold z. change 15 with (Z.ones 4). rewrite Z.land_ones by lia. apply Z.mod_pos_bound. lia. }
  bcase; apply byte_not_newline; lia.
Qed.

Lemma one_line_hex_byte c : one_line (hex_byte c).
Proof.
  unfold hex_byte, hex_digit. pose proof (Z_of_byte_range c).
  repeat apply one_line_cons; auto with go; bcase; apply byte_not_newline; dlia.
Qed.

Lemma one_line_rune r : r <> 10 -> one_line (EncodeRune r).
Proof.
  intros H. unfold EncodeRune. set (x := if _ || _ then RuneError else r).
  assert (0 <= x <= 1114111 /\ x <> 10) as [Hx Hn] by (unfold x, RuneError; bcase; lia).
  repeat bcase; repeat apply one_line_cons; auto with go; apply byte_not_newline; dlia.
Qed.

Lemma one_line_escaped r : one_line (appendEscapedRune r).
Proof.
  unfold appendEscapedRune. bcase.
  { repeat apply one_line_cons; auto with go; apply byte_not_newline; lia. }
  destruct (IsPrint r) eqn:E; [apply one_line_rune; intros ->; discriminate E|].
  repeat bcase; auto using one_line_hex_digits with go.
Qed.

Lemma one_line_Quote s : one_line (Quote s).
Proof.
  unfold Quote. apply one_line_cons; [done|]. apply one_line_app; [|auto with go].
  generalize (length s). intros fuel. revert s. induction fuel as [|fuel IH]; intros [|c s]; try apply one_line_nil.
  cbn [quote_loop]. destruct (DecodeRune (c :: s)) as [r w]. apply one_line_app; [|apply IH].
  bcase; [apply one_line_app; [auto with go|apply one_line_hex_byte]|apply one_line_escaped].
Qed.
End quote_lemmas.
#[export] Hint Resolve one_line_float one_line_Quote : go.
