(* ===== verification/GoPath.v ===== *)
(** * Paths: path.Clean, filepath.Dir on a slash-separated system, and the
    cleaning of a request path by net/http. *)

From S2P Require Import Prelude.
From S2P Require Import GoStrings.

#[local] Open Scope go_scope.

(** One element of a path joined to the elements before it, latest first. *)
Definition clean_element (rooted : bool) (out : list bytes) (e : bytes) : list bytes :=
  if bool_decide (e = "") || bool_decide (e = ".") then out
  else if bool_decide (e = "..") then
    match out with
    | top :: rest => if bool_decide (top = "..") then e :: out else rest
    | [] => if rooted then [] else [e]
    end
  else e :: out.

Definition Clean (path : bytes) : bytes :=
  let rooted := HasPrefix path "/" in
  let out := Join (rev (foldl (clean_element rooted) [] (Split path "/"))) "/" in
  let out := if rooted then "/" ++ out else out in
  if bool_decide (out = "") then "." else out.

(** The path up to and with its last slash. *)
Fixpoint upto_slash (path : bytes) : bytes :=
  match path with
  | [] => []
  | c :: k => if bool_decide ("/"%char ∈ path) then c :: upto_slash k else []
  end.

Definition Dir (path : bytes) : bytes := Clean (upto_slash path).

Definition cleanPath (p : bytes) : bytes :=
  if bool_decide (p = "") then "/" else
  let p := if HasPrefix p "/" then p else "/" ++ p in
  let np := Clean p in
  if HasSuffix p "/" && negb (bool_decide (np = "/")) then
    if (len p =? len np + 1) && HasPrefix p np then p else np ++ "/"
  else np.

Example Clean_examples :
  map Clean [""; "."; "/"; "//a"; "a/../.."; "/../a"; "a//b/./c/.."; "a/"; "../../a/.."]
  = ["."; "."; "/"; "/a"; ".."; "/a"; "a/b"; "a"; "../.."].
Proof. by vm_compute. Qed.
Example Dir_examples :
  map Dir ["./cache.json"; "cache.json"; "/a"; "/var/lib/c.json"; "a/b/"; ""]
  = ["."; "."; "/"; "/var/lib"; "a/b"; "."].
Proof. by vm_compute. Qed.
Example cleanPath_examples :
  map cleanPath [""; "/api/v1/cache/"; "//api//v1/"; "/api/../ws/trace"; "/a/./"] 
  = ["/"; "/api/v1/cache/"; "/api/v1/"; "/ws/trace"; "/a/"].
Proof. by vm_compute. Qed.
