(* ===== verification/GoURL.v ===== *)
(** * packages net/url and net/http: paths, query parameters, header names and
    the choice of a handler by ServeMux. *)

From S2P Require Import Prelude.
From S2P Require Import GoStrings.
From S2P Require Import GoNet.
From S2P Require Import GoPath.

#[local] Open Scope go_scope.

(** ** Percent escapes *)

(** [unescape] of a query component when [plus], of a path segment otherwise. *)
Fixpoint unescape (plus : bool) (s : bytes) : option bytes :=
  match s with
  | [] => Some []
  | "%"%char :: a :: b :: k =>
      match hex_value a, hex_value b with
      | Some x, Some y => cons (byte_of_Z (16 * x + y)) <$> unescape plus k
      | _, _ => None
      end
  | "%"%char :: _ => None
  | "+"%char :: k => cons (if plus then " "%char else "+"%char) <$> unescape plus k
  | c :: k => cons c <$> unescape plus k
  end.

Definition QueryUnescape (s : bytes) : option bytes := unescape true s.
Definition PathUnescape (s : bytes) : option bytes := unescape false s.

(** ** Query parameters *)

(** [strings.Cut] at a byte. *)
Fixpoint Cut (s : bytes) (c : byte) : bytes * bytes :=
  match s with
  | [] => ([], [])
  | x :: k => if bool_decide (x = c) then ([], k)
              else let '(a, b) := Cut k c in (x :: a, b)
  end.

(** The pairs of a query; malformed ones are skipped. *)
Definition ParseQuery (query : bytes) : list (bytes * bytes) :=
  omap (fun part =>
    if bool_decide (";"%char ∈ part) || bool_decide (part = "") then None else
    let '(k, v) := Cut part "=" in
    match QueryUnescape k, QueryUnescape v with
    | Some k, Some v => Some (k, v)
    | _, _ => None
    end) (Split query "&").

(** The first value of a key, empty when there is none. *)
Definition Get_value (m : list (bytes * bytes)) (key : bytes) : bytes :=
  default "" (snd <$> List.find (fun kv => bool_decide (kv.1 = key)) m).

(** ** Header names *)

Definition is_token_byte (c : byte) : bool :=
  let z := Z_of_byte c in
  ((48 <=? z) && (z <=? 57)) || ((65 <=? z) && (z <=? 90)) || ((97 <=? z) && (z <=? 122))
  || bool_decide (c ∈ ("!#$%&'*+-.^_`|~" : bytes)).

Fixpoint canonical_loop (s : bytes) (upper : bool) : bytes :=
  match s with
  | [] => []
  | c :: k =>
      let z := Z_of_byte c in
      let c' := if upper && (97 <=? z) && (z <=? 122) then byte_of_Z (z - 32)
                else if negb upper && (65 <=? z) && (z <=? 90) then byte_of_Z (z + 32) else c in
      c' :: canonical_loop k (bool_decide (c = "-"%char))
  end.
Definition CanonicalMIMEHeaderKey (s : bytes) : bytes :=
  if forallb is_token_byte s then canonical_loop s true else s.

(** The value of a header in a map of canonical names. *)
Definition Header_Get (h : list (bytes * bytes)) (key : bytes) : bytes :=
  Get_value h (CanonicalMIMEHeaderKey key).

(** ** ServeMux *)

(** What a mux does with a request. *)
Inductive routed (H : Type) := Serve (handler : H) | MovedTo (path : bytes) | NoRoute.
Arguments Serve {_} _.
Arguments MovedTo {_} _.
Arguments NoRoute {_}.

(** The segments between the slashes of a path, unescaped one by one; a segment
    that does not unescape stays as it is. *)
Definition path_segments (path : bytes) : list bytes :=
  match path with
  | "/"%char :: k => map (fun s => default s (PathUnescape s)) (Split k "/")
  | _ => []
  end.

(** A pattern: its literal segments, and whether it ends with a slash and so
    matches everything below. *)
Record pattern := mkPattern { pt_segments : list bytes; pt_below : bool }.

Definition parse_pattern (p : bytes) : pattern :=
  let segs := drop 1 (Split p "/") in
  if HasSuffix p "/" then mkPattern (removelast segs) true else mkPattern segs false.

Definition pattern_matches (p : pattern) (segs : list bytes) : bool :=
  if pt_below p
  then bool_decide (pt_segments p = take (length (pt_segments p)) segs)
       && (len (pt_segments p) <? len segs)
  else bool_decide (pt_segments p = segs).

Section mux.
Context {H : Type}.

(** The most specific pattern: one without a slash at its end, else the longest. *)
Definition better (a b : pattern * H) : pattern * H :=
  if negb (pt_below b.1) then b
  else if pt_below a.1 && (len (pt_segments a.1) <? len (pt_segments b.1)) then b else a.
Definition best (l : list (pattern * H)) : option (pattern * H) :=
  match l with
  | [] => None
  | x :: l => Some (foldl better x l)
  end.

Definition mux_match (routes : list (bytes * H)) (path : bytes) : option (pattern * H) :=
  best (List.filter (fun r => pattern_matches r.1 (path_segments path))
          (map (fun r => (parse_pattern r.1, r.2)) routes)).

(** [exactMatch] *)
Definition exact_match (m : option (pattern * H)) (path : bytes) : bool :=
  match m with
  | None => false
  | Some (p, _) => if pt_below p
                   then HasSuffix path "/" && (len (pt_segments p) + 1 =? len (path_segments path))
                   else true
  end.

(** [findHandler] for the escaped path of a request: an unclean path, or one
    that lacks the final slash of a pattern, is redirected. *)
Definition findHandler (routes : list (bytes * H)) (method path : bytes) : routed H :=
  let cleaned := if bool_decide (method = "CONNECT") then path else cleanPath path in
  let m := mux_match routes cleaned in
  if negb (exact_match m cleaned) && negb (HasSuffix cleaned "/")
     && exact_match (mux_match routes (cleaned ++ "/")) (cleaned ++ "/")
  then MovedTo (cleanPath (default path (PathUnescape path)) ++ "/")
  else if negb (bool_decide (cleaned = path)) then MovedTo cleaned
  else match m with
       | Some (_, h) => Serve h
       | None => NoRoute
       end.
End mux.

Example ParseQuery_examples :
  ParseQuery "q=a%2Eb+c&x&bad=%zz&=1&a;b=2&q=2"
  = [("q", "a.b c"); ("x", ""); ("", "1"); ("q", "2")]
  /\ Get_value (ParseQuery "q=1&q=2") "q" = "1".
Proof. by vm_compute. Qed.
Example CanonicalMIMEHeaderKey_examples :
  map CanonicalMIMEHeaderKey ["X-API-Token"; "traceparent"; "Sec-WebSocket-Key"; "a b"]
  = ["X-Api-Token"; "Traceparent"; "Sec-Websocket-Key"; "a b"].
Proof. by vm_compute. Qed.
Example findHandler_examples :
  map (findHandler [("/a", 1); ("/a/", 2); ("/a/b", 3); ("/d/p/", 4); ("/", 5)] "GET")
    ["/a"; "/a/"; "/a/b"; "/a/b/c"; "/d/p"; "/d/p/"; "//a"; "/x/y"; "/%61"; "/a%2Fb"; "/d"; ""]
  = [Serve 1; Serve 2; Serve 3; Serve 2; MovedTo "/d/p/"; Serve 4; MovedTo "/a"; Serve 5;
     Serve 1; Serve 5; Serve 5; MovedTo "/"].
Proof. by vm_compute. Qed.

(** ** What a match says of the path *)

(** The text of a pattern. *)
Definition pattern_text (p : pattern) : bytes :=
  "/" ++ Join (pt_segments p ++ if pt_below p then [""] else []) "/".

Lemma unescape_slash p q u : "/"%char ∉ p -> unescape false (p ++ "/"%char :: q) = Some u ->
  exists up uq, unescape false p = Some up /\ unescape false q = Some uq /\ u = up ++ "/"%char :: uq.
Proof.
  remember (length p) as n eqn:Hn. assert (length p <= n)%nat as Hle by lia. clear Hn. revert p u Hle.
  induction n as [|n IH]; intros p u Hle Hp E.
  { destruct p; [|cbn in Hle; lia]. cbn in E. destruct (unescape false q) as [uq|] eqn:Eq; [|done].
    injection E as <-. by exists [], uq. }
  destruct p as [|c p].
  { cbn in E. destruct (unescape false q) as [uq|] eqn:Eq; [|done]. injection E as <-. by exists [], uq. }
  cbn [length] in Hle. destruct (decide (c = "%"%char)) as [->|Hc].
  - destruct p as [|a [|b p]].
    + cbn in E. by destruct q as [|b q].
    + cbn in E. destruct (hex_value a); [|done]. done.
    + cbn [app] in E. cbn [unescape] in E |- *. destruct (hex_value a) as [x|]; [|done].
      destruct (hex_value b) as [y|]; [|done].
      destruct (unescape false (p ++ "/"%char :: q)) as [u'|] eqn:E'; [|done]. injection E as <-.
      cbn [length] in Hle. apply IH in E' as (up & uq & E1 & E2 & ->); [|lia|set_solver].
      rewrite E1. by eexists _, uq.
  - assert (forall k, unescape false (c :: k) = cons c <$> unescape false k) as U.
    { intros k. destruct c as [[] [] [] [] [] [] [] []]; try done. }
    cbn [app] in E. rewrite U in E |- *.
    destruct (unescape false (p ++ "/"%char :: q)) as [u'|] eqn:E'; [|done]. injection E as <-.
    apply IH in E' as (up & uq & E1 & E2 & ->); [|lia|set_solver].
    rewrite E1. by eexists _, uq.
Qed.

Lemma split_first (s : bytes) (c : byte) : (c ∉ s) \/ exists p q, s = p ++ c :: q /\ (c ∉ p).
Proof.
  induction s as [|x s IH]; [left; by apply not_elem_of_nil|].
  destruct (decide (x = c)) as [->|Hx]; [right; exists [], s; split; [done|by apply not_elem_of_nil]|].
  destruct IH as [H|(p & q & -> & H)]; [left; set_solver|].
  right. exists (x :: p), q. split; [done|set_solver].
Qed.

Lemma join_segments k u : unescape false k = Some u ->
  Join (map (fun s => default s (PathUnescape s)) (Split k "/")) "/" = u.
Proof.
  remember (length k) as n eqn:Hn. assert (length k <= n)%nat as Hle by lia. clear Hn. revert k u Hle.
  induction n as [|n IH]; intros k u Hle E.
  { destruct k; [|cbn in Hle; lia]. cbn in E. by injection E as <-. }
  destruct (split_first k "/") as [H|(p & q & -> & H)].
  - rewrite Split_single by done. cbn [map Join]. unfold PathUnescape. by rewrite E.
  - apply unescape_slash in E as (up & uq & E1 & E2 & ->); [|done].
    rewrite length_app in Hle. cbn [length] in Hle. rewrite Split_app_sep by done. cbn [map].
    rewrite Join_cons by (pose proof (Split_not_nil q "/"); by destruct (Split q "/")).
    rewrite (IH q uq) by (done || lia). unfold PathUnescape at 1. by rewrite E1.
Qed.

Lemma Join_app (a b : list bytes) sep : a <> [] -> b <> [] -> Join (a ++ b) sep = Join a sep ++ sep ++ Join b sep.
Proof.
  intros Ha Hb. induction a as [|x a IH]; [done|]. cbn [app].
  destruct a as [|y a]; [cbn [app]; by rewrite Join_cons|].
  rewrite !Join_cons, IH by done. by rewrite <- !app_assoc.
Qed.

(** A match fixes the path, or its beginning. *)
Lemma match_text p path u : PathUnescape path = Some u -> pt_segments p <> [] \/ pt_below p = true ->
  pattern_matches p (path_segments path) = true ->
  u = pattern_text p \/ (pt_below p = true /\ HasPrefix u (pattern_text p) = true).
Proof.
  intros E Hne Hm. unfold pattern_text. destruct path as [|c k].
  { unfold pattern_matches in Hm. cbn [path_segments] in Hm. destruct (pt_below p) eqn:Hb.
    - apply andb_prop in Hm as [_ Hm]. len_lia.
    - apply bool_decide_eq_true in Hm. naive_solver. }
  destruct (decide (c = "/"%char)) as [->|Hc].
  2:{ assert (path_segments (c :: k) = []) as Es by (destruct c as [[] [] [] [] [] [] [] []]; done).
      rewrite Es in Hm. unfold pattern_matches in Hm. destruct (pt_below p) eqn:Hb.
      - apply andb_prop in Hm as [_ Hm]. len_lia.
      - apply bool_decide_eq_true in Hm. naive_solver. }
  unfold PathUnescape in E. apply (unescape_slash [] k) in E as (up & uq & [= <-] & E & ->);
    [|by apply not_elem_of_nil]. apply join_segments in E. cbn [app].
  cbn [path_segments] in Hm. set (segs := map _ _) in *. clearbody segs.
  unfold pattern_matches in Hm. destruct (pt_below p) eqn:Hb.
  - apply andb_prop in Hm as [H1 H2]. apply bool_decide_eq_true in H1.
    right. split; [done|]. apply HasPrefix_spec. rewrite <- E.
    set (l := pt_segments p) in *. assert (exists x r, drop (length l) segs = x :: r) as (x & r & Er).
    { destruct (drop (length l) segs) eqn:Ed; [|eauto]. apply (f_equal length) in Ed.
      rewrite length_drop in Ed. unfold len in H2. cbn in Ed. lia. }
    rewrite <- (take_drop (length l) segs), <- H1, Er.
    destruct (decide (l = [])) as [->|Hl].
    + exists (Join (x :: r) "/"). done.
    + rewrite !Join_app by done. exists (Join (x :: r) "/"). cbn. rewrite <- !app_assoc. done.
  - apply bool_decide_eq_true in Hm. left. by rewrite app_nil_r, Hm, E.
Qed.

Lemma mux_match_in {H} (l : list (bytes * H)) path p h : mux_match l path = Some (p, h) ->
  exists text, (text, h) ∈ l /\ p = parse_pattern text /\ pattern_matches p (path_segments path) = true.
Proof.
  unfold mux_match. set (m := List.filter _ _). intros E.
  assert (forall (x : pattern * H) ys, foldl better x ys ∈ x :: ys) as B.
  { intros x ys. revert x. induction ys as [|y ys IH]; intros x; cbn [foldl]; [set_solver|].
    pose proof (IH (better x y)) as Hi.
    assert (better x y = x \/ better x y = y) as [-> | ->] by (unfold better; repeat bcase; auto); set_solver. }
  assert ((p, h) ∈ m) as Hm.
  { destruct m as [|x ys]; [done|]. cbn [best] in E. injection E as E. rewrite <- E. apply B. }
  subst m. rewrite list_elem_of_In, filter_In, in_map_iff in Hm. destruct Hm as [([text h'] & E' & Hin) Hm].
  cbn [fst snd] in E'. injection E' as <- <-. exists text. rewrite list_elem_of_In. done.
Qed.
