(* ===== verification/GoBase64.v ===== *)
(** * package encoding/base64: RawURLEncoding and StdEncoding. *)

From S2P Require Import Prelude.
From S2P Require Import GoStrings.

#[local] Open Scope go_scope.

(** ** The alphabets *)

Definition std_alphabet : bytes := "ABCDEFGHIJKLMNOPQRSTUVWXYZabcdefghijklmnopqrstuvwxyz0123456789+/".
Definition url_alphabet : bytes := "ABCDEFGHIJKLMNOPQRSTUVWXYZabcdefghijklmnopqrstuvwxyz0123456789-_".

Definition digit (alphabet : bytes) (v : Z) : byte := default "A"%char (alphabet !! Z.to_nat v).

(** The value of a digit. *)
Fixpoint value_in (alphabet : bytes) (c : byte) : option Z :=
  match alphabet with
  | [] => None
  | x :: k => if bool_decide (x = c) then Some 0 else Z.succ <$> value_in k c
  end.

(** ** Encoding *)

Fixpoint encode (alphabet : bytes) (pad : bool) (s : bytes) : bytes :=
  match s with
  | a :: b :: c :: k =>
      let v := Z.lor (Z.shiftl (Z_of_byte a) 16) (Z.lor (Z.shiftl (Z_of_byte b) 8) (Z_of_byte c)) in
      digit alphabet (Z.shiftr v 18) :: digit alphabet (Z.land (Z.shiftr v 12) 0x3f)
      :: digit alphabet (Z.land (Z.shiftr v 6) 0x3f) :: digit alphabet (Z.land v 0x3f)
      :: encode alphabet pad k
  | [a; b] =>
      let v := Z.lor (Z.shiftl (Z_of_byte a) 16) (Z.shiftl (Z_of_byte b) 8) in
      [digit alphabet (Z.shiftr v 18); digit alphabet (Z.land (Z.shiftr v 12) 0x3f);
       digit alphabet (Z.land (Z.shiftr v 6) 0x3f)] ++ (if pad then "=" else "")
  | [a] =>
      let v := Z.shiftl (Z_of_byte a) 16 in
      [digit alphabet (Z.shiftr v 18); digit alphabet (Z.land (Z.shiftr v 12) 0x3f)]
      ++ (if pad then "==" else "")
  | [] => []
  end.

Definition StdEncodeToString : bytes -> bytes := encode std_alphabet true.
Definition RawURLEncodeToString : bytes -> bytes := encode url_alphabet false.

(** ** Decoding *)

Fixpoint decode_digits (v : list Z) : option bytes :=
  match v with
  | a :: b :: c :: d :: k =>
      let v := Z.lor (Z.shiftl a 18) (Z.lor (Z.shiftl b 12) (Z.lor (Z.shiftl c 6) d)) in
      app [byte_of_Z (Z.shiftr v 16); byte_of_Z (Z.shiftr v 8); byte_of_Z v] <$> decode_digits k
  | [a; b; c] =>
      let v := Z.lor (Z.shiftl a 18) (Z.lor (Z.shiftl b 12) (Z.shiftl c 6)) in
      Some [byte_of_Z (Z.shiftr v 16); byte_of_Z (Z.shiftr v 8)]
  | [a; b] =>
      let v := Z.lor (Z.shiftl a 18) (Z.shiftl b 12) in
      Some [byte_of_Z (Z.shiftr v 16)]
  | [_] => None
  | [] => Some []
  end.

(** Ends of lines are skipped; bits beyond the last byte are not looked at. *)
Definition is_newline (c : byte) : bool :=
  bool_decide (c = "010"%char) || bool_decide (c = "013"%char).
Definition RawURLDecodeString (s : bytes) : option bytes :=
  v ← mapM (value_in url_alphabet) (List.filter (fun c => negb (is_newline c)) s);
  decode_digits v.

(** Groups of four, the last one padded. *)
Fixpoint decode_groups (s : bytes) : option bytes :=
  match s with
  | [] => Some []
  | a :: b :: c :: d :: k =>
      if bool_decide (k = []) && bool_decide (d = "="%char) then
        v ← mapM (value_in std_alphabet) (if bool_decide (c = "="%char) then [a; b] else [a; b; c]);
        decode_digits v
      else
        v ← mapM (value_in std_alphabet) [a; b; c; d]; x ← decode_digits v;
        app x <$> decode_groups k
  | _ => None
  end.
Definition StdDecodeString (s : bytes) : option bytes :=
  decode_groups (List.filter (fun c => negb (is_newline c)) s).

Example StdEncode_examples : map StdEncodeToString [""; "f"; "fo"; "foo"; "foob"]
  = [""; "Zg=="; "Zm8="; "Zm9v"; "Zm9vYg=="].
Proof. by vm_compute. Qed.
Example RawURLDecode_examples : map RawURLDecodeString [""; "Zg"; "Zm8"; "Zm9vYg"; "Zg=="; "Z"; "_-8"]
  = [Some []; Some ("f" : bytes); Some ("fo" : bytes); Some ("foob" : bytes); None; None; Some (map byte_of_Z [255; 239])].
Proof. by vm_compute. Qed.

Example StdDecode_examples : map StdDecodeString [""; "Zg=="; "Zm8="; "Zm9vYg=="; "Zm9v"; "Zg"; "Zg="; "Z==="; "Zg==Zg=="; "Zg=a"; "===="]
  = [Some []; Some ("f" : bytes); Some ("fo" : bytes); Some ("foob" : bytes); Some ("foo" : bytes)] ++ repeat None 6.
Proof. by vm_compute. Qed.

(** ** Decoding what was encoded *)

Definition distinct (alphabet : bytes) : bool :=
  forallb (fun n => bool_decide (value_in alphabet (digit alphabet (Z.of_nat n)) = Some (Z.of_nat n))) (seq 0 64).

Lemma value_in_digit alphabet v : distinct alphabet = true -> 0 <= v < 64 -> value_in alphabet (digit alphabet v) = Some v.
Proof.
  intros F H. unfold distinct in F. rewrite forallb_forall in F. specialize (F (Z.to_nat v)).
  rewrite Z2Nat.id in F by lia. eapply bool_decide_eq_true_1, F, in_seq. lia.
Qed.

Lemma mapM_value_in alphabet v : distinct alphabet = true -> Forall (fun d => 0 <= d < 64) v ->
  mapM (value_in alphabet) (map (digit alphabet) v) = Some v.
Proof.
  intros Ha. induction 1 as [|d l Hd F IH]; [done|].
  change (mapM (value_in alphabet) (map (digit alphabet) (d :: l)))
    with (y ← value_in alphabet (digit alphabet d);
          k ← mapM (value_in alphabet) (map (digit alphabet) l); mret (y :: k)).
  by rewrite value_in_digit, IH.
Qed.

Lemma digit_url_plain v : 0 <= v < 64 ->
  is_newline (digit url_alphabet v) = false
  /\ (digit url_alphabet v ∉ ("%+&;=" : bytes)).
Proof.
  intros H.
  assert (forallb (fun n => negb (is_newline (digit url_alphabet (Z.of_nat n)))
            && bool_decide (digit url_alphabet (Z.of_nat n) ∉ ("%+&;=" : bytes))) (seq 0 64) = true)
    as F by by vm_compute.
  rewrite forallb_forall in F. specialize (F (Z.to_nat v)).
  rewrite Z2Nat.id in F by lia. apply andb_prop in F as [F1 F2]; [|apply in_seq; lia].
  split; [by apply negb_true_iff|by apply bool_decide_eq_true_1 in F2].
Qed.

Lemma lor_24 a b c : 0 <= b < 2 ^ 8 -> 0 <= c < 2 ^ 8 ->
  Z.lor (Z.shiftl a 16) (Z.lor (Z.shiftl b 8) c) = a * 2 ^ 16 + b * 2 ^ 8 + c.
Proof.
  intros Hb Hc. rewrite (Z.lor_comm _ c), (lor_shift_add c) by lia.
  rewrite Z.lor_comm, lor_shift_add by lia. lia.
Qed.

Lemma lor_digits a b c d : 0 <= b < 2 ^ 6 -> 0 <= c < 2 ^ 6 -> 0 <= d < 2 ^ 6 ->
  Z.lor (Z.shiftl a 18) (Z.lor (Z.shiftl b 12) (Z.lor (Z.shiftl c 6) d))
  = a * 2 ^ 18 + b * 2 ^ 12 + c * 2 ^ 6 + d.
Proof.
  intros. rewrite (Z.lor_comm _ d), (lor_shift_add d) by lia.
  rewrite (Z.lor_comm (Z.shiftl b 12)), lor_shift_add by lia.
  rewrite Z.lor_comm, lor_shift_add by lia. lia.
Qed.

(** The four digits of a 24-bit number. *)
Definition digits_of (v : Z) : list Z :=
  [Z.shiftr v 18; Z.land (Z.shiftr v 12) 0x3f; Z.land (Z.shiftr v 6) 0x3f; Z.land v 0x3f].

Lemma digits_of_range v d : 0 <= v < 2 ^ 24 -> d ∈ digits_of v -> 0 <= d < 64.
Proof.
  intros Hv Hd. unfold digits_of in Hd. change 0x3f with (Z.ones 6) in Hd.
  rewrite !Z.land_ones, !Z.shiftr_div_pow2 in Hd by lia.
  set_unfold in Hd. destruct Hd as [->|[->|[->|[->|[]]]]]; dlia.
Qed.

Lemma digits_of_value v : 0 <= v < 2 ^ 24 ->
  match digits_of v with
  | [a; b; c; d] => v = a * 2 ^ 18 + b * 2 ^ 12 + c * 2 ^ 6 + d
  | _ => False
  end.
Proof.
  intros Hv. cbn [digits_of]. change 0x3f with (Z.ones 6).
  rewrite !Z.land_ones, !Z.shiftr_div_pow2 by lia. dlia.
Qed.

Lemma decode_group v k : 0 <= v < 2 ^ 24 ->
  decode_digits (digits_of v ++ k)
  = app [byte_of_Z (Z.shiftr v 16); byte_of_Z (Z.shiftr v 8); byte_of_Z v] <$> decode_digits k.
Proof.
  intros Hv. pose proof (digits_of_value v Hv) as E. pose proof (digits_of_range v) as R.
  unfold digits_of in *. cbn [app decode_digits].
  rewrite lor_digits, <- E by (change (2 ^ 6) with 64; apply R; [done|set_solver]). done.
Qed.

(** The low [k] bits do not matter above. *)
Lemma byte_of_high x d k n : 0 <= k <= n -> 0 <= d < 2 ^ k ->
  byte_of_Z (Z.shiftr (x * 2 ^ k + d) n) = byte_of_Z (Z.shiftr (x * 2 ^ k) n).
Proof.
  intros Hk Hd. rewrite !Z.shiftr_div_pow2 by lia.
  replace (2 ^ n) with (2 ^ k * 2 ^ (n - k)) by (rewrite <- Z.pow_add_r by lia; f_equal; lia).
  rewrite <- !Z.div_div by lia. do 2 f_equal. rewrite Z.div_add_l, Z.div_mul by lia.
  rewrite (Z.div_small d) by lia. lia.
Qed.

Lemma decode_group3 v : 0 <= v < 2 ^ 24 ->
  decode_digits (take 3 (digits_of v)) = Some [byte_of_Z (Z.shiftr v 16); byte_of_Z (Z.shiftr v 8)].
Proof.
  intros Hv. pose proof (digits_of_value v Hv) as E. pose proof (digits_of_range v) as R.
  unfold digits_of in *. remember (Z.shiftr v 18) as a. remember (Z.land (Z.shiftr v 12) 63) as b.
  remember (Z.land (Z.shiftr v 6) 63) as c. remember (Z.land v 63) as d.
  assert (forall x, x ∈ [a; b; c; d] -> 0 <= x < 2 ^ 6) as R' by (intros; by apply R).
  pose proof (R' b ltac:(set_solver)). pose proof (R' c ltac:(set_solver)). pose proof (R' d ltac:(set_solver)).
  cbn [take decode_digits]. pose proof (lor_digits a b c 0) as L. rewrite Z.lor_0_r in L.
  rewrite L by lia.
  replace v with ((a * 2 ^ 12 + b * 2 ^ 6 + c) * 2 ^ 6 + d) by (rewrite E; lia).
  rewrite !byte_of_high by lia. do 3 f_equal; [|f_equal]; do 2 f_equal; lia.
Qed.

Lemma decode_group2 v : 0 <= v < 2 ^ 24 ->
  decode_digits (take 2 (digits_of v)) = Some [byte_of_Z (Z.shiftr v 16)].
Proof.
  intros Hv. pose proof (digits_of_value v Hv) as E. pose proof (digits_of_range v) as R.
  unfold digits_of in *. remember (Z.shiftr v 18) as a. remember (Z.land (Z.shiftr v 12) 63) as b.
  remember (Z.land (Z.shiftr v 6) 63) as c. remember (Z.land v 63) as d.
  assert (forall x, x ∈ [a; b; c; d] -> 0 <= x < 2 ^ 6) as R' by (intros; by apply R).
  pose proof (R' b ltac:(set_solver)). pose proof (R' c ltac:(set_solver)). pose proof (R' d ltac:(set_solver)).
  cbn [take decode_digits]. pose proof (lor_digits a b 0 0) as L. rewrite Z.shiftl_0_l, !Z.lor_0_r in L.
  rewrite L by lia.
  replace v with ((a * 2 ^ 6 + b) * 2 ^ 12 + (c * 2 ^ 6 + d)) by (rewrite E; lia).
  rewrite !byte_of_high by lia. do 5 f_equal; lia.
Qed.

(** The values of the digits that encode a string. *)
Fixpoint values (s : bytes) : list Z :=
  match s with
  | a :: b :: c :: k =>
      digits_of (Z.lor (Z.shiftl (Z_of_byte a) 16) (Z.lor (Z.shiftl (Z_of_byte b) 8) (Z_of_byte c)))
      ++ values k
  | [a; b] => take 3 (digits_of (Z.lor (Z.shiftl (Z_of_byte a) 16) (Z.shiftl (Z_of_byte b) 8)))
  | [a] => take 2 (digits_of (Z.shiftl (Z_of_byte a) 16))
  | [] => []
  end.

Lemma three_ind (P : bytes -> Prop) :
  P [] -> (forall a, P [a]) -> (forall a b, P [a; b]) ->
  (forall a b c k, P k -> P (a :: b :: c :: k)) -> forall s, P s.
Proof.
  intros H0 H1 H2 H3. refine (fix IH s := match s with [] => H0 | [a] => H1 a | [a; b] => H2 a b
    | a :: b :: c :: k => H3 a b c k (IH k) end).
Qed.

Lemma encode_values alphabet s : encode alphabet false s = map (digit alphabet) (values s).
Proof. induction s as [|a|a b|a b c k IH] using three_ind; [done..|]. cbn. by rewrite IH. Qed.

(** Three bytes as a number, and back. *)
Lemma group_value a b c (x := Z_of_byte a) (y := Z_of_byte b) (z := Z_of_byte c)
    (v := Z.lor (Z.shiftl x 16) (Z.lor (Z.shiftl y 8) z)) :
  0 <= v < 2 ^ 24 /\ byte_of_Z (Z.shiftr v 16) = a /\ byte_of_Z (Z.shiftr v 8) = b /\ byte_of_Z v = c.
Proof.
  pose proof (Z_of_byte_range a). pose proof (Z_of_byte_range b). pose proof (Z_of_byte_range c).
  assert (v = x * 2 ^ 16 + y * 2 ^ 8 + z) as E by (apply lor_24; subst y z; lia).
  split; [subst x y z; lia|].
  ands; apply Z_of_byte_inj; rewrite Z_of_byte_of_Z, ?Z.shiftr_div_pow2, E by lia; subst x y z; dlia.
Qed.

(** Every string is a list of whole groups and the beginning of one. *)
Lemma values_spec s : Forall (fun d => 0 <= d < 64) (values s) /\ decode_digits (values s) = Some s.
Proof.
  induction s as [|a|a b|a b c k [IH1 IH2]] using three_ind; cbn [values].
  - split; [constructor|done].
  - destruct (group_value a "000" "000") as (Hr & Ba & _). revert Hr Ba.
    change (Z_of_byte "000") with 0. rewrite Z.shiftl_0_l, !Z.lor_0_r. intros Hr Ba.
    rewrite decode_group2, Ba by done. split; [|done].
    apply Forall_take, Forall_forall. intros d. by apply digits_of_range.
  - destruct (group_value a b "000") as (Hr & Ba & Bb & _). revert Hr Ba Bb.
    change (Z_of_byte "000") with 0. rewrite !Z.lor_0_r. intros Hr Ba Bb.
    rewrite decode_group3, Ba, Bb by done. split; [|done].
    apply Forall_take, Forall_forall. intros d. by apply digits_of_range.
  - destruct (group_value a b c) as (Hr & Ba & Bb & Bc).
    rewrite decode_group, Ba, Bb, Bc, IH2 by done. split; [|done].
    apply Forall_app. split; [|done]. apply Forall_forall. intros d. by apply digits_of_range.
Qed.

Lemma RawURL_digits s c : c ∈ RawURLEncodeToString s ->
  is_newline c = false /\ (c ∉ ("%+&;=" : bytes)).
Proof.
  unfold RawURLEncodeToString. rewrite encode_values. intros Hc.
  apply list_elem_of_fmap in Hc as (d & -> & Hd). apply digit_url_plain.
  destruct (values_spec s) as [F _]. rewrite Forall_forall in F. by apply F.
Qed.

Lemma filter_all {A} (f : A -> bool) (l : list A) : (forall x, x ∈ l -> f x = true) -> List.filter f l = l.
Proof.
  induction l as [|x l IH]; intros H; [done|]. cbn [List.filter].
  rewrite H, IH by set_solver. done.
Qed.

Lemma RawURL_roundtrip s : RawURLDecodeString (RawURLEncodeToString s) = Some s.
Proof.
  unfold RawURLDecodeString.
  rewrite filter_all by (intros c Hc; by apply RawURL_digits in Hc as [-> _]).
  destruct (values_spec s) as [F D]. unfold RawURLEncodeToString. rewrite encode_values.
  by rewrite mapM_value_in.
Qed.

(** *** With padding *)

Lemma digits_of_forall v : 0 <= v < 2 ^ 24 -> Forall (fun d => 0 <= d < 64) (digits_of v).
Proof. intros Hv. apply Forall_forall. intros d. by apply digits_of_range. Qed.

Lemma digit_std_plain v : 0 <= v < 64 ->
  is_newline (digit std_alphabet v) = false /\ digit std_alphabet v <> "="%char /\ is_ascii (digit std_alphabet v) = true.
Proof.
  intros H.
  assert (forallb (fun n => let d := digit std_alphabet (Z.of_nat n) in
            negb (is_newline d) && negb (bool_decide (d = "="%char)) && is_ascii d) (seq 0 64) = true)
    as F by by vm_compute.
  rewrite forallb_forall in F. specialize (F (Z.to_nat v)). rewrite Z2Nat.id in F by lia.
  destruct (andb_prop _ _ (F ltac:(apply in_seq; lia))) as [[F1 F2]%andb_prop F3].
  apply negb_true_iff in F1, F2. apply bool_decide_eq_false in F2. done.
Qed.

Lemma StdEncode_plain s c : c ∈ StdEncodeToString s -> is_newline c = false /\ is_ascii c = true.
Proof.
  assert (forall v, 0 <= v < 2 ^ 24 -> forall d, d ∈ map (digit std_alphabet) (digits_of v) -> is_newline d = false /\ is_ascii d = true) as D.
  { intros v Hv d (x & -> & Hx)%list_elem_of_fmap. destruct (digit_std_plain x (digits_of_range v x Hv Hx)) as (? & _ & ?). done. }
  unfold StdEncodeToString. induction s as [|a|a b|a b c' k IH] using three_ind; intros Hc.
  - by apply elem_of_nil in Hc.
  - destruct (group_value a "000" "000") as (Hr & _). revert Hr. change (Z_of_byte "000") with 0.
    rewrite Z.shiftl_0_l, !Z.lor_0_r. intros Hr. cbn [encode app] in Hc.
    destruct (decide (c = "="%char)) as [->|Hne]; [done|]. apply (D _ Hr). cbn [digits_of map]. set_solver.
  - destruct (group_value a b "000") as (Hr & _). revert Hr. change (Z_of_byte "000") with 0.
    rewrite !Z.lor_0_r. intros Hr. cbn [encode app] in Hc.
    destruct (decide (c = "="%char)) as [->|Hne]; [done|]. apply (D _ Hr). cbn [digits_of map]. set_solver.
  - destruct (group_value a b c') as (Hr & _).
    change (encode std_alphabet true (a :: b :: c' :: k)) with
      (map (digit std_alphabet) (digits_of (Z.lor (Z.shiftl (Z_of_byte a) 16) (Z.lor (Z.shiftl (Z_of_byte b) 8) (Z_of_byte c'))))
       ++ encode std_alphabet true k) in Hc.
    apply elem_of_app in Hc as [Hc|Hc]; [by apply (D _ Hr)|auto].
Qed.

(** Whole groups, and the last one with its padding. *)
Lemma decode_groups_2 a b v : mapM (value_in std_alphabet) [a; b] = Some v -> decode_groups [a; b; "="%char; "="%char] = decode_digits v.
Proof.
  intros H. change (decode_groups [a; b; "="%char; "="%char]) with (v ← mapM (value_in std_alphabet) [a; b]; decode_digits v).
  by rewrite H.
Qed.

Lemma decode_groups_3 a b c v : c <> "="%char -> mapM (value_in std_alphabet) [a; b; c] = Some v ->
  decode_groups [a; b; c; "="%char] = decode_digits v.
Proof.
  intros Hc H. change (decode_groups [a; b; c; "="%char]) with
    (v ← mapM (value_in std_alphabet) (if bool_decide (c = "="%char) then [a; b] else [a; b; c]); decode_digits v).
  by rewrite bool_decide_eq_false_2, H.
Qed.

Lemma decode_groups_4 a b c d k v x : d <> "="%char -> mapM (value_in std_alphabet) [a; b; c; d] = Some v -> decode_digits v = Some x ->
  decode_groups (a :: b :: c :: d :: k) = app x <$> decode_groups k.
Proof.
  intros Hd H Hx. cbn [decode_groups]. rewrite (bool_decide_eq_false_2 _ Hd), andb_false_r. rewrite H.
  cbn [mbind option_bind]. by rewrite Hx.
Qed.

Section group.
Context (v : Z) (Hv : 0 <= v < 2 ^ 24).

Lemma mapM_group n : mapM (value_in std_alphabet) (map (digit std_alphabet) (take n (digits_of v))) = Some (take n (digits_of v)).
Proof. apply mapM_value_in; [by vm_compute|]. by apply Forall_take, digits_of_forall. Qed.

Lemma digit_not_pad d : d ∈ digits_of v -> digit std_alphabet d <> "="%char.
Proof using Hv. intros Hd. by destruct (digit_std_plain d (digits_of_range v d Hv Hd)) as (_ & Hne & _). Qed.

Lemma decode_last2 : decode_groups (map (digit std_alphabet) (take 2 (digits_of v)) ++ "==") = Some [byte_of_Z (Z.shiftr v 16)].
Proof using Hv. rewrite <- decode_group2 by done. apply decode_groups_2, (mapM_group 2). Qed.

Lemma decode_last3 :
  decode_groups (map (digit std_alphabet) (take 3 (digits_of v)) ++ "=") = Some [byte_of_Z (Z.shiftr v 16); byte_of_Z (Z.shiftr v 8)].
Proof using Hv.
  rewrite <- decode_group3 by done. apply decode_groups_3; [|apply (mapM_group 3)].
  apply digit_not_pad. unfold digits_of. set_solver.
Qed.

Lemma decode_full k :
  decode_groups (map (digit std_alphabet) (digits_of v) ++ k)
  = app [byte_of_Z (Z.shiftr v 16); byte_of_Z (Z.shiftr v 8); byte_of_Z v] <$> decode_groups k.
Proof using Hv.
  pose proof (decode_group v [] Hv) as D. rewrite app_nil_r in D.
  apply (decode_groups_4 _ _ _ _ k (digits_of v)); [|apply (mapM_group 4)|exact D].
  apply digit_not_pad. unfold digits_of. set_solver.
Qed.
End group.

Lemma Std_roundtrip s : StdDecodeString (StdEncodeToString s) = Some s.
Proof.
  unfold StdDecodeString. rewrite filter_all by (intros c Hc; by apply StdEncode_plain in Hc as [-> _]).
  unfold StdEncodeToString. induction s as [|a|a b|a b c k IH] using three_ind; [done|..].
  - destruct (group_value a "000" "000") as (Hr & Ba & _). revert Hr Ba.
    change (Z_of_byte "000") with 0. rewrite Z.shiftl_0_l, !Z.lor_0_r. intros Hr Ba.
    rewrite <- Ba at 2. exact (decode_last2 _ Hr).
  - destruct (group_value a b "000") as (Hr & Ba & Bb & _). revert Hr Ba Bb.
    change (Z_of_byte "000") with 0. rewrite !Z.lor_0_r. intros Hr Ba Bb.
    rewrite <- Ba at 2. rewrite <- Bb at 3. exact (decode_last3 _ Hr).
  - destruct (group_value a b c) as (Hr & Ba & Bb & Bc).
    change (encode std_alphabet true (a :: b :: c :: k)) with
      (map (digit std_alphabet) (digits_of (Z.lor (Z.shiftl (Z_of_byte a) 16) (Z.lor (Z.shiftl (Z_of_byte b) 8) (Z_of_byte c))))
       ++ encode std_alphabet true k).
    by rewrite decode_full, IH, Ba, Bb, Bc by done.
Qed.
