(* ===== verification/GoSha1.v ===== *)
(** * package crypto/sha1. *)

From S2P Require Import Prelude.

#[local] Open Scope go_scope.

Definition rotl (n x : Z) : Z := u32 (Z.lor (Z.shiftl x n) (Z.shiftr x (32 - n))).

(** Eight bytes of a 64-bit length. *)
Definition PutUint64 (v : Z) : bytes := PutUint32 (Z.shiftr v 32) ++ PutUint32 v.

(** The message with its padding: a multiple of 64 bytes. *)
Definition pad (m : bytes) : bytes :=
  let k := (55 - len m) mod 64 in
  m ++ [byte_of_Z 0x80] ++ repeat "000"%char (Z.to_nat k) ++ PutUint64 (u64 (8 * len m)).

Fixpoint words (s : bytes) : list Z :=
  match s with
  | a :: b :: c :: d :: k =>
      (Z_of_byte a * 2 ^ 24 + Z_of_byte b * 2 ^ 16 + Z_of_byte c * 2 ^ 8 + Z_of_byte d) :: words k
  | _ => []
  end.

(** The schedule, latest word first, extended by [n] words. *)
Fixpoint schedule (n : nat) (w : list Z) : list Z :=
  match n with
  | O => w
  | S n' =>
      let at_ i := default 0 (w !! i) in
      schedule n'
        (rotl 1 (Z.lxor (Z.lxor (at_ 2%nat) (at_ 7%nat)) (Z.lxor (at_ 13%nat) (at_ 15%nat))) :: w)
  end.

Definition state : Type := Z * Z * Z * Z * Z.

Definition round (i : Z) (w : Z) (s : state) : state :=
  let '(a, b, c, d, e) := s in
  let '(f, k) :=
    if i <? 20 then (Z.lor (Z.land b c) (Z.land (Z.lxor b 0xFFFFFFFF) d), 0x5A827999)
    else if i <? 40 then (Z.lxor (Z.lxor b c) d, 0x6ED9EBA1)
    else if i <? 60 then (Z.lor (Z.lor (Z.land b c) (Z.land b d)) (Z.land c d), 0x8F1BBCDC)
    else (Z.lxor (Z.lxor b c) d, 0xCA62C1D6) in
  (u32 (rotl 5 a + f + e + k + w), a, rotl 30 b, c, d).

Fixpoint rounds (i : Z) (ws : list Z) (s : state) : state :=
  match ws with
  | [] => s
  | w :: ws => rounds (i + 1) ws (round i w s)
  end.

Definition block (ws : list Z) (s : state) : state :=
  let '(a, b, c, d, e) := s in
  let '(a', b', c', d', e') := rounds 0 (rev (schedule 64 (rev ws))) s in
  (u32 (a + a'), u32 (b + b'), u32 (c + c'), u32 (d + d'), u32 (e + e')).

Fixpoint blocks (n : nat) (ws : list Z) (s : state) : state :=
  match n with
  | O => s
  | S n' => blocks n' (drop 16 ws) (block (take 16 ws) s)
  end.

Definition Sum (m : bytes) : bytes :=
  let p := pad m in
  let '(a, b, c, d, e) :=
    blocks (length p / 64) (words p) (0x67452301, 0xEFCDAB89, 0x98BADCFE, 0x10325476, 0xC3D2E1F0) in
  PutUint32 a ++ PutUint32 b ++ PutUint32 c ++ PutUint32 d ++ PutUint32 e.

Example Sum_abc : words (Sum "abc") = [0xa9993e36; 0x4706816a; 0xba3e2571; 0x7850c26c; 0x9cd0d89d].
Proof. by vm_compute. Qed.
Example Sum_two_blocks :
  words (Sum "abcdbcdecdefdefgefghfghighijhijkijkljklmklmnlmnomnopnopq")
  = [0x84983e44; 0x1c3bd26e; 0xbaae4aa1; 0xf95129e5; 0xe54670f1].
Proof. by vm_compute. Qed.
