(* ===== verification/GoDuration.v ===== *)
(** * time.Duration as text: ParseDuration and String. *)

From S2P Require Import Prelude.
From S2P Require Import GoStrings.
From S2P Require Import GoTime.
From S2P Require Import GoFloat.
From S2P Require Import GoNet.

#[local] Open Scope go_scope.

(** ** ParseDuration *)

(** [leadingInt]: a prefix of digits up to 2^63. *)
Fixpoint leadingInt (s : bytes) (x : Z) : option (Z * bytes) :=
  match s with
  | c :: k =>
      if is_digit c then
        if 2 ^ 63 / 10 <? x then None else
        let x := x * 10 + (Z_of_byte c - 48) in
        if 2 ^ 63 <? x then None else leadingInt k x
      else Some (x, s)
  | [] => Some (x, [])
  end.

(** [leadingFraction]: digits after the overflow are skipped. *)
Fixpoint leadingFraction (s : bytes) (x : Z) (scale : float64) (overflow : bool)
  : Z * float64 * bytes :=
  match s with
  | c :: k =>
      if is_digit c then
        if overflow then leadingFraction k x scale true else
        if (2 ^ 63 - 1) / 10 <? x then leadingFraction k x scale true else
        let y := x * 10 + (Z_of_byte c - 48) in
        if 2 ^ 63 <? y then leadingFraction k x scale true else
        leadingFraction k y (f_mul scale (f_of_int 10)) false
      else (x, scale, s)
  | [] => (x, scale, [])
  end.

Fixpoint span_unit (s : bytes) : bytes * bytes :=
  match s with
  | c :: k =>
      if bool_decide (c = "."%char) || is_digit c then ([], s)
      else let '(u, r) := span_unit k in (c :: u, r)
  | [] => ([], [])
  end.

Definition micro_sign : bytes := map byte_of_Z [0xC2; 0xB5].
Definition greek_mu : bytes := map byte_of_Z [0xCE; 0xBC].

(** [unitMap] *)
Definition duration_unit (u : bytes) : option Z :=
  if bool_decide (u = "ns") then Some Nanosecond
  else if bool_decide (u = "us") || bool_decide (u = micro_sign ++ "s")
          || bool_decide (u = greek_mu ++ "s") then Some (1000 * Nanosecond)
  else if bool_decide (u = "ms") then Some Millisecond
  else if bool_decide (u = "s") then Some Second
  else if bool_decide (u = "m") then Some Minute
  else if bool_decide (u = "h") then Some Hour
  else None.

(** One number with its unit: its value in nanoseconds and what follows. *)
Definition duration_item (s : bytes) : option (Z * bytes) :=
  match s with
  | [] => None
  | c :: _ =>
      if negb (bool_decide (c = "."%char) || is_digit c) then None else
      match leadingInt s 0 with
      | None => None
      | Some (v, s1) =>
          let pre := negb (len s1 =? len s) in
          let '(f, scale, s2, post) :=
            match s1 with
            | "."%char :: k =>
                let '(f, scale, r) := leadingFraction k 0 (f_of_int 1) false in
                (f, scale, r, negb (len r =? len k))
            | _ => (0, f_of_int 1, s1, false)
            end in
          if negb pre && negb post then None else
          let '(u, rest) := span_unit s2 in
          if bool_decide (u = "") then None else
          match duration_unit u with
          | None => None
          | Some unit =>
              if 2 ^ 63 / unit <? v then None else
              let v := v * unit in
              if 0 <? f then
                let v := v + f_to_int (f_mul (f_of_int f) (f_div (f_of_int unit) scale)) in
                if 2 ^ 63 <? v then None else Some (v, rest)
              else Some (v, rest)
          end
      end
  end.

(** Every item takes at least one byte. *)
Fixpoint duration_items (fuel : nat) (s : bytes) (d : Z) : option Z :=
  match s, fuel with
  | [], _ => Some d
  | _, O => None
  | _, S fuel' =>
      match duration_item s with
      | None => None
      | Some (v, rest) =>
          let d := u64 (d + v) in
          if 2 ^ 63 <? d then None else duration_items fuel' rest d
      end
  end.

Definition ParseDuration (s : bytes) : option Z :=
  let '(neg, s) := match s with
                   | "-"%char :: k => (true, k)
                   | "+"%char :: k => (false, k)
                   | _ => (false, s)
                   end in
  if bool_decide (s = "0") then Some 0 else
  if bool_decide (s = "") then None else
  match duration_items (length s) s 0 with
  | None => None
  | Some d => if neg then Some (- d) else if 2 ^ 63 - 1 <? d then None else Some d
  end.

(** ** String *)

(** [fmtFrac]: the decimals of [u] at a precision, without trailing zeros, and
    the integer part. *)
Fixpoint frac_digits (prec : nat) (u : Z) (print : bool) (acc : bytes) : bytes * Z :=
  match prec with
  | O => (if print then "."%char :: acc else acc, u)
  | S p =>
      let digit := u mod 10 in
      let print := print || negb (digit =? 0) in
      frac_digits p (u / 10) print (if print then byte_of_Z (48 + digit) :: acc else acc)
  end.

Definition duration_String (d : Z) : bytes :=
  let u := Z.abs d in
  let body :=
    if u <? Second then
      if u =? 0 then "0s" else
      let '(prec, suffix) :=
        if u <? 1000 then (0%nat, "ns") else if u <? Millisecond then (3%nat, micro_sign ++ "s")
        else (6%nat, "ms") in
      let '(frac, u) := frac_digits prec u false "" in
      itoa u ++ frac ++ suffix
    else
      let '(frac, u) := frac_digits 9 u false "" in
      let secs := itoa (u mod 60) ++ frac ++ "s" in
      let u := u / 60 in
      if 0 <? u then
        let mins := itoa (u mod 60) ++ "m" ++ secs in
        let u := u / 60 in
        if 0 <? u then itoa u ++ "h" ++ mins else mins
      else secs in
  if (d <? 0) && negb (bool_decide (body = "0s")) then "-" ++ body else body.

Example duration_String_5s : map duration_String [5 * Second; 90 * Minute; 1500 * Millisecond; 0; -1200]
  = ["5s"; "1h30m0s"; "1.5s"; "0s"; "-1.2" ++ micro_sign ++ "s"].
Proof. vm_compute. reflexivity. Qed.
Example ParseDuration_ok : map ParseDuration ["5s"; "1h30m"; "1.5s"; "-2ms"; ".5h"; "0"; "1us"; "+3ns"]
  = map Some [5 * Second; 90 * Minute; 1500 * Millisecond; -2 * Millisecond; 30 * Minute; 0; 1000; 3].
Proof. vm_compute. reflexivity. Qed.
Example ParseDuration_bad : map ParseDuration [""; "5"; "s"; "1x"; "9223372036854775808ns"; "1.s."; "-"]
  = repeat None 7.
Proof. vm_compute. reflexivity. Qed.
