(* ===== verification/ServerConfig.v ===== *)
(** * config/config.go: the configuration from the environment.

    The environment is a function from names to values, empty when unset; what
    the file system says about a path is a function too. *)

From S2P Require Import Prelude.
From S2P Require Import GoStrings.
From S2P Require Import GoTime.
From S2P Require Import GoFloat.
From S2P Require Import GoParse.
From S2P Require Import GoPath.
From S2P Require Import GoDuration.

#[local] Open Scope go_scope.

(** ** Data *)

Record Config := mkServerConfig {
  cfg_DNSPort : Z;
  cfg_HTTPPort : Z;
  cfg_DoTPort : Z;
  cfg_CacheMaxEntries : Z;
  cfg_CacheMinTTL : Z;
  cfg_CacheMaxTTL : Z;
  cfg_CacheStaleWindow : Z;
  cfg_CacheStaleMaxAge : Z;
  cfg_CachePersistPath : bytes;
  cfg_LogLevel : bytes;
  cfg_LogFormat : bytes;
  cfg_BlocklistPath : bytes;
  cfg_RateLimitQPS : float64;
  cfg_RateLimitBurst : Z;
  cfg_RRLEnabled : bool;
  cfg_RRLResponsesPerSec : Z;
  cfg_RRLSlip : Z;
  cfg_QNAMEMinimization : bool;
  cfg_CaseRandomization : bool;
  cfg_UpstreamTimeout : Z;
  cfg_MaxCNAMEDepth : Z;
  cfg_EDNSEnabled : bool;
  cfg_MaxUDPSize : Z;
  cfg_CBFailureThreshold : Z;
  cfg_CBSuccessThreshold : Z;
  cfg_CBOpenTimeout : Z;
  cfg_TLSEnabled : bool;
  cfg_TLSCertPath : bytes;
  cfg_TLSKeyPath : bytes;
  cfg_TLSAutoGenerate : bool;
  cfg_AllowRecursive : bool;
  cfg_MaxRecursionDepth : Z;
  cfg_PPROFEnabled : bool;
  cfg_OTELEnabled : bool;
  cfg_OTLPEndpoint : bytes;
  cfg_OTELServiceName : bytes;
  cfg_PrometheusEnabled : bool;
  cfg_ControlPlaneToken : bytes;
  cfg_ShutdownDrainTimeout : Z;
  cfg_GoroutinePoolSize : Z;
  cfg_MaxTCPConnections : Z
}.

Definition Default : Config := {|
  cfg_DNSPort := 53;
  cfg_HTTPPort := 8080;
  cfg_DoTPort := 853;
  cfg_CacheMaxEntries := 10000;
  cfg_CacheMinTTL := 30 * Second;
  cfg_CacheMaxTTL := 86400 * Second;
  cfg_CacheStaleWindow := 300 * Second;
  cfg_CacheStaleMaxAge := 3600 * Second;
  cfg_CachePersistPath := "./cache.json";
  cfg_LogLevel := "info";
  cfg_LogFormat := "json";
  cfg_BlocklistPath := "./blocklist.txt";
  cfg_RateLimitQPS := f_of_int 100;
  cfg_RateLimitBurst := 200;
  cfg_RRLEnabled := true;
  cfg_RRLResponsesPerSec := 10;
  cfg_RRLSlip := 2;
  cfg_QNAMEMinimization := true;
  cfg_CaseRandomization := true;
  cfg_UpstreamTimeout := 5 * Second;
  cfg_MaxCNAMEDepth := 10;
  cfg_EDNSEnabled := true;
  cfg_MaxUDPSize := 4096;
  cfg_CBFailureThreshold := 5;
  cfg_CBSuccessThreshold := 2;
  cfg_CBOpenTimeout := 30 * Second;
  cfg_TLSEnabled := false;
  cfg_TLSCertPath := "./cert.pem";
  cfg_TLSKeyPath := "./key.pem";
  cfg_TLSAutoGenerate := true;
  cfg_AllowRecursive := true;
  cfg_MaxRecursionDepth := 10;
  cfg_PPROFEnabled := false;
  cfg_OTELEnabled := false;
  cfg_OTLPEndpoint := "http://localhost:4317";
  cfg_OTELServiceName := "dns-resolver";
  cfg_PrometheusEnabled := true;
  cfg_ControlPlaneToken := "";
  cfg_ShutdownDrainTimeout := 30 * Second;
  cfg_GoroutinePoolSize := 1000;
  cfg_MaxTCPConnections := 500
|}.

(** ** Reading the environment *)

Section config.
Context (env : bytes -> bytes).

(** A variable that is blank or that [parse] refuses leaves the default. *)
Definition parsedEnv {A} (parse : bytes -> option A) (key : bytes) (fallback : A) : A :=
  let v := TrimSpace (env key) in
  if bool_decide (v = "") then fallback else default fallback (parse v).

Definition stringEnv : bytes -> bytes -> bytes := parsedEnv Some.
Definition boolEnv : bytes -> bool -> bool := parsedEnv ParseBool.
Definition intEnv : bytes -> Z -> Z := parsedEnv Atoi.
Definition floatEnv : bytes -> float64 -> float64 := parsedEnv ParseFloat.
Definition durationEnv : bytes -> Z -> Z := parsedEnv ParseDuration.

(** A duration, or a number of seconds. *)
Definition durationOrSeconds (v : bytes) : option Z :=
  match ParseDuration v with
  | Some d => Some d
  | None => (fun seconds => i64 (seconds * Second)) <$> Atoi v
  end.
Definition durationOrSecondsEnv : bytes -> Z -> Z := parsedEnv durationOrSeconds.

Definition env_config : Config := {|
  cfg_DNSPort := intEnv "DNS_PORT" (cfg_DNSPort Default);
  cfg_HTTPPort := intEnv "HTTP_PORT" (cfg_HTTPPort Default);
  cfg_DoTPort := intEnv "DOT_PORT" (cfg_DoTPort Default);
  cfg_CacheMaxEntries := intEnv "CACHE_MAX_ENTRIES" (cfg_CacheMaxEntries Default);
  cfg_CacheMinTTL := durationOrSecondsEnv "CACHE_MIN_TTL" (cfg_CacheMinTTL Default);
  cfg_CacheMaxTTL := durationOrSecondsEnv "CACHE_MAX_TTL" (cfg_CacheMaxTTL Default);
  cfg_CacheStaleWindow := durationOrSecondsEnv "CACHE_STALE_WINDOW" (cfg_CacheStaleWindow Default);
  cfg_CacheStaleMaxAge := durationOrSecondsEnv "CACHE_STALE_MAX_AGE" (cfg_CacheStaleMaxAge Default);
  cfg_CachePersistPath := stringEnv "CACHE_PERSIST_PATH" (cfg_CachePersistPath Default);
  cfg_LogLevel := stringEnv "LOG_LEVEL" (cfg_LogLevel Default);
  cfg_LogFormat := stringEnv "LOG_FORMAT" (cfg_LogFormat Default);
  cfg_BlocklistPath := stringEnv "BLOCKLIST_PATH" (cfg_BlocklistPath Default);
  cfg_RateLimitQPS := floatEnv "RATE_LIMIT_QPS" (cfg_RateLimitQPS Default);
  cfg_RateLimitBurst := intEnv "RATE_LIMIT_BURST" (cfg_RateLimitBurst Default);
  cfg_RRLEnabled := boolEnv "RRL_ENABLED" (cfg_RRLEnabled Default);
  cfg_RRLResponsesPerSec := intEnv "RRL_RESPONSES_PER_SEC" (cfg_RRLResponsesPerSec Default);
  cfg_RRLSlip := intEnv "RRL_SLIP" (cfg_RRLSlip Default);
  cfg_QNAMEMinimization := boolEnv "QNAME_MINIMIZATION" (cfg_QNAMEMinimization Default);
  cfg_CaseRandomization := boolEnv "CASE_RANDOMIZATION" (cfg_CaseRandomization Default);
  cfg_UpstreamTimeout := durationEnv "UPSTREAM_TIMEOUT" (cfg_UpstreamTimeout Default);
  cfg_MaxCNAMEDepth := intEnv "MAX_CNAME_DEPTH" (cfg_MaxCNAMEDepth Default);
  cfg_EDNSEnabled := boolEnv "EDNS_ENABLED" (cfg_EDNSEnabled Default);
  cfg_MaxUDPSize := intEnv "MAX_UDP_SIZE" (cfg_MaxUDPSize Default);
  cfg_CBFailureThreshold := intEnv "CB_FAILURE_THRESHOLD" (cfg_CBFailureThreshold Default);
  cfg_CBSuccessThreshold := intEnv "CB_SUCCESS_THRESHOLD" (cfg_CBSuccessThreshold Default);
  cfg_CBOpenTimeout := durationEnv "CB_OPEN_TIMEOUT" (cfg_CBOpenTimeout Default);
  cfg_TLSEnabled := boolEnv "TLS_ENABLED" (cfg_TLSEnabled Default);
  cfg_TLSCertPath := stringEnv "TLS_CERT_PATH" (cfg_TLSCertPath Default);
  cfg_TLSKeyPath := stringEnv "TLS_KEY_PATH" (cfg_TLSKeyPath Default);
  cfg_TLSAutoGenerate := boolEnv "TLS_AUTO_GENERATE" (cfg_TLSAutoGenerate Default);
  cfg_AllowRecursive := boolEnv "ALLOW_RECURSIVE" (cfg_AllowRecursive Default);
  cfg_MaxRecursionDepth := intEnv "MAX_RECURSION_DEPTH" (cfg_MaxRecursionDepth Default);
  cfg_PPROFEnabled := boolEnv "PPROF_ENABLED" (cfg_PPROFEnabled Default);
  cfg_OTELEnabled := boolEnv "OTEL_ENABLED" (cfg_OTELEnabled Default);
  cfg_OTLPEndpoint := stringEnv "OTEL_EXPORTER_OTLP_ENDPOINT" (cfg_OTLPEndpoint Default);
  cfg_OTELServiceName := stringEnv "OTEL_SERVICE_NAME" (cfg_OTELServiceName Default);
  cfg_PrometheusEnabled := boolEnv "PROMETHEUS_ENABLED" (cfg_PrometheusEnabled Default);
  cfg_ControlPlaneToken := stringEnv "CONTROL_PLANE_TOKEN" (cfg_ControlPlaneToken Default);
  cfg_ShutdownDrainTimeout := durationEnv "SHUTDOWN_DRAIN_TIMEOUT" (cfg_ShutdownDrainTimeout Default);
  cfg_GoroutinePoolSize := intEnv "GOROUTINE_POOL_SIZE" (cfg_GoroutinePoolSize Default);
  cfg_MaxTCPConnections := intEnv "MAX_TCP_CONNECTIONS" (cfg_MaxTCPConnections Default)
|}.
End config.

(** ** Validation *)

Section validation.
(** [os.Stat]: the text of its error, or whether the path is a directory. *)
Context (Stat : bytes -> bytes + bool).

Definition check (bad : bool) (message : bytes) : list bytes := if bad then [message] else [].

Definition validatePort (name : bytes) (value : Z) : list bytes :=
  check ((value <? 1) || (65535 <? value)) (name ++ " must be between 1 and 65535").

Definition check_file (what path : bytes) : list bytes :=
  match Stat path with
  | inl err => [what ++ ": " ++ err]
  | inr _ => []
  end.

Definition check_persist_dir (path : bytes) : list bytes :=
  let dir := Dir path in
  check (negb (bool_decide (dir = "")) && negb (bool_decide (dir = "."))
         && negb (match Stat dir with inr is_dir => is_dir | inl _ => false end))
    ("cache persist directory not accessible: " ++ dir).

(** The messages of [Validate], in order. *)
Definition complaints (c : Config) : list bytes :=
  validatePort "DNS_PORT" (cfg_DNSPort c) ++
  validatePort "HTTP_PORT" (cfg_HTTPPort c) ++
  validatePort "DOT_PORT" (cfg_DoTPort c) ++
  check (cfg_CacheMaxEntries c <? 1) "CACHE_MAX_ENTRIES must be > 0" ++
  check ((cfg_CacheMinTTL c <? 0) || (cfg_CacheMaxTTL c <? cfg_CacheMinTTL c))
    "CACHE_MIN_TTL/CACHE_MAX_TTL invalid" ++
  check ((cfg_CacheStaleWindow c <? 0) || (cfg_CacheStaleMaxAge c <? cfg_CacheStaleWindow c))
    "CACHE_STALE_WINDOW/CACHE_STALE_MAX_AGE invalid" ++
  check (f_leb (cfg_RateLimitQPS c) (f_of_int 0) || (cfg_RateLimitBurst c <=? 0))
    "RATE_LIMIT_QPS and RATE_LIMIT_BURST must be > 0" ++
  check ((cfg_RRLResponsesPerSec c <=? 0) || (cfg_RRLSlip c <=? 0))
    "RRL_RESPONSES_PER_SEC and RRL_SLIP must be > 0" ++
  check (cfg_UpstreamTimeout c <=? 0) "UPSTREAM_TIMEOUT must be > 0" ++
  check ((cfg_MaxCNAMEDepth c <? 1) || (cfg_MaxRecursionDepth c <? 1))
    "MAX_CNAME_DEPTH and MAX_RECURSION_DEPTH must be >= 1" ++
  check ((cfg_MaxUDPSize c <? 512) || (4096 <? cfg_MaxUDPSize c)) "MAX_UDP_SIZE must be in [512,4096]" ++
  check ((cfg_CBFailureThreshold c <? 1) || (cfg_CBSuccessThreshold c <? 1) || (cfg_CBOpenTimeout c <=? 0))
    "circuit breaker values invalid" ++
  check (cfg_ShutdownDrainTimeout c <=? 0) "SHUTDOWN_DRAIN_TIMEOUT must be > 0" ++
  check ((cfg_GoroutinePoolSize c <? 1) || (cfg_MaxTCPConnections c <? 1))
    "GOROUTINE_POOL_SIZE and MAX_TCP_CONNECTIONS must be > 0" ++
  (if cfg_TLSEnabled c && negb (cfg_TLSAutoGenerate c) then
     check_file "TLS cert path" (cfg_TLSCertPath c) ++ check_file "TLS key path" (cfg_TLSKeyPath c)
   else []) ++
  check_persist_dir (cfg_CachePersistPath c).

(** The error, if there is one. *)
Definition Validate (c : Config) : option bytes :=
  match complaints c with
  | [] => None
  | parts => Some ("config validation failed: " ++ Join parts "; ")
  end.

Definition LoadFromEnv (env : bytes -> bytes) : Config * option bytes :=
  (env_config env, Validate (env_config env)).

(** ** What a configuration without an error satisfies *)

Record valid (c : Config) : Prop := {
  vc_ports : Forall (fun p => 1 <= p <= 65535) [cfg_DNSPort c; cfg_HTTPPort c; cfg_DoTPort c];
  vc_entries : 1 <= cfg_CacheMaxEntries c;
  vc_ttl : 0 <= cfg_CacheMinTTL c <= cfg_CacheMaxTTL c;
  vc_stale : 0 <= cfg_CacheStaleWindow c <= cfg_CacheStaleMaxAge c;
  vc_qps : f_leb (cfg_RateLimitQPS c) (f_of_int 0) = false;
  vc_burst : 1 <= cfg_RateLimitBurst c;
  vc_rrl : 1 <= cfg_RRLResponsesPerSec c /\ 1 <= cfg_RRLSlip c;
  vc_timeout : 1 <= cfg_UpstreamTimeout c;
  vc_depth : 1 <= cfg_MaxCNAMEDepth c /\ 1 <= cfg_MaxRecursionDepth c;
  vc_udp : 512 <= cfg_MaxUDPSize c <= 4096;
  vc_breaker : 1 <= cfg_CBFailureThreshold c /\ 1 <= cfg_CBSuccessThreshold c /\ 1 <= cfg_CBOpenTimeout c;
  vc_drain : 1 <= cfg_ShutdownDrainTimeout c;
  vc_pools : 1 <= cfg_GoroutinePoolSize c /\ 1 <= cfg_MaxTCPConnections c;
  vc_tls : cfg_TLSEnabled c = true -> cfg_TLSAutoGenerate c = false ->
           exists a b, Stat (cfg_TLSCertPath c) = inr a /\ Stat (cfg_TLSKeyPath c) = inr b;
  vc_persist : Dir (cfg_CachePersistPath c) = "" \/ Dir (cfg_CachePersistPath c) = "."
               \/ Stat (Dir (cfg_CachePersistPath c)) = inr true
}.

Lemma check_nil bad message : check bad message = [] <-> bad = false.
Proof. unfold check. by destruct bad. Qed.

Lemma port_nil name p : validatePort name p = [] <-> 1 <= p <= 65535.
Proof. unfold validatePort. rewrite check_nil, orb_false_iff. lia. Qed.

Lemma file_nil what path : check_file what path = [] <-> exists a, Stat path = inr a.
Proof. unfold check_file. destruct (Stat path); naive_solver. Qed.

Lemma persist_nil path :
  check_persist_dir path = [] <-> Dir path = "" \/ Dir path = "." \/ Stat (Dir path) = inr true.
Proof.
  unfold check_persist_dir. cbv zeta. rewrite check_nil, !andb_false_iff, !negb_false_iff, !bool_decide_eq_true.
  destruct (Stat (Dir path)) as [e|[]]; naive_solver.
Qed.

Lemma complaints_nil c : complaints c = [] <-> valid c.
Proof.
  unfold complaints. rewrite !app_nil, !port_nil, !check_nil, !orb_false_iff, persist_nil.
  assert ((if cfg_TLSEnabled c && negb (cfg_TLSAutoGenerate c)
           then check_file "TLS cert path" (cfg_TLSCertPath c) ++ check_file "TLS key path" (cfg_TLSKeyPath c)
           else []) = []
    <-> (cfg_TLSEnabled c = true -> cfg_TLSAutoGenerate c = false ->
         exists a b, Stat (cfg_TLSCertPath c) = inr a /\ Stat (cfg_TLSKeyPath c) = inr b)) as ->.
  { destruct (cfg_TLSEnabled c), (cfg_TLSAutoGenerate c); cbn [andb negb];
      rewrite ?app_nil, ?file_nil; naive_solver. }
  split.
  - intros H. decompose [and] H. split; try assumption; try lia.
    repeat (constructor; [lia|]). constructor.
  - intros [Hp]. rewrite !Forall_cons in Hp. repeat split; try assumption; try lia.
Qed.
End validation.

Section load.
Context (Stat : bytes -> bytes + bool).

Lemma parsedEnv_blank env {A} (parse : bytes -> option A) key fallback :
  TrimSpace (env key) = "" -> parsedEnv env parse key fallback = fallback.
Proof. intros H. unfold parsedEnv. by rewrite H. Qed.

Lemma env_config_default env : (forall key, TrimSpace (env key) = "") -> env_config env = Default.
Proof.
  intros H. unfold env_config, stringEnv, boolEnv, intEnv, floatEnv, durationEnv, durationOrSecondsEnv.
  by rewrite !parsedEnv_blank by apply H.
Qed.

Lemma Default_valid : valid Stat Default.
Proof.
  split; try (cbn; unfold Second; lia); try done.
  - repeat (constructor; [cbn; lia|]). constructor.
  - right. left. vm_compute. reflexivity.
Qed.

Lemma Join_first p ps sep : p `prefix_of` Join (p :: ps) sep.
Proof. destruct ps as [|q ps]; [exists []; by rewrite app_nil_r|]. by eexists. Qed.

(** What starts the server.  [LoadFromEnv] reports no error exactly when the
    ports are ports, every size, threshold and timeout is positive, the TTL and
    stale windows are ordered and the files it needs are there; otherwise the
    error begins with the first limit that is broken.  Without any variable set
    the defaults are taken, and they are valid. *)
Theorem LoadFromEnv_valid env :
  let '(c, err) := LoadFromEnv Stat env in
  (err = None <-> valid Stat c)
  /\ (forall e, err = Some e ->
        exists first rest, complaints Stat c = first :: rest
          /\ ("config validation failed: " ++ first) `prefix_of` e)
  /\ ((forall key, TrimSpace (env key) = "") -> c = Default /\ err = None).
Proof.
  unfold LoadFromEnv, Validate. set (c := env_config env). pose proof (complaints_nil Stat c) as Hv.
  ands.
  - rewrite <- Hv. by destruct (complaints Stat c).
  - destruct (complaints Stat c) as [|p ps]; [done|]. intros e <-%(inj Some). exists p, ps. split; [done|].
    destruct (Join_first p ps "; ") as [k E]. exists k. by rewrite E, app_assoc.
  - intros H. unfold c. rewrite env_config_default by done. split; [done|].
    by rewrite (proj2 (complaints_nil Stat Default) Default_valid).
Qed.
End load.
