(* ===== verification/Settings.v ===== *)
(** * Run-time settings: ApplyRuntimeSettings and RuntimeConfig of
    internal/resolver/resolver.go, on the configuration alone.

    A setting is a decoded JSON value, a Go [any]. *)

From S2P Require Import Prelude.
From S2P Require Import GoStrings.
From S2P Require Import GoTime.
From S2P Require Import GoFloat.
From S2P Require Import GoDuration.
From S2P Require Import Protocol.
From S2P Require Import Cache.
From S2P Require Import Recursive.

#[local] Open Scope go_scope.

(** ** Values of type any *)

(** A [float32] is given by the [float64] it converts to. *)
#[warnings="-register-all"] Inductive any :=
| VNil
| VBool (b : bool)
| VInt (n : Z)
| VInt32 (n : Z)
| VInt64 (n : Z)
| VFloat64 (f : float64)
| VFloat32 (f : float64)
| VString (s : bytes)
| VArray (l : list any)
| VObject (m : list (bytes * any)).

Abbreviation settings := (gmap bytes any) (only parsing).

(** [m[key]]: nil for a missing key. *)
Definition setting (m : settings) (key : bytes) : any := default VNil (m !! key).

Definition boolSetting (v : any) : option bool :=
  match v with VBool b => Some b | _ => None end.

Definition intSetting (v : any) : option Z :=
  match v with
  | VInt n | VInt32 n | VInt64 n => Some n
  | VFloat64 f | VFloat32 f => Some (f_to_int f)
  | _ => None
  end.

Definition durationSetting `{U : UnicodeTables} (v : any) : option Z :=
  match v with
  | VString s => ParseDuration (TrimSpace s)
  | VFloat64 f | VFloat32 f => Some (f_to_int (f_mul f (f_of_int Second)))
  | VInt n | VInt64 n => Some (i64 (n * Second))
  | _ => None
  end.

(** ** The configuration *)

Definition DefaultConfig : Config := {|
  UpstreamTimeout := 5 * Second;
  Retries := 3;
  MaxCNAMEDepth := 10;
  MaxRecursionDepth := 10;
  QNAMEMinimization := true;
  CaseRandomization := true;
  EDNSEnabled := true;
  MaxUDPSize := 4096;
  CBFailureThreshold := 5;
  CBSuccessThreshold := 2;
  CBOpenTimeout := 30 * Second
|}.

(** The configuration [New] keeps. *)
Definition new_config (cfg : Config) : Config :=
  let cfg := if UpstreamTimeout cfg <=? 0 then DefaultConfig else cfg in
  {| UpstreamTimeout := UpstreamTimeout cfg;
     Retries := if Retries cfg <=? 0 then 3 else Retries cfg;
     MaxCNAMEDepth := if MaxCNAMEDepth cfg <=? 0 then 10 else MaxCNAMEDepth cfg;
     MaxRecursionDepth := if MaxRecursionDepth cfg <=? 0 then 10 else MaxRecursionDepth cfg;
     QNAMEMinimization := QNAMEMinimization cfg;
     CaseRandomization := CaseRandomization cfg;
     EDNSEnabled := EDNSEnabled cfg;
     MaxUDPSize := if MaxUDPSize cfg <=? 0 then MaxUDPPacketLen else MaxUDPSize cfg;
     CBFailureThreshold := CBFailureThreshold cfg;
     CBSuccessThreshold := CBSuccessThreshold cfg;
     CBOpenTimeout := CBOpenTimeout cfg |}.

(** A setting that is present and acceptable. *)
Definition accepted_value {A} (v : option A) (ok : A -> bool) : option A :=
  match v with Some x => if ok x then Some x else None | None => None end.

Section settings.
Context {U : UnicodeTables}.

(** The settings of the resolver that are present and acceptable. *)
Record updates := mkUpdates {
  up_qname_minimization : option bool;
  up_case_randomization : option bool;
  up_edns_enabled : option bool;
  up_max_udp_size : option Z;
  up_upstream_timeout : option Z;
  up_max_cname_depth : option Z;
  up_max_recursion_depth : option Z;
  up_retries : option Z;
  up_cb_failure_threshold : option Z;
  up_cb_success_threshold : option Z;
  up_cb_open_timeout : option Z
}.

Definition read_updates (m : settings) : updates := {|
  up_qname_minimization := boolSetting (setting m "qname_minimization");
  up_case_randomization := boolSetting (setting m "case_randomization");
  up_edns_enabled := boolSetting (setting m "edns_enabled");
  up_max_udp_size :=
    accepted_value (intSetting (setting m "max_udp_size")) (fun v => (512 <=? v) && (v <=? 4096));
  up_upstream_timeout :=
    accepted_value (durationSetting (setting m "upstream_timeout")) (fun v => 0 <? v);
  up_max_cname_depth :=
    accepted_value (intSetting (setting m "max_cname_depth")) (fun v => 1 <=? v);
  up_max_recursion_depth :=
    accepted_value (intSetting (setting m "max_recursion_depth")) (fun v => 1 <=? v);
  up_retries := accepted_value (intSetting (setting m "retries")) (fun v => 1 <=? v);
  up_cb_failure_threshold :=
    accepted_value (intSetting (setting m "cb_failure_threshold")) (fun v => 1 <=? v);
  up_cb_success_threshold :=
    accepted_value (intSetting (setting m "cb_success_threshold")) (fun v => 1 <=? v);
  up_cb_open_timeout :=
    accepted_value (durationSetting (setting m "cb_open_timeout")) (fun v => 0 <? v)
|}.

Definition apply_updates (u : updates) (cfg : Config) : Config := {|
  UpstreamTimeout := default (UpstreamTimeout cfg) (up_upstream_timeout u);
  Retries := default (Retries cfg) (up_retries u);
  MaxCNAMEDepth := default (MaxCNAMEDepth cfg) (up_max_cname_depth u);
  MaxRecursionDepth := default (MaxRecursionDepth cfg) (up_max_recursion_depth u);
  QNAMEMinimization := default (QNAMEMinimization cfg) (up_qname_minimization u);
  CaseRandomization := default (CaseRandomization cfg) (up_case_randomization u);
  EDNSEnabled := default (EDNSEnabled cfg) (up_edns_enabled u);
  MaxUDPSize := default (MaxUDPSize cfg) (up_max_udp_size u);
  CBFailureThreshold := default (CBFailureThreshold cfg) (up_cb_failure_threshold u);
  CBSuccessThreshold := default (CBSuccessThreshold cfg) (up_cb_success_threshold u);
  CBOpenTimeout := default (CBOpenTimeout cfg) (up_cb_open_timeout u)
|}.

(** [cbChanged] *)
Definition breakers_changed (u : updates) : bool :=
  bool_decide (is_Some (up_cb_failure_threshold u)) || bool_decide (is_Some (up_cb_success_threshold u))
  || bool_decide (is_Some (up_cb_open_timeout u)).

(** What is reported as applied. *)
Definition report {A} (key : bytes) (v : option A) (show : A -> any) (m : settings) : settings :=
  match v with Some x => <[key := show x]> m | None => m end.

Definition report_updates (u : updates) : settings :=
  let show_duration d := VString (duration_String d) in
  report "cb_open_timeout" (up_cb_open_timeout u) show_duration
  $ report "cb_success_threshold" (up_cb_success_threshold u) VInt
  $ report "cb_failure_threshold" (up_cb_failure_threshold u) VInt
  $ report "retries" (up_retries u) VInt
  $ report "max_recursion_depth" (up_max_recursion_depth u) VInt
  $ report "max_cname_depth" (up_max_cname_depth u) VInt
  $ report "upstream_timeout" (up_upstream_timeout u) show_duration
  $ report "max_udp_size" (up_max_udp_size u) VInt
  $ report "edns_enabled" (up_edns_enabled u) VBool
  $ report "case_randomization" (up_case_randomization u) VBool
  $ report "qname_minimization" (up_qname_minimization u) VBool ∅.

(** The update of the cache; [None] when no cache setting was accepted. *)
Definition cache_update (m : settings) : option RuntimeConfigUpdate :=
  let u := {|
    u_MaxEntries := accepted_value (intSetting (setting m "cache_max_entries")) (fun v => 0 <? v);
    u_MinTTL := accepted_value (durationSetting (setting m "cache_min_ttl")) (fun v => 0 <? v);
    u_MaxTTL := accepted_value (durationSetting (setting m "cache_max_ttl")) (fun v => 0 <? v);
    u_StaleWindow := accepted_value (durationSetting (setting m "cache_stale_window")) (fun v => 0 <=? v);
    u_StaleMaxAge := accepted_value (durationSetting (setting m "cache_stale_max_age")) (fun v => 0 <=? v)
  |} in
  if bool_decide (is_Some (u_MaxEntries u)) || bool_decide (is_Some (u_MinTTL u))
     || bool_decide (is_Some (u_MaxTTL u)) || bool_decide (is_Some (u_StaleWindow u))
     || bool_decide (is_Some (u_StaleMaxAge u))
  then Some u else None.

(** The cache's part of the reported settings. *)
Definition report_cache (current : CacheRuntimeConfig) (m : settings) : settings :=
  <["cache_stale_max_age" := VInt (Z.quot (rc_StaleMaxAge current) Second)]>
  $ <["cache_stale_window" := VInt (Z.quot (rc_StaleWindow current) Second)]>
  $ <["cache_max_ttl" := VInt (Z.quot (rc_MaxTTL current) Second)]>
  $ <["cache_min_ttl" := VInt (Z.quot (rc_MinTTL current) Second)]>
  $ <["cache_max_entries" := VInt (rc_MaxEntries current)]> m.
End settings.

(** The settings [RuntimeConfig] shows. *)
Definition show_config (cfg : Config) : settings :=
  <["qname_minimization" := VBool (QNAMEMinimization cfg)]>
  $ <["case_randomization" := VBool (CaseRandomization cfg)]>
  $ <["edns_enabled" := VBool (EDNSEnabled cfg)]>
  $ <["max_udp_size" := VInt (MaxUDPSize cfg)]>
  $ <["upstream_timeout" := VString (duration_String (UpstreamTimeout cfg))]>
  $ <["max_cname_depth" := VInt (MaxCNAMEDepth cfg)]>
  $ <["max_recursion_depth" := VInt (MaxRecursionDepth cfg)]>
  $ <["retries" := VInt (Retries cfg)]>
  $ <["cb_failure_threshold" := VInt (CBFailureThreshold cfg)]>
  $ <["cb_success_threshold" := VInt (CBSuccessThreshold cfg)]>
  $ <["cb_open_timeout" := VString (duration_String (CBOpenTimeout cfg))]> ∅.

(** ** Well-formed configurations *)

Record config_ok (cfg : Config) : Prop := {
  co_timeout : 0 < UpstreamTimeout cfg;
  co_retries : 1 <= Retries cfg;
  co_cname : 1 <= MaxCNAMEDepth cfg;
  co_depth : 1 <= MaxRecursionDepth cfg;
  co_udp : 1 <= MaxUDPSize cfg
}.

Lemma new_config_ok cfg : config_ok (new_config cfg).
Proof.
  unfold new_config. cbv zeta. set (c := if UpstreamTimeout cfg <=? 0 then DefaultConfig else cfg).
  assert (0 < UpstreamTimeout c) by (unfold c; bcase; [done|lia]). clearbody c.
  split; cbn [UpstreamTimeout Retries MaxCNAMEDepth MaxRecursionDepth MaxUDPSize]; [done|..];
    unfold MaxUDPPacketLen; bcase; lia.
Qed.

Lemma accepted_value_ok {A} (v : option A) ok x : accepted_value v ok = Some x -> ok x = true.
Proof. unfold accepted_value. destruct v as [y|]; [|done]. destruct (ok y) eqn:E; [|done]. by intros [= <-]. Qed.

Lemma default_accepted (P : Z -> Prop) old v ok :
  P old -> (forall x, ok x = true -> P x) -> P (default old (accepted_value v ok)).
Proof.
  intros Ho Hok. destruct (accepted_value v ok) as [x|] eqn:E; [|done]. apply Hok. by eapply accepted_value_ok.
Qed.

Lemma apply_updates_ok `{U : UnicodeTables} m cfg :
  config_ok cfg -> config_ok (apply_updates (read_updates m) cfg).
Proof.
  intros []. split; cbn [apply_updates read_updates UpstreamTimeout Retries MaxCNAMEDepth MaxRecursionDepth MaxUDPSize
    up_upstream_timeout up_retries up_max_cname_depth up_max_recursion_depth up_max_udp_size];
    apply default_accepted; try done; intros x Hx; lia.
Qed.
