(* ===== verification/GoJson.v ===== *)
(** * package encoding/json: reading a value, and writing the types whose text
    the program compares. *)

From S2P Require Import Prelude.
From S2P Require Import GoStrings.
From S2P Require Import GoNet.
From S2P Require Import GoFloat.
From S2P Require Import GoParse.
From S2P Require Import GoBase64.
From S2P Require Import Protocol.
From S2P Require Import Settings.

#[local] Open Scope go_scope.

(** ** Reading *)

Fixpoint skip_space (s : bytes) : bytes :=
  match s with
  | c :: k => if bool_decide (Z_of_byte c ∈ [32; 9; 13; 10]) then skip_space k else s
  | [] => []
  end.

Definition hex4 (a b c d : byte) : option Z :=
  x ← hex_value a; y ← hex_value b; z ← hex_value c; w ← hex_value d;
  Some (4096 * x + 256 * y + 16 * z + w).

Definition simple_escape (c : byte) : option byte :=
  match c with
  | "034"%char | "\"%char | "/"%char => Some c
  | "b"%char => Some "008"%char
  | "f"%char => Some "012"%char
  | "n"%char => Some "010"%char
  | "r"%char => Some "013"%char
  | "t"%char => Some "009"%char
  | _ => None
  end.

Definition is_high_surrogate (r : Z) : bool := (0xD800 <=? r) && (r <? 0xDC00).
Definition is_low_surrogate (r : Z) : bool := (0xDC00 <=? r) && (r <? 0xE000).

(** One escape after its backslash: the bytes it stands for and what follows.  A
    surrogate without its partner is the replacement character. *)
Definition read_escape (s : bytes) : option (bytes * bytes) :=
  match s with
  | "u"%char :: a :: b :: c :: d :: k =>
      r ← hex4 a b c d;
      let alone := Some (EncodeRune (if is_high_surrogate r || is_low_surrogate r then RuneError else r), k) in
      if is_high_surrogate r then
        match k with
        | "\"%char :: "u"%char :: a :: b :: c :: d :: k' =>
            match hex4 a b c d with
            | Some r' => if is_low_surrogate r'
                         then Some (EncodeRune (0x10000 + (r - 0xD800) * 0x400 + (r' - 0xDC00)), k')
                         else alone
            | None => alone
            end
        | _ => alone
        end
      else alone
  | c :: k => (fun e => ([e], k)) <$> simple_escape c
  | [] => None
  end.

(** A string after its opening quote; invalid UTF-8 is replaced. *)
Fixpoint read_string (fuel : nat) (s : bytes) : option (bytes * bytes) :=
  match fuel, s with
  | S fuel', c :: k =>
      if bool_decide (c = "034"%char) then Some ([], k)
      else if bool_decide (c = "\"%char) then
        '(e, k) ← read_escape k;
        '(r, rest) ← read_string fuel' k; Some (e ++ r, rest)
      else if Z_of_byte c <? 32 then None
      else
        let '(r, n) := DecodeRune s in
        '(t, rest) ← read_string fuel' (drop n s); Some (EncodeRune r ++ t, rest)
  | _, _ => None
  end.

Fixpoint span_digits (s : bytes) : bytes * bytes :=
  match s with
  | c :: k => if is_digit c then let '(d, r) := span_digits k in (c :: d, r) else ([], s)
  | [] => ([], [])
  end.

Definition scan_sign (s : bytes) : bytes * bytes :=
  match s with "-"%char :: k => ("-" : bytes, k) | _ => ([], s) end.

(** The digits after a point, and whether there are any. *)
Definition scan_frac (s : bytes) : bytes * bytes * bool :=
  match s with
  | "."%char :: k => let '(d, r) := span_digits k in ("." ++ d, r, negb (bool_decide (d = [])))
  | _ => ([], s, true)
  end.

Definition scan_exp (s : bytes) : bytes * bytes * bool :=
  match s with
  | e :: k =>
      if lower e =? 101 then
        let '(sg, k) := match k with
                        | "+"%char :: k => ("+" : bytes, k)
                        | "-"%char :: k => ("-" : bytes, k)
                        | _ => ([], k)
                        end in
        let '(d, r) := span_digits k in (e :: sg ++ d, r, negb (bool_decide (d = [])))
      else ([], s, true)
  | [] => ([], s, true)
  end.

(** Digits without a leading zero. *)
Definition int_ok (int : bytes) : bool :=
  match int with [] => false | [_] => true | c :: _ => negb (bool_decide (c = "0"%char)) end.

(** The text of a number and what follows. *)
Definition scan_number (s : bytes) : option (bytes * bytes) :=
  let '(sign, s) := scan_sign s in
  let '(int, s) := span_digits s in
  let '(frac, s, frac_ok) := scan_frac s in
  let '(exp, s, exp_ok) := scan_exp s in
  if int_ok int && frac_ok && exp_ok then Some (sign ++ int ++ frac ++ exp, s) else None.

(** A value as it is written: numbers and strings with their text. *)
#[warnings="-register-all"] Inductive raw :=
| RNull | RBool (b : bool) | RNumber (text : bytes) | RString (text s : bytes)
| RArray (l : list raw) | RObject (l : list (bytes * raw)).

Definition read_word (word s : bytes) (v : raw) : option (raw * bytes) :=
  if HasPrefix s word then Some (v, drop (length word) s) else None.

(** The elements of an array and the members of an object after the first
    bracket, at most [n], each value read by [read]. *)
Section nested.
Context (read : bytes -> option (raw * bytes)).

Fixpoint read_elements (n : nat) (s : bytes) (acc : list raw) : option (raw * bytes) :=
  match n with
  | O => None
  | S n' =>
      '(v, s) ← read s;
      match skip_space s with
      | ","%char :: k => read_elements n' k (acc ++ [v])
      | "]"%char :: k => Some (RArray (acc ++ [v]), k)
      | _ => None
      end
  end.

Fixpoint read_members (n : nat) (s : bytes) (acc : list (bytes * raw)) : option (raw * bytes) :=
  match n with
  | O => None
  | S n' =>
      match skip_space s with
      | "034"%char :: k =>
          '(key, s) ← read_string (S (length k)) k;
          match skip_space s with
          | ":"%char :: k =>
              '(v, s) ← read k;
              match skip_space s with
              | ","%char :: k => read_members n' k (acc ++ [(key, v)])
              | "}"%char :: k => Some (RObject (acc ++ [(key, v)]), k)
              | _ => None
              end
          | _ => None
          end
      | _ => None
      end
  end.
End nested.

(** A value and what follows it; ten thousand levels of nesting at most. *)
Fixpoint read_value (fuel : nat) (depth : Z) (s : bytes) {struct fuel} : option (raw * bytes) :=
  match fuel with
  | O => None
  | S fuel' =>
      let s := skip_space s in
      match s with
      | "{"%char :: k =>
          if 10000 <? depth + 1 then None else
          match skip_space k with
          | "}"%char :: k => Some (RObject [], k)
          | _ => read_members (read_value fuel' (depth + 1)) fuel' k []
          end
      | "["%char :: k =>
          if 10000 <? depth + 1 then None else
          match skip_space k with
          | "]"%char :: k => Some (RArray [], k)
          | _ => read_elements (read_value fuel' (depth + 1)) fuel' k []
          end
      | "034"%char :: k =>
          '(t, rest) ← read_string (S (length k)) k;
          Some (RString (take (length k - length rest - 1) k) t, rest)
      | "t"%char :: _ => read_word "true" s (RBool true)
      | "f"%char :: _ => read_word "false" s (RBool false)
      | "n"%char :: _ => read_word "null" s RNull
      | _ => '(t, rest) ← scan_number s; Some (RNumber t, rest)
      end
  end.

(** A value decoded into an [any]; a number out of range is an error. *)
Fixpoint to_any (r : raw) : option any :=
  match r with
  | RNull => Some VNil
  | RBool b => Some (VBool b)
  | RNumber t => VFloat64 <$> ParseFloat t
  | RString _ s => Some (VString s)
  | RArray l => VArray <$> mapM to_any l
  | RObject l => VObject <$> mapM (fun kv => pair kv.1 <$> to_any kv.2) l
  end.

(** [Decode] of the first value of a body into a map: the nil map for null, and
    an error for anything that is no object.  Of equal keys the last one counts. *)
Definition DecodeMap (body : bytes) : option (option (gmap bytes any)) :=
  '(r, _) ← read_value (S (length body)) 0 body;
  match to_any r with
  | Some VNil => Some None
  | Some (VObject m) => Some (Some (foldl (fun m kv => <[kv.1 := kv.2]> m) ∅ m))
  | _ => None
  end.

(** ** Writing *)

Definition escape_byte (c : byte) : bytes :=
  match c with
  | "034"%char => "\" ++ [c]
  | "\"%char => "\\"
  | "008"%char => "\b"
  | "012"%char => "\f"
  | "010"%char => "\n"
  | "013"%char => "\r"
  | "009"%char => "\t"
  | _ => if (Z_of_byte c <? 32) || bool_decide (c ∈ ("<>&" : bytes))
         then "\u00" ++ hex_byte c else [c]
  end.

(** The text of a string between its quotes. *)
Fixpoint escape_string (fuel : nat) (s : bytes) : bytes :=
  match fuel, s with
  | S fuel', c :: k =>
      if is_ascii c then escape_byte c ++ escape_string fuel' k
      else
        let '(r, n) := DecodeRune s in
        (if (r =? RuneError) && bool_decide (n = 1%nat) then "\ufffd"
         else if r =? 0x2028 then "\u2028" else if r =? 0x2029 then "\u2029"
         else take n s) ++ escape_string fuel' (drop n s)
  | _, _ => []
  end.

Definition quote : bytes := ["034"%char].
Definition json_string (s : bytes) : bytes := quote ++ escape_string (length s) s ++ quote.
Definition json_int (n : Z) : bytes := if n <? 0 then "-" ++ itoa (- n) else itoa n.

(** What is written, as a tree; an object has its members in the order of the
    text. *)
#[warnings="-register-all"] Inductive jvalue :=
| JNull | JBool (b : bool) | JInt (n : Z) | JString (s : bytes)
| JArray (l : list jvalue) | JObject (l : list (bytes * jvalue)).

(** A list between brackets, [indent d] before each element and before the last
    bracket. *)
Definition bracketed (first last : bytes) (indent : nat -> bytes) (d : nat) (l : list bytes) : bytes :=
  if bool_decide (l = []) then first ++ last
  else first ++ indent (S d) ++ Join l ("," ++ indent (S d)) ++ indent d ++ last.

(** The text of a value at the depth [d], [gap] after each colon. *)
Fixpoint render_at (indent : nat -> bytes) (gap : bytes) (d : nat) (v : jvalue) : bytes :=
  match v with
  | JNull => "null"
  | JBool b => if b then "true" else "false"
  | JInt n => json_int n
  | JString s => json_string s
  | JArray l => bracketed "[" "]" indent d (map (render_at indent gap (S d)) l)
  | JObject l =>
      bracketed "{" "}" indent d
        (map (fun kv => json_string kv.1 ++ ":" ++ gap ++ render_at indent gap (S d) kv.2) l)
  end.

(** [json.Marshal], and [json.MarshalIndent] without prefix and with two spaces. *)
Definition Marshal : jvalue -> bytes := render_at (fun _ => "") "" 0.
Definition newline_indent (d : nat) : bytes := "010"%char :: repeat " "%char (2 * d).
Definition MarshalIndent : jvalue -> bytes := render_at newline_indent " " 0.

(** A byte slice; the decoder leaves nil for an empty one. *)
Definition JBytes (s : bytes) : jvalue := if bool_decide (s = "") then JNull else JString (StdEncodeToString s).

Abbreviation fields := (list (bytes * jvalue)) (only parsing).

(** A member that [omitempty] leaves out. *)
Definition unless (empty : bool) (key : bytes) (v : jvalue) : fields := if empty then [] else [(key, v)].
Definition list_field {A} (key : bytes) (f : A -> jvalue) (l : list A) : fields :=
  unless (len l =? 0) key (JArray (map f l)).
Definition string_field (key s : bytes) : fields := unless (bool_decide (s = "")) key (JString s).

(** A map, whose keys are sorted. *)
Definition json_map {A} (f : A -> jvalue) (m : gmap bytes A) : jvalue :=
  JObject (omap (fun k => pair k ∘ f <$> m !! k) (sort_strings (map fst (map_to_list m)))).

(** Record data, by the tags of resource_record.go. *)
Definition rdata_value (d : option RData) : jvalue :=
  match d with
  | None => JNull
  | Some (AData a) | Some (AAAAData a) =>
      JObject [("address", JArray (map (fun c => JInt (Z_of_byte c)) a))]
  | Some (CNAMEData n) | Some (NSData n) | Some (PTRData n) => JObject [("name", JString n)]
  | Some (MXData p e) => JObject [("preference", JInt p); ("exchange", JString e)]
  | Some (SOAData mname rname serial refresh retry expire minimum) =>
      JObject [("mname", JString mname); ("rname", JString rname); ("serial", JInt serial);
        ("refresh", JInt refresh); ("retry", JInt retry); ("expire", JInt expire);
        ("minimum", JInt minimum)]
  | Some (TXTData texts) => JObject [("texts", JArray (map JString texts))]
  | Some (SRVData p w port target) =>
      JObject [("priority", JInt p); ("weight", JInt w); ("port", JInt port);
        ("target", JString target)]
  | Some (CAAData f t v) => JObject [("flags", JInt f); ("tag", JString t); ("value", JString v)]
  | Some (RRSIGData tc alg labels ttl exp inc tag name sig) =>
      JObject [("type_covered", JInt tc); ("algorithm", JInt alg); ("labels", JInt labels);
        ("original_ttl", JInt ttl); ("expiration", JInt exp); ("inception", JInt inc);
        ("key_tag", JInt tag); ("signer_name", JString name); ("signature", JBytes sig)]
  | Some (DNSKEYData f p alg key) =>
      JObject [("flags", JInt f); ("protocol", JInt p); ("algorithm", JInt alg);
        ("public_key", JBytes key)]
  | Some (DSData tag alg dt digest) =>
      JObject [("key_tag", JInt tag); ("algorithm", JInt alg); ("digest_type", JInt dt);
        ("digest", JBytes digest)]
  | Some (NSECData next bm) => JObject [("next_domain", JString next); ("type_bitmap", JBytes bm)]
  | Some (NSEC3Data alg f it salt next bm) =>
      JObject [("hash_algorithm", JInt alg); ("flags", JInt f); ("iterations", JInt it);
        ("salt", JBytes salt); ("next_hashed", JBytes next); ("type_bitmap", JBytes bm)]
  | Some (OPTData sz ext v f opts) =>
      JObject [("udp_size", JInt sz); ("ext_rcode", JInt ext); ("version", JInt v);
        ("flags", JInt f); ("options", JBytes opts)]
  | Some (UnknownData t d) => JObject [("type", JInt t); ("data", JBytes d)]
  end.

(** [json.Marshal] of record data. *)
Definition json_rdata (d : option RData) : bytes := Marshal (rdata_value d).

Definition quoted (s : bytes) : bytes := quote ++ s ++ quote.
Example DecodeMap_examples :
  DecodeMap (" { " ++ quoted "a" ++ " : [1, true, null], " ++ quoted "b" ++ ":" ++ quoted "x\u00e9\n\ud83d\ude00"
             ++ ", " ++ quoted "a" ++ ":-2.5e1 } trailing")
  = Some (Some (<["a" := VFloat64 (f_of_int (-25))]>
                  (<["b" := VString (map byte_of_Z [120; 195; 169; 10; 240; 159; 152; 128])]> ∅)))
  /\ DecodeMap "null" = Some None
  /\ map DecodeMap [""; "[]"; "{"; "{" ++ quoted "a" ++ ":01}"; "{" ++ quoted "a" ++ ":1,}"; quoted "a"]
     = repeat None 6.
Proof. vm_compute. ands; reflexivity. Qed.
Example json_rdata_example :
  json_rdata (Some (TXTData ["a<b"; map byte_of_Z [9; 255]]))
  = "{" ++ quoted "texts" ++ ":[" ++ quoted "a\u003cb" ++ "," ++ quoted "\t\ufffd" ++ "]}"
  /\ json_rdata (Some (AData (map byte_of_Z [192; 0; 2; 1]))) = "{" ++ quoted "address" ++ ":[192,0,2,1]}"
  /\ json_rdata (Some (DSData 1 8 2 "")) =
     "{" ++ quoted "key_tag" ++ ":1," ++ quoted "algorithm" ++ ":8," ++ quoted "digest_type" ++ ":2,"
     ++ quoted "digest" ++ ":null}".
Proof. vm_compute. ands; reflexivity. Qed.
