(* ===== verification/JsonText.v ===== *)
(** * What the JSON encoder writes is read back.

    [render] of a tree of values is one JSON value, and [read_value], the decoder
    of the settings, gets the tree back: strings with invalid UTF-8 replaced,
    integers as floats. *)

From S2P Require Import Prelude.
From S2P Require Import GoStrings.
From S2P Require Import GoNet.
From S2P Require Import GoFloat.
From S2P Require Import GoParse.
From S2P Require Import GoBase64.
From S2P Require Import Settings.
From S2P Require Import GoJson.
From Stdlib Require Import Floats.SpecFloat.

#[local] Open Scope go_scope.

(** ** Integers *)

Definition digits (s : bytes) : Prop := Forall (fun c => is_digit c = true) s.

Lemma itoa_loop_digits fuel n acc : digits acc -> 0 <= n -> digits (itoa_loop fuel n acc).
Proof.
  revert n acc. induction fuel as [|fuel IH]; intros n acc Ha Hn; [done|]. cbn [itoa_loop].
  assert (digits (byte_of_Z (48 + n mod 10) :: acc)) as Hd.
  { constructor; [|done]. unfold is_digit. rewrite Z_of_byte_of_Z, Z.mod_small by dlia.
    apply andb_true_iff. split; dlia. }
  bcase; [done|]. apply IH; [done|dlia].
Qed.

Lemma itoa_loop_head fuel n acc : 0 < n < 10 ^ Z.of_nat fuel ->
  exists c k, itoa_loop fuel n acc = c :: k /\ c <> "0"%char.
Proof.
  revert n acc. induction fuel as [|fuel IH]; intros n acc Hn; [cbn in Hn; lia|].
  rewrite Nat2Z.inj_succ, Z.pow_succ_r in Hn by lia. cbn [itoa_loop]. bcase.
  - eexists _, _. split; [done|]. intros E%(f_equal Z_of_byte). rewrite Z_of_byte_of_Z, Z.mod_small in E by dlia.
    change (Z_of_byte "0") with 48 in E. dlia.
  - apply IH. dlia.
Qed.

Lemma itoa_loop_length fuel n acc : len (itoa_loop fuel n acc) <= len acc + Z.of_nat fuel.
Proof.
  revert n acc. induction fuel as [|fuel IH]; intros n acc; cbn [itoa_loop]; [lia|].
  bcase; [len_lia|]. specialize (IH (n / 10) (byte_of_Z (48 + n mod 10) :: acc)). len_lia.
Qed.

Lemma hex_value_digit c : is_digit c = true -> hex_value c = Some (Z_of_byte c - 48).
Proof. unfold hex_value, is_digit. cbv zeta. by intros ->. Qed.

Lemma digit_range c : is_digit c = true -> 48 <= Z_of_byte c <= 57.
Proof. unfold is_digit. lia. Qed.

Lemma digit_neq c x : is_digit c = true -> is_digit x = false -> c <> x.
Proof. congruence. Qed.

Lemma read_mantissa_digits s m : digits s -> dp m = None -> 0 < nd m ->
  read_mantissa false s m
  = (mkMantissa (foldl (fun n c => 10 * n + (Z_of_byte c - 48)) (mant m) s) (nd m + len s) None
       (sawdigits m || bool_decide (s <> [])) (underscores m), []).
Proof.
  revert m. induction s as [|c s IH]; intros [mt n d sw us] Hs Hd Hn; cbn [dp nd mant sawdigits underscores] in *; subst d.
  - cbn. by rewrite orb_false_r, Z.add_0_r.
  - apply Forall_cons in Hs as [Hc Hs]. cbn [read_mantissa].
    rewrite (bool_decide_eq_false_2 (c = "_"%char)) by (by apply digit_neq).
    rewrite (bool_decide_eq_false_2 (c = "."%char)) by (by apply digit_neq). cbn [nd].
    assert ((n =? 0) = false) as -> by lia. rewrite andb_false_r, Hc. cbn [orb mant dp underscores].
    rewrite IH by (try done; cbn [nd]; lia). cbn [dp nd mant sawdigits underscores].
    rewrite hex_value_digit by done. cbn [default foldl].
    rewrite len_cons, orb_true_l, (bool_decide_eq_true_2 (c :: s <> [])), orb_true_r by done.
    f_equal. f_equal; [f_equal; unfold id; lia|lia].
Qed.

(** The text of an integer: digits that say its value, without a leading zero. *)
Lemma itoa_text n : 0 <= n < 10 ^ 20 ->
  n = 0 /\ itoa n = "0" \/ 0 < n /\ exists c k, itoa n = c :: k /\ c <> "0"%char /\ digits (c :: k) /\ digits_value (c :: k) = n.
Proof.
  intros Hn. destruct (decide (n = 0)) as [->|H0]; [by left|right]. split; [lia|].
  destruct (itoa_loop_head 20 n [] ltac:(cbn; lia)) as (c & k & E & Hc). exists c, k. unfold itoa. rewrite E.
  ands; [done|done| |].
  - rewrite <- E. apply itoa_loop_digits; [by constructor|lia].
  - rewrite <- E. by apply itoa_value.
Qed.

(** No hexadecimal prefix without a leading zero. *)
Lemma no_hex_prefix (c : byte) k : c <> "0"%char ->
  match c :: k with
  | "0"%char :: x :: ((_ :: _) as k') => if lower x =? 120 then (true, k') else (false, c :: k)
  | _ => (false, c :: k)
  end = (false, c :: k).
Proof. intros Hc. destruct c as [[] [] [] [] [] [] [] []]; try reflexivity. by destruct Hc. Qed.

Lemma read_digits c k : c <> "0"%char -> digits (c :: k) ->
  read_mantissa false (c :: k) (mkMantissa 0 0 None false false)
  = (mkMantissa (digits_value (c :: k)) (len (c :: k)) None true false, []).
Proof.
  intros Hc [Hd Hk]%Forall_cons. cbn [read_mantissa].
  rewrite (bool_decide_eq_false_2 (c = "_"%char)) by (by apply digit_neq).
  rewrite (bool_decide_eq_false_2 (c = "."%char)) by (by apply digit_neq).
  rewrite (bool_decide_eq_false_2 (c = "0"%char)) by done. cbn [andb nd]. rewrite Hd. cbn [orb mant dp underscores].
  rewrite read_mantissa_digits by done. cbn [mant nd sawdigits underscores]. rewrite hex_value_digit by done.
  cbn [default orb]. rewrite len_cons. unfold digits_value. cbn [foldl]. do 3 f_equal; lia.
Qed.

Lemma parse_sign_digit c k : is_digit c = true -> parse_sign (c :: k) = (false, c :: k).
Proof. destruct c as [[] [] [] [] [] [] [] []]; try discriminate; reflexivity. Qed.

Lemma readFloat_int neg c k : c <> "0"%char -> digits (c :: k) ->
  readFloat ((if neg : bool then "-" else "") ++ c :: k) = Some (neg, false, digits_value (c :: k), 0).
Proof.
  intros Hc Hd. unfold readFloat.
  assert (parse_sign ((if neg then "-" else "") ++ c :: k) = (neg, c :: k)) as ->.
  { apply Forall_cons in Hd as [Hd _]. destruct neg; [done|]. by apply parse_sign_digit. }
  rewrite no_hex_prefix by done. rewrite read_digits by done. cbn [sawdigits negb dp nd default].
  rewrite Z.sub_diag, Z.mul_0_r. done.
Qed.

Lemma special_int neg c k : digits (c :: k) -> special ((if neg : bool then "-" else "") ++ c :: k) = None.
Proof.
  intros [Hd _]%Forall_cons. pose proof (digit_range c Hd) as Hr. unfold special.
  assert (forall p k, p <> [] -> Forall (fun q => 97 <= Z_of_byte q) p -> commonPrefixLenIgnoreCase (c :: k) p = 0) as Hp.
  { intros [|q p] k' Hne Hq; [done|]. apply Forall_cons in Hq as [Hq _]. cbn [commonPrefixLenIgnoreCase].
    destruct ((65 <=? Z_of_byte c) && (Z_of_byte c <=? 90)) eqn:E; [lia|]. bcase; [lia|done]. }
  assert (parse_sign ((if neg then "-" else "") ++ c :: k) = (neg, c :: k)) as ->.
  { destruct neg; [done|]. by apply parse_sign_digit. }
  rewrite Hp by (done || (repeat constructor; done)). cbn -[commonPrefixLenIgnoreCase].
  assert (commonPrefixLenIgnoreCase ((if neg then "-" else "") ++ c :: k) "nan" = 0) as ->; [|done].
  destruct neg; [done|]. cbn [app]. apply Hp; [done|repeat constructor; done].
Qed.

Lemma ratio_int neg m : 0 < m < 2 ^ 53 -> f_of_ratio neg m 1 = f_of_int (if neg then - m else m).
Proof.
  intros Hm. unfold f_of_ratio. assert ((m =? 0) = false) as -> by lia. rewrite Z.log2_1.
  set (shift := Z.max 0 (0 - Z.log2 m + 66)).
  assert (0 <= Z.log2 m) by apply Z.log2_nonneg. assert (0 <= shift <= 66) by lia.
  rewrite Z.shiftl_mul_pow2, Z.div_1_r, Z.mod_1_r by lia. cbn [Z.eqb]. rewrite Z.add_0_r.
  set (n := if neg then - m else m).
  replace (if neg then - (2 * (m * 2 ^ shift)) else 2 * (m * 2 ^ shift)) with (n * 2 ^ Z.of_nat (Z.to_nat (shift + 1)))
    by (rewrite Z2Nat.id, Z.pow_add_r by lia; unfold n; destruct neg; lia).
  replace (- (shift + 1)) with (- Z.of_nat (Z.to_nat (shift + 1))) by lia.
  replace neg with (n <? 0) by (unfold n; destruct neg; lia).
  apply normalize_scaled; [unfold n; destruct neg; lia|lia].
Qed.

Lemma json_int_sign n : json_int n = (if n <? 0 then "-" else "") ++ itoa (Z.abs n).
Proof.
  unfold json_int. destruct (n <? 0) eqn:E; cbn [app]; [by rewrite Z.abs_neq by lia|by rewrite Z.abs_eq by lia].
Qed.

(** An integer is read back exactly while a float64 holds it. *)
Lemma ParseFloat_int n : Z.abs n < 2 ^ 53 -> ParseFloat (json_int n) = Some (f_of_int n).
Proof.
  intros Hn. set (neg := n <? 0). set (m := Z.abs n).
  rewrite json_int_sign. fold neg m.
  assert (0 <= m < 10 ^ 20) as Hm by (unfold m; lia).
  destruct (itoa_text m Hm) as [[E ->]|(H0 & c & k & -> & Hc & Hd & Hv)].
  - assert (n = 0) as -> by lia. by vm_compute.
  - unfold ParseFloat. rewrite special_int, readFloat_int, Hv by done.
    assert ((m =? 0) = false) as -> by lia. rewrite Z.add_0_r. cbn [Z.max Z.opp Z.pow Z.pow_pos]. cbv zeta.
    rewrite !Z.mul_1_r.
    assert (len (itoa_loop (S (Z.to_nat (Z.log2 m))) m []) <= 310) as Hl.
    { pose proof (itoa_loop_length (S (Z.to_nat (Z.log2 m))) m []) as Hl. change (len []) with 0 in Hl.
      assert (Z.log2 m < 53) by (apply Z.log2_lt_pow2; lia). lia. }
    pose proof (len_nonneg (itoa_loop (S (Z.to_nat (Z.log2 m))) m [])).
    repeat bcase; try lia. rewrite ratio_int by lia.
    replace (if neg then - m else m) with n by (unfold neg, m; bcase; lia).
    pose proof (f_of_int_finite n) as Hi. destruct (f_of_int n) as [|s| |]; try done. by destruct (Hi s Hn).
Qed.

(** What may follow a number in a text: nothing that continues it. *)
Definition stops (k : bytes) : Prop :=
  match k with
  | [] => True
  | c :: _ => is_digit c = false /\ c <> "."%char /\ lower c <> 101
  end.

Lemma span_digits_stop d k : digits d -> stops k -> span_digits (d ++ k) = (d, k).
Proof.
  intros Hd Hk. induction Hd as [|c d Hc Hd IH]; cbn [app].
  - destruct k as [|c k]; [done|]. destruct Hk as (H & _). cbn [span_digits]. by rewrite H.
  - cbn [span_digits]. by rewrite Hc, IH.
Qed.

Lemma scan_frac_stop k : stops k -> scan_frac k = ([], k, true).
Proof.
  destruct k as [|c k]; [done|]. intros (_ & H & _). destruct c as [[] [] [] [] [] [] [] []]; try reflexivity. by destruct H.
Qed.

Lemma scan_exp_stop k : stops k -> scan_exp k = ([], k, true).
Proof. destruct k as [|c k]; [done|]. intros (_ & _ & H). cbn [scan_exp]. bcase; [lia|done]. Qed.

Lemma scan_sign_digit c k : is_digit c = true -> scan_sign (c :: k) = ([], c :: k).
Proof. destruct c as [[] [] [] [] [] [] [] []]; try discriminate; reflexivity. Qed.

Lemma scan_digits neg c d k : digits (c :: d) -> int_ok (c :: d) = true -> stops k ->
  scan_number ((if neg : bool then "-" else "") ++ (c :: d) ++ k) = Some ((if neg then "-" else "") ++ c :: d, k).
Proof.
  intros Hd Hok Hk. unfold scan_number.
  assert (scan_sign ((if neg then "-" else "") ++ (c :: d) ++ k) = ((if neg then "-" else "") : bytes, (c :: d) ++ k)) as ->.
  { destruct neg; [done|]. apply Forall_cons in Hd as [Hc _]. by apply scan_sign_digit. }
  rewrite span_digits_stop, scan_frac_stop, scan_exp_stop, Hok by done. cbn [andb app]. by rewrite app_nil_r.
Qed.

(** An integer is scanned as it was written. *)
Lemma scan_int n k : Z.abs n < 10 ^ 20 -> stops k -> scan_number (json_int n ++ k) = Some (json_int n, k).
Proof.
  intros Hn Hk. rewrite json_int_sign.
  destruct (itoa_text (Z.abs n)) as [[H0 ->]|(H0 & c & d & -> & Hc & Hd & _)]; [lia| |]; rewrite <- app_assoc.
  - apply (scan_digits _ "0" ""); [by repeat constructor|done|done].
  - apply scan_digits; [done| |done]. destruct d; [done|]. cbn. by rewrite bool_decide_eq_false_2.
Qed.

(** ** Strings *)

(** A string with each byte of invalid UTF-8 replaced. *)
Definition to_valid (s : bytes) : bytes := flat_map EncodeRune (runes s).

(** A rune that is not an error is decoded from its own bytes. *)
Lemma DecodeRune_local s r n t : DecodeRune s = (r, n) -> s <> [] -> ~ (r = RuneError /\ n = 1%nat) ->
  (0 < n <= length s)%nat /\ DecodeRune (take n s ++ t) = (r, n).
Proof.
  destruct s as [|c0 s]; [done|]. intros E _ Hn. unfold DecodeRune in E.
  assert (forall r' n', (RuneError, 1%nat) = (r', n') -> (r', n') = (r, n) -> False) as Hbad.
  { intros ? ? [= <- <-] [= <- <-]. by apply Hn. }
  destruct (Z_of_byte c0 <? 128) eqn:E0.
  { injection E as <- <-. cbn [take app]. split; [cbn; lia|]. unfold DecodeRune. by rewrite E0. }
  destruct (first_byte (Z_of_byte c0)) as [[[size lo] hi]|] eqn:Ef; [|by destruct (Hbad _ _ eq_refl E)].
  assert (size = 2 \/ size = 3 \/ size = 4) as Hsize.
  { unfold first_byte in Ef. repeat bcase_in Ef; try done; injection Ef as <- _ _; tauto. }
  destruct s as [|c1 s]; [by destruct (Hbad _ _ eq_refl E)|].
  destruct (len (c0 :: c1 :: s) <? size) eqn:El; [by destruct (Hbad _ _ eq_refl E)|].
  destruct ((Z_of_byte c1 <? lo) || (hi <? Z_of_byte c1)) eqn:E1; [by destruct (Hbad _ _ eq_refl E)|].
  assert (forall u, DecodeRune (c0 :: c1 :: u) =
    if len (c0 :: c1 :: u) <? size then (RuneError, 1%nat) else
    if size =? 2 then (Z_of_byte c0 mod 32 * 64 + Z_of_byte c1 mod 64, 2%nat)
    else match u with
         | [] => (RuneError, 1%nat)
         | c2 :: rest2 =>
             if negb (is_cont c2) then (RuneError, 1%nat)
             else if size =? 3 then (Z_of_byte c0 mod 16 * 4096 + Z_of_byte c1 mod 64 * 64 + Z_of_byte c2 mod 64, 3%nat)
             else match rest2 with
                  | [] => (RuneError, 1%nat)
                  | c3 :: _ =>
                      if negb (is_cont c3) then (RuneError, 1%nat)
                      else (Z_of_byte c0 mod 8 * 262144 + Z_of_byte c1 mod 64 * 4096
                            + Z_of_byte c2 mod 64 * 64 + Z_of_byte c3 mod 64, 4%nat)
                  end
         end) as D.
  { intros u. unfold DecodeRune. by rewrite E0, Ef, E1. }
  destruct (size =? 2) eqn:E2.
  { injection E as <- <-. cbn [take app]. split; [cbn; lia|]. rewrite D, !len_cons. pose proof (len_nonneg (take 0 s ++ t)).
    by replace (_ <? size) with false by lia. }
  destruct s as [|c2 s]; [by destruct (Hbad _ _ eq_refl E)|].
  destruct (is_cont c2) eqn:Ec2; cbn [negb] in E; [|by destruct (Hbad _ _ eq_refl E)].
  destruct (size =? 3) eqn:E3.
  { injection E as <- <-. cbn [take app]. split; [cbn; lia|]. rewrite D, !len_cons. pose proof (len_nonneg (take 0 s ++ t)).
    replace (_ <? size) with false by lia. by rewrite Ec2. }
  destruct s as [|c3 s]; [by destruct (Hbad _ _ eq_refl E)|].
  destruct (is_cont c3) eqn:Ec3; cbn [negb] in E; [|by destruct (Hbad _ _ eq_refl E)].
  injection E as <- <-. cbn [take app]. split; [cbn; lia|]. rewrite D, !len_cons. pose proof (len_nonneg (take 0 s ++ t)).
  replace (_ <? size) with false by lia. by rewrite Ec2, Ec3.
Qed.

Lemma DecodeRune_ascii c k : is_ascii c = true -> DecodeRune (c :: k) = (Z_of_byte c, 1%nat).
Proof. unfold DecodeRune, is_ascii. by intros ->. Qed.

Lemma DecodeRune_width c k : (0 < (DecodeRune (c :: k)).2)%nat.
Proof.
  unfold DecodeRune. destruct (_ <? 128); [cbn; lia|]. destruct (first_byte _) as [[[size lo] hi]|]; [|cbn; lia].
  destruct k as [|c1 k]; [cbn; lia|]. do 3 (bcase; [cbn; lia|]). destruct k as [|c2 k]; [cbn; lia|].
  do 2 (bcase; [cbn; lia|]). destruct k; [cbn; lia|]. bcase; cbn; lia.
Qed.

(** An ASCII byte is read back from what it is written as, in one step. *)
Lemma read_ascii f c t : is_ascii c = true ->
  read_string (S f) (escape_byte c ++ t) = ('(r, rest) ← read_string f t; Some (c :: r, rest)).
Proof.
  destruct c as [[] [] [] [] [] [] [] []]; try discriminate; intros _; reflexivity.
Qed.

(** So is a rune that is written as its own bytes. *)
Lemma read_rune f c k r n t : is_ascii c = false -> DecodeRune (c :: k) = (r, n) -> ~ (r = RuneError /\ n = 1%nat) ->
  read_string (S f) (take n (c :: k) ++ t) = ('(u, rest) ← read_string f t; Some (EncodeRune r ++ u, rest)).
Proof.
  intros Hc E Hn. destruct (DecodeRune_local (c :: k) r n t E ltac:(done) Hn) as [Hl E'].
  destruct n as [|n]; [lia|]. cbn [take app] in E' |- *. unfold is_ascii in Hc. cbn [read_string].
  rewrite bool_decide_eq_false_2 by (intros ->; by vm_compute in Hc).
  rewrite bool_decide_eq_false_2 by (intros ->; by vm_compute in Hc).
  replace (Z_of_byte c <? 32) with false by lia. rewrite E'.
  replace (drop (S n) (c :: take n k ++ t)) with t; [done|].
  cbn [drop length] in *. rewrite drop_app_ge by (rewrite length_take; lia).
  rewrite length_take, Nat.min_l, Nat.sub_diag by lia. done.
Qed.

(** A written string is read back, whatever follows. *)
Lemma read_string_escape n s f k : (length s <= n)%nat -> (length (escape_string n s) < f)%nat ->
  read_string f (escape_string n s ++ quote ++ k) = Some (flat_map EncodeRune (runes_loop n s), k).
Proof.
  revert s f. induction n as [|n IH]; intros s f Hs Hf.
  { destruct s; [|cbn in Hs; lia]. destruct f; [cbn in Hf; lia|done]. }
  destruct f as [|f]; [lia|]. destruct s as [|c s]; [done|]. cbn [escape_string runes_loop] in *.
  destruct (is_ascii c) eqn:Hc.
  - rewrite DecodeRune_ascii by done. rewrite <- app_assoc, read_ascii by done.
    rewrite length_app in Hf. assert (0 < length (escape_byte c))%nat.
    { apply Nat.ltb_lt. by destruct c as [[] [] [] [] [] [] [] []]. }
    cbn [length] in Hs. cbn [drop] in *. rewrite IH by lia. cbn [mbind option_bind flat_map].
    unfold EncodeRune. unfold is_ascii in Hc. pose proof (Z_of_byte_range c).
    replace ((Z_of_byte c <? 0) || (1114111 <? Z_of_byte c) || ((55296 <=? Z_of_byte c) && (Z_of_byte c <=? 57343)))
      with false by lia.
    rewrite Hc. by rewrite byte_of_Z_of_byte.
  - pose proof (DecodeRune_width c s) as Hw. destruct (DecodeRune (c :: s)) as [r w] eqn:E. cbn [snd] in Hw.
    assert (length (drop w (c :: s)) <= n)%nat as Hd by (rewrite length_drop; lia).
    rewrite <- app_assoc. cbn [flat_map]. rewrite length_app in Hf.
    bcase.
    { cbn [length app] in Hf. apply andb_true_iff in Hb as [Hr Hb]. 
      assert (r = RuneError) as -> by lia. 
      transitivity ('(u, rest) ← read_string f (escape_string n (drop w (c :: s)) ++ quote ++ k); Some (EncodeRune RuneError ++ u, rest));
        [reflexivity|]. rewrite IH by (done || cbn in Hf; lia). done. }
    bcase.
    { assert (r = 0x2028) as -> by lia.
      transitivity ('(u, rest) ← read_string f (escape_string n (drop w (c :: s)) ++ quote ++ k); Some (EncodeRune 0x2028 ++ u, rest));
        [reflexivity|]. rewrite IH by (done || cbn in Hf; lia). done. }
    bcase.
    { assert (r = 0x2029) as -> by lia.
      transitivity ('(u, rest) ← read_string f (escape_string n (drop w (c :: s)) ++ quote ++ k); Some (EncodeRune 0x2029 ++ u, rest));
        [reflexivity|]. rewrite IH by (done || cbn in Hf; lia). done. }
    rewrite (read_rune _ _ _ _ _ _ Hc E).
    + rewrite IH; [done|done|]. destruct w; [lia|]. cbn [take length] in Hf. lia.
    + intros [-> ->]. by rewrite bool_decide_eq_true_2 in Hb.
Qed.

Lemma read_string_json s k :
  read_string (S (length (escape_string (length s) s ++ quote ++ k))) (escape_string (length s) s ++ quote ++ k)
  = Some (to_valid s, k).
Proof. apply read_string_escape; [lia|]. rewrite length_app. lia. Qed.

(** *** Valid strings *)

(** A rune that is written is read back; one that cannot be written is written as U+FFFD. *)
Lemma DecodeRune_Encode r t : exists r', DecodeRune (EncodeRune r ++ t) = (r', length (EncodeRune r)) /\ EncodeRune r' = EncodeRune r.
Proof.
  unfold EncodeRune at 1 2. set (bad := (r <? 0) || (1114111 <? r) || ((55296 <=? r) && (r <=? 57343))).
  set (q := if bad then RuneError else r). exists q.
  assert (0 <= q <= 1114111 /\ ~ (55296 <= q <= 57343)) as [Hq Hs] by (unfold q, bad, RuneError; bcase; lia).
  assert (EncodeRune q = EncodeRune r) as Hr.
  { unfold EncodeRune. fold bad. unfold q. destruct bad eqn:E; [done|]. fold bad. by rewrite E. }
  split; [|exact Hr]. clearbody q. clear Hr bad r. pose proof (len_nonneg t).
  destruct (q <? 128) eqn:E1; [|destruct (q <? 2048) eqn:E2; [|destruct (q <? 65536) eqn:E3]]; cbn [app length]; unfold DecodeRune;
    rewrite !Z_of_byte_small by dlia.
  - by rewrite E1.
  - replace (192 + q / 64 <? 128) with false by dlia. unfold first_byte.
    replace ((194 <=? 192 + q / 64) && (192 + q / 64 <=? 223)) with true by dlia.
    rewrite !len_cons. replace (1 + (1 + len t) <? 2) with false by lia.
    replace ((128 + q mod 64 <? 128) || (191 <? 128 + q mod 64)) with false by dlia. cbn [Z.eqb Pos.eqb]. f_equal. dlia.
  - replace (224 + q / 4096 <? 128) with false by dlia.
    assert (exists lo hi, first_byte (224 + q / 4096) = Some (3, lo, hi) /\ lo <= 128 + q / 64 mod 64 <= hi) as (lo & hi & -> & Hb).
    { unfold first_byte. replace ((194 <=? 224 + q / 4096) && (224 + q / 4096 <=? 223)) with false by dlia.
      destruct (224 + q / 4096 =? 224) eqn:E4; [eexists _, _; split; [done|dlia]|].
      destruct (224 + q / 4096 =? 237) eqn:E5; [eexists _, _; split; [done|dlia]|].
      replace ((225 <=? 224 + q / 4096) && (224 + q / 4096 <=? 239)) with true by dlia. eexists _, _; split; [done|dlia]. }
    rewrite !len_cons. replace (1 + (1 + (1 + len t)) <? 3) with false by lia.
    replace ((128 + q / 64 mod 64 <? lo) || (hi <? 128 + q / 64 mod 64)) with false by lia. cbn [Z.eqb Pos.eqb].
    unfold is_cont. rewrite !Z_of_byte_small by dlia.
    replace ((128 <=? 128 + q mod 64) && (128 + q mod 64 <=? 191)) with true by dlia. cbn [negb]. f_equal. dlia.
  - replace (240 + q / 262144 <? 128) with false by dlia.
    assert (exists lo hi, first_byte (240 + q / 262144) = Some (4, lo, hi) /\ lo <= 128 + q / 4096 mod 64 <= hi) as (lo & hi & -> & Hb).
    { unfold first_byte. replace ((194 <=? 240 + q / 262144) && (240 + q / 262144 <=? 223)) with false by dlia.
      replace (240 + q / 262144 =? 224) with false by dlia. replace (240 + q / 262144 =? 237) with false by dlia.
      replace ((225 <=? 240 + q / 262144) && (240 + q / 262144 <=? 239)) with false by dlia.
      destruct (240 + q / 262144 =? 240) eqn:E4; [eexists _, _; split; [done|dlia]|].
      destruct ((241 <=? 240 + q / 262144) && (240 + q / 262144 <=? 243)) eqn:E5; [eexists _, _; split; [done|dlia]|].
      replace (240 + q / 262144 =? 244) with true by dlia. eexists _, _; split; [done|dlia]. }
    rewrite !len_cons. replace (1 + (1 + (1 + (1 + len t))) <? 4) with false by lia.
    replace ((128 + q / 4096 mod 64 <? lo) || (hi <? 128 + q / 4096 mod 64)) with false by lia. cbn [Z.eqb Pos.eqb].
    unfold is_cont. rewrite !Z_of_byte_small by dlia.
    replace ((128 <=? 128 + q / 64 mod 64) && (128 + q / 64 mod 64 <=? 191)) with true by dlia.
    replace ((128 <=? 128 + q mod 64) && (128 + q mod 64 <=? 191)) with true by dlia. cbn [negb]. f_equal. dlia.
Qed.

Lemma runes_loop_length n m s : (length s <= n)%nat -> (length s <= m)%nat -> runes_loop n s = runes_loop m s.
Proof.
  revert m s. induction n as [|n IH]; intros m [|c s] Hn Hm; cbn [length] in *; try lia; [by destruct m..|].
  destruct m as [|m]; [lia|]. cbn [runes_loop]. pose proof (DecodeRune_width c s) as Hw.
  destruct (DecodeRune (c :: s)) as [r w]. cbn [snd] in Hw. f_equal. apply IH; rewrite length_drop; cbn [length]; lia.
Qed.

Lemma to_valid_cons r s : to_valid (EncodeRune r ++ s) = EncodeRune r ++ to_valid s.
Proof.
  destruct (DecodeRune_Encode r s) as (r' & D & E). unfold to_valid, runes.
  assert (exists c k, EncodeRune r ++ s = c :: k) as (c & k & Ec).
  { unfold EncodeRune. repeat bcase; by eexists _, _. }
  assert (length (EncodeRune r ++ s) = S (length k)) as El by by rewrite Ec.
  rewrite El. rewrite Ec in D |- *. cbn [runes_loop]. rewrite D, <- Ec, drop_app_length. cbn [flat_map]. rewrite E. do 2 f_equal.
  rewrite length_app in El. apply runes_loop_length; [|lia].
  assert (0 < length (EncodeRune r))%nat by (unfold EncodeRune; repeat bcase; cbn; lia). lia.
Qed.

(** What is written by runes is valid. *)
Lemma to_valid_runes l s : to_valid (flat_map EncodeRune l ++ s) = flat_map EncodeRune l ++ to_valid s.
Proof. induction l as [|r l IH]; [done|]. cbn [flat_map]. by rewrite <- !app_assoc, to_valid_cons, IH. Qed.

Lemma to_valid_idem s : to_valid (to_valid s) = to_valid s.
Proof. unfold to_valid at 2. by rewrite <- (app_nil_r (flat_map _ _)), to_valid_runes, app_nil_r. Qed.

Lemma to_valid_ascii s : all_ascii s = true -> to_valid s = s.
Proof.
  unfold to_valid, runes. assert (forall n, (length s <= n)%nat -> all_ascii s = true ->
    flat_map EncodeRune (runes_loop n s) = s) as H; [|by apply H].
  induction s as [|c s IH]; intros [|n] Hn Ha; try done; [cbn in Hn; lia|].
  rewrite all_ascii_cons in Ha. apply andb_true_iff in Ha as [Hc Ha]. cbn [runes_loop].
  rewrite DecodeRune_ascii by done. cbn [flat_map drop length] in *. rewrite drop_0, IH by (done || lia).
  unfold EncodeRune. unfold is_ascii in Hc. pose proof (Z_of_byte_range c).
  replace ((Z_of_byte c <? 0) || (1114111 <? Z_of_byte c) || ((55296 <=? Z_of_byte c) && (Z_of_byte c <=? 57343)))
    with false by lia.
  rewrite Hc. by rewrite byte_of_Z_of_byte.
Qed.

(** Folding case makes a string valid. *)
Lemma to_valid_ToLower `{UnicodeTables} s t : all_ascii t = true -> to_valid (ToLower s ++ t) = ToLower s ++ t.
Proof.
  intros Ht. unfold ToLower. destruct (all_ascii s) eqn:E.
  - apply to_valid_ascii. by rewrite all_ascii_app, all_ascii_to_lower.
  - assert (flat_map (fun r => EncodeRune (rune_to_lower r)) (runes s) = flat_map EncodeRune (map rune_to_lower (runes s))) as ->.
    { generalize (runes s). intros l. induction l as [|r l IH]; [done|]. cbn [flat_map map]. by rewrite IH. }
    by rewrite to_valid_runes, to_valid_ascii.
Qed.

(** ** Values *)

Section jvalue_induction.
Context (P : jvalue -> Prop).
Context (Pnull : P JNull) (Pbool : forall b, P (JBool b)) (Pint : forall n, P (JInt n)) (Pstring : forall s, P (JString s)).
Context (Parray : forall l, Forall P l -> P (JArray l)) (Pobject : forall l, Forall (fun kv => P kv.2) l -> P (JObject l)).

Fixpoint jvalue_nested (v : jvalue) : P v :=
  match v with
  | JNull => Pnull
  | JBool b => Pbool b
  | JInt n => Pint n
  | JString s => Pstring s
  | JArray l => Parray l ((fix go l := match l return Forall P l with
                            | [] => Forall_nil_2 P
                            | v :: l => Forall_cons_2 P v l (jvalue_nested v) (go l)
                            end) l)
  | JObject l => Pobject l ((fix go (l : list (bytes * jvalue)) := match l return Forall (fun kv => P kv.2) l with
                              | [] => Forall_nil_2 (fun kv => P kv.2)
                              | (key, v) :: l => Forall_cons_2 (fun kv => P kv.2) (key, v) l (jvalue_nested v) (go l)
                              end) l)
  end.
End jvalue_induction.

(** What the reader gets. *)
Fixpoint raw_of (v : jvalue) : raw :=
  match v with
  | JNull => RNull
  | JBool b => RBool b
  | JInt n => RNumber (json_int n)
  | JString s => RString (escape_string (length s) s) (to_valid s)
  | JArray l => RArray (map raw_of l)
  | JObject l => RObject (map (fun kv => (to_valid kv.1, raw_of kv.2)) l)
  end.

(** What a decoder into [any] gets. *)
Fixpoint any_of (v : jvalue) : any :=
  match v with
  | JNull => VNil
  | JBool b => VBool b
  | JInt n => VFloat64 (f_of_int n)
  | JString s => VString (to_valid s)
  | JArray l => VArray (map any_of l)
  | JObject l => VObject (map (fun kv => (to_valid kv.1, any_of kv.2)) l)
  end.

(** The levels of nesting. *)
Fixpoint height (v : jvalue) : Z :=
  match v with
  | JArray l => 1 + foldr Z.max 0 (map height l)
  | JObject l => 1 + foldr Z.max 0 (map (fun kv => height kv.2) l)
  | _ => 0
  end.

(** Integers of a size below [b]. *)
Fixpoint ints_below (b : Z) (v : jvalue) : bool :=
  match v with
  | JInt n => Z.abs n <? b
  | JArray l => forallb (ints_below b) l
  | JObject l => forallb (fun kv => ints_below b kv.2) l
  | _ => true
  end.

(** Those that a float64 holds, and those that the writer writes. *)
Abbreviation exact := (ints_below (2 ^ 53)).
Abbreviation writable := (ints_below (10 ^ 20)).

Lemma ints_below_mono a b v : a <= b -> ints_below a v = true -> ints_below b v = true.
Proof.
  intros Hab. revert v. apply (jvalue_nested (fun v => _ -> _)); cbn [ints_below]; try done; [intros n; lia|..];
    intros l IH H; apply forallb_forall; intros v Hv; pose proof (proj1 (forallb_forall _ _) H v Hv);
    rewrite Forall_forall in IH; apply IH; [by apply list_elem_of_In|done|by apply list_elem_of_In|done].
Qed.

Lemma mapM_any {A} (f : A -> option any) (g : A -> any) l : Forall (fun x => f x = Some (g x)) l -> mapM f l = Some (map g l).
Proof. intros H. apply mapM_Some. by induction H; constructor. Qed.

Lemma to_any_raw v : exact v = true -> to_any (raw_of v) = Some (any_of v).
Proof.
  revert v. apply (jvalue_nested (fun v => _ -> _)); try done.
  - intros n He. cbn [ints_below raw_of to_any any_of] in *. by rewrite ParseFloat_int by lia.
  - intros l IH He. cbn [raw_of to_any any_of]. cbn [ints_below] in He.
    assert (mapM to_any (map raw_of l) = Some (map any_of l)) as ->; [|done].
    induction IH as [|v l Hv _ IHl]; [done|]. cbn [forallb] in He. apply andb_true_iff in He as [H1 H2].
    cbn [map mapM]. rewrite Hv by done. cbn [mbind option_bind]. by rewrite IHl.
  - intros l IH He. cbn [raw_of to_any any_of]. cbn [ints_below] in He.
    assert (mapM (fun kv : bytes * raw => pair kv.1 <$> to_any kv.2) (map (fun kv => (to_valid kv.1, raw_of kv.2)) l)
      = Some (map (fun kv => (to_valid kv.1, any_of kv.2)) l)) as ->; [|done].
    induction IH as [|[key v] l Hv _ IHl]; [done|]. cbn [forallb snd] in *. apply andb_true_iff in He as [H1 H2].
    cbn [map mapM fst snd]. rewrite Hv by done. cbn [mbind option_bind fmap option_fmap option_map]. by rewrite IHl.
Qed.

(** *** White space *)

Definition is_space (c : byte) : bool := bool_decide (Z_of_byte c ∈ [32; 9; 13; 10]).
Definition spaces (s : bytes) : Prop := Forall (fun c => is_space c = true) s.

Lemma skip_space_stop c s : is_space c = false -> skip_space (c :: s) = c :: s.
Proof. unfold is_space. cbn [skip_space]. by intros ->. Qed.

Lemma skip_spaces ws s : spaces ws -> skip_space (ws ++ s) = skip_space s.
Proof.
  induction 1 as [|c ws Hc _ IH]; [done|]. cbn [app skip_space]. unfold is_space in Hc. by rewrite Hc.
Qed.

Lemma stops_space ws c s : spaces ws -> is_digit c = false -> c <> "."%char -> lower c <> 101 -> stops (ws ++ c :: s).
Proof.
  intros [|w ws' Hw _] H1 H2 H3; [done|]. cbn. unfold is_space in Hw. clear - Hw.
  destruct w as [[] [] [] [] [] [] [] []]; try discriminate Hw; done.
Qed.

Section layout.
Context (indent : nat -> bytes) (gap : bytes).
Context (Hindent : forall d, spaces (indent d)) (Hgap : spaces gap).

Definition reads (read : bytes -> option (raw * bytes)) (d : nat) (v : jvalue) : Prop :=
  forall ws k, spaces ws -> stops k -> read (ws ++ render_at indent gap d v ++ k) = Some (raw_of v, k).

Lemma read_elements_render read d l n k ws acc : l <> [] -> Forall (reads read (S d)) l -> (length l <= n)%nat -> spaces ws ->
  read_elements read n (ws ++ Join (map (render_at indent gap (S d)) l) ("," ++ indent (S d)) ++ indent d ++ "]" ++ k) acc
  = Some (RArray (acc ++ map raw_of l), k).
Proof.
  intros Hl F. revert n ws acc Hl. induction F as [|v l Hv F IH]; intros n ws acc Hl Hn Hws; [done|].
  destruct n as [|n]; [cbn in Hn; lia|]. cbn [read_elements map]. destruct l as [|w l].
  - cbn [map Join]. rewrite Hv by (done || by apply stops_space). cbn [mbind option_bind].
    rewrite skip_spaces by done. by cbn.
  - rewrite Join_cons by done. rewrite <- !app_assoc, Hv by done. cbn [mbind option_bind app].
    rewrite skip_space_stop by done. rewrite IH; [|done|cbn in Hn |- *; lia|done]. by rewrite <- app_assoc.
Qed.

Definition member (d : nat) (kv : bytes * jvalue) : bytes := json_string kv.1 ++ ":" ++ gap ++ render_at indent gap d kv.2.

Lemma read_members_render read d l n k ws acc : l <> [] -> Forall (fun kv => reads read (S d) kv.2) l -> (length l <= n)%nat ->
  spaces ws ->
  read_members read n (ws ++ Join (map (member (S d)) l) ("," ++ indent (S d)) ++ indent d ++ "}" ++ k) acc
  = Some (RObject (acc ++ map (fun kv => (to_valid kv.1, raw_of kv.2)) l), k).
Proof.
  intros Hl F. revert n ws acc Hl. induction F as [|[key v] l Hv F IH]; intros n ws acc Hl Hn Hws; [done|].
  destruct n as [|n]; [cbn in Hn; lia|]. cbn [fst snd] in Hv.
  assert (forall t acc, read_members read (S n) (ws ++ member (S d) (key, v) ++ t) acc
    = ('(v, s) ← read (gap ++ render_at indent gap (S d) v ++ t);
       match skip_space s with
       | ","%char :: k => read_members read n k (acc ++ [(to_valid key, v)])
       | "}"%char :: k => Some (RObject (acc ++ [(to_valid key, v)]), k)
       | _ => None
       end)) as E.
  { intros t acc'. unfold member, json_string. cbn [fst snd]. rewrite <- !app_assoc. unfold quote at 1. cbn [app].
    cbn [read_members]. rewrite skip_spaces, skip_space_stop by done. rewrite read_string_json. cbn [mbind option_bind].
    by rewrite skip_space_stop. }
  cbn [map]. destruct l as [|w l].
  - cbn [Join map]. rewrite E, Hv by (done || by apply stops_space). cbn [mbind option_bind].
    rewrite skip_spaces by done. by cbn.
  - rewrite Join_cons by done. rewrite <- !app_assoc, E, Hv by done. cbn [mbind option_bind app].
    rewrite skip_space_stop by done. rewrite IH; [|done|cbn in Hn |- *; lia|done]. by rewrite <- app_assoc.
Qed.

(** The first byte of a number. *)
Definition number_start (c : byte) : bool := is_digit c || bool_decide (c = "-"%char).

Lemma json_int_head n : Z.abs n < 10 ^ 20 -> exists c t, json_int n = c :: t /\ number_start c = true.
Proof.
  intros Hn. rewrite json_int_sign. bcase; [by eexists _, _|].
  destruct (itoa_text (Z.abs n)) as [[_ ->]|(_ & c & d & -> & _ & Hd & _)]; [lia|by eexists _, _|].
  apply Forall_cons in Hd as [Hc _]. eexists _, _. split; [done|]. unfold number_start. by rewrite Hc.
Qed.

Lemma read_value_spaces f depth ws s : spaces ws -> read_value (S f) depth (ws ++ s) = read_value (S f) depth s.
Proof. intros Hw. cbn [read_value]. by rewrite skip_spaces. Qed.

Lemma read_number f depth c s : number_start c = true ->
  read_value (S f) depth (c :: s) = ('(t, rest) ← scan_number (c :: s); Some (RNumber t, rest)).
Proof. intros Hc. destruct c as [[] [] [] [] [] [] [] []]; try discriminate Hc; reflexivity. Qed.

(** The first byte of a value is neither space nor a closing bracket. *)
Lemma render_head d v : writable v = true ->
  exists c t, render_at indent gap d v = c :: t /\ is_space c = false /\ c <> "]"%char.
Proof.
  destruct v as [|[]|n|s|l|l]; intros He; try (by eexists _, _); try (cbn [render_at]; unfold bracketed; by case_bool_decide; eexists _, _).
  cbn [ints_below] in He. destruct (json_int_head n ltac:(lia)) as (c & t & E & Hc).
  exists c, t. split; [done|]. clear E He. destruct c as [[] [] [] [] [] [] [] []]; try discriminate Hc; done.
Qed.

Lemma Join_bounds (ps : list bytes) (sep : bytes) : (forall p, p ∈ ps -> p <> []) -> (0 < length sep)%nat ->
  (length ps <= length (Join ps sep))%nat /\ forall p, p ∈ ps -> (length p <= length (Join ps sep))%nat.
Proof.
  intros H Hsep. induction ps as [|p [|q ps] IH]; [split; [cbn; lia|by intros p ?%elem_of_nil]| |].
  - cbn [Join]. split; [|by intros q ->%list_elem_of_singleton].
    assert (p <> []) by (apply H; left). destruct p; [done|cbn; lia].
  - destruct IH as [I1 I2]; [intros r Hr; apply H; by right|]. rewrite Join_cons, !length_app by done.
    assert (p <> []) by (apply H; left). split; [cbn [length] in *; lia|].
    intros r [->|Hr]%elem_of_cons; [lia|]. specialize (I2 r Hr). lia.
Qed.

Lemma foldr_max_le (l : list Z) x : x ∈ l -> x <= foldr Z.max 0 l.
Proof. induction 1 as [|x y l _ IH]; cbn [foldr]; lia. Qed.

Lemma foldr_max_nonneg (l : list Z) : 0 <= foldr Z.max 0 l.
Proof. induction l; cbn [foldr]; lia. Qed.

Lemma read_array f depth k : depth < 10000 -> (forall k', skip_space k <> "]"%char :: k') ->
  read_value (S f) depth ("[" ++ k) = read_elements (read_value f (depth + 1)) f k [].
Proof.
  intros Hd Hk. cbn [app read_value]. rewrite skip_space_stop by done.
  replace (10000 <? depth + 1) with false by lia.
  destruct (skip_space k) as [|c k']; [done|]. specialize (Hk k'). destruct c as [[] [] [] [] [] [] [] []]; try reflexivity. done.
Qed.

Lemma read_object f depth k : depth < 10000 -> (forall k', skip_space k <> "}"%char :: k') ->
  read_value (S f) depth ("{" ++ k) = read_members (read_value f (depth + 1)) f k [].
Proof.
  intros Hd Hk. cbn [app read_value]. rewrite skip_space_stop by done.
  replace (10000 <? depth + 1) with false by lia.
  destruct (skip_space k) as [|c k']; [done|]. specialize (Hk k'). destruct c as [[] [] [] [] [] [] [] []]; try reflexivity. done.
Qed.

(** The head of a list between brackets, after its indentation. *)
Lemma bracketed_head (ps : list bytes) sep rest ws c t : spaces ws -> is_space c = false -> Join ps sep = c :: t ->
  skip_space (ws ++ Join ps sep ++ rest) = c :: t ++ rest.
Proof. intros Hw Hc E. rewrite skip_spaces, E by done. by apply (skip_space_stop c (t ++ rest)). Qed.

(** Of [n] levels, one for the brackets. *)
Lemma array_reads l fuel depth d :
  Forall (fun v => writable v = true -> depth + 1 + height v <= 10000 -> (length (render_at indent gap (S d) v) < fuel)%nat ->
            reads (read_value fuel (depth + 1)) (S d) v) l ->
  forallb writable l = true -> depth + height (JArray l) <= 10000 ->
  (length (render_at indent gap d (JArray l)) <= fuel)%nat -> reads (read_value (S fuel) depth) d (JArray l).
Proof.
  intros IH He Hd Hf ws k Hws Hk. rewrite read_value_spaces by done. cbn [render_at raw_of height] in *. unfold bracketed in *.
  pose proof (foldr_max_nonneg (map height l)). destruct l as [|v l].
  { cbn [map]. rewrite bool_decide_eq_true_2 by done. cbn [app read_value]. rewrite skip_space_stop by done.
    by replace (10000 <? depth + 1) with false by lia. }
  rewrite bool_decide_eq_false_2 in * by done.
  set (ps := map (render_at indent gap (S d)) (v :: l)) in *. rewrite <- !app_assoc. rewrite !length_app in Hf. cbn [length] in Hf.
  assert (forall w, w ∈ v :: l -> writable w = true) as Hex.
  { intros w Hw. by eapply forallb_forall in He; [|apply list_elem_of_In]. }
  rewrite read_array; [|lia|].
  - assert (forall p, p ∈ ps -> p <> []) as Hne.
    { intros p (w & -> & Hw)%list_elem_of_fmap. destruct (render_head (S d) w (Hex w Hw)) as (c & t & -> & _). done. }
    destruct (Join_bounds ps ("," ++ indent (S d)) Hne ltac:(cbn; lia)) as [Hl Hp].
    apply read_elements_render; [done| |unfold ps in Hl at 1; rewrite length_map in Hl; lia|done].
    rewrite Forall_forall in IH |- *. intros w Hw. apply IH; [done|by apply Hex| |].
    + pose proof (foldr_max_le (map height (v :: l)) (height w) ltac:(by apply list_elem_of_fmap_2)). lia.
    + specialize (Hp (render_at indent gap (S d) w) ltac:(by apply list_elem_of_fmap_2)). lia.
  - intros k'. destruct (render_head (S d) v) as (c & t & E & Hs & Hc); [apply Hex; left|].
    assert (exists t', Join ps ("," ++ indent (S d)) = c :: t') as [t' Et].
    { unfold ps. cbn [map]. destruct l; [exists t; done|]. cbn [map]. rewrite Join_cons, E by done. by eexists. }
    rewrite (bracketed_head _ _ _ _ c t') by done. congruence.
Qed.

Lemma object_reads l fuel depth d :
  Forall (fun kv => writable kv.2 = true -> depth + 1 + height kv.2 <= 10000 ->
            (length (render_at indent gap (S d) kv.2) < fuel)%nat -> reads (read_value fuel (depth + 1)) (S d) kv.2) l ->
  forallb (fun kv => writable kv.2) l = true -> depth + height (JObject l) <= 10000 ->
  (length (render_at indent gap d (JObject l)) <= fuel)%nat -> reads (read_value (S fuel) depth) d (JObject l).
Proof.
  intros IH He Hd Hf ws k Hws Hk. rewrite read_value_spaces by done. cbn [render_at raw_of height] in *.
  change (map _ l) with (map (member (S d)) l) in Hf. change (map (fun kv => json_string kv.1 ++ _) l) with (map (member (S d)) l).
  unfold bracketed in *. pose proof (foldr_max_nonneg (map (fun kv => height kv.2) l)). destruct l as [|[key v] l].
  { cbn [map]. rewrite bool_decide_eq_true_2 by done. cbn [app read_value]. rewrite skip_space_stop by done.
    by replace (10000 <? depth + 1) with false by lia. }
  rewrite bool_decide_eq_false_2 in * by done.
  set (ps := map (member (S d)) ((key, v) :: l)) in *. rewrite <- !app_assoc. rewrite !length_app in Hf. cbn [length] in Hf.
  rewrite read_object; [|lia|].
  - assert (forall p, p ∈ ps -> p <> []) as Hne by (by intros p (w & -> & Hw)%list_elem_of_fmap).
    destruct (Join_bounds ps ("," ++ indent (S d)) Hne ltac:(cbn; lia)) as [Hl Hp].
    apply read_members_render; [done| |unfold ps in Hl at 1; rewrite length_map in Hl; lia|done].
    rewrite Forall_forall in IH |- *. intros w Hw. apply IH; [done| | |].
    + by eapply forallb_forall in He; [|apply list_elem_of_In].
    + pose proof (foldr_max_le (map (fun kv => height kv.2) ((key, v) :: l)) (height w.2)
        ltac:(by apply (list_elem_of_fmap_2 (fun kv => height kv.2)))). lia.
    + specialize (Hp (member (S d) w) ltac:(by apply list_elem_of_fmap_2)).
      assert (length (render_at indent gap (S d) w.2) <= length (member (S d) w))%nat by (unfold member; rewrite !length_app; lia). lia.
  - intros k'. assert (exists t', Join ps ("," ++ indent (S d)) = "034"%char :: t') as [t' Et].
    { unfold ps. cbn [map]. destruct l; [by eexists|]. cbn [map]. rewrite Join_cons by done. by eexists. }
    by rewrite (bracketed_head _ _ _ _ "034"%char t').
Qed.

(** The reader of values gets back what the encoder wrote. *)
Lemma read_value_render v fuel depth d : writable v = true -> depth + height v <= 10000 ->
  (length (render_at indent gap d v) < fuel)%nat -> reads (read_value fuel depth) d v.
Proof.
  revert v fuel depth d. apply (jvalue_nested (fun v => forall fuel depth d, _ -> _ -> _ -> _));
    [|intros b|intros n|intros s|intros l IH|intros l IH]; intros fuel depth d He Hd Hf;
    (destruct fuel as [|fuel]; [lia|]).
  - intros ws k Hws _. by rewrite read_value_spaces.
  - intros ws k Hws _. rewrite read_value_spaces by done. by destruct b.
  - intros ws k Hws Hk. rewrite read_value_spaces by done. cbn [ints_below] in He. cbn [render_at raw_of].
    destruct (json_int_head n ltac:(lia)) as (c & t & E & Hc).
    pose proof (scan_int n k ltac:(lia) Hk) as Es. rewrite E in Es |- *. cbn [app] in Es |- *.
    rewrite read_number by done. by rewrite Es.
  - intros ws k Hws Hk. rewrite read_value_spaces by done. cbn [render_at raw_of]. unfold json_string.
    rewrite <- !app_assoc. unfold quote at 1.
    cbn [app read_value]. rewrite skip_space_stop by done. rewrite read_string_json. cbn [mbind option_bind].
    do 3 f_equal. rewrite !length_app. cbn [length quote].
    replace (length (escape_string (length s) s) + (1 + length k) - length k - 1)%nat with (length (escape_string (length s) s)) by lia.
    by rewrite take_app_length.
  - apply array_reads; [|done..|lia]. apply (Forall_impl _ _ _ IH). auto.
  - apply object_reads; [|done..|lia]. apply (Forall_impl _ _ _ IH). auto.
Qed.
End layout.

Lemma no_indent : forall d : nat, spaces ((fun _ => "") d).
Proof. intros d. by constructor. Qed.

Lemma newline_indent_spaces d : spaces (newline_indent d).
Proof. constructor; [done|]. induction (2 * d)%nat; by constructor. Qed.

(** [Decode] of a written object into a map. *)
Lemma DecodeMap_render l k : forallb (fun kv => exact kv.2) l = true -> height (JObject l) <= 10000 -> stops k ->
  DecodeMap (Marshal (JObject l) ++ k)
  = Some (Some (foldl (fun m kv => <[kv.1 := kv.2]> m) ∅ (map (fun kv => (to_valid kv.1, any_of kv.2)) l))).
Proof.
  intros He Hh Hk. unfold DecodeMap, Marshal.
  assert (length (render_at (fun _ => "") "" 0 (JObject l)) < S (length (render_at (fun _ => "") "" 0 (JObject l) ++ k)))%nat as Hf
    by (rewrite length_app; lia).
  pose proof (read_value_render (fun _ => "") "" no_indent (Forall_nil_2 _) (JObject l) _ 0 0
    (ints_below_mono (2 ^ 53) (10 ^ 20) (JObject l) ltac:(lia) He) Hh Hf [] k ltac:(by constructor) Hk) as E.
  cbn [app] in E. rewrite E. cbn [mbind option_bind]. by rewrite to_any_raw.
Qed.

(** Reading a written value to its end. *)
Lemma read_MarshalIndent v : writable v = true -> height v <= 10000 ->
  read_value (S (length (MarshalIndent v))) 0 (MarshalIndent v) = Some (raw_of v, []).
Proof.
  intros He Hh. unfold MarshalIndent.
  pose proof (read_value_render newline_indent " " newline_indent_spaces ltac:(by repeat constructor) v
    (S (length (render_at newline_indent " " 0 v))) 0 0 He ltac:(lia) ltac:(lia) [] [] ltac:(by constructor) I) as H.
  by rewrite app_nil_r in H.
Qed.

(** *** Members of an object *)

(** The last value under a key. *)
Fixpoint find_last (l : list (bytes * any)) (key : bytes) : option any :=
  match l with
  | [] => None
  | (k, v) :: l => match find_last l key with
                   | Some v => Some v
                   | None => if bool_decide (k = key) then Some v else None
                   end
  end.

Lemma lookup_members l key : (foldl (fun m kv => <[kv.1 := kv.2]> m) ∅ l : gmap bytes any) !! key = find_last l key.
Proof.
  assert (forall m : gmap bytes any, foldl (fun m kv => <[kv.1 := kv.2]> m) m l !! key
    = match find_last l key with Some v => Some v | None => m !! key end) as H.
  { induction l as [|[k v] l IH]; intros m; [done|]. cbn [foldl find_last fst snd]. rewrite IH.
    destruct (find_last l key); [done|]. case_bool_decide; subst; [apply lookup_insert_eq|by apply lookup_insert_ne]. }
  rewrite H, lookup_empty. by destruct (find_last l key).
Qed.

(** A map of counts that was written, whatever the order of its range. *)
Lemma json_map_reads (m : gmap bytes Z) k :
  (forall key n, m !! key = Some n -> Z.abs n < 2 ^ 53 /\ to_valid key = key) -> stops k ->
  exists r, DecodeMap (Marshal (json_map JInt m) ++ k) = Some (Some r)
    /\ forall key : bytes, r !! key = VFloat64 ∘ f_of_int <$> m !! key.
Proof.
  intros Hm Hk. unfold json_map. set (ks := sort_strings _).
  assert (forall key, key ∈ ks <-> is_Some (m !! key)) as Hks.
  { intros key. unfold ks. rewrite elem_of_sort_strings, list_elem_of_fmap. split.
    - intros ([k' n] & -> & H%elem_of_map_to_list). by exists n.
    - intros [n H]. exists (key, n). by rewrite elem_of_map_to_list. }
  assert (forall l, (forall key, key ∈ l -> is_Some (m !! key)) ->
    let o := omap (fun k => pair k ∘ JInt <$> m !! k) l in
    forallb (fun kv => exact kv.2) o = true /\ height (JObject o) = 1
    /\ forall key, find_last (map (fun kv => (to_valid kv.1, any_of kv.2)) o) key
         = (if bool_decide (key ∈ l) then VFloat64 ∘ f_of_int <$> m !! key else None)) as Hl.
  { induction l as [|x l IH]; intros H; [by ands|]. destruct IH as (I1 & I2 & I3); [by intros; apply H; right|].
    destruct (H x ltac:(left)) as [n Hn]. destruct (Hm x n Hn) as [Bn Vx]. cbn [omap list_omap]. rewrite Hn.
    cbn [fmap option_fmap option_map compose]. ands.
    - cbn [forallb snd ints_below]. rewrite I1. lia.
    - cbn [height map foldr snd] in *. lia.
    - intros key. cbn [map fst snd find_last any_of]. rewrite I3, Vx. case_bool_decide as H1.
      + rewrite (bool_decide_eq_true_2 (key ∈ x :: l)) by by right. destruct (H key ltac:(by right)) as [n' Hn']. by rewrite Hn'.
      + case_bool_decide as Hx; [subst; by rewrite bool_decide_eq_true_2, Hn by left|].
        rewrite bool_decide_eq_false_2; [done|]. intros [->|?]%elem_of_cons; done. }
  destruct (Hl ks) as (H1 & H2 & H3); [by intros key ?%Hks|].
  eexists. split; [apply DecodeMap_render; [exact H1|lia|exact Hk]|].
  intros key. rewrite lookup_members, H3. case_bool_decide as Hin; [done|].
  destruct (m !! key) eqn:E; [|done]. exfalso. apply Hin, Hks. by eexists.
Qed.
