(* ===== verification/GoDate.v ===== *)
(** * package time: the calendar and the layouts RFC3339 and RFC3339Nano.

    [parse_RFC3339] reads the text of an instant between the years 0 and 9999 back. *)

From S2P Require Import Prelude.
From S2P Require Import GoStrings.
From S2P Require Import GoTime.
From S2P Require Import GoNet.
From S2P Require Import GoFormat.
From S2P Require Import GoJson.
From S2P Require Import JsonText.

#[local] Open Scope go_scope.

(** ** The calendar *)

(** Year, month and day of a number of days since 1970: the days of an era of
    four hundred years that starts in March. *)
Definition civil (days : Z) : Z * Z * Z :=
  let z := days + 719468 in
  let era := z / 146097 in
  let doe := z mod 146097 in
  let yoe := (doe - doe / 1460 + doe / 36524 - doe / 146096) / 365 in
  let doy := doe - (365 * yoe + yoe / 4 - yoe / 100) in
  let mp := (5 * doy + 2) / 153 in
  let m := if mp <? 10 then mp + 3 else mp - 9 in
  (yoe + era * 400 + (if m <=? 2 then 1 else 0), m, doy - (153 * mp + 2) / 5 + 1).

Definition days_of_civil (y m d : Z) : Z :=
  let y := if m <=? 2 then y - 1 else y in
  let mp := if m <=? 2 then m + 9 else m - 3 in
  y / 400 * 146097 + (365 * (y mod 400) + y mod 400 / 4 - y mod 400 / 100) + (153 * mp + 2) / 5 + d - 1 - 719468.

Definition leap (y : Z) : bool := (y mod 4 =? 0) && (negb (y mod 100 =? 0) || (y mod 400 =? 0)).

(** [daysIn(m, y)]. *)
Definition days_in (m y : Z) : Z :=
  if m =? 2 then (if leap y then 29 else 28)
  else if (m =? 4) || (m =? 6) || (m =? 9) || (m =? 11) then 30 else 31.

(** The year of an era and the day of that year, which has a day 365 in a leap year only. *)
Lemma year_of_era doe : 0 <= doe < 146097 ->
  let yoe := (doe - doe / 1460 + doe / 36524 - doe / 146096) / 365 in
  let doy := doe - (365 * yoe + yoe / 4 - yoe / 100) in
  0 <= yoe < 400 /\ 0 <= doy <= 365 /\ (doy = 365 -> leap (yoe + 1) = true).
Proof.
  intros H. cbv zeta. set (c := doe / 36524).
  assert (doe / 146096 = 0 \/ doe / 146096 = 1 /\ doe = 146096) as [E|[E ->]] by dlia; [|by vm_compute].
  rewrite E. assert (c = 0 \/ c = 1 \/ c = 2 \/ c = 3) as Hc by (unfold c; dlia).
  assert (36524 * c <= doe < 36524 * (c + 1)) as Hd by (unfold c; dlia).
  set (yoe := (doe - doe / 1460 + c - 0) / 365).
  assert (yoe / 100 = c) as Hy by (unfold yoe; destruct Hc as [->|[->|[->| ->]]]; dlia).
  split; [dlia|]. rewrite Hy. split; [destruct Hc as [->|[->|[->| ->]]]; unfold yoe; dlia|].
  intros H365. unfold leap.
  assert ((yoe + 1) mod 4 = 0) as E4. { clear Hy. destruct Hc as [->|[->|[->| ->]]]; unfold yoe in *; dlia. }
  assert ((yoe + 1) mod 100 <> 0) as E100. { intros Hm. destruct Hc as [Hc|[Hc|[Hc| Hc]]]; rewrite Hc in *. all: dlia. }
  rewrite E4. cbn. apply orb_true_iff. left. lia.
Qed.

Lemma leap_era y n : leap (y + n * 400) = leap y.
Proof.
  unfold leap. rewrite Z.mod_add by lia.
  replace ((y + n * 400) mod 4) with (y mod 4) by dlia. by replace ((y + n * 400) mod 100) with (y mod 100) by dlia.
Qed.

(** The month and the day of the month of a day of the year that starts in March. *)
Lemma month_days doy y (mp := (5 * doy + 2) / 153) (m := if mp <? 10 then mp + 3 else mp - 9) :
  0 <= doy <= 365 -> (doy = 365 -> leap y = true) ->
  1 <= m <= 12 /\ 1 <= doy - (153 * mp + 2) / 5 + 1 <= days_in m y.
Proof.
  intros Hd Hleap. assert (0 <= mp <= 11) as Hm by (unfold mp; dlia).
  assert (153 * mp <= 5 * doy + 2 < 153 * (mp + 1)) as Hb by (unfold mp; dlia).
  split; [unfold m; bcase; lia|].
  assert (mp = 0 \/ mp = 1 \/ mp = 2 \/ mp = 3 \/ mp = 4 \/ mp = 5 \/ mp = 6 \/ mp = 7 \/ mp = 8 \/ mp = 9 \/ mp = 10 \/ mp = 11)
    as Hc by lia.
  unfold m, days_in. clearbody mp. clear m Hm. repeat destruct Hc as [->|Hc]; [..|subst mp];
    match goal with |- context [?a / 5] => let v := eval vm_compute in (a / 5) in change (a / 5) with v end;
    match goal with |- 1 <= ?x <= ?b => let v := eval cbv -[leap] in b in change (1 <= x <= v) end; lia.
Qed.

(** A date names its day, with a month and a day of the month in range. *)
Lemma days_civil days : let '(y, m, d) := civil days in
  days_of_civil y m d = days /\ 1 <= m <= 12 /\ 1 <= d <= days_in m y.
Proof.
  unfold civil. set (z := days + 719468). set (doe := z mod 146097).
  destruct (year_of_era doe) as (Hy & Hd & Hleap); [unfold doe; dlia|].
  set (yoe := (doe - doe / 1460 + doe / 36524 - doe / 146096) / 365) in *.
  set (doy := doe - (365 * yoe + yoe / 4 - yoe / 100)) in *.
  destruct (month_days doy (yoe + z / 146097 * 400 + 1) Hd) as [Hm Hday].
  { intros E. replace (yoe + z / 146097 * 400 + 1) with (yoe + 1 + z / 146097 * 400) by lia. rewrite leap_era. by apply Hleap. }
  set (mp := (5 * doy + 2) / 153) in *.
  assert (forall x, (x + z / 146097 * 400) mod 400 = x mod 400) as Hmod by (intros; apply Z.mod_add; lia).
  assert (forall x, (x + z / 146097 * 400) / 400 = x / 400 + z / 146097) as Hdiv by (intros; apply Z.div_add; lia).
  assert (doe + z / 146097 * 146097 = z) as Hz by (unfold doe; dlia).
  unfold days_of_civil. destruct (mp <? 10) eqn:E.
  - replace (mp + 3 <=? 2) with false by lia. rewrite Z.add_0_r, Hmod, Hdiv, (Z.mod_small yoe), (Z.div_small yoe) by lia.
    replace (mp + 3 - 3) with mp by lia. split; [unfold doy in *; lia|split; [done|]].
    unfold days_in in *. by replace (mp + 3 =? 2) with false in * by lia.
  - replace (mp - 9 <=? 2) with true by lia.
    replace (yoe + z / 146097 * 400 + 1 - 1) with (yoe + z / 146097 * 400) by lia.
    rewrite Hmod, Hdiv, (Z.mod_small yoe), (Z.div_small yoe) by lia.
    replace (mp - 9 + 9) with mp by lia. split; [unfold doy in *; lia|done].
Qed.

(** ** Texts *)

Definition padded (width : nat) (n : Z) : bytes :=
  let d := itoa n in repeat "0"%char (width - length d) ++ d.

(** [t.UTC().Format(time.RFC3339Nano)] from year 0 on. *)
Definition Format_RFC3339Nano (t : Z) : bytes :=
  let sec := t / Second in
  let '(y, m, d) := civil (sec / 86400) in
  let s := sec mod 86400 in
  let frac := strip_zeros (padded 9 (t mod Second)) in
  padded 4 y ++ "-" ++ padded 2 m ++ "-" ++ padded 2 d ++ "T" ++ padded 2 (s / 3600)
  ++ ":" ++ padded 2 (s / 60 mod 60) ++ ":" ++ padded 2 (s mod 60)
  ++ (if bool_decide (frac = "") then "" else "." ++ frac) ++ "Z".

(** [t.UTC().MarshalJSON] without its quotes: an error for a year of other than
    four digits. *)
Definition time_text (t : Z) : option bytes :=
  let '(y, _, _) := civil (t / Second / 86400) in
  if (0 <=? y) && (y <=? 9999) then Some (Format_RFC3339Nano t) else None.

(** *** Reading *)

(** [getnum]: two digits, or one where [fixed] does not hold. *)
Definition getnum (fixed : bool) (s : bytes) : option (Z * bytes) :=
  match s with
  | a :: k =>
      if negb (is_digit a) then None else
      match k with
      | b :: k' => if is_digit b then Some (digits_value [a; b], k')
                   else if fixed then None else Some (digits_value [a], k)
      | [] => if fixed then None else Some (digits_value [a], k)
      end
  | [] => None
  end.

Definition expect (c : byte) (s : bytes) : option bytes :=
  match s with x :: k => if bool_decide (x = c) then Some k else None | [] => None end.

Definition get_year (s : bytes) : option (Z * bytes) :=
  let y := take 4 s in
  if bool_decide (length y = 4%nat) && forallb is_digit y then Some (digits_value y, drop 4 s) else None.

(** A fraction of a second, which the layout does not name; nine digits count. *)
Definition get_nanoseconds (s : bytes) : Z * bytes :=
  match s with
  | c :: k =>
      if bool_decide (c = "."%char) || bool_decide (c = ","%char) then
        let '(d, r) := span_digits k in
        if bool_decide (d = []) then (0, s)
        else (digits_value (take 9 d ++ repeat "0"%char (9 - length (take 9 d))), r)
      else (0, s)
  | [] => (0, s)
  end.

(** The offset of the zone in seconds. *)
Definition get_zone (s : bytes) : option (Z * bytes) :=
  match s with
  | "Z"%char :: k => Some (0, k)
  | sign :: k =>
      '(h, k) ← getnum true k; k ← expect ":" k; '(m, k) ← getnum true k;
      if (24 <? h) || (60 <? m) then None else
      match sign with
      | "+"%char => Some ((h * 60 + m) * 60, k)
      | "-"%char => Some (- ((h * 60 + m) * 60), k)
      | _ => None
      end
  | [] => None
  end.

(** [Time.UnmarshalJSON] of a text between quotes: [time.Parse] of the layout
    RFC3339.  The instant, without its zone. *)
Definition parse_RFC3339 (s : bytes) : option Z :=
  '(y, s) ← get_year s; s ← expect "-" s; '(m, s) ← getnum true s; s ← expect "-" s;
  '(d, s) ← getnum true s; s ← expect "T" s; '(h, s) ← getnum false s; s ← expect ":" s;
  '(i, s) ← getnum true s; s ← expect ":" s; '(sec, s) ← getnum true s;
  let '(ns, s) := get_nanoseconds s in
  '(offset, s) ← get_zone s;
  if bool_decide (s = []) && (1 <=? m) && (m <=? 12) && (h <? 24) && (i <? 60) && (sec <? 60)
     && (1 <=? d) && (d <=? days_in m y)
  then Some ((86400 * days_of_civil y m d + (3600 * h + 60 * i + sec) - offset) * Second + ns)
  else None.

Example time_text_examples :
  time_text (1709210096 * Second + 120000000) = Some ("2024-02-29T12:34:56.12Z" : bytes)
  /\ time_text time_zero = Some ("0001-01-01T00:00:00Z" : bytes)
  /\ map parse_RFC3339 ["2024-02-29T12:34:56.12Z"; "2024-02-29T14:34:56,120000000999+02:00"; "2024-02-29T7:04:56.12-05:30"]
     = repeat (Some (1709210096 * Second + 120000000)) 3
  /\ map parse_RFC3339 ["2023-02-29T12:34:56Z"; "2024-02-29T24:00:00Z"; "2024-02-29T12:34:60Z"; "2024-02-29T12:34:56";
       "2024-02-29T12:34:56.Z"; "2024-02-29T12:34:56+2:00"; "2024-2-29T12:34:56Z"; "2024-02-29T12:34:56Z "; "24-02-29T12:34:56Z"]
     = repeat None 9.
Proof. vm_compute. ands; reflexivity. Qed.

(** *** Reading a text back *)

Lemma itoa_loop_short fuel n acc w : 0 <= n < 10 ^ Z.of_nat w -> (0 < w)%nat ->
  (length (itoa_loop fuel n acc) <= w + length acc)%nat.
Proof.
  revert n acc w. induction fuel as [|fuel IH]; intros n acc w Hn Hw; cbn [itoa_loop]; [lia|].
  destruct w as [|[|w]]; [lia| |].
  - change (10 ^ Z.of_nat 1) with 10 in Hn. replace (n / 10 =? 0) with true by dlia. cbn. lia.
  - bcase; [cbn; lia|]. rewrite Nat2Z.inj_succ, Z.pow_succ_r in Hn by lia.
    specialize (IH (n / 10) (byte_of_Z (48 + n mod 10) :: acc) (S w) ltac:(dlia) ltac:(lia)). cbn [length] in IH. lia.
Qed.

Lemma digits_zeros k : digits (repeat "0"%char k).
Proof. induction k; by constructor. Qed.

Lemma digits_value_zeros k s : digits_value (repeat "0"%char k ++ s) = digits_value s.
Proof. induction k as [|k IH]; [done|]. exact IH. Qed.

(** A padded number has its width, only digits, and its value. *)
Lemma padded_spec w n : 0 <= n < 10 ^ Z.of_nat w -> (0 < w < 20)%nat ->
  length (padded w n) = w /\ digits (padded w n) /\ digits_value (padded w n) = n.
Proof.
  intros Hn Hw. assert (10 ^ Z.of_nat w < 10 ^ 20) by (apply Z.pow_lt_mono_r; lia). unfold padded.
  pose proof (itoa_loop_short 20 n [] w Hn ltac:(lia)) as Hl. fold (itoa n) in Hl. cbn [length] in Hl. ands.
  - rewrite length_app, repeat_length. lia.
  - apply Forall_app. split; [apply digits_zeros|apply itoa_loop_digits; [by constructor|lia]].
  - rewrite digits_value_zeros. apply itoa_value. lia.
Qed.

Lemma padded2 n : 0 <= n < 100 -> exists a b, padded 2 n = [a; b] /\ digits [a; b] /\ digits_value [a; b] = n.
Proof.
  intros Hn. destruct (padded_spec 2 n Hn ltac:(lia)) as (Hl & Hd & Hv).
  destruct (padded 2 n) as [|a [|b [|]]]; try done. by eexists _, _.
Qed.

Lemma padded4 n : 0 <= n < 10000 -> exists a b c d,
  padded 4 n = [a; b; c; d] /\ digits [a; b; c; d] /\ digits_value [a; b; c; d] = n.
Proof.
  intros Hn. destruct (padded_spec 4 n Hn ltac:(lia)) as (Hl & Hd & Hv).
  destruct (padded 4 n) as [|a [|b [|c [|d [|]]]]]; try done. by eexists _, _, _, _.
Qed.

(** The zeros that are cut off a fraction can be put back. *)
Lemma strip_zeros_spec s : exists k, s = strip_zeros s ++ repeat "0"%char k.
Proof.
  induction s as [|c s [k IH]]; [by exists 0%nat|]. cbn [strip_zeros].
  destruct (strip_zeros s) as [|d r] eqn:E; cbn [app] in IH.
  - case_decide; subst; [by exists (S k)|by exists k].
  - exists k. cbn [app]. by rewrite <- IH.
Qed.

Lemma strip_padded w s : length s = w -> strip_zeros s ++ repeat "0"%char (w - length (strip_zeros s)) = s.
Proof.
  intros <-. destruct (strip_zeros_spec s) as [k E]. rewrite E at 4. do 2 f_equal. rewrite E at 1.
  rewrite length_app, repeat_length. lia.
Qed.

Lemma digits_strip s : digits s -> digits (strip_zeros s).
Proof. intros H. destruct (strip_zeros_spec s) as [k E]. rewrite E in H. by apply Forall_app in H as [H _]. Qed.

Lemma getnum_digits fixed a b k : digits [a; b] -> getnum fixed (a :: b :: k) = Some (digits_value [a; b], k).
Proof. intros [Ha [Hb _]%Forall_cons]%Forall_cons. cbn [getnum]. by rewrite Ha, Hb. Qed.

Lemma expect_same c k : expect c (c :: k) = Some k.
Proof. cbn [expect]. by rewrite bool_decide_eq_true_2. Qed.

Lemma get_year_digits a b c d k : digits [a; b; c; d] -> get_year (a :: b :: c :: d :: k) = Some (digits_value [a; b; c; d], k).
Proof.
  intros H. unfold get_year. change (take 4 _) with [a; b; c; d].
  replace (forallb is_digit [a; b; c; d]) with true; [done|]. symmetry. apply forallb_forall. intros x Hx%list_elem_of_In.
  unfold digits in H. rewrite Forall_forall in H. by apply H.
Qed.

(** The fraction of a written time. *)
Lemma get_nanoseconds_written frac : digits frac -> (length frac <= 9)%nat ->
  get_nanoseconds ((if bool_decide (frac = "") then "" else "." ++ frac) ++ "Z")
  = (digits_value (frac ++ repeat "0"%char (9 - length frac)), ["Z"%char]).
Proof.
  intros Hf Hl. bcase.
  - apply bool_decide_eq_true in Hb. by subst.
  - cbn [app get_nanoseconds]. rewrite span_digits_stop by done.
    rewrite bool_decide_eq_true_2 by done. cbn [orb]. rewrite (take_ge frac) by done. by rewrite Hb.
Qed.

(** A text of the layout, assembled from the texts of its parts. *)
Lemma parse_RFC3339_parts (y1 y2 y3 y4 m1 m2 d1 d2 h1 h2 i1 i2 s1 s2 : byte) (frac : bytes)
    (y := digits_value [y1; y2; y3; y4]) (m := digits_value [m1; m2]) (d := digits_value [d1; d2])
    (h := digits_value [h1; h2]) (i := digits_value [i1; i2]) (s := digits_value [s1; s2]) :
  digits [y1; y2; y3; y4] -> digits [m1; m2] -> digits [d1; d2] -> digits [h1; h2] -> digits [i1; i2] -> digits [s1; s2] ->
  digits frac -> (length frac <= 9)%nat -> 1 <= m <= 12 -> 1 <= d <= days_in m y -> h < 24 -> i < 60 -> s < 60 ->
  parse_RFC3339 ([y1; y2; y3; y4] ++ "-" ++ [m1; m2] ++ "-" ++ [d1; d2] ++ "T" ++ [h1; h2] ++ ":" ++ [i1; i2] ++ ":"
    ++ [s1; s2] ++ (if bool_decide (frac = "") then "" else "." ++ frac) ++ "Z")
  = Some ((86400 * days_of_civil y m d + (3600 * h + 60 * i + s)) * Second
          + digits_value (frac ++ repeat "0"%char (9 - length frac))).
Proof.
  intros Hy Hm Hd Hh Hi Hs Hf Hl Bm Bd Bh Bi Bs. unfold parse_RFC3339. cbn [app].
  rewrite get_year_digits by done. cbn [mbind option_bind].
  do 5 (rewrite expect_same; cbn [mbind option_bind]; rewrite getnum_digits by done; cbn [mbind option_bind]).
  rewrite get_nanoseconds_written by done. cbn [get_zone mbind option_bind].
  fold y m d h i s. rewrite Z.sub_0_r.
  replace (_ && _) with true; [done|]. symmetry. rewrite bool_decide_eq_true_2 by done. cbn [andb]. lia.
Qed.

Lemma strip_zeros_length s : (length (strip_zeros s) <= length s)%nat.
Proof. destruct (strip_zeros_spec s) as [k E]. apply (f_equal length) in E. rewrite length_app in E. lia. Qed.

(** The text of an instant between the years 0 and 9999 names it. *)
Lemma time_text_reads t s : time_text t = Some s -> parse_RFC3339 s = Some t.
Proof.
  unfold time_text, Format_RFC3339Nano. pose proof (days_civil (t / Second / 86400)) as Hc.
  destruct (civil (t / Second / 86400)) as [[y m] d]. destruct Hc as (Hc & Hm & Hd).
  assert (days_in m y <= 31) by (unfold days_in; repeat bcase; lia).
  bcase; [|done]. intros <-%(inj Some). set (sec := t / Second). set (s0 := sec mod 86400).
  assert (0 <= s0 < 86400) as Hs by (unfold s0; dlia).
  destruct (padded4 y ltac:(lia)) as (y1 & y2 & y3 & y4 & -> & Dy & Ey).
  destruct (padded2 m ltac:(lia)) as (m1 & m2 & -> & Dm & Em). destruct (padded2 d ltac:(lia)) as (d1 & d2 & -> & Dd & Ed).
  destruct (padded2 (s0 / 3600) ltac:(dlia)) as (h1 & h2 & -> & Dh & Eh).
  destruct (padded2 (s0 / 60 mod 60) ltac:(dlia)) as (i1 & i2 & -> & Di & Ei).
  destruct (padded2 (s0 mod 60) ltac:(dlia)) as (s1 & s2 & -> & Ds & Es).
  assert (0 <= t mod Second < 10 ^ 9) as Hn by (unfold Second; dlia).
  destruct (padded_spec 9 (t mod Second) Hn ltac:(lia)) as (Hl & Hds & Hv).
  pose proof (strip_zeros_length (padded 9 (t mod Second))) as Hlen. rewrite Hl in Hlen.
  rewrite parse_RFC3339_parts; rewrite ?Ey, ?Em, ?Ed, ?Eh, ?Ei, ?Es; try done; try (by apply digits_strip); try dlia.
  rewrite strip_padded by done.
  rewrite Hv, Hc. f_equal. fold sec. unfold s0, sec, Second in *. dlia.
Qed.

(** *** The characters of a text *)

(** Digits and separators, which are ASCII and written in a string as they are. *)
Definition time_char (c : byte) : bool := is_digit c || bool_decide (c ∈ ("-T:.Z" : bytes)).

Lemma time_char_plain c : time_char c = true -> is_ascii c = true /\ escape_byte c = [c].
Proof. intros H. by destruct c as [[] [] [] [] [] [] [] []]; try (vm_compute in H; discriminate H). Qed.

Lemma digits_chars s : digits s -> forallb time_char s = true.
Proof. intros H. apply forallb_forall. intros c Hc%list_elem_of_In. unfold digits in H. rewrite Forall_forall in H. unfold time_char. by rewrite H. Qed.

Lemma padded_chars w n : 0 <= n -> forallb time_char (padded w n) = true.
Proof. intros Hn. apply digits_chars, Forall_app. split; [apply digits_zeros|]. apply itoa_loop_digits; [by constructor|done]. Qed.

Lemma time_text_chars t s : time_text t = Some s -> forallb time_char s = true.
Proof.
  unfold time_text, Format_RFC3339Nano. pose proof (days_civil (t / Second / 86400)) as Hc.
  destruct (civil (t / Second / 86400)) as [[y m] d]. destruct Hc as (_ & Hm & Hd).
  bcase; [|done]. intros <-%(inj Some). rewrite !forallb_app, !padded_chars by (unfold Second; dlia).
  assert (forallb time_char (strip_zeros (padded 9 (t mod Second))) = true) as Hs.
  { apply digits_chars, digits_strip, Forall_app. split; [apply digits_zeros|].
    apply itoa_loop_digits; [by constructor|unfold Second; dlia]. }
  bcase; [done|]. by rewrite forallb_app, Hs.
Qed.

Lemma time_text_ascii t s : time_text t = Some s -> all_ascii s = true.
Proof.
  intros H%time_text_chars. induction s as [|c s IH]; [done|]. cbn [forallb] in H. apply andb_true_iff in H as [Hc Hs].
  rewrite all_ascii_cons, IH by done. by destruct (time_char_plain c Hc) as [-> _].
Qed.

(** A string of the encoder keeps such a text. *)
Lemma time_text_escape t s n : time_text t = Some s -> (length s <= n)%nat -> escape_string n s = s.
Proof.
  intros H%time_text_chars. revert n. induction s as [|c s IH]; intros [|n] Hn; try done; cbn [length] in Hn; [lia|].
  cbn [forallb] in H. apply andb_true_iff in H as [Hc Hs]. destruct (time_char_plain c Hc) as [Ha He].
  cbn [escape_string]. rewrite Ha, He, IH by (done || lia). done.
Qed.
