(* ===== verification/Metrics.v ===== *)
(** * internal/metrics/metrics.go: counters and their snapshot.

    What the Go runtime reports about itself is an argument. *)

From S2P Require Import Prelude.
From S2P Require Import GoStrings.
From S2P Require Import GoTime.
From S2P Require Import GoFloat.
From Stdlib Require Import Sorting.Sorted.

#[local] Open Scope go_scope.

Record Metrics := mkMetrics {
  mt_total : Z;
  mt_hits : Z;
  mt_staleHits : Z;
  mt_latencies : list float64;
  mt_byType : gmap bytes Z;
  mt_byRCode : gmap bytes Z;
  mt_byProtocol : gmap bytes Z;
  mt_securityDrops : gmap bytes Z;
  mt_circuitState : gmap bytes Z;
  mt_active : gmap bytes Z;
  mt_upstreamSamples : gmap bytes (list float64);
  mt_queryTimes : list Z
}.

Definition NewMetrics : Metrics := mkMetrics 0 0 0 [] ∅ ∅ ∅ ∅ ∅ ∅ ∅ [].

(** [m[key]++] *)
Definition inc (key : bytes) (m : gmap bytes Z) : gmap bytes Z :=
  <[key := u64 (default 0 (m !! key) + 1)]> m.

(** [l = l[len(l)-n:]] when there are more than [n]. *)
Definition keep_last {A} (n : Z) (l : list A) : list A :=
  if n <? len l then drop (Z.to_nat (len l - n)) l else l.

(** The loop over [trimIdx]. *)
Fixpoint trim_before (cutoff : Z) (times : list Z) : list Z :=
  match times with
  | [] => []
  | t :: rest => if t <? cutoff then trim_before cutoff rest else times
  end.

(** [float64(dur.Milliseconds())] *)
Definition millis (dur : Z) : float64 := f_of_int (Z.quot dur Millisecond).

Definition ObserveQuery (now : Z) (qtype protocol rcode : bytes) (cached stale : bool) (dur : Z)
    (m : Metrics) : Metrics :=
  mkMetrics (u64 (mt_total m + 1)) (if cached then u64 (mt_hits m + 1) else mt_hits m)
    (if stale then u64 (mt_staleHits m + 1) else mt_staleHits m)
    (keep_last 10000 (mt_latencies m ++ [millis dur]))
    (inc qtype (mt_byType m)) (inc rcode (mt_byRCode m)) (inc protocol (mt_byProtocol m))
    (mt_securityDrops m) (mt_circuitState m) (mt_active m) (mt_upstreamSamples m)
    (trim_before (now - 15 * Minute) (mt_queryTimes m ++ [now])).

Definition ObserveUpstream (server : bytes) (dur : Z) (m : Metrics) : Metrics :=
  let s := default [] (mt_upstreamSamples m !! server) ++ [millis dur] in
  mkMetrics (mt_total m) (mt_hits m) (mt_staleHits m) (mt_latencies m) (mt_byType m) (mt_byRCode m)
    (mt_byProtocol m) (mt_securityDrops m) (mt_circuitState m) (mt_active m)
    (<[server := keep_last 512 s]> (mt_upstreamSamples m)) (mt_queryTimes m).

Definition SetCircuitState (server : bytes) (state : Z) (m : Metrics) : Metrics :=
  mkMetrics (mt_total m) (mt_hits m) (mt_staleHits m) (mt_latencies m) (mt_byType m) (mt_byRCode m)
    (mt_byProtocol m) (mt_securityDrops m) (<[server := state]> (mt_circuitState m)) (mt_active m)
    (mt_upstreamSamples m) (mt_queryTimes m).

Definition IncSecurityDrop (reason : bytes) (m : Metrics) : Metrics :=
  mkMetrics (mt_total m) (mt_hits m) (mt_staleHits m) (mt_latencies m) (mt_byType m) (mt_byRCode m)
    (mt_byProtocol m) (inc reason (mt_securityDrops m)) (mt_circuitState m) (mt_active m)
    (mt_upstreamSamples m) (mt_queryTimes m).

Definition SetActiveConnections (protocol : bytes) (n : Z) (m : Metrics) : Metrics :=
  mkMetrics (mt_total m) (mt_hits m) (mt_staleHits m) (mt_latencies m) (mt_byType m) (mt_byRCode m)
    (mt_byProtocol m) (mt_securityDrops m) (mt_circuitState m) (<[protocol := n]> (mt_active m))
    (mt_upstreamSamples m) (mt_queryTimes m).

(** ** Snapshots *)

Record MetricsSnapshot := mkMetricsSnapshot {
  sn_TotalQueries : Z;
  sn_QPS1m : float64; sn_QPS5m : float64; sn_QPS15m : float64;
  sn_CacheHitRate : float64; sn_StaleHitRate : float64;
  sn_LatencyP50 : float64; sn_LatencyP95 : float64; sn_LatencyP99 : float64;
  sn_LatencyP50MS : float64; sn_LatencyP95MS : float64; sn_LatencyP99MS : float64;
  sn_LatencyMaxMS : float64;
  sn_TypeDistribution : gmap bytes Z; sn_RCodeDistribution : gmap bytes Z;
  sn_ActiveConnTotal : Z;
  sn_RuntimeHeapBytes : Z; sn_RuntimeGCPauseSec : float64; sn_RuntimeGoRoutines : Z;
  sn_ByType : gmap bytes Z; sn_ByRCode : gmap bytes Z; sn_ByProtocol : gmap bytes Z;
  sn_SecurityDrops : gmap bytes Z; sn_CircuitState : gmap bytes Z;
  sn_ActiveConnections : gmap bytes Z;
  sn_Goroutines : Z;
  sn_UpstreamLatencyMS : gmap bytes float64;
  sn_Timestamp : Z
}.

Fixpoint insert_float (x : float64) (l : list float64) : list float64 :=
  match l with
  | [] => [x]
  | y :: l' => if f_leb x y then x :: y :: l' else y :: insert_float x l'
  end.
Definition sort_floats (l : list float64) : list float64 := foldr insert_float [] l.

(** The literal [n / 100]. *)
Definition hundredths (n : Z) : float64 := f_div (f_of_int n) (f_of_int 100).

(** The closure [p] of [Snapshot]; indexing is in range by its tests. *)
Definition percentile (latCopy : list float64) (q : float64) : float64 :=
  if len latCopy =? 0 then f_of_int 0 else
  let i := f_to_int (f_mul (f_of_int (len latCopy - 1)) q) in
  let i := if i <? 0 then 0 else i in
  let i := if len latCopy <=? i then len latCopy - 1 else i in
  nth (Z.to_nat i) latCopy (f_of_int 0).

Definition qpsWindows (times : list Z) (now : Z) : float64 * float64 * float64 :=
  let count d := len (List.filter (fun t => negb (t <? now - d)) times) in
  (f_div (f_of_int (count (1 * Minute))) (f_of_int 60),
   f_div (f_of_int (count (5 * Minute))) (f_of_int 300),
   f_div (f_of_int (count (15 * Minute))) (f_of_int 900)).

(** What the runtime reports: a heap size, a histogram of pauses and a number
    of goroutines, each if it is supported; and [runtime.NumGoroutine()]. *)
Record runtime_report := mkRuntimeReport {
  rt_heap : option Z; rt_pauses : option (list Z * list float64); rt_goroutines : option Z;
  rt_num : Z
}.

(** The loop over the counts: sum of the weights and of the counts. *)
Fixpoint weigh (counts : list Z) (buckets : list float64) (weighted : float64) (total : Z)
  : float64 * Z :=
  match counts, buckets with
  | c :: counts', b :: ((b' :: _) as buckets') =>
      if c =? 0 then weigh counts' buckets' weighted total else
      let mid := f_div (f_add b b') (f_of_int 2) in
      weigh counts' buckets' (f_add weighted (f_mul mid (f_of_int c))) (u64 (total + c))
  | _, _ => (weighted, total)
  end.

Definition runtimeSnapshot (rt : runtime_report) : Z * float64 * Z :=
  let gcPauseSeconds :=
    match rt_pauses rt with
    | Some (counts, buckets) =>
        let '(weighted, total) := weigh counts buckets (f_of_int 0) 0 in
        if 0 <? total then f_div weighted (f_of_int total) else f_of_int 0
    | None => f_of_int 0
    end in
  (default 0 (rt_heap rt), gcPauseSeconds, default 0 (rt_goroutines rt)).

(** The mean of the samples of a server; none for a server without samples. *)
Definition sample_mean (samples : list float64) : option float64 :=
  if len samples =? 0 then None
  else Some (f_div (foldl f_add (f_of_int 0) samples) (f_of_int (len samples))).

(** [copyMap], [copyMapInt] and [copyMapInt64]: the loop over the map. *)
Definition copyMap {V} (m : gmap bytes V) : gmap bytes V := map_fold (fun k v out => <[k := v]> out) ∅ m.

Lemma copyMap_id {V} (m : gmap bytes V) : copyMap m = m.
Proof.
  unfold copyMap. apply (map_fold_weak_ind (fun out m => out = m)); [done|]. by intros k v m' out _ ->.
Qed.

Definition Snapshot_ (now : Z) (rt : runtime_report) (m : Metrics) : MetricsSnapshot :=
  let latCopy := sort_floats (mt_latencies m) in
  let p q := percentile latCopy (hundredths q) in
  let rate n := if 0 <? mt_total m then f_div (f_of_int n) (f_of_int (mt_total m)) else f_of_int 0 in
  let '(q1m, q5m, q15m) := qpsWindows (mt_queryTimes m) now in
  let '(heapBytes, gcPause, runtimeGoRoutines) := runtimeSnapshot rt in
  mkMetricsSnapshot (mt_total m) q1m q5m q15m (rate (mt_hits m)) (rate (mt_staleHits m))
    (p 50) (p 95) (p 99) (p 50) (p 95) (p 99) (default (f_of_int 0) (last latCopy))
    (copyMap (mt_byType m)) (copyMap (mt_byRCode m))
    (foldl (fun total n => i64 (total + n)) 0 (map_to_list (mt_active m)).*2)
    heapBytes gcPause runtimeGoRoutines
    (copyMap (mt_byType m)) (copyMap (mt_byRCode m)) (copyMap (mt_byProtocol m))
    (copyMap (mt_securityDrops m)) (copyMap (mt_circuitState m))
    (copyMap (mt_active m)) (rt_num rt) (omap sample_mean (mt_upstreamSamples m)) now.

(** ** Runs *)

(** An observed query. *)
Record observed := mkObserved {
  ob_now : Z; ob_type : bytes; ob_protocol : bytes; ob_rcode : bytes; ob_cached : bool;
  ob_stale : bool; ob_dur : Z
}.

Definition observe (m : Metrics) (o : observed) : Metrics :=
  ObserveQuery (ob_now o) (ob_type o) (ob_protocol o) (ob_rcode o) (ob_cached o) (ob_stale o)
    (ob_dur o) m.

(** How many of the queries satisfy the test. *)
Definition tally (f : observed -> bool) (qs : list observed) : Z := len (List.filter f qs).

Lemma tally_snoc f qs q : tally f (qs ++ [q]) = tally f qs + (if f q then 1 else 0).
Proof. unfold tally. rewrite List.filter_app. cbn [List.filter]. destruct (f q); len_lia. Qed.

Lemma tally_bounded f qs : 0 <= tally f qs.
Proof. apply len_nonneg. Qed.

(** The counters of a map of distributions. *)
Definition counts (field : observed -> bytes) (qs : list observed) (m : gmap bytes Z) : Prop :=
  forall k, default 0 (m !! k) = u64 (tally (fun q => bool_decide (field q = k)) qs).

Lemma u64_succ a : u64 (u64 a + 1) = u64 (a + 1).
Proof. unfold u64. by rewrite Zplus_mod_idemp_l. Qed.

Lemma counts_inc field qs q m :
  counts field qs m -> counts field (qs ++ [q]) (inc (field q) m).
Proof.
  intros H k. unfold inc. rewrite tally_snoc. case_bool_decide as E.
  - rewrite E, lookup_insert_eq. cbn [default]. rewrite H. apply u64_succ.
  - rewrite lookup_insert_ne by done. by rewrite Z.add_0_r.
Qed.

(** The last [n] elements. *)
Definition last_n {A} (n : nat) (l : list A) : list A := drop (length l - n) l.

Lemma keep_last_n {A} n (l : list A) (x : A) :
  0 < n -> keep_last n (last_n (Z.to_nat n) l ++ [x]) = last_n (Z.to_nat n) (l ++ [x]).
Proof.
  intros Hn. unfold keep_last, last_n, len. rewrite !length_app, !length_drop. cbn [length].
  destruct (n <? _) eqn:E.
  - replace (length l + 1 - Z.to_nat n)%nat with (length l - Z.to_nat n + 1)%nat by lia.
    rewrite <- (drop_drop (l ++ [x])), (drop_app_le l) by lia. f_equal. lia.
  - replace (length l + 1 - Z.to_nat n)%nat with 0%nat by lia.
    by replace (length l - Z.to_nat n)%nat with 0%nat by lia.
Qed.

Record counted (qs : list observed) (m : Metrics) : Prop := {
  cn_total : mt_total m = u64 (len qs);
  cn_hits : mt_hits m = u64 (tally ob_cached qs);
  cn_stale : mt_staleHits m = u64 (tally ob_stale qs);
  cn_types : counts ob_type qs (mt_byType m);
  cn_rcodes : counts ob_rcode qs (mt_byRCode m);
  cn_protocols : counts ob_protocol qs (mt_byProtocol m);
  cn_latencies : mt_latencies m = last_n (Z.to_nat 10000) (map (fun q => millis (ob_dur q)) qs)
}.

Lemma counted_observe qs q m : counted qs m -> counted (qs ++ [q]) (observe m q).
Proof.
  intros [H1 H2 H3 H4 H5 H6 H7]. split; cbn [observe ObserveQuery mt_total mt_hits mt_staleHits
    mt_byType mt_byRCode mt_byProtocol mt_latencies].
  - rewrite H1, u64_succ. f_equal. len_lia.
  - rewrite H2, tally_snoc. destruct (ob_cached q); [apply u64_succ|by rewrite Z.add_0_r].
  - rewrite H3, tally_snoc. destruct (ob_stale q); [apply u64_succ|by rewrite Z.add_0_r].
  - by apply counts_inc.
  - by apply counts_inc.
  - by apply counts_inc.
  - rewrite H7, map_app. by apply (keep_last_n 10000).
Qed.

(** ** The window of query times *)

Definition since (cutoff : Z) (times : list Z) : list Z := List.filter (fun t => negb (t <? cutoff)) times.

Lemma since_since a b times : a <= b -> since b (since a times) = since b times.
Proof.
  intros Hab. unfold since. induction times as [|t times IH]; [done|]. cbn [List.filter].
  destruct (t <? a) eqn:E1; cbn [negb].
  - assert ((t <? b) = true) as -> by lia. exact IH.
  - cbn [List.filter]. destruct (negb (t <? b)); by rewrite IH.
Qed.

Lemma since_app c l1 l2 : since c (l1 ++ l2) = since c l1 ++ since c l2.
Proof. apply List.filter_app. Qed.

Lemma StronglySorted_since c l : StronglySorted Z.le l -> StronglySorted Z.le (since c l).
Proof.
  unfold since. induction 1 as [|t l Hs IH Hf]; [constructor|]. cbn [List.filter].
  destruct (negb _); [|done]. constructor; [done|]. rewrite Forall_forall in Hf |- *.
  intros x Hx. apply Hf. apply list_elem_of_In, List.filter_In in Hx as [Hx _]. by apply list_elem_of_In.
Qed.

Lemma StronglySorted_snoc (l : list Z) x :
  StronglySorted Z.le l -> (forall y, y ∈ l -> y <= x) -> StronglySorted Z.le (l ++ [x]).
Proof.
  induction 1 as [|t l Hs IH Hf]; intros Hx; cbn [app]; [by repeat constructor|].
  constructor.
  - apply IH. intros y Hy. apply Hx. by right.
  - apply Forall_app. split; [done|]. constructor; [|done]. apply Hx. by left.
Qed.

(** Of times in order trimming removes exactly the old ones. *)
Lemma trim_before_since cutoff times :
  StronglySorted Z.le times -> trim_before cutoff times = since cutoff times.
Proof.
  unfold since. induction 1 as [|t l Hs IH Hf]; [done|].
  cbn [trim_before List.filter]. destruct (t <? cutoff) eqn:E; [exact IH|]. cbn [negb]. f_equal.
  clear IH Hs. induction Hf as [|x l Hx Hf IH]; [done|]. cbn [List.filter].
  assert ((x <? cutoff) = false) as -> by lia. cbn [negb]. by f_equal.
Qed.

(** Queries in the order of their times, none later than [now]. *)
Definition in_order (now : Z) (qs : list observed) : Prop :=
  StronglySorted Z.le (map ob_now qs) /\ forall t, t ∈ map ob_now qs -> t <= now.

Lemma in_order_snoc qs q now : in_order now (qs ++ [q]) -> in_order (ob_now q) qs /\ ob_now q <= now.
Proof.
  unfold in_order. rewrite map_app. cbn [map]. intros [Hs Hn].
  split; [|apply Hn, elem_of_app; right; by left]. clear Hn now.
  induction (map ob_now qs) as [|t l IH]; [split; [constructor|]; intros t Ht; by apply elem_of_nil in Ht|].
  cbn [app] in Hs. apply StronglySorted_inv in Hs as [Hs Hf]. destruct (IH Hs) as [H1 H2].
  rewrite Forall_app in Hf. destruct Hf as [Hf Hq]. split; [by constructor|].
  intros x [->|Hx]%elem_of_cons; [|by apply H2]. by apply Forall_inv in Hq.
Qed.

(** What the metrics hold after the queries. *)
Lemma run_counted qs now :
  in_order now qs ->
  let m := foldl observe NewMetrics qs in
  counted qs m
  /\ exists c, c <= now - 15 * Minute /\ mt_queryTimes m = since c (map ob_now qs).
Proof.
  revert now. induction qs as [|q qs IH] using rev_ind; intros now Hin.
  { split; [by split|]. by exists (now - 15 * Minute). }
  pose proof Hin as [Hs _]. apply in_order_snoc in Hin as [Hin Hq].
  destruct (IH _ Hin) as [Hc (c & Hle & Ht)]. cbv zeta.
  rewrite foldl_app. cbn [foldl]. split; [by apply counted_observe|].
  exists (ob_now q - 15 * Minute). split; [lia|]. cbn [observe ObserveQuery mt_queryTimes].
  rewrite Ht, map_app in *. cbn [map] in *.
  assert (since c (map ob_now qs) ++ [ob_now q] = since c (map ob_now qs ++ [ob_now q])) as ->.
  { rewrite since_app. unfold since at 3. cbn [List.filter].
    assert ((ob_now q <? c) = false) as -> by (unfold Minute, Second in *; lia). done. }
  rewrite trim_before_since by (by apply StronglySorted_since). by apply since_since.
Qed.

(** A rate as the snapshot computes it. *)
Definition ratio (n total : Z) : float64 :=
  if 0 <? total then f_div (f_of_int n) (f_of_int total) else f_of_int 0.

Lemma len_since cutoff qs :
  len (since cutoff (map ob_now qs)) = tally (fun q => negb (ob_now q <? cutoff)) qs.
Proof.
  unfold tally, since. induction qs as [|q qs IH]; [done|]. cbn [map List.filter].
  destruct (negb _); [|done]. len_lia.
Qed.

Lemma count_since d now c times :
  d <= 15 * Minute -> c <= now - 15 * Minute ->
  len (List.filter (fun t => negb (t <? now - d)) (since c times)) = len (since (now - d) times).
Proof. intros Hd Hc. change (List.filter _ ?l) with (since (now - d) l). rewrite since_since; [done|lia]. Qed.

(** C36. The snapshot counts the queries observed: all of them, the cached and
    the stale ones as shares, and those of each type, response code and
    protocol, modulo 2^64.  The rates over one, five and fifteen minutes count
    exactly the queries of these windows, although old times are dropped at
    every query, and the latencies are those of the last ten thousand. *)
Theorem snapshot_counts qs now rt :
  in_order now qs ->
  let s := Snapshot_ now rt (foldl observe NewMetrics qs) in
  let total := u64 (len qs) in
  let recent d := f_of_int (tally (fun q => negb (ob_now q <? now - d)) qs) in
  sn_TotalQueries s = total
  /\ sn_CacheHitRate s = ratio (u64 (tally ob_cached qs)) total
  /\ sn_StaleHitRate s = ratio (u64 (tally ob_stale qs)) total
  /\ counts ob_type qs (sn_ByType s) /\ counts ob_rcode qs (sn_ByRCode s)
  /\ counts ob_protocol qs (sn_ByProtocol s)
  /\ sn_QPS1m s = f_div (recent Minute) (f_of_int 60)
  /\ sn_QPS5m s = f_div (recent (5 * Minute)) (f_of_int 300)
  /\ sn_QPS15m s = f_div (recent (15 * Minute)) (f_of_int 900)
  /\ sn_LatencyP95 s
     = percentile (sort_floats (last_n (Z.to_nat 10000) (map (fun q => millis (ob_dur q)) qs)))
         (hundredths 95).
Proof.
  intros Hin s total recent. destruct (run_counted qs now Hin) as [[H1 H2 H3 H4 H5 H6 H7] (c & Hc & Ht)].
  unfold s, Snapshot_, qpsWindows. cbv zeta. rewrite Ht, !copyMap_id. clear s.
  destruct (runtimeSnapshot rt) as [[heap gc] gor].
  cbn [sn_TotalQueries sn_CacheHitRate sn_StaleHitRate sn_ByType sn_ByRCode sn_ByProtocol sn_QPS1m
    sn_QPS5m sn_QPS15m sn_LatencyP95].
  rewrite H1, H2, H3, H7. unfold recent. rewrite <- !len_since.
  rewrite !count_since by (unfold Minute, Second in *; lia). by ands.
Qed.

Theorem snapshot_counts_witness :
  let q t cached := mkObserved t "A" "udp" "NOERROR" cached false (3 * Millisecond) in
  let qs := [q 0 false; q (20 * Minute) true; q (21 * Minute) true] in
  let s := Snapshot_ (21 * Minute) (mkRuntimeReport None None None 1) (foldl observe NewMetrics qs) in
  let recent d := f_of_int (tally (fun q => negb (ob_now q <? 21 * Minute - d)) qs) in
  sn_TotalQueries s = 3 /\ sn_CacheHitRate s = ratio 2 3
  /\ counts ob_type qs (sn_ByType s)
  /\ sn_QPS15m s = f_div (recent (15 * Minute)) (f_of_int 900).
Proof.
  intros q qs s recent.
  destruct (snapshot_counts qs (21 * Minute) (mkRuntimeReport None None None 1))
    as (H1 & H2 & _ & H4 & _ & _ & _ & _ & H9 & _).
  { split; cbn; [|intros t Ht; rewrite !elem_of_cons, elem_of_nil in Ht; unfold Minute, Second in *; lia].
    repeat constructor; unfold Minute, Second; lia. }
  split; [exact H1|]. split; [exact H2|]. split; [exact H4|exact H9].
Defined.
