(* ===== verification/CacheContract.v ===== *)
(** * What the cache promises to the resolver.

    [AnswerCache] is the contract: a notion of well-formed cache that every
    call keeps, and of an answer that is fresh until some time, with what the
    calls do to it.  The LRU cache of [Cache] meets the contract. *)

From S2P Require Import Prelude.
From S2P Require Import GoStrings.
From S2P Require Import GoTime.
From S2P Require Import Protocol.
From S2P Require Import Cache.
From S2P Require Import CacheSpec.
From S2P Require Import CacheRefine.
From S2P Require Import CacheProps.

#[local] Open Scope go_scope.

Class AnswerCache (C : Type) := {
  ac_Get : Z -> bytes -> C -> GetResult * list bytes * C;
  ac_Set : Z -> bytes -> option Message -> Z -> C -> C;
  ac_GetNegative : Z -> bytes -> C -> option NegativeEntry * C;
  ac_SetNegative : Z -> bytes -> Z -> Z -> bytes -> C -> C;
  ac_GetStaleOnError : Z -> bytes -> C -> option Message * C;
  ac_stored : Message -> Message;

  (** well-formed caches *)
  ac_ok : C -> Prop;
  ac_ok_Get now key c : ac_ok c -> ac_ok (ac_Get now key c).2;
  ac_ok_Set now key m ttl c : ac_ok c -> ac_ok (ac_Set now key m ttl c);
  ac_ok_GetNegative now key c : ac_ok c -> ac_ok (ac_GetNegative now key c).2;
  ac_ok_SetNegative now key rc ttl soa c : ac_ok c -> ac_ok (ac_SetNegative now key rc ttl soa c);
  ac_ok_GetStaleOnError now key c : ac_ok c -> ac_ok (ac_GetStaleOnError now key c).2;

  (** the shortest time an answer is kept *)
  ac_min : C -> Z;
  ac_min_Get now key c : ac_ok c -> ac_min (ac_Get now key c).2 = ac_min c;
  ac_min_GetNegative now key c : ac_ok c -> ac_min (ac_GetNegative now key c).2 = ac_min c;
  (** [ac_fresh key m t c]: until [t] the answer for [key] is [m] *)
  ac_fresh : bytes -> Message -> Z -> C -> Prop;
  ac_denied : bytes -> C -> Prop;
  ac_fresh_Set now key m ttl c :
    ac_ok c -> key <> "" -> ac_fresh key (ac_stored m) (now + ac_min c) (ac_Set now key (Some m) ttl c);
  ac_fresh_GetNegative now key key' m t c :
    ac_fresh key m t c -> ac_fresh key m t (ac_GetNegative now key' c).2;
  ac_fresh_Get now key m t c :
    ac_ok c -> ac_fresh key m t c -> now < t ->
    (ac_Get now key c).1.1 = mkGetResult (Some (ac_stored m)) true false false;
  (** a key that was looked up among the denials in vain stays undenied *)
  ac_denied_GetNegative now key c : (ac_GetNegative now key c).1 = None -> ~ ac_denied key (ac_GetNegative now key c).2;
  ac_denied_Get now key key' c : ac_denied key (ac_Get now key' c).2 -> ac_denied key c;
  ac_denied_Set now key key' m ttl c : ac_denied key (ac_Set now key' m ttl c) -> ac_denied key c;
  ac_GetNegative_denied now key c : ~ ac_denied key c -> (ac_GetNegative now key c).1 = None
}.

(** ** The LRU cache *)

Record cache_ok (c : Cache) : Prop := {
  ck_store : store_inv c;
  ck_entries : 1 <= c_maxEntries c;
  ck_min : 0 < c_minTTL c;
  ck_max : c_minTTL c <= c_maxTTL c
}.

Section lru.
Context {U : UnicodeTables}.

Lemma config_abs c : config_of (abs c).2 = config_of c.
Proof. done. Qed.

Lemma cache_ok_config c c' : store_inv c' -> config_of c' = config_of c -> cache_ok c -> cache_ok c'.
Proof. intros Hs [= E1 E2 E3 _ _] [_ ? ? ?]. split; [done|rewrite ?E1, ?E2, ?E3; done..]. Qed.

Lemma cache_ok_step o c : ~ reconfigures o -> cache_ok c -> cache_ok (CacheSpec.step o c).2.
Proof.
  intros Hr Hc. destruct (step_refines o c (ck_store _ Hc)) as [_ [Hs Ha]].
  apply (cache_ok_config c); [done| |done]. rewrite <- (config_abs (CacheSpec.step o c).2), Ha.
  by apply step_config.
Qed.

Lemma step_min o c : ~ reconfigures o -> cache_ok c -> c_minTTL (CacheSpec.step o c).2 = c_minTTL c.
Proof.
  intros Hr Hc. destruct (step_refines o c (ck_store _ Hc)) as [_ [_ Ha]].
  pose proof (step_config o (abs c) Hr) as H. rewrite <- Ha, config_abs in H. by injection H.
Qed.

Lemma evict_loop_config n c : store_inv c ->
  store_inv (evict_loop n c) /\ config_of (evict_loop n c) = config_of c.
Proof.
  intros Hc. destruct (stands_evict_loop n c (abs c)) as [Hs Ha]; [by split|]. split; [done|].
  rewrite <- config_abs, Ha. clear Hs Ha. rewrite <- (config_abs c). generalize (abs c) as a.
  clear. induction n as [|n IH]; intros a; [done|]. cbn [a_evict_loop]. bcase; [|done].
  by rewrite IH, a_evict_config.
Qed.

Lemma updated_pos p old : 1 <= old -> 1 <= updated p (fun v => 0 <? v) old.
Proof. intros H. unfold updated. destruct p as [v|]; [|done]. bcase; lia. Qed.

Lemma cache_ok_apply now u c : cache_ok c -> cache_ok (ApplyRuntimeConfig now u c).
Proof.
  intros [Hs H1 H2 H3]. destruct (step_refines (OApply now u) c Hs) as [_ [Hs' _]].
  split; [exact Hs'|..]; clear Hs'; unfold ApplyRuntimeConfig; cbv zeta;
    set (c1 := set_config c _ _ _ _ _);
    set (c2 := match u_MaxEntries u with Some v => _ | None => _ end);
    assert (c_maxEntries c2 = c_maxEntries c1 /\ c_minTTL c2 = c_minTTL c1
      /\ c_maxTTL c2 = c_maxTTL c1) as (E1 & E2 & E3)
      by (unfold c2; destruct (u_MaxEntries u) as [v|]; [|done]; bcase; [|done];
          assert (store_inv c1) as Hs1 by (by eapply same_store_inv; [|exact Hs]);
          destruct (evict_loop_config (length (c_lru c1)) c1 Hs1) as [_ E]; by injection E);
    cbn [c_maxEntries c_minTTL c_maxTTL touchStatsLocked set_config set_stats];
    rewrite ?E1, ?E2, ?E3; clear E1 E2 E3; unfold c1;
    cbn [c_maxEntries c_minTTL c_maxTTL set_config].
  - by apply updated_pos.
  - pose proof (updated_pos (u_MinTTL u) (c_minTTL c)). lia.
  - bcase; lia.
Qed.

Lemma cache_ok_New opts :
  o_MinTTL opts <= 24 * Hour -> cache_ok (New opts).
Proof.
  intros H. split; [apply New_inv|..]; unfold New; cbn; unfold Hour, Minute, Second in *; repeat bcase; lia.
Qed.

Lemma cache_ok_prefetch on c : cache_ok c -> cache_ok (SetPrefetchCallback on c).
Proof. intros Hc. apply (cache_ok_config c); [|done|done]. by eapply same_store_inv; [|apply Hc]. Qed.

(** *** Fresh answers *)

Definition fresh_in (key : bytes) (m : Message) (t : Z) (c : Cache) : Prop :=
  exists e, find_key key (abs_list c) = Some e /\ e_value e = m /\ t <= e_expiresAt e.

Lemma clampTTL_min c ttl : cache_ok c -> c_minTTL c <= clampTTL c ttl.
Proof. intros [_ _ _ H]. unfold clampTTL. repeat bcase; lia. Qed.

Lemma find_key_head key e l : e_key e = key -> find_key key (e :: l) = Some e.
Proof. intros <-. unfold find_key. cbn [List.find]. by rewrite bool_decide_eq_true_2. Qed.

Lemma Set_find now key m ttl c :
  cache_ok c -> key <> "" ->
  find_key key (abs_list (Set_ now key (Some m) ttl c)) = Some (new_entry c now key m ttl).
Proof.
  intros Hc Hk. destruct (Set_refines now key (Some m) ttl c (ck_store _ Hc)) as [_ Ha].
  change (abs_list ?x) with (abs x).1. rewrite Ha. unfold spec_Set, abs.
  rewrite bool_decide_eq_false_2 by done. cbv zeta.
  change (new_entry (view c) now key m ttl) with (new_entry c now key m ttl).
  set (item := new_entry c now key m ttl). assert (e_key item = key) as Hik by done.
  destruct (find_key key (abs_list c)) as [old|]; [by apply find_key_head|].
  change (c_maxEntries (view c)) with (c_maxEntries c). pose proof (ck_entries _ Hc).
  destruct (c_maxEntries c <? len (abs_list c) + 1) eqn:E; [|by apply find_key_head].
  unfold a_evict. destruct (abs_list c) as [|x l] eqn:El; [rewrite len_nil in E; lia|].
  destruct (last (item :: x :: l)); by apply find_key_head.
Qed.

Lemma Get_find now key e c :
  store_inv c -> find_key key (abs_list c) = Some e -> now < e_expiresAt e ->
  (Get now key c).1.1 = mkGetResult (Some (cloneMessage (e_value e))) true false false.
Proof.
  intros Hc Hf Hn. pose proof (Get_refines now key c Hc) as H.
  destruct (Get now key c) as [[r s] c']. unfold spec_Get, abs in H. rewrite Hf in H. cbv zeta in H.
  assert ((now <? e_expiresAt e) = true) as E by lia. rewrite E in H.
  destruct (spec_prefetch _ _ _) as [[st it] v]. by destruct H as [-> _].
Qed.

Lemma GetNegative_store now key c : same_store c (GetNegative now key c).2.
Proof. unfold GetNegative. destruct (c_negative c !! key); [|done]. by bcase. Qed.

Lemma maybePrefetch_negative el now c : c_negative (maybePrefetchLocked el now c).2 = c_negative c.
Proof. unfold maybePrefetchLocked. bcase; [done|]. cbv zeta. by bcase. Qed.

Lemma MoveToFront_negative el c : c_negative (MoveToFront el c) = c_negative c.
Proof. unfold MoveToFront. by bcase. Qed.

Lemma Get_negative now key c : c_negative (Get now key c).2 = c_negative c.
Proof.
  unfold Get. destruct (c_items c !! key) as [el|]; [|done]. cbv zeta.
  set (c1 := MoveToFront _ _).
  assert (c_negative c1 = c_negative c) as H1 by (unfold c1; by rewrite MoveToFront_negative).
  clearbody c1. bcase.
  - pose proof (maybePrefetch_negative el now (set_stats c1 (count (c_stats c1) 1 0 0 0 0 0))) as Hp.
    destruct (maybePrefetchLocked _ _ _). cbn in Hp |- *. by rewrite Hp.
  - match goal with |- context [if e_expired ?i then ?a else ?b] =>
      set (c2 := if e_expired i then a else b) end.
    assert (c_negative c2 = c_negative c) as H2
      by (unfold c2; destruct (e_expired _); [done|by rewrite <- H1]).
    clearbody c2. bcase; [|by bcase].
    pose proof (maybePrefetch_negative el now (set_stats c2 (count (c_stats c2) 1 0 1 0 0 0))) as Hp.
    destruct (maybePrefetchLocked _ _ _). cbn in Hp |- *. by rewrite Hp.
Qed.

Lemma Set_negative now key m ttl c : c_negative (Set_ now key m ttl c) = c_negative c.
Proof.
  unfold Set_. destruct m as [m|]; [|done]. bcase; [done|]. cbv zeta.
  destruct (c_items c !! key) as [el|].
  - cbn. by rewrite MoveToFront_negative.
  - cbn. bcase; [|done]. unfold evictOldestLocked. by destruct (last _).
Qed.

#[export] Program Instance lru_cache : AnswerCache Cache := {|
  ac_Get := Get; ac_Set := Set_; ac_GetNegative := GetNegative; ac_SetNegative := SetNegative;
  ac_GetStaleOnError := GetStaleOnError; ac_stored := cloneMessage;
  ac_ok := cache_ok; ac_min := c_minTTL; ac_fresh := fresh_in;
  ac_denied key c := is_Some (c_negative c !! key)
|}.
Next Obligation.
  intros now key c Hc. pose proof (cache_ok_step (OGet now key) c) as H.
  cbn [CacheSpec.step] in H. destruct (Get now key c) as [[r s] c']. by apply H; [intros []|].
Qed.
Next Obligation. intros now key m ttl c. apply (cache_ok_step (OSet now key m ttl) c). by intros []. Qed.
Next Obligation.
  intros now key c Hc. pose proof (cache_ok_step (OGetNegative now key) c) as H.
  cbn [CacheSpec.step] in H. destruct (GetNegative now key c) as [n c']. by apply H; [intros []|].
Qed.
Next Obligation.
  intros now key rc ttl soa c. apply (cache_ok_step (OSetNegative now key rc ttl soa) c). by intros [].
Qed.
Next Obligation.
  intros now key c Hc. pose proof (cache_ok_step (OStaleOnError now key) c) as H.
  cbn [CacheSpec.step] in H. destruct (GetStaleOnError now key c) as [n c']. by apply H; [intros []|].
Qed.
Next Obligation.
  intros now key c Hc. pose proof (step_min (OGet now key) c) as H.
  cbn [CacheSpec.step] in H. destruct (Get now key c) as [[r s] c']. by apply H; [intros []|].
Qed.
Next Obligation.
  intros now key c Hc. pose proof (step_min (OGetNegative now key) c) as H.
  cbn [CacheSpec.step] in H. destruct (GetNegative now key c) as [n c']. by apply H; [intros []|].
Qed.
Next Obligation.
  intros now key m ttl c Hc Hk. eexists. split; [by apply Set_find|]. split; [done|].
  cbn [e_expiresAt new_entry]. pose proof (clampTTL_min c ttl Hc). cbv zeta. lia.
Qed.
Next Obligation.
  intros now key key' m t c (e & H1 & H2). exists e.
  by rewrite (same_store_abs _ _ (GetNegative_store now key' c)).
Qed.
Next Obligation.
  intros now key m t c Hc (e & H1 & <- & H3) Hn. apply Get_find; [apply Hc|done|lia].
Qed.
Next Obligation.
  intros now key c. unfold GetNegative. destruct (c_negative c !! key) as [n|] eqn:E.
  - bcase; [|done]. intros _. cbn. rewrite lookup_delete_eq. by intros [].
  - intros _. cbn. rewrite E. by intros [].
Qed.
Next Obligation. intros now key key' c. cbn beta. by rewrite Get_negative. Qed.
Next Obligation. intros now key key' m ttl c. cbn beta. by rewrite Set_negative. Qed.
Next Obligation.
  intros now key c H. unfold GetNegative. destruct (c_negative c !! key) as [n|] eqn:E; [|done].
  exfalso. apply H. by eexists.
Qed.
End lru.
