(* ===== verification/CacheLoad.v ===== *)
(** * internal/cache/cache.go: what loading a snapshot keeps.

    [Persist] writes a snapshot and [Load] reads it into a new cache.  Here a file
    is the snapshot it decodes to; [CacheFile] and [Persist] have its text. *)

From S2P Require Import Prelude.
From S2P Require Import GoStrings.
From S2P Require Import GoTime.
From S2P Require Import Protocol.
From S2P Require Import Decoder.
From S2P Require Import Encoder.
From S2P Require Import WireRData.
From S2P Require Import WireRoundtrip.
From S2P Require Import Cache.
From S2P Require Import CacheSpec.
From S2P Require Import CacheRefine.
From S2P Require Import CacheProps.
From S2P Require Import CacheContract.

#[local] Open Scope go_scope.

(** What reading the file and [json.Unmarshal] give. *)
Inductive snapshot_file :=
| NoFile
| Unreadable (err : bytes)
| Snapshot (entries : list snapshotEntry) (negative : list NegativeEntry).

Section load.
Context {U : UnicodeTables}.

Definition Load (read : bytes -> snapshot_file) (now : Z) (path : bytes) (c : Cache)
  : result bytes Cache :=
  if bool_decide (path = "") then Ok c else
  match read path with
  | NoFile => Ok c
  | Unreadable err => Err err
  | Snapshot entries negative => Ok (Load_snapshot now (entries, negative) c)
  end.

(** ** What one entry of the file becomes *)

Definition loaded (now : Z) (it : snapshotEntry) : option entry :=
  if s_StaleUntil it <? now then None else
  match Decode (s_Wire it) with
  | Ok msg =>
      let lastGood :=
        if 0 <? len (s_LastGoodWire it) then
          match Decode (s_LastGoodWire it) with Ok lg => Some lg | _ => None end
        else None in
      Some (mkEntry (s_Key it) msg (s_ExpiresAt it) (s_StaleUntil it) lastGood (s_LastGoodAt it)
              (s_Hits it) (s_OriginalTTL it) false (s_ExpiresAt it <? now)
              (u64 (len (s_Key it) + messageSizeEstimate msg)))
  | _ => None
  end.

Lemma loaded_key now it e : loaded now it = Some e -> e_key e = s_Key it.
Proof. unfold loaded. bcase; [done|]. destruct (Decode _); try done. by intros [= <-]. Qed.

Lemma push_back c e :
  store_inv c -> c_items c !! e_key e = None ->
  let '(el, c1) := PushBack e c in
  let c2 := set_store c1 (c_lru c1) (c_elems c1) (c_next c1) (<[e_key e := el]> (c_items c1)) in
  store_inv c2 /\ abs_list c2 = abs_list c ++ [e].
Proof.
  intros Hc Hk. unfold PushBack. cbv zeta. cbn [set_store c_lru c_elems c_next c_items].
  set (el := c_next c). set (c2 := set_store _ _ _ _ _).
  assert (el ∉ c_lru c) as Hnew by (intros H%(si_fresh _ Hc); unfold el in H; lia).
  assert (elem c2 el = e) as Eel by (unfold elem; cbn; by rewrite lookup_insert_eq).
  assert (forall x, x ∈ c_lru c -> elem c2 x = elem c x) as Eold.
  { intros x Hx. unfold elem. cbn. rewrite lookup_insert_ne; [done|congruence]. }
  assert (forall x, x ∈ c_lru c ++ [el] <-> x ∈ c_lru c \/ x = el) as Hin.
  { intros x. by rewrite elem_of_app, list_elem_of_singleton. }
  split.
  - constructor; cbn [c2 set_store c_lru c_items c_next].
    + apply NoDup_app. ands; [apply Hc| |apply NoDup_singleton].
      by intros x Hx ->%list_elem_of_singleton.
    + intros x [Hx| ->]%Hin.
      * rewrite Eold by done. rewrite lookup_insert_ne; [by apply Hc|].
        intros E. pose proof (si_index _ Hc x Hx). congruence.
      * rewrite Eel. apply lookup_insert_eq.
    + intros k x. rewrite Hin. destruct (decide (k = e_key e)) as [->|Hne].
      * rewrite lookup_insert_eq. intros [= <-]. rewrite Eel. auto.
      * rewrite lookup_insert_ne by done. intros Hx. apply (si_items _ Hc) in Hx as [Hx ?].
        rewrite Eold by done. auto.
    + intros x [Hx| ->]%Hin; [|lia]. apply (si_fresh _ Hc) in Hx. unfold el. lia.
  - unfold abs_list. cbn [c2 set_store c_lru]. fold c2. rewrite map_app. cbn [map]. rewrite Eel. f_equal.
    apply map_ext_in. intros x Hx%list_elem_of_In. by apply Eold.
Qed.

Lemma load_entry_spec now c it :
  match loaded now it with
  | None => load_entry now c it = c
  | Some e =>
      let c' := load_entry now c it in
      config_of c' = config_of c /\ c_negative c' = c_negative c
      /\ dom (c_items c') = {[e_key e]} ∪ dom (c_items c)
      /\ (store_inv c -> c_items c !! e_key e = None -> store_inv c' /\ abs_list c' = abs_list c ++ [e])
  end.
Proof.
  unfold loaded, load_entry. bcase; [done|]. destruct (Decode _) as [msg|e| |]; try done. cbv zeta.
  set (e := mkEntry _ _ _ _ _ _ _ _ _ _ _). ands; try done.
  - cbn. by rewrite dom_insert_L.
  - intros Hc Hk. pose proof (push_back c e Hc Hk) as H. unfold PushBack in H. cbv zeta in H.
    destruct H as [H1 H2]. unfold PushBack. split; [by eapply same_store_inv; [|exact H1]|].
    rewrite <- H2. by apply same_store_abs.
Qed.

(** The first loop. *)
Lemma load_entries_spec now its c :
  store_inv c -> NoDup (map s_Key its) -> (forall k, k ∈ map s_Key its -> k ∉ dom (c_items c)) ->
  let c' := foldl (load_entry now) c its in
  store_inv c' /\ config_of c' = config_of c /\ c_negative c' = c_negative c
  /\ abs_list c' = abs_list c ++ omap (loaded now) its.
Proof.
  revert c. induction its as [|it its IH]; intros c Hc Hnd Hout; cbn [foldl map] in *.
  { change (omap _ []) with (@nil entry). by rewrite app_nil_r. }
  apply NoDup_cons in Hnd as [Hit Hnd]. pose proof (load_entry_spec now c it) as H.
  change (omap _ (it :: its)) with (match loaded now it with Some e => e :: omap (loaded now) its
    | None => omap (loaded now) its end).
  destruct (loaded now it) as [e|] eqn:E.
  - apply loaded_key in E. cbv zeta in H. destruct H as (H1 & H2 & H3 & H4).
    assert (c_items c !! e_key e = None) as Hk.
    { apply not_elem_of_dom. rewrite E. apply Hout, elem_of_cons. by left. }
    destruct (H4 Hc Hk) as [H5 H6].
    destruct (IH (load_entry now c it) H5 Hnd) as (I1 & I2 & I3 & I4).
    { intros k Hk1. rewrite H3, E. assert (k ∉ dom (c_items c)) by (apply Hout, elem_of_cons; by right).
      set_solver. }
    cbv zeta. ands; [done|congruence..|]. rewrite I4, H6, <- app_assoc. done.
  - rewrite H. apply IH; [done..|]. intros k Hk. apply Hout, elem_of_cons. by right.
Qed.

(** The second loop. *)
Lemma load_negatives_spec now negs c :
  NoDup (map n_Key negs) ->
  let c' := foldl (load_negative now) c negs in
  same_store c c' /\ config_of c' = config_of c
  /\ forall k n, c_negative c' !! k = Some n <->
       (n ∈ negs /\ n_Key n = k /\ now < n_ExpiresAt n)
       \/ (c_negative c !! k = Some n /\ forall x, x ∈ negs -> n_Key x = k -> n_ExpiresAt x <= now).
Proof.
  revert c. induction negs as [|x negs IH]; intros c Hnd; cbn [foldl map] in *.
  { ands; try done. intros k n. set_solver. }
  apply NoDup_cons in Hnd as [Hx Hnd]. destruct (IH (load_negative now c x) Hnd) as (I1 & I2 & I3).
  assert (forall y, y ∈ negs -> n_Key y <> n_Key x) as Hne.
  { intros y Hy E. apply Hx. rewrite <- E. by apply list_elem_of_fmap_2. }
  cbv zeta. assert (same_store c (load_negative now c x) /\ config_of (load_negative now c x) = config_of c)
    as [J1 J2] by (unfold load_negative; by bcase).
  ands.
  - unfold same_store in *. intuition congruence.
  - congruence.
  - intros k n. rewrite I3. clear I1 I2 I3 J1 J2 IH. unfold load_negative.
    destruct (now <? n_ExpiresAt x) eqn:E.
    + cbn [set_negative c_negative]. destruct (decide (n_Key x = k)) as [<-|Hk].
      * rewrite lookup_insert_eq. split.
        -- intros [(H1 & H2 & H3)|[[= <-] H2]]; left; ands; try done; try lia; apply elem_of_cons; auto.
        -- intros [(H1 & H2 & H3)|[_ H2]]; [|pose proof (H2 x ltac:(apply elem_of_cons; by left) eq_refl); lia].
           apply elem_of_cons in H1 as [->|H1]; [|by left]. right. split; [done|].
           intros y Hy Ey. by destruct (Hne y Hy).
      * rewrite lookup_insert_ne by done. set_solver.
    + split.
      * intros [(H1 & H2 & H3)|[H1 H2]]; [left; ands; try done; apply elem_of_cons; by right|]. right. split; [done|].
        intros y [->|Hy]%elem_of_cons Ey; [lia|by apply H2].
      * intros [(H1 & H2 & H3)|[H1 H2]].
        -- apply elem_of_cons in H1 as [->|H1]; [lia|by left].
        -- right. split; [done|]. intros y Hy. apply H2, elem_of_cons. by right.
Qed.

(** The third loop: the entries at the back are dropped. *)
Lemma a_evict_loop_take n l v :
  1 <= c_maxEntries v -> len l <= c_maxEntries v + Z.of_nat n ->
  (a_evict_loop n (l, v)).1 = take (Z.to_nat (c_maxEntries v)) l.
Proof.
  revert l v. induction n as [|n IH]; intros l v Hm Hl; cbn [a_evict_loop fst snd].
  { rewrite take_ge; [done|]. unfold len in Hl. lia. }
  bcase; [|rewrite take_ge; [done|unfold len in *; lia]].
  unfold a_evict. destruct (last l) as [e|] eqn:El.
  - apply last_Some in El as [k ->]. rewrite removelast_last.
    revert Hl Hb. rewrite len_app. change (len [e]) with 1. intros Hl Hb.
    cbv zeta. rewrite IH; [|done|].
    + change (c_maxEntries (a_count _ _ _ _ _ _ _)) with (c_maxEntries v).
      rewrite take_app_le; [done|]. unfold len in *. lia.
    + change (c_maxEntries (a_count _ _ _ _ _ _ _)) with (c_maxEntries v). lia.
  - apply last_None in El as ->. unfold len in *. cbn in *. lia.
Qed.

Lemma a_evict_loop_negative n a : c_negative (a_evict_loop n a).2 = c_negative a.2.
Proof.
  revert a. induction n as [|n IH]; intros [l v]; [done|]. cbn [a_evict_loop]. bcase; [|done].
  rewrite IH. unfold a_evict. by destruct (last l).
Qed.

Lemma Load_snapshot_spec now snap c :
  1 <= c_maxEntries c -> NoDup (map s_Key snap.1) -> NoDup (map n_Key snap.2) ->
  let c' := Load_snapshot now snap c in
  store_inv c' /\ config_of c' = config_of c
  /\ abs_list c' = take (Z.to_nat (c_maxEntries c)) (omap (loaded now) snap.1)
  /\ forall k n, c_negative c' !! k = Some n <-> n ∈ snap.2 /\ n_Key n = k /\ now < n_ExpiresAt n.
Proof.
  intros Hm He Hn. unfold Load_snapshot. cbv zeta.
  set (c0 := set_stats _ _). assert (store_inv c0) as H0 by (by eapply same_store_inv; [|exact (empty_store_inv c)]).
  destruct (load_entries_spec now snap.1 c0 H0 He) as (H1 & H2 & H3 & H4).
  { intros k _. cbn. set_solver. }
  set (c1 := foldl (load_entry now) c0 snap.1) in *.
  destruct (load_negatives_spec now snap.2 c1 Hn) as (J1 & J2 & J3).
  set (c2 := foldl (load_negative now) c1 snap.2) in *.
  assert (store_inv c2) as H5 by by eapply same_store_inv.
  assert (config_of c2 = config_of c) as H6 by (rewrite J2, H2; done).
  destruct (evict_loop_config (length (c_lru c2)) c2 H5) as [K1 K2].
  destruct (stands_evict_loop (length (c_lru c2)) c2 (abs c2)) as [_ K3]; [by split|].
  ands.
  - by eapply same_store_inv; [|exact K1].
  - change (config_of (evict_loop (length (c_lru c2)) c2) = config_of c). congruence.
  - change (abs_list (evict_loop (length (c_lru c2)) c2) = take (Z.to_nat (c_maxEntries c)) (omap (loaded now) snap.1)).
    assert (c_maxEntries c2 = c_maxEntries c) as Em by by injection H6.
    change (abs_list ?x) with (abs x).1. rewrite K3. unfold abs. rewrite a_evict_loop_take.
    + change (c_maxEntries (view c2)) with (c_maxEntries c2). rewrite Em.
      rewrite (same_store_abs _ _ J1), H4. done.
    + change (c_maxEntries (view c2)) with (c_maxEntries c2). lia.
    + change (c_maxEntries (view c2)) with (c_maxEntries c2). unfold len. rewrite length_abs. lia.
  - intros k n. change (c_negative (touchStatsLocked now ?x)) with (c_negative x).
    change (c_negative (evict_loop (length (c_lru c2)) c2)) with (c_negative (abs (evict_loop (length (c_lru c2)) c2)).2).
    rewrite K3, a_evict_loop_negative. change (c_negative (abs c2).2) with (c_negative c2). rewrite J3, H3.
    split; [|by left]. intros [H|[H _]]; [done|]. cbn in H. by rewrite lookup_empty in H.
Qed.

(** ** Persist, then Load *)

(** The entry [e'] of the new cache stands for the entry [e] of the old one. *)
Record restored (e e' : entry) : Prop := {
  rs_key : e_key e' = e_key e;
  rs_expires : e_expiresAt e' = e_expiresAt e;
  rs_stale : e_staleUntil e' = e_staleUntil e;
  rs_good_at : e_lastGoodAt e' = e_lastGoodAt e;
  rs_hits : e_hits e' = e_hits e;
  rs_ttl : e_originalTTL e' = e_originalTTL e;
  rs_value : exists wire, (Encode (Some (e_value e))).2 = Ok wire /\ Decode wire = Ok (e_value e')
}.

Lemma snapshot_key e it : snapshot_entry e = Some it -> s_Key it = e_key e.
Proof. unfold snapshot_entry. destruct (Encode _).2; try done. by intros [= <-]. Qed.

Lemma loaded_restored now e it e' :
  snapshot_entry e = Some it -> loaded now it = Some e' -> restored e e' /\ now <= e_staleUntil e.
Proof.
  unfold snapshot_entry. destruct (Encode (Some (e_value e))).2 as [wire| | |] eqn:E; try done.
  cbv zeta. intros [= <-]. unfold loaded. cbn [s_StaleUntil s_Wire]. bcase; [done|].
  destruct (Decode wire) as [m| | |] eqn:D; try done. cbv zeta. intros [= <-].
  split; [constructor; cbn; eauto|lia].
Qed.

Lemma restored_loads now e m1 wire :
  now <= e_staleUntil e -> message_ok (e_value e) -> Encode (Some (e_value e)) = (Some m1, Ok wire) ->
  exists e', snapshot_entry e ≫= loaded now = Some e' /\ restored e e' /\ same_message m1 (e_value e').
Proof.
  intros Hn Hm He. destruct (Encode_reads_back _ _ _ Hm He) as (m2 & D & Hs).
  unfold snapshot_entry. rewrite He. cbn [snd mbind option_bind]. unfold loaded.
  cbn [s_StaleUntil s_Wire]. bcase; [lia|]. rewrite D. eexists. split; [done|]. split; [|exact Hs].
  constructor; try done. exists wire. by rewrite He.
Qed.

Definition neg_keyed (c : Cache) : Prop := forall k n, c_negative c !! k = Some n -> n_Key n = k.

Lemma neg_keyed_evict_loop n c : neg_keyed c -> neg_keyed (evict_loop n c).
Proof.
  revert c. induction n as [|n IH]; intros c H; [done|]. cbn [evict_loop]. bcase; [|done].
  apply IH. unfold evictOldestLocked. by destruct (last _).
Qed.

Lemma neg_keyed_step o c : neg_keyed c -> neg_keyed (step o c).2.
Proof.
  intros H. assert (forall k, neg_keyed (set_negative c (delete k (c_negative c)))) as Hd.
  { intros k k' n. cbn. rewrite lookup_delete_Some. intros [_ Hk]. by apply H. }
  destruct o as [now key value ttl|now key|now key|now|now u|now key rc ttl soa|now key|now key|key];
    cbn [step snd].
  - unfold neg_keyed. by rewrite Set_negative.
  - pose proof (Get_negative now key c) as E. destruct (Get now key c) as [[r s] c']. cbn [snd] in *.
    unfold neg_keyed. by rewrite E.
  - specialize (Hd key). unfold Delete. by destruct (c_items c !! key).
  - intros k n. cbn. by rewrite lookup_empty.
  - unfold ApplyRuntimeConfig. cbv zeta. set (c1 := set_config c _ _ _ _ _).
    set (c2 := match u_MaxEntries u with Some v => _ | None => _ end).
    assert (neg_keyed c2) as H2; [|exact H2]. unfold c2. destruct (u_MaxEntries u) as [v|]; [|exact H].
    bcase; [|exact H]. apply neg_keyed_evict_loop. exact H.
  - intros k n. cbn. rewrite lookup_insert_Some. intros [[<- <-]|[_ Hk]]; [done|by apply H].
  - specialize (Hd key). unfold GetNegative. destruct (c_negative c !! key); [|done]. by bcase.
  - unfold GetStaleOnError. destruct (c_items c !! key); [|done]. cbv zeta.
    destruct (e_lastGood _); [|done]. bcase; [done|]. by bcase.
  - unfold prefetchDone. by destruct (c_items c !! key).
Qed.

Lemma neg_keyed_run os c : neg_keyed c -> neg_keyed (run step os c).2.
Proof.
  revert c. induction os as [|o os IH]; intros c H; [done|]. cbn [run].
  pose proof (neg_keyed_step o c H) as H1. destruct (step o c) as [a c1].
  specialize (IH c1 H1). by destruct (run step os c1).
Qed.

Lemma NoDup_omap_keys {A B} (f : A -> option B) (g : A -> bytes) (h : B -> bytes) l :
  (forall x y, f x = Some y -> h y = g x) -> NoDup (map g l) -> NoDup (map h (omap f l)).
Proof.
  intros Hf. induction l as [|x l IH]; intros Hl; [constructor|]. cbn [map] in Hl.
  apply NoDup_cons in Hl as [Hx Hl].
  change (omap f (x :: l)) with (match f x with Some y => y :: omap f l | None => omap f l end).
  destruct (f x) as [y|] eqn:E; [|auto]. cbn [map]. apply NoDup_cons. split; [|auto].
  rewrite (Hf _ _ E). intros (z & Ez & Hz)%list_elem_of_fmap. apply list_elem_of_omap in Hz as (w & Hw & Ew).
  apply Hx. rewrite Ez, (Hf _ _ Ew). by apply list_elem_of_fmap_2.
Qed.

Lemma omap_le {A B} (f : A -> option B) l : (length (omap f l) <= length l)%nat.
Proof.
  induction l as [|x l IH]; [done|].
  change (omap f (x :: l)) with (match f x with Some y => y :: omap f l | None => omap f l end).
  destruct (f x); cbn [length]; lia.
Qed.

Lemma find_key_in key l e :
  NoDup (map e_key l) -> e ∈ l -> e_key e = key -> find_key key l = Some e.
Proof.
  intros Hnd Hin He. apply list_elem_of_split in Hin as (l1 & l2 & ->). apply find_key_at; [|done].
  rewrite map_app in Hnd. apply NoDup_app in Hnd as (_ & Hd & _). apply Forall_forall. intros x Hx E.
  apply (Hd (e_key x)); [by apply list_elem_of_fmap_2|]. cbn [map]. rewrite E, He.
  apply elem_of_cons. by left.
Qed.

Lemma find_key_sound key l e : find_key key l = Some e -> e ∈ l /\ e_key e = key.
Proof.
  unfold find_key. intros H. apply find_some in H as [H1 H2]. rewrite <- list_elem_of_In in H1.
  by apply bool_decide_eq_true_1 in H2.
Qed.

Lemma abs_keys c : store_inv c -> NoDup (map e_key (abs_list c)).
Proof.
  intros Hc. unfold abs_list. rewrite map_map. apply (NoDup_fmap_2_strong (fun x => e_key (elem c x))).
  - intros x y Hx Hy E. pose proof (si_index _ Hc x Hx) as H1. pose proof (si_index _ Hc y Hy) as H2.
    rewrite E in H1. congruence.
  - apply Hc.
Qed.

Lemma find_key_omap (f : entry -> option entry) key l e e' :
  NoDup (map e_key l) -> (forall x y, f x = Some y -> e_key y = e_key x) ->
  find_key key l = Some e -> f e = Some e' -> find_key key (omap f l) = Some e'.
Proof.
  intros Hnd Hf [Hin He]%find_key_sound Hfe. apply find_key_in.
  - by apply (NoDup_omap_keys f e_key e_key).
  - apply list_elem_of_omap. eauto.
  - by rewrite (Hf _ _ Hfe).
Qed.

Lemma New_entries opts : 1 <= c_maxEntries (New opts).
Proof. unfold New. cbn. bcase; lia. Qed.

(** What [Load] makes of the entry [e] that [Persist] wrote. *)
Definition reload (now : Z) (e : entry) : option entry := snapshot_entry e ≫= loaded now.

Lemma reload_restored now e e' : reload now e = Some e' -> restored e e' /\ now <= e_staleUntil e.
Proof.
  unfold reload. destruct (snapshot_entry e) as [it|] eqn:E; [|done]. cbn. by apply loaded_restored.
Qed.

Lemma omap_reload now c els :
  omap (loaded now) (omap (fun el => snapshot_entry (elem c el)) els) = omap (reload now) (map (elem c) els).
Proof.
  induction els as [|el els IH]; [done|].
  change (omap _ (map (elem c) (el :: els))) with
    (match reload now (elem c el) with Some y => y :: omap (reload now) (map (elem c) els)
     | None => omap (reload now) (map (elem c) els) end).
  rewrite <- IH. unfold reload.
  change (omap (fun el => snapshot_entry (elem c el)) (el :: els)) with
    (match snapshot_entry (elem c el) with
     | Some y => y :: omap (fun el => snapshot_entry (elem c el)) els
     | None => omap (fun el => snapshot_entry (elem c el)) els end).
  by destruct (snapshot_entry (elem c el)).
Qed.

(** The snapshot a cache writes, whatever the order of the ranges over its maps. *)
Lemma Persist_keys c els negs :
  store_inv c -> neg_keyed c ->
  els ≡ₚ (map_to_list (c_items c)).*2 -> negs ≡ₚ (map_to_list (c_negative c)).*2 ->
  els ≡ₚ c_lru c
  /\ NoDup (map s_Key (Persist_snapshot els negs c).1) /\ NoDup (map n_Key (Persist_snapshot els negs c).2).
Proof.
  intros Hc Hn He Hg. assert (els ≡ₚ c_lru c) as Hp by by rewrite He, items_perm. split; [done|]. split.
  - apply (NoDup_omap_keys _ (fun el => e_key (elem c el)) s_Key); [intros x y; apply snapshot_key|].
    rewrite Hp. pose proof (abs_keys c Hc) as H. unfold abs_list in H. by rewrite map_map in H.
  - cbn [Persist_snapshot snd]. rewrite Hg. unfold neg_keyed in Hn.
    assert (map n_Key (map_to_list (c_negative c)).*2 = (map_to_list (c_negative c)).*1) as ->.
    { rewrite map_map. apply map_ext_in. intros [k n] H%list_elem_of_In.
      apply elem_of_map_to_list in H. by apply Hn. }
    apply NoDup_fst_map_to_list.
Qed.

(** A snapshot that is taken, in whatever order the maps are ranged over, and
    loaded at the time [now] into a new cache keeps what is still usable. *)
Lemma snapshot_keeps opts os opts' els negs now :
  let c := (run step os (New opts)).2 in
  let c' := Load_snapshot now (Persist_snapshot els negs c) (New opts') in
  els ≡ₚ (map_to_list (c_items c)).*2 -> negs ≡ₚ (map_to_list (c_negative c)).*2 ->
  store_inv c' /\ len (c_lru c') <= c_maxEntries (New opts')
  /\ (forall key e', find_key key (abs_list c') = Some e' ->
        exists e, find_key key (abs_list c) = Some e /\ restored e e' /\ now <= e_staleUntil e)
  /\ (len (c_lru c) <= c_maxEntries (New opts') -> forall key e m1 wire,
        find_key key (abs_list c) = Some e -> now <= e_staleUntil e ->
        message_ok (e_value e) -> Encode (Some (e_value e)) = (Some m1, Ok wire) ->
        exists e', find_key key (abs_list c') = Some e' /\ restored e e' /\ same_message m1 (e_value e')
          /\ (now < e_expiresAt e ->
                (Get now key c').1.1 = mkGetResult (Some (cloneMessage (e_value e'))) true false false))
  /\ (forall key n, c_negative c' !! key = Some n <-> c_negative c !! key = Some n /\ now < n_ExpiresAt n).
Proof.
  intros c c' He Hg.
  assert (store_inv c) as Hc by (apply (run_refines os), New_inv).
  assert (neg_keyed c) as Hk by (apply neg_keyed_run; intros k n; cbn; by rewrite lookup_empty).
  destruct (Persist_keys c els negs Hc Hk He Hg) as (Hp & N1 & N2).
  pose proof (New_entries opts') as Hm.
  destruct (Load_snapshot_spec now (Persist_snapshot els negs c) (New opts') Hm N1 N2) as (I1 & I2 & I3 & I4).
  fold c' in I1, I2, I3, I4. assert (c_maxEntries c' = c_maxEntries (New opts')) as Em by (by apply (f_equal (fun x => x.1.1.1.1)) in I2).
  clear I2.
  cbn [Persist_snapshot fst] in I3. rewrite omap_reload in I3.
  set (old := map (elem c) els) in *. set (new := omap (reload now) old) in *.
  assert (old ≡ₚ abs_list c) as Ho by (unfold old, abs_list; by rewrite Hp).
  assert (NoDup (map e_key old)) as Hnd by (rewrite Ho; by apply abs_keys).
  assert (forall x y, reload now x = Some y -> e_key y = e_key x) as Hr.
  { intros x y H. by apply reload_restored in H as [[] _]. }
  ands.
  - done.
  - unfold len. rewrite <- length_abs, I3, length_take by done. lia.
  - intros key e' [Hin Hkey]%find_key_sound. rewrite I3 in Hin.
    assert (e' ∈ new) as Hin' by (rewrite <- (take_drop (Z.to_nat (c_maxEntries (New opts'))) new); apply elem_of_app; by left).
    apply list_elem_of_omap in Hin' as (e & Hin' & E). exists e.
    destruct (reload_restored _ _ _ E) as [H1 H2]. split; [|done].
    apply find_key_in; [by apply abs_keys|by rewrite <- Ho|]. by rewrite <- (Hr _ _ E).
  - intros Hlen key e m1 wire Hf Hn Hmo Henc.
    destruct (restored_loads now e m1 wire Hn Hmo Henc) as (e' & E & H1 & H2).
    assert (find_key key (abs_list c') = Some e') as Hf'.
    { rewrite I3, take_ge.
      - apply (find_key_omap (reload now) key old e e'); [done..| |done].
        apply find_key_sound in Hf as [Hf1 Hf2]. by apply find_key_in; [|rewrite Ho|].
      - unfold new. assert (length (omap (reload now) old) <= length old)%nat as Hle by apply omap_le.
        assert (length old = length (c_lru c)) as El by (unfold old; rewrite length_map; by rewrite Hp).
        unfold len in Hlen. lia. }
    exists e'. ands; try done. intros Hfresh. apply Get_find; [done|done|]. by rewrite (rs_expires _ _ H1).
  - intros key n. rewrite I4. cbn [Persist_snapshot snd]. rewrite Hg, list_elem_of_fmap. split.
    + intros ((p & -> & Hin) & Hkey & Hn). destruct p as [k n']. cbn [snd] in *.
      apply elem_of_map_to_list in Hin. rewrite (Hk _ _ Hin) in Hkey. by subst.
    + intros [Hl Hn]. ands; [|by apply Hk|done]. exists (key, n). by rewrite elem_of_map_to_list.
Qed.
End load.

(** *** One answer and two denials, one of which will have expired *)

Definition before_restart : Cache :=
  (run (step (U := latin1))
     [OSet 0 "www.example.com.|1" (Some sample_message) Hour; OSetNegative 0 "a|1" 3 Minute "";
      OSetNegative 0 "b|1" 3 Hour ""] (New (mkOptions 0 0 0 0 0 false))).2.

Definition after_restart : Cache :=
  Load_snapshot (U := latin1) (2 * Minute)
    (Persist_snapshot (U := latin1) (map_to_list (c_items before_restart)).*2
       (map_to_list (c_negative before_restart)).*2 before_restart) (New (mkOptions 1 0 0 0 0 false)).

Lemma clone_ok : message_ok (cloneMessage (U := latin1) sample_message).
Proof.
  set (m := cloneMessage _). vm_compute in m. subst m.
  assert (forall n t c ttl d raw, all_ascii n = true -> is_u16 t -> is_u16 c -> is_u32 ttl ->
    recordType d = t -> rdata_ok d -> opt_matches (mkRR n t c ttl (Some d) raw) d ->
    record_ok (mkRR n t c ttl (Some d) raw)) as Hr.
  { intros. unfold record_ok. cbn. eauto 10. }
  split; cbn; repeat (apply Forall_cons; split); try apply Forall_nil; try (apply Hr; done).
  all: done.
Qed.

(** ** Two entries with one key

    The keys go through JSON strings, in which every byte that is not UTF-8
    becomes U+FFFD, so two keys of a cache can be one key of the file.  The keys of
    the resolver are valid, but a file from elsewhere may repeat one, too.
    Both entries are loaded, the index finds one of them, and the limit counts
    both. *)
Theorem Load_duplicate_keys :
  let it := mkSnapshotEntry "k" (map byte_of_Z [0; 0; 128; 0; 0; 0; 0; 0; 0; 0; 0; 0]) Hour Hour "" 0 0 Hour in
  let c := Load_snapshot (U := latin1) 0 ([it; it], []) (New (mkOptions 0 0 0 0 0 false)) in
  len (c_lru c) = 2 /\ size (c_items c) = 1%nat /\ ~ store_inv c.
Proof.
  intros it c. split; [vm_compute; reflexivity|]. split; [vm_compute; reflexivity|]. intros [_ H _ _].
  pose proof (H 0%nat ltac:(vm_compute; by left)) as H0. vm_compute in H0. discriminate H0.
Qed.
