(* ===== verification/CacheFile.v ===== *)
(** * internal/cache/cache.go: the text of the cache file.

    [json.MarshalIndent] of a snapshot, and [json.Unmarshal] of any bytes into one.
    A time is its instant: one that a file gives with an offset is kept and written
    in UTC.  The texts of the errors are left out. *)

From S2P Require Import Prelude.
From S2P Require Import GoStrings.
From S2P Require Import GoTime.
From S2P Require Import GoNet.
From S2P Require Import GoParse.
From S2P Require Import GoBase64.
From S2P Require Import Protocol.
From S2P Require Import Cache.
From S2P Require Import Names.
From S2P Require Import GoJson.
From S2P Require Import JsonText.
From S2P Require Import GoDate.

#[local] Open Scope go_scope.

Record cacheSnapshot := mkSnapshot {
  sp_SavedAt : Z; sp_Entries : list snapshotEntry; sp_Negative : list NegativeEntry
}.

(** ** Writing *)

(** A time, which is an error for a year that RFC 3339 cannot write. *)
Definition time_value (t : Z) : option jvalue := JString <$> time_text t.

Definition entry_value (it : snapshotEntry) : option jvalue :=
  expires ← time_value (s_ExpiresAt it); stale ← time_value (s_StaleUntil it);
  good ← time_value (s_LastGoodAt it);
  Some (JObject ([("key" : bytes, JString (s_Key it)); ("wire" : bytes, JBytes (s_Wire it));
      ("expires_at" : bytes, expires); ("stale_until" : bytes, stale)]
    ++ unless (bool_decide (s_LastGoodWire it = "")) "last_good_wire" (JBytes (s_LastGoodWire it))
    ++ [("last_good_at" : bytes, good); ("hits" : bytes, JInt (s_Hits it));
        ("original_ttl" : bytes, JInt (s_OriginalTTL it))])).

Definition negative_value (n : NegativeEntry) : option jvalue :=
  expires ← time_value (n_ExpiresAt n);
  Some (JObject ([("key" : bytes, JString (n_Key n)); ("rcode" : bytes, JInt (n_RCode n));
      ("expires_at" : bytes, expires)]
    ++ string_field "soa" (n_SOA n))).

Definition snapshot_value (snap : cacheSnapshot) : option jvalue :=
  saved ← time_value (sp_SavedAt snap); entries ← mapM entry_value (sp_Entries snap);
  negative ← mapM negative_value (sp_Negative snap);
  Some (JObject [("saved_at" : bytes, saved); ("entries" : bytes, JArray entries); ("negative" : bytes, JArray negative)]).

Definition MarshalIndent_snapshot (snap : cacheSnapshot) : option bytes := MarshalIndent <$> snapshot_value snap.

(** ** Reading

    A decoder changes the value that is there already: a member that occurs twice is
    decoded twice, and null changes no string, number, time or struct. *)

Definition decode_string (r : raw) (s : bytes) : option bytes :=
  match r with RNull => Some s | RString _ t => Some t | _ => None end.

Definition decode_int (r : raw) (n : Z) : option Z :=
  match r with RNull => Some n | RNumber t => Atoi t | _ => None end.

Definition decode_uint8 (r : raw) (n : Z) : option Z :=
  match r with
  | RNull => Some n
  | RNumber t => if HasPrefix t "-" then None else v ← Atoi t; if v <=? 255 then Some v else None
  | _ => None
  end.

(** [Time.UnmarshalJSON], which reads the text as it is written. *)
Definition decode_time (r : raw) (t : Z) : option Z :=
  match r with RNull => Some t | RString text _ => parse_RFC3339 text | _ => None end.

(** The elements of a slice, and those of its array after them, which the decoder
    finds again when the slice grows over them. *)
Record slice (A : Type) := mkSlice { visible : list A; behind : list A }.
Arguments mkSlice {A}.
Arguments visible {A}.
Arguments behind {A}.
Definition nil_slice {A} : slice A := mkSlice [] [].

Fixpoint decode_elements {A} (decode : raw -> A -> option A) (zero : A) (l : list raw) (old : list A) : option (list A) :=
  match l with
  | [] => Some []
  | r :: l => x ← decode r (hd zero old); k ← decode_elements decode zero l (tl old); Some (x :: k)
  end.

Definition decode_slice {A} (decode : raw -> A -> option A) (zero : A) (r : raw) (s : slice A) : option (slice A) :=
  match r with
  | RNull | RArray [] => Some nil_slice
  | RArray l =>
      let old := visible s ++ behind s in
      new ← decode_elements decode zero l old; Some (mkSlice new (drop (length l) old))
  | _ => None
  end.

(** A byte slice is a text in base64 or an array of numbers. *)
Definition decode_bytes (r : raw) (s : slice byte) : option (slice byte) :=
  match r with
  | RString _ t => b ← StdDecodeString t; Some (mkSlice b [])
  | _ => decode_slice (fun r c => byte_of_Z <$> decode_uint8 r (Z_of_byte c)) "000"%char r s
  end.

(** A struct, [field] for each member of the text. *)
Definition decode_object {A} (field : bytes -> raw -> A -> option A) (r : raw) (x : A) : option A :=
  match r with
  | RNull => Some x
  | RObject l => foldl (fun x kv => x ← x; field kv.1 kv.2 x) (Some x) l
  | _ => None
  end.

(** Member names are compared without case, where the long s and the sign of the
    kelvin are an s and a k. *)
Definition fold_rune (r : Z) : Z :=
  if (97 <=? r) && (r <=? 122) then r - 32
  else if r =? 0x17f then 83 else if r =? 0x212a then 75 else r.
Definition same_field (name key : bytes) : bool :=
  bool_decide (map fold_rune (runes name) = map fold_rune (runes key)).

(** *** The structs of the file *)

Record file_entry := mkFileEntry {
  fe_Key : bytes; fe_Wire : slice byte; fe_ExpiresAt : Z; fe_StaleUntil : Z;
  fe_LastGoodWire : slice byte; fe_LastGoodAt : Z; fe_Hits : Z; fe_OriginalTTL : Z
}.
Definition zero_entry : file_entry := mkFileEntry "" nil_slice time_zero time_zero nil_slice time_zero 0 0.

Definition entry_field (key : bytes) (r : raw) (e : file_entry) : option file_entry :=
  let '(mkFileEntry k w x s lw la h ttl) := e in
  if same_field "key" key then (fun k => mkFileEntry k w x s lw la h ttl) <$> decode_string r k
  else if same_field "wire" key then (fun w => mkFileEntry k w x s lw la h ttl) <$> decode_bytes r w
  else if same_field "expires_at" key then (fun x => mkFileEntry k w x s lw la h ttl) <$> decode_time r x
  else if same_field "stale_until" key then (fun s => mkFileEntry k w x s lw la h ttl) <$> decode_time r s
  else if same_field "last_good_wire" key then (fun lw => mkFileEntry k w x s lw la h ttl) <$> decode_bytes r lw
  else if same_field "last_good_at" key then (fun la => mkFileEntry k w x s lw la h ttl) <$> decode_time r la
  else if same_field "hits" key then (fun h => mkFileEntry k w x s lw la h ttl) <$> decode_int r h
  else if same_field "original_ttl" key then mkFileEntry k w x s lw la h <$> decode_int r ttl
  else Some e.

Definition zero_negative : NegativeEntry := mkNegativeEntry "" 0 time_zero "".

Definition negative_field (key : bytes) (r : raw) (n : NegativeEntry) : option NegativeEntry :=
  let '(mkNegativeEntry k rc x soa) := n in
  if same_field "key" key then (fun k => mkNegativeEntry k rc x soa) <$> decode_string r k
  else if same_field "rcode" key then (fun rc => mkNegativeEntry k rc x soa) <$> decode_uint8 r rc
  else if same_field "expires_at" key then (fun x => mkNegativeEntry k rc x soa) <$> decode_time r x
  else if same_field "soa" key then mkNegativeEntry k rc x <$> decode_string r soa
  else Some n.

Record file_snapshot := mkFileSnapshot {
  fs_SavedAt : Z; fs_Entries : slice file_entry; fs_Negative : slice NegativeEntry
}.

Definition snapshot_field (key : bytes) (r : raw) (f : file_snapshot) : option file_snapshot :=
  let '(mkFileSnapshot t es ns) := f in
  if same_field "saved_at" key then (fun t => mkFileSnapshot t es ns) <$> decode_time r t
  else if same_field "entries" key then
    (fun es => mkFileSnapshot t es ns) <$> decode_slice (decode_object entry_field) zero_entry r es
  else if same_field "negative" key then
    mkFileSnapshot t es <$> decode_slice (decode_object negative_field) zero_negative r ns
  else Some f.

Definition entry_of (e : file_entry) : snapshotEntry :=
  mkSnapshotEntry (fe_Key e) (visible (fe_Wire e)) (fe_ExpiresAt e) (fe_StaleUntil e)
    (visible (fe_LastGoodWire e)) (fe_LastGoodAt e) (fe_Hits e) (fe_OriginalTTL e).
Definition snapshot_of (f : file_snapshot) : cacheSnapshot :=
  mkSnapshot (fs_SavedAt f) (map entry_of (visible (fs_Entries f))) (visible (fs_Negative f)).

(** [json.Unmarshal] into a new snapshot: one value and white space. *)
Definition Unmarshal_snapshot (data : bytes) : option cacheSnapshot :=
  '(r, rest) ← read_value (S (length data)) 0 data;
  if bool_decide (skip_space rest = []) then
    snapshot_of <$> decode_object snapshot_field r (mkFileSnapshot time_zero nil_slice nil_slice)
  else None.

(** ** A file *)

Definition sample_snapshot : cacheSnapshot :=
  mkSnapshot (1704067200 * Second)
    [mkSnapshotEntry "a.example.|A" "wire" (1704067500 * Second + 5) (1704070800 * Second) "" time_zero 3 (300 * Second)]
    [mkNegativeEntry "b.example.|A" 3 (1704067260 * Second) ""].

Definition line (depth : nat) (s : bytes) : bytes := newline_indent depth ++ s.

Example MarshalIndent_snapshot_example :
  MarshalIndent_snapshot sample_snapshot
  = Some ("{" ++ line 1 (quoted "saved_at" ++ ": " ++ quoted "2024-01-01T00:00:00Z" ++ ",")
      ++ line 1 (quoted "entries" ++ ": [") ++ line 2 "{"
      ++ line 3 (quoted "key" ++ ": " ++ quoted "a.example.|A" ++ ",") ++ line 3 (quoted "wire" ++ ": " ++ quoted "d2lyZQ==" ++ ",")
      ++ line 3 (quoted "expires_at" ++ ": " ++ quoted "2024-01-01T00:05:00.000000005Z" ++ ",")
      ++ line 3 (quoted "stale_until" ++ ": " ++ quoted "2024-01-01T01:00:00Z" ++ ",")
      ++ line 3 (quoted "last_good_at" ++ ": " ++ quoted "0001-01-01T00:00:00Z" ++ ",")
      ++ line 3 (quoted "hits" ++ ": 3,") ++ line 3 (quoted "original_ttl" ++ ": 300000000000") ++ line 2 "}" ++ line 1 "],"
      ++ line 1 (quoted "negative" ++ ": [") ++ line 2 "{"
      ++ line 3 (quoted "key" ++ ": " ++ quoted "b.example.|A" ++ ",") ++ line 3 (quoted "rcode" ++ ": 3,")
      ++ line 3 (quoted "expires_at" ++ ": " ++ quoted "2024-01-01T00:01:00Z") ++ line 2 "}" ++ line 1 "]" ++ line 0 "}").
Proof. vm_compute. reflexivity. Qed.

(** Names of members in any case, unknown members, null, an array of bytes, and
    members that occur twice: elements are decoded over those that are there. *)
Definition obj (l : list (bytes * bytes)) : bytes := "{" ++ Join (map (fun kv => quoted kv.1 ++ ":" ++ kv.2) l) "," ++ "}".
Example Unmarshal_snapshot_examples :
  Unmarshal_snapshot (obj [("Entries", "[" ++ obj [("KEY", quoted "x"); ("wire", "[1,null,255]"); ("hits", "-7"); ("other", "1e999")] ++ "]")] ++ " ")
    = Some (mkSnapshot time_zero [mkSnapshotEntry "x" (map byte_of_Z [1; 0; 255]) time_zero time_zero "" time_zero (-7) 0] [])
  /\ Unmarshal_snapshot (obj [("negative", "[" ++ obj [("key", quoted "x"); ("rcode", "3")] ++ "," ++ obj [("rcode", "2")] ++ "]");
                              ("negative", "[" ++ obj [("soa", quoted "s")] ++ "]"); ("negative", "[null,null,null]")])
    = Some (mkSnapshot time_zero [] [mkNegativeEntry "x" 3 time_zero "s"; mkNegativeEntry "" 2 time_zero ""; zero_negative])
  /\ Unmarshal_snapshot "null" = Some (mkSnapshot time_zero [] [])
  /\ map Unmarshal_snapshot [""; "[]"; "{} {}"; obj [("entries", "{}")]; obj [("saved_at", "1")]; obj [("saved_at", quoted "yesterday")];
       obj [("entries", "[" ++ obj [("wire", quoted "d2l")] ++ "]")]; obj [("negative", "[" ++ obj [("rcode", "256")] ++ "]")];
       obj [("entries", "[" ++ obj [("hits", "1.0")] ++ "]")]]
     = repeat None 9.
Proof. vm_compute. ands; reflexivity. Qed.

(** ** A written file is read back *)

(** The fields have their types: [int], [time.Duration] and [uint8]. *)
Definition entry_typed (it : snapshotEntry) : Prop :=
  MinInt64 <= s_Hits it <= MaxInt64 /\ MinInt64 <= s_OriginalTTL it <= MaxInt64.
Definition negative_typed (n : NegativeEntry) : Prop := 0 <= n_RCode n <= 255.
Definition snapshot_typed (snap : cacheSnapshot) : Prop :=
  Forall entry_typed (sp_Entries snap) /\ Forall negative_typed (sp_Negative snap).

(** What is read: the texts made valid UTF-8. *)
Definition valid_entry (it : snapshotEntry) : snapshotEntry :=
  mkSnapshotEntry (to_valid (s_Key it)) (s_Wire it) (s_ExpiresAt it) (s_StaleUntil it) (s_LastGoodWire it)
    (s_LastGoodAt it) (s_Hits it) (s_OriginalTTL it).
Definition valid_negative (n : NegativeEntry) : NegativeEntry :=
  mkNegativeEntry (to_valid (n_Key n)) (n_RCode n) (n_ExpiresAt n) (to_valid (n_SOA n)).
Definition valid_snapshot (snap : cacheSnapshot) : cacheSnapshot :=
  mkSnapshot (sp_SavedAt snap) (map valid_entry (sp_Entries snap)) (map valid_negative (sp_Negative snap)).

(** *** Numbers, times and bytes *)

Lemma Atoi_int n : MinInt64 <= n <= MaxInt64 -> Atoi (json_int n) = Some n.
Proof.
  intros Hn. assert (0 <= Z.abs n < 10 ^ 20) as Ha by (unfold MinInt64, MaxInt64 in *; lia).
  assert (digits (itoa (Z.abs n)) /\ itoa (Z.abs n) <> "") as [Hd Hne].
  { split; [apply itoa_loop_digits; [by constructor|lia]|]. destruct (itoa_text (Z.abs n) Ha) as [[_ ->]|(_ & c & d & -> & _)]; done. }
  assert (forallb is_digit (itoa (Z.abs n)) = true) as Hf.
  { apply forallb_forall. intros c Hc%list_elem_of_In. unfold digits in Hd. rewrite Forall_forall in Hd. by apply Hd. }
  unfold Atoi, Atoi_err. rewrite json_int_sign.
  assert (parse_sign ((if n <? 0 then "-" else "") ++ itoa (Z.abs n)) = (n <? 0, itoa (Z.abs n))) as ->.
  { destruct (n <? 0); [done|]. cbn [app]. destruct (itoa (Z.abs n)) as [|c k]; [done|].
    apply Forall_cons in Hd as [Hc _]. by destruct c as [[] [] [] [] [] [] [] []]. }
  rewrite Hf, itoa_value, (bool_decide_eq_false_2 _ Hne) by done. cbn [orb negb].
  assert ((if n <? 0 then - Z.abs n else Z.abs n) = n) as -> by (destruct (n <? 0) eqn:E; lia).
  replace (n <? MinInt64) with false by lia. by replace (MaxInt64 <? n) with false by lia.
Qed.

Lemma decode_written_int n x : MinInt64 <= n <= MaxInt64 -> decode_int (raw_of (JInt n)) x = Some n.
Proof. apply Atoi_int. Qed.

Lemma decode_written_uint8 n x : 0 <= n <= 255 -> decode_uint8 (raw_of (JInt n)) x = Some n.
Proof.
  intros Hn. cbn [raw_of decode_uint8].
  assert (HasPrefix (json_int n) "-" = false) as ->.
  { rewrite json_int_sign. replace (n <? 0) with false by lia.
    destruct (itoa_text (Z.abs n) ltac:(lia)) as [[_ ->]|(_ & c & d & -> & _ & Hd & _)]; [done|].
    apply Forall_cons in Hd as [Hc _]. by destruct c as [[] [] [] [] [] [] [] []]. }
  rewrite Atoi_int by (unfold MinInt64, MaxInt64; lia). cbn [mbind option_bind]. by replace (n <=? 255) with true by lia.
Qed.

Lemma time_value_spec t v : time_value t = Some v ->
  writable v = true /\ height v = 0 /\ forall x, decode_time (raw_of v) x = Some t.
Proof.
  unfold time_value. intros (s & Hs & ->)%fmap_Some. ands; [done..|]. intros x. cbn [raw_of decode_time].
  rewrite (time_text_escape t s) by done. by apply time_text_reads.
Qed.

Lemma decode_written_bytes s : decode_bytes (raw_of (JBytes s)) nil_slice = Some (mkSlice s []).
Proof.
  unfold JBytes. case_bool_decide as H; [by subst|]. cbn [raw_of decode_bytes].
  rewrite to_valid_ascii, Std_roundtrip; [done|]. unfold all_ascii. apply forallb_forall.
  intros c Hc%list_elem_of_In. by apply StdEncode_plain in Hc as [_ ->].
Qed.

Lemma writable_JBytes s : writable (JBytes s) = true /\ height (JBytes s) = 0.
Proof. unfold JBytes. by bcase. Qed.

(** *** Slices *)

Lemma decode_elements_new {A} (decode : raw -> A -> option A) zero l xs :
  Forall2 (fun r x => decode r zero = Some x) l xs -> decode_elements decode zero l [] = Some xs.
Proof.
  induction 1 as [|r x l xs Hr _ IH]; [done|]. cbn [decode_elements hd tl]. rewrite Hr. cbn [mbind option_bind]. by rewrite IH.
Qed.

Lemma decode_slice_new {A} (decode : raw -> A -> option A) zero l xs :
  Forall2 (fun r x => decode r zero = Some x) l xs -> decode_slice decode zero (RArray l) nil_slice = Some (mkSlice xs []).
Proof.
  intros H. destruct H as [|r x l xs Hr H]; [done|].
  change (decode_slice decode zero (RArray (r :: l)) nil_slice)
    with (new ← decode_elements decode zero (r :: l) []; Some (mkSlice new (drop (length (r :: l)) ([] : list A)))).
  by rewrite (decode_elements_new _ _ _ (x :: xs)) by by constructor.
Qed.

(** *** Structs *)

Definition file_entry_of (it : snapshotEntry) : file_entry :=
  mkFileEntry (s_Key it) (mkSlice (s_Wire it) []) (s_ExpiresAt it) (s_StaleUntil it) (mkSlice (s_LastGoodWire it) [])
    (s_LastGoodAt it) (s_Hits it) (s_OriginalTTL it).

Lemma entry_of_file_entry it : entry_of (file_entry_of it) = it.
Proof. by destruct it. Qed.

(** A member after the others. *)
Lemma decode_members {A} (field : bytes -> raw -> A -> option A) key r l x y :
  field key r x = Some y -> foldl (fun x kv => x ← x; field kv.1 kv.2 x) (Some x) ((key, r) :: l)
  = foldl (fun x kv => x ← x; field kv.1 kv.2 x) (Some y) l.
Proof. intros E. cbn [foldl mbind option_bind fst snd]. by rewrite E. Qed.

Section entry_members.
Context (r : raw) (k : bytes) (w : slice byte) (x s : Z) (lw : slice byte) (la h ttl : Z).
Local Abbreviation e := (mkFileEntry k w x s lw la h ttl) (only parsing).

Lemma entry_field_key t :
  entry_field (to_valid "key") (raw_of (JString t)) e = Some (mkFileEntry (to_valid t) w x s lw la h ttl).
Proof. reflexivity. Qed.
Lemma entry_field_wire : entry_field (to_valid "wire") r e = (fun w => mkFileEntry k w x s lw la h ttl) <$> decode_bytes r w.
Proof. reflexivity. Qed.
Lemma entry_field_expires : entry_field (to_valid "expires_at") r e = (fun x => mkFileEntry k w x s lw la h ttl) <$> decode_time r x.
Proof. reflexivity. Qed.
Lemma entry_field_stale : entry_field (to_valid "stale_until") r e = (fun s => mkFileEntry k w x s lw la h ttl) <$> decode_time r s.
Proof. reflexivity. Qed.
Lemma entry_field_good : entry_field (to_valid "last_good_wire") r e = (fun lw => mkFileEntry k w x s lw la h ttl) <$> decode_bytes r lw.
Proof. reflexivity. Qed.
Lemma entry_field_good_at : entry_field (to_valid "last_good_at") r e = (fun la => mkFileEntry k w x s lw la h ttl) <$> decode_time r la.
Proof. reflexivity. Qed.
Lemma entry_field_hits : entry_field (to_valid "hits") r e = (fun h => mkFileEntry k w x s lw la h ttl) <$> decode_int r h.
Proof. reflexivity. Qed.
Lemma entry_field_ttl : entry_field (to_valid "original_ttl") r e = (fun ttl => mkFileEntry k w x s lw la h ttl) <$> decode_int r ttl.
Proof. reflexivity. Qed.
End entry_members.

Lemma entry_value_spec it v : entry_value it = Some v -> entry_typed it ->
  writable v = true /\ height v <= 1 /\ decode_object entry_field (raw_of v) zero_entry = Some (file_entry_of (valid_entry it)).
Proof.
  unfold entry_value. intros H [Hh Ht].
  destruct (time_value (s_ExpiresAt it)) as [ve|] eqn:Ee; [|done]. destruct (time_value (s_StaleUntil it)) as [vs|] eqn:Es; [|done].
  destruct (time_value (s_LastGoodAt it)) as [vg|] eqn:Eg; [|done]. cbn [mbind option_bind] in H. apply (inj Some) in H as <-.
  apply time_value_spec in Ee as (We & He & De), Es as (Ws & Hs & Ds), Eg as (Wg & Hg & Dg).
  destruct (writable_JBytes (s_Wire it)) as [Ww Hw]. destruct (writable_JBytes (s_LastGoodWire it)) as [Wl Hl].
  assert (writable (JInt (s_Hits it)) = true /\ writable (JInt (s_OriginalTTL it)) = true) as [Wh Wt]
    by (unfold MinInt64, MaxInt64 in *; cbn [ints_below]; lia).
  destruct it as [k w x s lw la h ttl]. cbn [s_Key s_Wire s_ExpiresAt s_StaleUntil s_LastGoodWire s_LastGoodAt s_Hits s_OriginalTTL] in *.
  unfold unless. split; [|split].
  - case_bool_decide; cbn [ints_below forallb app snd] in *; by rewrite ?Ww, ?We, ?Ws, ?Wl, ?Wg, ?Wh, ?Wt.
  - case_bool_decide; cbn [height map app snd foldr]; rewrite ?He, ?Hs, ?Hg, ?Hw, ?Hl; cbn; lia.
  - cbn [raw_of decode_object]. rewrite !map_app. cbn [map fst snd app].
    unfold zero_entry, valid_entry, file_entry_of.
    cbn [s_Key s_Wire s_ExpiresAt s_StaleUntil s_LastGoodWire s_LastGoodAt s_Hits s_OriginalTTL].
    rewrite (decode_members _ _ _ _ _ _ (entry_field_key _ _ _ _ _ _ _ _ _)).
    erewrite decode_members by (rewrite entry_field_wire, decode_written_bytes; reflexivity).
    erewrite decode_members by (rewrite entry_field_expires, De; reflexivity).
    erewrite decode_members by (rewrite entry_field_stale, Ds; reflexivity).
    case_bool_decide as Hlw; cbn [map app fst snd];
      [subst lw|erewrite decode_members by (rewrite entry_field_good, decode_written_bytes; reflexivity)];
      (erewrite decode_members by (rewrite entry_field_good_at, Dg; reflexivity));
      (erewrite decode_members by (rewrite entry_field_hits, (decode_written_int h) by done; reflexivity));
      by (erewrite decode_members by (rewrite entry_field_ttl, (decode_written_int ttl) by done; reflexivity)).
Qed.

Section negative_members.
Context (r : raw) (k : bytes) (rc x : Z) (soa : bytes).
Local Abbreviation n := (mkNegativeEntry k rc x soa) (only parsing).

Lemma negative_field_key t : negative_field (to_valid "key") (raw_of (JString t)) n = Some (mkNegativeEntry (to_valid t) rc x soa).
Proof. reflexivity. Qed.
Lemma negative_field_rcode : negative_field (to_valid "rcode") r n = (fun rc => mkNegativeEntry k rc x soa) <$> decode_uint8 r rc.
Proof. reflexivity. Qed.
Lemma negative_field_expires : negative_field (to_valid "expires_at") r n = (fun x => mkNegativeEntry k rc x soa) <$> decode_time r x.
Proof. reflexivity. Qed.
Lemma negative_field_soa t : negative_field (to_valid "soa") (raw_of (JString t)) n = Some (mkNegativeEntry k rc x (to_valid t)).
Proof. reflexivity. Qed.
End negative_members.

Lemma negative_value_spec n v : negative_value n = Some v -> negative_typed n ->
  writable v = true /\ height v <= 1 /\ decode_object negative_field (raw_of v) zero_negative = Some (valid_negative n).
Proof.
  unfold negative_value, negative_typed. intros H Hr.
  destruct (time_value (n_ExpiresAt n)) as [ve|] eqn:Ee; [|done]. cbn [mbind option_bind] in H. apply (inj Some) in H as <-.
  apply time_value_spec in Ee as (We & He & De). assert (writable (JInt (n_RCode n)) = true) as Wr by (cbn [ints_below]; lia).
  destruct n as [k rc x soa]. cbn [n_Key n_RCode n_ExpiresAt n_SOA] in *. unfold string_field, unless. split; [|split].
  - case_bool_decide; cbn [ints_below forallb app snd] in *; by rewrite ?Wr, ?We.
  - case_bool_decide; cbn [height map app snd foldr]; rewrite He; cbn; lia.
  - cbn [raw_of decode_object]. rewrite !map_app. cbn [map fst snd app].
    unfold zero_negative, valid_negative. cbn [n_Key n_RCode n_ExpiresAt n_SOA].
    rewrite (decode_members _ _ _ _ _ _ (negative_field_key _ _ _ _ _)).
    erewrite decode_members by (rewrite negative_field_rcode, (decode_written_uint8 rc) by done; reflexivity).
    erewrite decode_members by (rewrite negative_field_expires, De; reflexivity).
    case_bool_decide as Hs; cbn [map fst snd]; [by subst|].
    by rewrite (decode_members _ _ _ _ _ _ (negative_field_soa _ _ _ _ _)).
Qed.

(** The values of a list, each with the properties of its own. *)
Lemma values_spec_list {A B} (value : A -> option jvalue) (field : bytes -> raw -> B -> option B) zero (typed : A -> Prop) (result : A -> B) l vs :
  (forall x v, value x = Some v -> typed x ->
     writable v = true /\ height v <= 1 /\ decode_object field (raw_of v) zero = Some (result x)) ->
  mapM value l = Some vs -> Forall typed l ->
  writable (JArray vs) = true /\ height (JArray vs) <= 2
  /\ decode_slice (decode_object field) zero (raw_of (JArray vs)) nil_slice = Some (mkSlice (map result l) []).
Proof.
  intros Hspec HM%mapM_Some Ht.
  assert (Forall (fun v => writable v = true /\ height v <= 1) vs
    /\ Forall2 (fun r x => decode_object field r zero = Some x) (map raw_of vs) (map result l)) as [F1 F2].
  { induction HM as [|x v l vs Hv _ IH]; [by split; constructor|]. apply Forall_cons in Ht as [Hx Ht].
    destruct (IH Ht) as [I1 I2]. destruct (Hspec x v Hv Hx) as (W & H & D). by split; constructor. }
  split; [|split].
  - cbn [ints_below]. apply forallb_forall. intros v Hv%list_elem_of_In. rewrite Forall_forall in F1. by apply F1.
  - clear F2 HM. cbn [height]. induction F1 as [|v vs [_ Hv] _ IH]; cbn [map foldr]; lia.
  - cbn [raw_of]. by apply decode_slice_new.
Qed.

Section snapshot_members.
Context (r : raw) (t : Z) (es : slice file_entry) (ns : slice NegativeEntry).
Local Abbreviation f := (mkFileSnapshot t es ns) (only parsing).

Lemma snapshot_field_saved : snapshot_field (to_valid "saved_at") r f = (fun t => mkFileSnapshot t es ns) <$> decode_time r t.
Proof. reflexivity. Qed.
Lemma snapshot_field_entries : snapshot_field (to_valid "entries") r f
  = (fun es => mkFileSnapshot t es ns) <$> decode_slice (decode_object entry_field) zero_entry r es.
Proof. reflexivity. Qed.
Lemma snapshot_field_negative : snapshot_field (to_valid "negative") r f
  = (fun ns => mkFileSnapshot t es ns) <$> decode_slice (decode_object negative_field) zero_negative r ns.
Proof. reflexivity. Qed.
End snapshot_members.

Lemma snapshot_value_spec snap v : snapshot_value snap = Some v -> snapshot_typed snap ->
  writable v = true /\ height v <= 3
  /\ snapshot_of <$> decode_object snapshot_field (raw_of v) (mkFileSnapshot time_zero nil_slice nil_slice)
     = Some (valid_snapshot snap).
Proof.
  unfold snapshot_value. intros H [He Hn].
  destruct (time_value (sp_SavedAt snap)) as [vt|] eqn:Et; [|done].
  destruct (mapM entry_value (sp_Entries snap)) as [ves|] eqn:Ee; [|done].
  destruct (mapM negative_value (sp_Negative snap)) as [vns|] eqn:En; [|done].
  cbn [mbind option_bind] in H. apply (inj Some) in H as <-. apply time_value_spec in Et as (Wt & Ht & Dt).
  destruct (values_spec_list _ _ _ _ (fun it => file_entry_of (valid_entry it)) _ _ entry_value_spec Ee He) as (We & Hhe & De).
  destruct (values_spec_list _ _ _ _ _ _ _ negative_value_spec En Hn) as (Wn & Hhn & Dn).
  split; [|split].
  - cbn [ints_below forallb snd] in *. by rewrite Wt, We, Wn.
  - cbn [height map snd foldr] in *. lia.
  - change (raw_of (JObject ?l)) with (RObject (map (fun kv => (to_valid kv.1, raw_of kv.2)) l)).
    cbn [decode_object map fst snd].
    erewrite decode_members by (rewrite snapshot_field_saved, Dt; reflexivity).
    erewrite decode_members by (rewrite snapshot_field_entries, De; reflexivity).
    erewrite decode_members by (rewrite snapshot_field_negative, Dn; reflexivity).
    cbn [foldl fmap option_fmap option_map]. unfold snapshot_of, valid_snapshot.
    cbn [fs_SavedAt fs_Entries fs_Negative visible]. by rewrite map_map.
Qed.

(** A snapshot that is written is read back, its texts made valid UTF-8. *)
Lemma Unmarshal_written snap data : MarshalIndent_snapshot snap = Some data -> snapshot_typed snap ->
  Unmarshal_snapshot data = Some (valid_snapshot snap).
Proof.
  unfold MarshalIndent_snapshot. intros (v & Hv & ->)%fmap_Some Ht. destruct (snapshot_value_spec snap v Hv Ht) as (W & H & D).
  unfold Unmarshal_snapshot. rewrite read_MarshalIndent by (done || lia). cbn [mbind option_bind skip_space].
  by rewrite bool_decide_eq_true_2.
Qed.

(** The resolver's keys are valid already. *)
Lemma cacheKey_valid `{UnicodeTables} qname qtype : 0 <= qtype -> to_valid (cacheKey qname qtype) = cacheKey qname qtype.
Proof.
  intros Hq. apply to_valid_ToLower. rewrite all_ascii_app. cbn [andb]. apply andb_true_iff. split; [done|].
  unfold TypeToString. repeat (bcase; [done|]). rewrite all_ascii_app. apply andb_true_iff. split; [done|].
  unfold all_ascii. apply forallb_forall. intros c Hc%list_elem_of_In. apply itoa_digits in Hc; [|done]. unfold is_ascii. lia.
Qed.
