(* ===== verification/Persist.v ===== *)
(** * internal/cache/cache.go: writing the cache file, with failures and crashes.

    [Persist] is a program of system calls.  A call may fail, and the process may be
    stopped in the middle of one: writing a file may then leave any part of it, while
    a rename happens or does not.  The program never syncs the file, so nothing is
    said of a machine that loses its power.  A restart is a [Persist] that succeeds
    and a [Load] of the file it left. *)

From S2P Require Import Prelude.
From S2P Require Import GoStrings.
From S2P Require Import GoTime.
From S2P Require Import GoPath.
From S2P Require Import Cache.
From S2P Require Import CacheSpec.
From S2P Require Import CacheRefine.
From S2P Require Import CacheProps.
From S2P Require Import CacheContract.
From S2P Require Import CacheLoad.
From S2P Require Import Protocol.
From S2P Require Import Encoder.
From S2P Require Import WireRData.
From S2P Require Import WireRoundtrip.
From S2P Require Import JsonText.
From S2P Require Import CacheFile.

#[local] Open Scope go_scope.

(** ** Files *)

Abbreviation files := (gmap bytes bytes) (only parsing).

Inductive call := MkdirAll (dir : bytes) | WriteFile (path data : bytes) | Rename (from to : bytes).
Inductive outcome := Done | Failed (err : bytes) | Stopped.

(** What a call may do. *)
Inductive effect : call -> files -> outcome -> files -> Prop :=
| e_mkdir dir o fs : effect (MkdirAll dir) fs o fs
| e_write path data fs : effect (WriteFile path data) fs Done (<[path := data]> fs)
| e_write_untouched path data o fs : o <> Done -> effect (WriteFile path data) fs o fs
| e_write_part path data n o fs : o <> Done -> effect (WriteFile path data) fs o (<[path := take n data]> fs)
| e_rename from to data o fs :
    fs !! from = Some data -> (forall err, o <> Failed err) ->
    effect (Rename from to) fs o (<[to := data]> (delete from fs))
| e_rename_not from to o fs : o <> Done -> effect (Rename from to) fs o fs.

(** A program that ends with an error or none. *)
Inductive program := Return (err : option bytes) | Call (c : call) (k : option bytes -> program).

(** [runs p fs r fs']: [p] leaves the files [fs'] and returns [r], or is stopped. *)
Inductive runs : program -> files -> option (option bytes) -> files -> Prop :=
| r_return err fs : runs (Return err) fs (Some err) fs
| r_done c k fs fs1 r fs2 : effect c fs Done fs1 -> runs (k None) fs1 r fs2 -> runs (Call c k) fs r fs2
| r_failed c k err fs fs1 r fs2 : effect c fs (Failed err) fs1 -> runs (k (Some err)) fs1 r fs2 -> runs (Call c k) fs r fs2
| r_stopped c k fs fs1 : effect c fs Stopped fs1 -> runs (Call c k) fs None fs1
| r_not_started p fs : runs p fs None fs.

(** ** Persist *)

Section persist.
Context {U : UnicodeTables}.

(** The texts of the errors of the JSON encoder and decoder. *)
Context (marshal_error : cacheSnapshot -> bytes) (unmarshal_error : bytes -> bytes).

Definition tmp_path (persistPath : bytes) : bytes := persistPath ++ ".tmp".

(** The snapshot, with the maps ranged over as in [Persist_snapshot]. *)
Definition snapshot (now : Z) (els : list nat) (negs : list NegativeEntry) (c : Cache) : cacheSnapshot :=
  let '(entries, negative) := Persist_snapshot els negs c in mkSnapshot now entries negative.

Definition Persist (persistPath : bytes) (snap : cacheSnapshot) : program :=
  if bool_decide (persistPath = "") then Return None else
  match MarshalIndent_snapshot snap with
  | None => Return (Some ("marshal snapshot: " ++ marshal_error snap))
  | Some data =>
      let tmp := tmp_path persistPath in
      Call (MkdirAll (Dir persistPath)) (fun r =>
        let write :=
          Call (WriteFile tmp data) (fun r =>
            match r with
            | Some err => Return (Some ("write snapshot tmp: " ++ err))
            | None =>
                Call (Rename tmp persistPath) (fun r =>
                  match r with
                  | Some err => Return (Some ("rename snapshot: " ++ err))
                  | None => Return None
                  end)
            end) in
        match r with
        | Some err => if bool_decide (Dir persistPath = ".") then write
                      else Return (Some ("mkdir persist dir: " ++ err))
        | None => write
        end)
  end.

(** What [Load] reads. *)
Definition file_of (data : bytes) : snapshot_file :=
  match Unmarshal_snapshot data with
  | Some snap => Snapshot (sp_Entries snap) (sp_Negative snap)
  | None => Unreadable ("unmarshal snapshot: " ++ unmarshal_error data)
  end.
Definition read_snapshot (fs : files) (path : bytes) : snapshot_file :=
  match fs !! path with
  | None => NoFile
  | Some data => file_of data
  end.

(** ** Other programs and files *)

(** What a run may leave, if it changes [path] at all, beside [tmp]. *)
Definition atomic (path tmp data : bytes) (fs : files) (r : option (option bytes)) (fs' : files) : Prop :=
  (fs' !! path = fs !! path \/ fs' !! path = Some data)
  /\ (forall p, p <> path -> p <> tmp -> fs' !! p = fs !! p)
  /\ (r = Some None -> fs' !! path = Some data)
  /\ (forall err, r = Some (Some err) -> fs' !! path = fs !! path).

Lemma runs_return err fs r fs' : runs (Return err) fs r fs' -> fs' = fs /\ (r = Some err \/ r = None).
Proof. intros H. inversion H; subst; auto. Qed.

Lemma runs_call c k fs r fs' : runs (Call c k) fs r fs' ->
  (exists fs1, effect c fs Done fs1 /\ runs (k None) fs1 r fs')
  \/ (exists err fs1, effect c fs (Failed err) fs1 /\ runs (k (Some err)) fs1 r fs')
  \/ r = None /\ (effect c fs Stopped fs' \/ fs' = fs).
Proof. intros H. inversion H; subst; eauto 10. Qed.

Lemma effect_mkdir dir fs o fs' : effect (MkdirAll dir) fs o fs' -> fs' = fs.
Proof. intros H. by inversion H. Qed.

Lemma effect_write path data fs o fs' : effect (WriteFile path data) fs o fs' ->
  (o = Done -> fs' !! path = Some data) /\ forall p, p <> path -> fs' !! p = fs !! p.
Proof.
  intros H. inversion H; subst; split; try done; intros; rewrite ?lookup_insert_eq; try done; by rewrite lookup_insert_ne.
Qed.

Lemma effect_rename from to data fs o fs' : effect (Rename from to) fs o fs' -> fs !! from = Some data ->
  (fs' !! to = Some data /\ (forall err, o <> Failed err) \/ fs' !! to = fs !! to /\ o <> Done)
  /\ forall p, p <> to -> p <> from -> fs' !! p = fs !! p.
Proof.
  intros H Hf. inversion H; subst.
  - split; [left; split; [rewrite lookup_insert_eq; congruence|done]|].
    intros p Hp Hq. by rewrite lookup_insert_ne, lookup_delete_ne.
  - split; [by right|done].
Qed.

(** A run that changed nothing but [tmp] and did not succeed. *)
Lemma atomic_unchanged path tmp data fs r fs' :
  tmp <> path -> (forall p, p <> tmp -> fs' !! p = fs !! p) -> r <> Some None -> atomic path tmp data fs r fs'.
Proof. intros Hne Hs Hr. split; [left; by apply Hs|]. split; [intros p _ Hq; by apply Hs|]. split; [done|]. intros. by apply Hs. Qed.

Lemma rename_atomic path tmp data fs fs0 r fs' :
  tmp <> path -> fs !! tmp = Some data -> (forall p, p <> tmp -> fs !! p = fs0 !! p) ->
  runs (Call (Rename tmp path) (fun r => match r with
         | Some err => Return (Some ("rename snapshot: " ++ err))
         | None => Return None
         end)) fs r fs' ->
  atomic path tmp data fs0 r fs'.
Proof.
  intros Hne Ht H0 H.
  assert (forall o fs1, effect (Rename tmp path) fs o fs1 -> forall p, p <> path -> p <> tmp -> fs1 !! p = fs0 !! p) as Hq.
  { intros o fs1 He p Hp Hq. destruct (effect_rename _ _ _ _ _ _ He Ht) as [_ E]. rewrite E by done. by apply H0. }
  apply runs_call in H as [(fs1 & He & [-> Hr]%runs_return)|[(err & fs1 & He & [-> Hr]%runs_return)|[-> [He| ->]]]].
  - destruct (effect_rename _ _ _ _ _ _ He Ht) as [[[E _]|[_ Hd]] _]; [|done].
    split; [by right|]. split; [by apply (Hq Done)|]. split; [done|]. intros err ->. by destruct Hr.
  - destruct (effect_rename _ _ _ _ _ _ He Ht) as [[[_ Hf]|[E _]] _]; [by destruct (Hf err)|]. rewrite H0 in E by done.
    split; [by left|]. split; [by apply (Hq (Failed err))|]. split; [intros ->; by destruct Hr|done].
  - destruct (effect_rename _ _ _ _ _ _ He Ht) as [E _]. rewrite (H0 path) in E by done.
    split; [tauto|]. split; [by apply (Hq Stopped)|done].
  - apply atomic_unchanged; done.
Qed.

(** The calls of [Persist] after the directory is there. *)
Lemma write_atomic path tmp data fs r fs' :
  tmp <> path ->
  runs (Call (WriteFile tmp data) (fun r =>
          match r with
          | Some err => Return (Some ("write snapshot tmp: " ++ err))
          | None => Call (Rename tmp path) (fun r =>
                      match r with
                      | Some err => Return (Some ("rename snapshot: " ++ err))
                      | None => Return None
                      end)
          end)) fs r fs' ->
  atomic path tmp data fs r fs'.
Proof.
  intros Hne H. apply runs_call in H as [(fs1 & He & H)|[(err & fs1 & He & [-> Hr]%runs_return)|[-> [He| ->]]]].
  - apply effect_write in He as [Hd Hp]. by eapply rename_atomic; [|apply Hd| |exact H].
  - apply effect_write in He as [_ Hp]. apply atomic_unchanged; [done..|intros ->; by destruct Hr].
  - apply effect_write in He as [_ Hp]. by apply atomic_unchanged.
  - by apply atomic_unchanged.
Qed.

(** What [Load] makes of a snapshot that was read back. *)
Definition load_snapshot (snap : cacheSnapshot) (now : Z) (c : Cache) : Cache :=
  Load_snapshot now (sp_Entries (valid_snapshot snap), sp_Negative (valid_snapshot snap)) c.

Lemma Load_written snap data fs path now c :
  path <> "" -> MarshalIndent_snapshot snap = Some data -> snapshot_typed snap -> fs !! path = Some data ->
  Load (read_snapshot fs) now path c = Ok (load_snapshot snap now c).
Proof.
  intros Hpath Hd Ht Hf. unfold Load, read_snapshot. rewrite (bool_decide_eq_false_2 _ Hpath), Hf. unfold file_of.
  by rewrite (Unmarshal_written _ _ Hd Ht).
Qed.

(** The calls of [Persist] once the text is there. *)
Lemma Persist_atomic path snap data fs r fs' :
  path <> "" -> MarshalIndent_snapshot snap = Some data -> runs (Persist path snap) fs r fs' ->
  atomic path (tmp_path path) data fs r fs'.
Proof.
  intros Hpath Hd. unfold Persist. rewrite (bool_decide_eq_false_2 _ Hpath), Hd.
  assert (tmp_path path <> path) as Hne.
  { intros E%(f_equal length). unfold tmp_path in E. rewrite length_app in E. cbn in E. lia. }
  intros [(fs1 & ->%effect_mkdir & H)|[(err & fs1 & ->%effect_mkdir & H)|[-> [->%effect_mkdir| ->]]]]%runs_call.
  - by apply write_atomic.
  - case_bool_decide; [by apply write_atomic|]. apply runs_return in H as [-> Hr].
    apply atomic_unchanged; [done..|intros ->; by destruct Hr].
  - by apply atomic_unchanged.
  - by apply atomic_unchanged.
Qed.

(** C11. The cache file is replaced as a whole.  Whatever fails and whenever the
    process is stopped while [Persist] runs, the file at the configured path is the
    old one or the complete text of the new snapshot, and no file beside it and
    its temporary one changes; when [Persist] reports success the new text is
    there, when it reports an error the old file is.  So a later [Load] gives what it
    would have given before, or it decodes the new text to the snapshot, its keys
    made valid UTF-8, and loads that; after a success it loads the new snapshot. *)
Theorem persist_atomic path snap fs r fs' :
  path <> "" -> snapshot_typed snap -> runs (Persist path snap) fs r fs' ->
  (fs' !! path = fs !! path \/ fs' !! path = MarshalIndent_snapshot snap)
  /\ (forall p, p <> path -> p <> tmp_path path -> fs' !! p = fs !! p)
  /\ (forall err, r = Some (Some err) -> fs' !! path = fs !! path)
  /\ (forall now c, Load (read_snapshot fs') now path c = Load (read_snapshot fs) now path c
        \/ Load (read_snapshot fs') now path c = Ok (load_snapshot snap now c))
  /\ (r = Some None -> fs' !! path = MarshalIndent_snapshot snap /\ is_Some (MarshalIndent_snapshot snap)
        /\ forall now c, Load (read_snapshot fs') now path c = Ok (load_snapshot snap now c)).
Proof.
  intros Hpath Ht H.
  assert (forall fs fs' : files, fs' !! path = fs !! path ->
    forall now c, Load (read_snapshot fs') now path c = Load (read_snapshot fs) now path c) as Hsame.
  { intros f f' E now c. unfold Load, read_snapshot. by rewrite E. }
  destruct (MarshalIndent_snapshot snap) as [data|] eqn:Ed.
  - destruct (Persist_atomic _ _ _ _ _ _ Hpath Ed H) as (H1 & H2 & H3 & H4). ands; auto.
    + intros now c. destruct H1; [left; by apply Hsame|right; by eapply Load_written].
    + intros Hr. ands; [auto|done|]. intros now c. eapply Load_written; eauto.
  - unfold Persist in H. rewrite (bool_decide_eq_false_2 _ Hpath), Ed in H. apply runs_return in H as [-> Hr].
    ands; auto. intros ->. by destruct Hr.
Qed.

(** When no call fails, the text is there. *)
Definition persisted (path data : bytes) (fs : files) : files :=
  <[path := data]> (delete (tmp_path path) (<[tmp_path path := data]> fs)).

Lemma Persist_succeeds path snap data fs : path <> "" -> MarshalIndent_snapshot snap = Some data ->
  runs (Persist path snap) fs (Some None) (persisted path data fs).
Proof.
  intros Hpath Hd. unfold Persist. rewrite (bool_decide_eq_false_2 _ Hpath), Hd.
  eapply r_done; [apply e_mkdir|]. eapply r_done; [apply e_write|].
  eapply r_done; [|apply r_return]. apply e_rename; [apply lookup_insert_eq|done].
Qed.

(** *** A restart *)

(** The texts of a snapshot are valid UTF-8, as the resolver's keys are
    ([cacheKey_valid]). *)
Definition texts_valid (snap : cacheSnapshot) : Prop :=
  Forall (fun it => to_valid (s_Key it) = s_Key it) (sp_Entries snap)
  /\ Forall (fun n => to_valid (n_Key n) = n_Key n /\ to_valid (n_SOA n) = n_SOA n) (sp_Negative snap).

Lemma load_snapshot_valid snap now c : texts_valid snap ->
  load_snapshot snap now c = Load_snapshot now (sp_Entries snap, sp_Negative snap) c.
Proof.
  unfold load_snapshot. intros [He Hn]. cbn [valid_snapshot sp_Entries sp_Negative].
  assert (map valid_entry (sp_Entries snap) = sp_Entries snap) as ->.
  { induction He as [|it es Hk _ IH]; [done|]. cbn [map]. rewrite IH. f_equal. unfold valid_entry. rewrite Hk. by destruct it. }
  assert (map valid_negative (sp_Negative snap) = sp_Negative snap) as ->; [|done].
  induction Hn as [|n ns [Hk Hs] _ IH]; [done|]. cbn [map]. rewrite IH. f_equal. unfold valid_negative. rewrite Hk, Hs. by destruct n.
Qed.

(** C10. A restart keeps the cache.  When [Persist] succeeds on what any
    operations made of a cache, in whatever order it ranges over the maps, then
    [Load] of the file that is there, into a new cache at the time [now], succeeds;
    the index and the list of the new cache agree and its limit holds;
    each of its entries restores one of the old cache that is still usable,
    with its times, hits and the message read back from its encoding; if the
    old entries fit, each usable one whose message can be encoded faithfully
    is there, and is the answer of the next lookup while fresh.  The denials are those that have not
    expired. *)
Theorem restart_keeps opts os opts' els negs saved now path fs fs' :
  let c := (run step os (New opts)).2 in
  let snap := snapshot saved els negs c in
  els ≡ₚ (map_to_list (c_items c)).*2 -> negs ≡ₚ (map_to_list (c_negative c)).*2 ->
  path <> "" -> snapshot_typed snap -> texts_valid snap -> runs (Persist path snap) fs (Some None) fs' ->
  exists c', Load (read_snapshot fs') now path (New opts') = Ok c'
  /\ store_inv c' /\ len (c_lru c') <= c_maxEntries (New opts')
  /\ (forall key e', find_key key (abs_list c') = Some e' ->
        exists e, find_key key (abs_list c) = Some e /\ restored e e' /\ now <= e_staleUntil e)
  /\ (len (c_lru c) <= c_maxEntries (New opts') -> forall key e m1 wire,
        find_key key (abs_list c) = Some e -> now <= e_staleUntil e ->
        message_ok (e_value e) -> Encode (Some (e_value e)) = (Some m1, Ok wire) ->
        exists e', find_key key (abs_list c') = Some e' /\ restored e e' /\ same_message m1 (e_value e')
          /\ (now < e_expiresAt e ->
                (Get now key c').1.1 = mkGetResult (Some (cloneMessage (e_value e'))) true false false))
  /\ (forall key n, c_negative c' !! key = Some n <-> c_negative c !! key = Some n /\ now < n_ExpiresAt n).
Proof.
  intros c snap He Hg Hpath Ht Hv H.
  exists (Load_snapshot now (Persist_snapshot els negs c) (New opts')). split.
  - destruct (MarshalIndent_snapshot snap) as [data|] eqn:Ed.
    + destruct (Persist_atomic _ _ _ _ _ _ Hpath Ed H) as (_ & _ & Hd & _).
      rewrite (Load_written snap data fs' path now (New opts') Hpath Ed Ht (Hd eq_refl)). f_equal.
      rewrite load_snapshot_valid by exact Hv. f_equal.
    + unfold Persist in H. rewrite (bool_decide_eq_false_2 _ Hpath), Ed in H. by apply runs_return in H as [_ [|]].
  - exact (snapshot_keeps opts os opts' els negs now He Hg).
Qed.
End persist.

(** ** A run that stops in the middle of the write *)

Theorem persist_atomic_witness :
  let fs : gmap bytes bytes := {[ ("c.json" : bytes) := ("old" : bytes) ]} in
  let fs' := <[("c.json.tmp" : bytes) := ("{" : bytes)]> fs in
  let err := fun _ : cacheSnapshot => "" : bytes in
  runs (Persist err "c.json" sample_snapshot) fs None fs' /\ fs' !! ("c.json" : bytes) = Some ("old" : bytes)
  /\ (fs' !! ("c.json" : bytes) = fs !! ("c.json" : bytes) \/ fs' !! ("c.json" : bytes) = MarshalIndent_snapshot sample_snapshot).
Proof.
  intros fs fs' err. assert (runs (Persist err "c.json" sample_snapshot) fs None fs') as Hr.
  { unfold Persist. destruct (MarshalIndent_snapshot sample_snapshot) as [data|] eqn:E; [|vm_compute in E; discriminate E].
    eapply r_done; [apply e_mkdir|]. cbn [bool_decide]. apply r_stopped.
    assert (take 1 data = "{") as Ht by (vm_compute in E; injection E as <-; reflexivity).
    pose proof (e_write_part "c.json.tmp" data 1 Stopped fs ltac:(discriminate)) as He. rewrite Ht in He. exact He. }
  split; [exact Hr|]. split; [vm_compute; reflexivity|].
  exact (proj1 (persist_atomic (U := latin1) err (fun _ => "") "c.json" sample_snapshot fs None fs' ltac:(discriminate)
    ltac:(split; repeat (constructor; [vm_compute; intuition discriminate|]); constructor) Hr)).
Defined.

(** ** A restart with one answer and two denials, one of which has expired *)

Definition saved_snapshot : cacheSnapshot := Eval vm_compute in
  snapshot (U := latin1) Minute (map_to_list (c_items before_restart)).*2 (map_to_list (c_negative before_restart)).*2 before_restart.

Lemma saved_snapshot_is :
  snapshot (U := latin1) Minute (map_to_list (c_items before_restart)).*2 (map_to_list (c_negative before_restart)).*2 before_restart
  = saved_snapshot.
Proof. vm_compute. reflexivity. Qed.

Lemma saved_ok : snapshot_typed saved_snapshot /\ texts_valid saved_snapshot.
Proof.
  split; split; unfold saved_snapshot; cbn [sp_Entries sp_Negative]; repeat (apply Forall_cons; split); try apply Forall_nil; try exact I.
  all: vm_compute; intuition (discriminate || reflexivity).
Qed.

Definition saved_text : bytes := Eval vm_compute in default "" (MarshalIndent_snapshot saved_snapshot).

Lemma saved_text_is : MarshalIndent_snapshot saved_snapshot = Some saved_text.
Proof. vm_compute. reflexivity. Qed.

Theorem restart_keeps_witness :
  exists c', Load (U := latin1) (read_snapshot (fun _ => "") (persisted "cache.json" saved_text ∅)) (2 * Minute) "cache.json"
               (New (mkOptions 1 0 0 0 0 false)) = Ok c'
  /\ store_inv c'
  /\ (exists e', find_key "www.example.com.|1" (abs_list c') = Some e' /\ e_expiresAt e' = Hour
        /\ (Get (U := latin1) (2 * Minute) "www.example.com.|1" c').1.1
            = mkGetResult (Some (cloneMessage (U := latin1) (e_value e'))) true false false)
  /\ c_negative c' !! ("a|1" : bytes) = None.
Proof.
  pose proof (restart_keeps (U := latin1) (fun _ => "") (fun _ => "") (mkOptions 0 0 0 0 0 false)
    [OSet 0 "www.example.com.|1" (Some sample_message) Hour; OSetNegative 0 "a|1" 3 Minute "";
     OSetNegative 0 "b|1" 3 Hour ""] (mkOptions 1 0 0 0 0 false)
    (map_to_list (c_items before_restart)).*2 (map_to_list (c_negative before_restart)).*2 Minute (2 * Minute)
    "cache.json" ∅ (persisted "cache.json" saved_text ∅)) as H.
  cbv zeta in H. fold before_restart in H. rewrite saved_snapshot_is in H. destruct saved_ok as [Ht Hv].
  destruct (H ltac:(reflexivity) ltac:(reflexivity) ltac:(discriminate) Ht Hv
    (Persist_succeeds (fun _ => "") "cache.json" saved_snapshot saved_text ∅ ltac:(discriminate) saved_text_is))
    as (c' & H0 & H1 & _ & _ & H4 & H5). clear H.
  exists c'. split; [exact H0|]. split; [exact H1|]. split.
  - assert (e_value (elem before_restart 0) = cloneMessage (U := latin1) sample_message) as Ev by (vm_compute; reflexivity).
    assert (message_ok (e_value (elem before_restart 0))) as Hok.
    { rewrite Ev. exact clone_ok. }
    destruct (Encode (U := latin1) (Some (e_value (elem before_restart 0)))) as [[m1|] [wire|e| |]] eqn:E;
      try (exfalso; vm_compute in E; discriminate E).
    destruct (H4 ltac:(vm_compute; discriminate)
      "www.example.com.|1" (elem before_restart 0) m1 wire
      ltac:(vm_compute; reflexivity) ltac:(vm_compute; discriminate) Hok E) as (e' & F1 & F2 & _ & F4).
    exists e'. split; [exact F1|]. rewrite (rs_expires _ _ F2). split; [vm_compute; reflexivity|].
    apply F4. vm_compute. reflexivity.
  - destruct (c_negative c' !! ("a|1" : bytes)) as [n|] eqn:E; [|reflexivity].
    exfalso. apply H5 in E as [E Hn]. vm_compute in E. injection E as <-. vm_compute in Hn. discriminate Hn.
Defined.
