(* ===== verification/Resolver.v ===== *)
(** * internal/resolver/resolver.go: the resolver itself. *)

From S2P Require Import Prelude.
From S2P Require Import GoStrings.
From S2P Require Import GoTime.
From S2P Require Import GoNet.
From S2P Require Import Protocol.
From S2P Require Import Names.
From S2P Require Import CircuitBreaker.
From S2P Require Import Blocklist.
From S2P Require Import Cache.
From S2P Require Import Pipeline.
From S2P Require Import Hints.
From S2P Require Import Recursive.
From S2P Require Import Race.
From S2P Require Import Settings.

#[local] Open Scope go_scope.

(** ** Data *)

Record ResolveResult := mkResolveResult {
  rr_QueryID : bytes;
  rr_Message : option Message;
  rr_Events : list ResolutionEvent;
  rr_Cached : bool;
  rr_Stale : bool;
  rr_StaleOnError : bool;
  rr_DNSSECStatus : bytes;
  rr_Blocked : bool;
  rr_Duration : Z
}.

Record HistoryEntry := mkHistoryEntry {
  he_QueryID : bytes;
  he_Timestamp : Z;
  he_Domain : bytes;
  he_QType : bytes;
  he_RCode : bytes;
  he_DNSSECStatus : bytes;
  he_Duration : Z;
  he_Cached : bool;
  he_Stale : bool
}.

(** [r_prefetching] holds the keys for which the cache has started a goroutine
    that has not run yet; hooks are known by their number. *)
Record Resolver := mkResolver {
  r_cfg : Config;
  r_cache : Cache;
  r_hub : EventHub;
  r_shared : shared;
  r_rootHints : list RootServer;
  r_history : list HistoryEntry;
  r_traces : gmap bytes (list ResolutionEvent);
  r_blocklist : Blocklist;
  r_security : gmap bytes Z;
  r_secHooks : list nat;
  r_upstreamPort : Z;
  r_prefetching : list bytes
}.

Definition with_cfg (r : Resolver) (x : Config) : Resolver :=
  mkResolver x (r_cache r) (r_hub r) (r_shared r) (r_rootHints r) (r_history r) (r_traces r)
    (r_blocklist r) (r_security r) (r_secHooks r) (r_upstreamPort r) (r_prefetching r).
Definition with_cache (r : Resolver) (x : Cache) : Resolver :=
  mkResolver (r_cfg r) x (r_hub r) (r_shared r) (r_rootHints r) (r_history r) (r_traces r)
    (r_blocklist r) (r_security r) (r_secHooks r) (r_upstreamPort r) (r_prefetching r).
Definition with_hub (r : Resolver) (x : EventHub) : Resolver :=
  mkResolver (r_cfg r) (r_cache r) x (r_shared r) (r_rootHints r) (r_history r) (r_traces r)
    (r_blocklist r) (r_security r) (r_secHooks r) (r_upstreamPort r) (r_prefetching r).
Definition with_shared (r : Resolver) (x : shared) : Resolver :=
  mkResolver (r_cfg r) (r_cache r) (r_hub r) x (r_rootHints r) (r_history r) (r_traces r)
    (r_blocklist r) (r_security r) (r_secHooks r) (r_upstreamPort r) (r_prefetching r).
Definition with_history (r : Resolver) (h : list HistoryEntry)
    (t : gmap bytes (list ResolutionEvent)) : Resolver :=
  mkResolver (r_cfg r) (r_cache r) (r_hub r) (r_shared r) (r_rootHints r) h t
    (r_blocklist r) (r_security r) (r_secHooks r) (r_upstreamPort r) (r_prefetching r).
Definition with_blocklist (r : Resolver) (x : Blocklist) : Resolver :=
  mkResolver (r_cfg r) (r_cache r) (r_hub r) (r_shared r) (r_rootHints r) (r_history r) (r_traces r)
    x (r_security r) (r_secHooks r) (r_upstreamPort r) (r_prefetching r).
Definition with_security (r : Resolver) (x : gmap bytes Z) (hooks : list nat) : Resolver :=
  mkResolver (r_cfg r) (r_cache r) (r_hub r) (r_shared r) (r_rootHints r) (r_history r) (r_traces r)
    (r_blocklist r) x hooks (r_upstreamPort r) (r_prefetching r).
Definition with_port (r : Resolver) (x : Z) : Resolver :=
  mkResolver (r_cfg r) (r_cache r) (r_hub r) (r_shared r) (r_rootHints r) (r_history r) (r_traces r)
    (r_blocklist r) (r_security r) (r_secHooks r) x (r_prefetching r).
Definition with_prefetching (r : Resolver) (x : list bytes) : Resolver :=
  mkResolver (r_cfg r) (r_cache r) (r_hub r) (r_shared r) (r_rootHints r) (r_history r) (r_traces r)
    (r_blocklist r) (r_security r) (r_secHooks r) (r_upstreamPort r) x.

(** The world outside the resolver.  Asking upstream takes time in which other
    goroutines use the resolver, so it may change the resolver's state too. *)
Class Outside (W : Type) := {
  o_query : bytes -> Z -> bytes -> Z -> list bytes -> Resolver * W -> answer * (Resolver * W);
  o_lookupIPs : option Z -> bytes -> W -> option (list (option bytes)) * W;
  o_hook : nat -> bytes -> W -> W;
  o_now : W -> Z * W;
  o_rand : nat -> W -> option bytes * W
}.

(** [now]: [time.Now()] *)
Definition r_now {W} {O : Outside W} (s : Resolver * W) : Z * (Resolver * W) :=
  let '(r, w) := s in
  let '(t, w) := o_now w in (t, (r, w)).

(** ** Small functions *)

Fixpoint min_loop (rrs : list ResourceRecord) (min : Z) : Z :=
  match rrs with
  | [] => min
  | rr :: rest =>
      if rr_TTL rr =? 0 then min_loop rest min
      else if (min =? 0) || (rr_TTL rr <? min) then min_loop rest (rr_TTL rr)
      else min_loop rest min
  end.
Definition minTTL (msg : option Message) : Z :=
  match msg with
  | None => 30 * Second
  | Some m =>
      let all := m_Answers m ++ m_Authorities m ++ m_Additionals m in
      let min := min_loop all 0 in
      (if min =? 0 then 30 else min) * Second
  end.

Fixpoint soa_name (rrs : list ResourceRecord) : bytes :=
  match rrs with
  | [] => ""
  | rr :: rest => if rr_Type rr =? TypeSOA then rr_Name rr else soa_name rest
  end.
Definition authoritySOAName (msg : Message) : bytes := soa_name (m_Authorities msg).

(** The header literals of the messages the resolver makes itself. *)
Definition own_header (rcode : Z) : Header :=
  mkHeader 0 true 0 false false true true 0 rcode 0 0 0 0.
Definition nxdomainMessage (name : bytes) (qtype : Z) : Message :=
  mkMessage (own_header RCodeNameError) [mkQuestion name qtype ClassIN] [] [] [].
Definition negativeCacheMessage (name : bytes) (qtype rcode : Z) : Message :=
  mkMessage (own_header rcode) [mkQuestion name qtype ClassIN] [] [] [].
Definition servfailMessage (name : bytes) (qtype : Z) : Message :=
  mkMessage (own_header RCodeServerFailure) [mkQuestion name qtype ClassIN] [] [] [].

Definition dnssecStatus (msg : option Message) : bytes :=
  match msg with
  | None => "bogus"
  | Some m =>
      let rcode := h_RCode (m_Header m) in
      if rcode =? RCodeServerFailure then "bogus" else
      let all := m_Answers m ++ m_Authorities m ++ m_Additionals m in
      let hasRRSIG := existsb (fun rr => rr_Type rr =? TypeRRSIG) all in
      let hasKeyMaterial :=
        existsb (fun rr => (rr_Type rr =? TypeDNSKEY) || (rr_Type rr =? TypeDS)) all in
      if hasRRSIG && hasKeyMaterial then "secure"
      else if hasRRSIG then "indeterminate"
      else if (rcode =? RCodeNoError) || (rcode =? RCodeNameError) then "insecure"
      else "indeterminate"
  end.

Definition stateCode (s : State) : Z :=
  match s with StateClosed => 0 | StateHalfOpen => 1 | StateOpen => 2 end.

Definition State_String (s : State) : bytes :=
  match s with StateClosed => "closed" | StateOpen => "open" | StateHalfOpen => "half_open" end.

(** ** Programs over the resolver

    A call reads and writes the resolver and the world; it returns, fails with
    an error text, or panics. *)

Definition prog (W A : Type) : Type := Resolver * W -> result bytes A * (Resolver * W).

#[export] Instance prog_ret {W} : MRet (prog W) := fun A a s => (Ok a, s).
#[export] Instance prog_bind {W} : MBind (prog W) := fun A B k m s =>
  match m s with
  | (Ok a, s') => k a s'
  | (Err e, s') => (Err e, s')
  | (Panic, s') => (Panic, s')
  | (Fuel, s') => (Fuel, s')
  end.

(** A step given by its effect on the state. *)
Definition act {W A} (f : Resolver * W -> result bytes A * (Resolver * W)) : prog W A := f.
Definition get {W} : prog W Resolver := fun s => (Ok s.1, s).
Definition update {W} (f : Resolver -> Resolver) : prog W unit := fun '(r, w) => (Ok tt, (f r, w)).
Definition fail {W A} (e : bytes) : prog W A := fun s => (Err e, s).
Definition now {W} {O : Outside W} : prog W Z := fun s => let '(t, s) := r_now s in (Ok t, s).
(** A part of the resolver that may panic. *)
Definition try_update {W} (f : Resolver -> result bytes Resolver) : prog W unit := fun '(r, w) =>
  match f r with
  | Ok r' => (Ok tt, (r', w))
  | Err e => (Err e, (r, w))
  | Panic => (Panic, (r, w))
  | Fuel => (Fuel, (r, w))
  end.

Section resolver.
Context {U : UnicodeTables} {W : Type} {O : Outside W}.

(** ** Counters, hooks and identifiers *)

Definition call_hooks (hooks : list nat) (reason : bytes) (w : W) : W :=
  foldl (fun w h => o_hook h reason w) w hooks.

Definition incSecurityCounter (reason : bytes) (s : Resolver * W) : Resolver * W :=
  let '(r, w) := s in
  if bool_decide (TrimSpace reason = "") then (r, w) else
  let n := default 0 (r_security r !! reason) in
  (with_security r (<[reason := u64 (n + 1)]> (r_security r)) (r_secHooks r),
   call_hooks (r_secHooks r) reason w).

Definition AddSecurityHook (fn : option nat) (r : Resolver) : Resolver :=
  match fn with
  | Some h => with_security r (r_security r) (r_secHooks r ++ [h])
  | None => r
  end.

Definition SecurityStats (r : Resolver) : gmap bytes Z := r_security r.

(** Sixteen random bytes in hexadecimal, or the time. *)
Definition newQueryID : prog W bytes := fun '(r, w) =>
  match o_rand 16 w with
  | (Some b, w) => (Ok (flat_map hex_byte b), (r, w))
  | (None, w) => let '(t, w) := o_now w in (Ok ("q-" ++ itoa t), (r, w))
  end.

(** What the referral loop sees of the resolver and the world. *)
#[local] Instance upstream : Upstream (Resolver * W) := {|
  query id step name type servers s := o_query id step name type servers s;
  lookupIPs timeout host '(r, w) := let '(a, w) := o_lookupIPs timeout host w in (a, (r, w));
  incCounter := incSecurityCounter;
  time_Now := r_now
|}.

(** ** History *)

Fixpoint publish_all (events : list ResolutionEvent) (h : EventHub) : result bytes EventHub :=
  match events with
  | [] => Ok h
  | ev :: rest => h' ← Publish ev h; publish_all rest h'
  end.

(** The history and the traces after one more query. *)
Definition record_query (entry : HistoryEntry) (events : list ResolutionEvent) (r : Resolver)
  : Resolver :=
  let '(history, traces) :=
    if 1000 <=? len (r_history r) then
      match r_history r with
      | old :: rest => (rest, delete (he_QueryID old) (r_traces r))
      | [] => (r_history r, r_traces r)
      end
    else (r_history r, r_traces r) in
  with_history r (history ++ [entry]) (<[he_QueryID entry := events]> traces).

Definition publishTrace (queryID qname : bytes) (qtype : Z) (msg : option Message)
    (events : list ResolutionEvent) (cached stale : bool) (started : Z) : prog W unit :=
  t ← now;
  let duration := time_Sub t started in
  try_update (fun r => h ← publish_all events (r_hub r); Ok (with_hub r h));;
  let rcode := match msg with
               | Some m => RCodeToString (h_RCode (m_Header m))
               | None => "SERVFAIL"
               end in
  t ← now;
  update (record_query
    (mkHistoryEntry queryID t qname (TypeToString qtype) rcode (dnssecStatus msg)
       (Z.quot duration Millisecond) cached stale) events).

Definition History (page limit : Z) (r : Resolver) : result bytes (list HistoryEntry) :=
  let page := if page <? 1 then 1 else page in
  let limit := if limit <=? 0 then 50 else limit in
  let offset := i64 ((page - 1) * limit) in
  if len (r_history r) <=? offset then Ok [] else
  let stop := i64 (offset + limit) in
  let stop := if len (r_history r) <? stop then len (r_history r) else stop in
  slice (r_history r) offset stop.

Definition Trace (id : bytes) (r : Resolver) : list ResolutionEvent :=
  default [] (r_traces r !! id).

Definition HistoryEntry_ (id : bytes) (r : Resolver) : option HistoryEntry :=
  List.find (fun e => bool_decide (he_QueryID e = id)) (r_history r).

(** ** Resolve *)

(** A call of the cache: it reads the clock and may start a prefetch. *)
Definition cache_call {A} (f : Z -> Cache -> A * Cache) : prog W A :=
  t ← now;
  act (fun '(r, w) => let '(a, c) := f t (r_cache r) in (Ok a, (with_cache r c, w))).

Definition cache_Get (key : bytes) : prog W GetResult :=
  t ← now;
  act (fun '(r, w) =>
    let '(g, started, c) := Get t key (r_cache r) in
    (Ok g, (with_prefetching (with_cache r c) (r_prefetching r ++ started), w))).

Definition is_blocked (qname : bytes) : prog W bool := fun '(r, w) =>
  let '(b, l) := IsBlocked qname (r_blocklist r) in (Ok b, (with_blocklist r l, w)).

Definition run_recursive (queryID qname : bytes) (qtype : Z) (cfg : Config)
  : prog W (list ResolutionEvent * result resolve_error Message) := fun s =>
  let '(o, s) := resolveRecursive queryID qname qtype cfg s in
  match o.2 with
  | Panic => (Panic, s)
  | Fuel => (Fuel, s)
  | _ => (Ok o, s)
  end.

(** What [Resolve] keeps of the answer of a complete resolution. *)
Definition store_answer (key qname : bytes) (qtype : Z) (msg : Message) : prog W unit :=
  let rcode := h_RCode (m_Header msg) in
  if rcode =? RCodeNameError then
    cache_call (fun t c =>
      (tt, SetNegative t key rcode (TTLFromSOA (Some msg)) (authoritySOAName msg) c))
  else if rcode =? RCodeNoError then
    if shouldCacheAsNODATA (Some msg) qname qtype then
      cache_call (fun t c =>
        (tt, SetNegative t key RCodeNoError (TTLFromSOA (Some msg)) (authoritySOAName msg) c))
    else if 0 <? len (m_Answers msg) then
      cache_call (fun t c => (tt, Set_ t key (Some msg) (minTTL (Some msg)) c))
    else mret tt
  else mret tt.

(** The result built after the trace is published. *)
Definition finish_resolve (queryID qname : bytes) (qtype : Z) (msg : option Message)
    (events : list ResolutionEvent) (cached stale staleOnError blocked : bool) (started : Z)
  : prog W ResolveResult :=
  publishTrace queryID qname qtype msg events cached stale started;;
  t ← now;
  mret (mkResolveResult queryID msg events cached stale staleOnError (dnssecStatus msg) blocked
          (time_Sub t started)).

(** After the caches had nothing: the resolution, and serving stale data when
    it fails. *)
Definition resolve_miss (started : Z) (queryID key qname : bytes) (qtype : Z) (cfg : Config)
  : prog W ResolveResult :=
  '(events, outcome) ← run_recursive queryID qname qtype cfg;
  match outcome with
  | Ok msg =>
      store_answer key qname qtype msg;;
      finish_resolve queryID qname qtype (Some msg) events false false false false started
  | _ =>
      stale ← cache_call (fun t c => GetStaleOnError t key c);
      match stale with
      | Some m =>
          t ← now;
          let e := local_event queryID t (len events + 1) "serve_stale_on_error" qname
                     (TypeToString qtype) "" in
          finish_resolve queryID qname qtype (Some m) (events ++ [e]) true true true false started
      | None =>
          publishTrace queryID qname qtype (Some (servfailMessage qname qtype)) events false false
            started;;
          fail "resolve"
      end
  end.

(** The event of an answer from the caches or the blocklist. *)
Definition first_event (stepType queryID qname : bytes) (qtype : Z) (errorMsg : bytes)
  : prog W (list ResolutionEvent) :=
  t ← now;
  mret [local_event queryID t 1 stepType qname (TypeToString qtype) errorMsg].

Definition Resolve (qname : bytes) (qtype : Z) : prog W ResolveResult :=
  started ← now;
  let qname := normalizeFQDN qname in
  let key := cacheKey qname qtype in
  queryID ← newQueryID;
  r ← get;
  let cfg := r_cfg r in
  blocked ← is_blocked qname;
  if (blocked : bool) then
    act (fun s => (Ok tt, incSecurityCounter "blocklist" s));;
    let msg := nxdomainMessage qname qtype in
    events ← first_event "blocked" queryID qname qtype "blocked by local blocklist";
    finish_resolve queryID qname qtype (Some msg) events false false false true started
  else
  neg ← cache_call (fun t c => GetNegative t key c);
  match neg with
  | Some n =>
      let msg := negativeCacheMessage qname qtype (n_RCode n) in
      events ← first_event "cache_hit" queryID qname qtype "";
      finish_resolve queryID qname qtype (Some msg) events true false false false started
  | None =>
  cached ← cache_Get key;
  if g_Hit cached then
    events ← first_event "cache_hit" queryID qname qtype "";
    finish_resolve queryID qname qtype (g_Message cached) events true (g_Stale cached) false false
      started
  else resolve_miss started queryID key qname qtype cfg
  end.

(** The callback [New] installs: a key of two parts is resolved again, as an
    AAAA, an MX or else an A question; its result is dropped. *)
Definition prefetchCallback (key : bytes) : prog W unit :=
  match Split key "|"%char with
  | [qname; t] =>
      let qtype := if bool_decide (t = "AAAA") then TypeAAAA
                   else if bool_decide (t = "MX") then TypeMX else TypeA in
      act (fun s =>
        match Resolve qname qtype s with
        | (Panic, s) => (Panic, s)
        | (Fuel, s) => (Fuel, s)
        | (_, s) => (Ok tt, s)
        end)
  | _ => mret tt
  end.

(** The goroutine the cache starts: the callback, then the deferred function. *)
Definition run_prefetch : prog W unit := fun '(r, w) =>
  match r_prefetching r with
  | [] => (Ok tt, (r, w))
  | key :: rest =>
      match prefetchCallback key (with_prefetching r rest, w) with
      | (x, (r, w)) => (x, (with_cache r (prefetchDone key (r_cache r)), w))
      end
  end.

(** ** Blocklist *)

Definition ReplaceBlocklist (raw : bytes) : prog W unit :=
  t ← now;
  try_update (fun r =>
    match ReplaceFromText t raw (r_blocklist r) with
    | Ok b => Ok (with_blocklist r b)
    | Panic => Panic
    | Fuel => Fuel
    | Err _ => Ok r
    end).

(** [scan path]: the lines of the file, or an error. *)
Definition LoadBlocklist (scan : bytes -> result bytes (list bytes)) (path : bytes) : prog W unit :=
  t ← now;
  try_update (fun r =>
    match LoadFromFile scan t path (r_blocklist r) with
    | Ok (Ok b) => Ok (with_blocklist r b)
    | Ok Panic | Panic => Panic
    | Ok Fuel | Fuel => Fuel
    | Ok (Err _) => Ok r
    | Err e => Err e
    end).

Definition BlocklistStats_ (r : Resolver) : BlocklistStats := Blocklist_Stats (r_blocklist r).
Definition BlocklistDomains (r : Resolver) : list bytes := Domains (r_blocklist r).

(** ** Settings *)

Definition update_breakers (cfg : Config) (sh : shared) : shared :=
  mkShared (UpdateConfig (CBFailureThreshold cfg) (CBSuccessThreshold cfg) (CBOpenTimeout cfg)
              <$> sh_breakers sh) (sh_upstream sh).

Definition ApplyRuntimeSettings (t : Z) (settings : option (gmap bytes any)) (r : Resolver)
  : gmap bytes any * Resolver :=
  match settings with
  | None => (∅, r)
  | Some m =>
      let u := read_updates m in
      let cfg := apply_updates u (r_cfg r) in
      let applied := report_updates u in
      let r := with_cfg r cfg in
      let r := if breakers_changed u then with_shared r (update_breakers cfg (r_shared r)) else r in
      match cache_update m with
      | Some cu =>
          let c := ApplyRuntimeConfig t cu (r_cache r) in
          (report_cache (Cache_RuntimeConfig c) applied, with_cache r c)
      | None => (applied, r)
      end
  end.

Definition RuntimeConfig (r : Resolver) : gmap bytes any :=
  report_cache (Cache_RuntimeConfig (r_cache r)) (show_config (r_cfg r)).

Definition SetUpstreamPort (port : Z) (r : Resolver) : Resolver :=
  if (port <? 1) || (65535 <? port) then r else with_port r port.

(** ** Subscriptions *)

Definition Resolver_Subscribe (buffer : Z) (r : Resolver) : nat * Resolver :=
  let '(ch, hub) := Subscribe buffer (r_hub r) in (ch, with_hub r hub).

Definition Resolver_Unsubscribe (ch : nat) (r : Resolver) : result bytes Resolver :=
  hub ← Unsubscribe ch (r_hub r); Ok (with_hub r hub).

(** [CacheStats] of a resolver with a cache. *)
Definition CacheStats (now : Z) (r : Resolver) : Stats := Stats_ now (r_cache r).

(** ** Upstream servers *)

(** The breaker of each server in turn, created when it is missing. *)
Fixpoint root_statuses (cfg : Config) (upstream : gmap bytes UpstreamStatus) (hints : list RootServer)
    (breakers : gmap bytes CircuitBreaker) : list RootServer * gmap bytes CircuitBreaker :=
  match hints with
  | [] => ([], breakers)
  | h :: rest =>
      let '(cb, breakers) := getBreakerLocked (rs_IPv4 h) cfg breakers in
      let '(latency, seen, err, ok, failed) :=
        match upstream !! rs_IPv4 h with
        | Some s => (us_LastLatency s, us_LastSeen s, us_LastError s, us_TotalSuccesses s,
                     us_TotalFailures s)
        | None => (rs_LastLatency h, rs_LastSeen h, rs_LastError h, rs_TotalSuccesses h,
                   rs_TotalFailures h)
        end in
      let snap := CircuitBreaker.Snapshot cb in
      let h' := mkRootServer (rs_Name h) (rs_IPv4 h) (rs_IPv6 h) latency seen
                  (State_String (cs_State snap)) (stateCode (cs_State snap)) (cs_Failures snap)
                  (cs_LastFailureTime snap) err ok failed in
      let '(out, breakers) := root_statuses cfg upstream rest breakers in
      (h' :: out, breakers)
  end.

Definition RootServers (r : Resolver) : list RootServer * Resolver :=
  let '(out, breakers) :=
    root_statuses (r_cfg r) (sh_upstream (r_shared r)) (r_rootHints r) (sh_breakers (r_shared r)) in
  (out, with_shared r (mkShared breakers (sh_upstream (r_shared r)))).

(** The state of a breaker written into a status. *)
Definition with_breaker (cb : CircuitBreaker) (server name : bytes) (s : UpstreamStatus)
  : UpstreamStatus :=
  let snap := CircuitBreaker.Snapshot cb in
  mkUpstreamStatus server name (us_LastLatency s) (us_LastSeen s) (State_String (cs_State snap))
    (stateCode (cs_State snap)) (cs_Failures snap) (cs_LastFailureTime snap) (us_LastError s)
    (us_TotalSuccesses s) (us_TotalFailures s).

(** The first loop: every breaker's state in the status of its server. *)
Definition breaker_statuses (breakers : gmap bytes CircuitBreaker)
    (upstream : gmap bytes UpstreamStatus) : gmap bytes UpstreamStatus :=
  map_fold (fun server cb out =>
    let s := default zero_status (out !! server) in
    <[server := with_breaker cb server (us_ServerName s) s]> out) upstream breakers.

(** The second loop: the root servers that have no status yet. *)
Fixpoint add_roots (cfg : Config) (hints : list RootServer) (breakers : gmap bytes CircuitBreaker)
    (out : gmap bytes UpstreamStatus) (names : gmap bytes bytes)
  : gmap bytes CircuitBreaker * gmap bytes UpstreamStatus * gmap bytes bytes :=
  match hints with
  | [] => (breakers, out, names)
  | h :: rest =>
      let names := <[rs_IPv4 h := rs_Name h]> names in
      match out !! rs_IPv4 h with
      | Some _ => add_roots cfg rest breakers out names
      | None =>
          let '(cb, breakers) := getBreakerLocked (rs_IPv4 h) cfg breakers in
          add_roots cfg rest breakers
            (<[rs_IPv4 h := with_breaker cb (rs_IPv4 h) (rs_Name h) zero_status]> out) names
      end
  end.

(** The order of [sort.Slice]: named servers first, by name, then by address. *)
Definition status_leb (a b : UpstreamStatus) : bool :=
  if bool_decide (us_ServerName a = us_ServerName b) then bytes_leb (us_Server a) (us_Server b)
  else if bool_decide (us_ServerName a = "") then false
  else if bool_decide (us_ServerName b = "") then true
  else bytes_leb (us_ServerName a) (us_ServerName b).

Fixpoint insert_status (x : UpstreamStatus) (l : list UpstreamStatus) : list UpstreamStatus :=
  match l with
  | [] => [x]
  | y :: l' => if status_leb x y then x :: y :: l' else y :: insert_status x l'
  end.

Definition UpstreamStatuses (r : Resolver) : list UpstreamStatus * Resolver :=
  let sh := r_shared r in
  let out := breaker_statuses (sh_breakers sh) (sh_upstream sh) in
  let '(breakers, out, names) := add_roots (r_cfg r) (r_rootHints r) (sh_breakers sh) out ∅ in
  let named '(server, s) :=
    if bool_decide (us_ServerName s = "") then
      mkUpstreamStatus (us_Server s) (default "" (names !! server)) (us_LastLatency s)
        (us_LastSeen s) (us_State s) (us_StateCode s) (us_ConsecutiveFailures s) (us_LastFailure s)
        (us_LastError s) (us_TotalSuccesses s) (us_TotalFailures s)
    else s in
  (foldr insert_status [] (map named (map_to_list out)),
   with_shared r (mkShared breakers (sh_upstream sh))).
End resolver.

(** ** Construction *)

Definition NewResolver (t : Z) (cfg : Config) (c : option Cache) : Resolver :=
  mkResolver (new_config cfg)
    (SetPrefetchCallback true (match c with Some c => c | None => New (mkOptions 0 0 0 0 0 false) end))
    NewEventHub (mkShared ∅ ∅) DefaultRootHints [] ∅ (NewBlocklist t) ∅ [] 53 [].
