(* ===== verification/ResolverProps.v ===== *)
(** * Properties of the resolver.

    Every operation is a sequence of atomic steps, the critical sections of the
    code; other goroutines do the same steps while an operation waits for an
    upstream server.  The atomic steps keep the invariant [resolver_ok]. *)

From S2P Require Import Prelude.
From S2P Require Import GoStrings.
From S2P Require Import GoTime.
From S2P Require Import GoNet.
From S2P Require Import Protocol.
From S2P Require Import Names.
From S2P Require Import CircuitBreaker.
From S2P Require Import Blocklist.
From S2P Require Import Cache.
From S2P Require Import CacheSpec.
From S2P Require Import CacheProps.
From S2P Require Import Pipeline.
From S2P Require Import Hints.
From S2P Require Import Recursive.
From S2P Require Import RecursiveProps.
From S2P Require Import Race.
From S2P Require Import Settings.
From S2P Require Import CacheContract.
From S2P Require Import Resolver.

#[local] Open Scope go_scope.

(** ** The invariant and the atomic steps *)

Record resolver_ok (r : Resolver) : Prop := {
  ro_cfg : config_ok (r_cfg r);
  ro_cache : cache_ok (r_cache r);
  ro_hub : hub_inv (r_hub r);
  ro_history : len (r_history r) <= 1000;
  ro_traces : forall id, is_Some (r_traces r !! id) -> id ∈ map he_QueryID (r_history r);
  ro_port : 1 <= r_upstreamPort r <= 65535
}.

Section atomic.
Context {U : UnicodeTables}.

Inductive atomic (r : Resolver) : Resolver -> Prop :=
| at_cache o started :
    ~ reconfigures o ->
    atomic r (with_prefetching (with_cache r (CacheSpec.step o (r_cache r)).2)
                (r_prefetching r ++ started))
| at_cache_config t u : atomic r (with_cache r (ApplyRuntimeConfig t u (r_cache r)))
| at_goroutine key rest : r_prefetching r = key :: rest -> atomic r (with_prefetching r rest)
| at_hub o h : hub_step (E := bytes) o (r_hub r) = Ok h -> atomic r (with_hub r h)
| at_query entry events : atomic r (record_query entry events r)
| at_shared sh : atomic r (with_shared r sh)
| at_blocklist b : atomic r (with_blocklist r b)
| at_security counters hooks : atomic r (with_security r counters hooks)
| at_config m : atomic r (with_cfg r (apply_updates (read_updates m) (r_cfg r)))
| at_port port : atomic r (SetUpstreamPort port r).

Lemma record_query_ok entry events r : resolver_ok r -> resolver_ok (record_query entry events r).
Proof.
  intros [? ? ? Hh Ht ?]. unfold record_query. destruct (_ <=? _) eqn:E.
  - destruct (r_history r) as [|old rest] eqn:Er; [by rewrite len_nil in E|].
    split; cbn [with_history r_cfg r_cache r_hub r_history r_traces r_upstreamPort]; try done.
    + len_lia.
    + intros id. rewrite map_app; cbn [map]; rewrite elem_of_app, list_elem_of_singleton. intros [v Hv].
      apply lookup_insert_Some in Hv as [[<- _]|[_ Hv]]; [by right|left].
      apply lookup_delete_Some in Hv as [Hne Hv].
      specialize (Ht id (mk_is_Some _ _ Hv)). cbn [map] in Ht. apply elem_of_cons in Ht as [?|?]; [congruence|done].
  - split; cbn [with_history r_cfg r_cache r_hub r_history r_traces r_upstreamPort]; try done.
    + len_lia.
    + intros id. rewrite map_app; cbn [map]; rewrite elem_of_app, list_elem_of_singleton. intros [v Hv].
      apply lookup_insert_Some in Hv as [[<- _]|[_ Hv]]; [by right|left]. eauto.
Qed.

Lemma atomic_ok r r' : atomic r r' -> resolver_ok r -> resolver_ok r'.
Proof.
  intros [o started Ho|t u|key rest _|o h Hh|entry events|sh|b|counters hooks|m|port] Hr;
    try (by apply record_query_ok); destruct Hr as [H1 H2 H3 H4 H5 H6]; try (by split).
  - split; [done|by apply cache_ok_step|done..].
  - split; [done|by apply cache_ok_apply|done..].
  - split; try done. destruct (hub_step_ok (E := bytes) o _ H3) as (h' & E & ?). cbn. congruence.
  - split; [|done..]. by apply apply_updates_ok.
  - unfold SetUpstreamPort. bcase; split; try done. cbn. lia.
Qed.

Lemma atomics_ok r r' : rtc atomic r r' -> resolver_ok r -> resolver_ok r'.
Proof. induction 1; eauto using atomic_ok. Qed.
End atomic.

(** ** Operations are sequences of atomic steps *)

Section guarantee.
Context {U : UnicodeTables} {W : Type} {O : Outside W}.

(** A property of the world that the resolver's own use of it keeps. *)
Record stable (Q : W -> Prop) : Prop := {
  st_now : forall w, Q w -> Q (o_now w).2;
  st_rand : forall n w, Q w -> Q (o_rand n w).2;
  st_lookup : forall timeout host w, Q w -> Q (o_lookupIPs timeout host w).2;
  st_hook : forall n reason w, Q w -> Q (o_hook n reason w)
}.

Lemma stable_True : stable (fun _ => True).
Proof. by split. Qed.

Context {Q : W -> Prop} (HQ : stable Q).

(** Started in a good state, [m] does not panic, changes the resolver by atomic
    steps only, and keeps what holds of the world. *)
Definition guarantees {A} (m : prog W A) : Prop :=
  forall s, resolver_ok s.1 -> Q s.2 ->
    safe (m s).1 /\ rtc atomic s.1 (m s).2.1 /\ Q (m s).2.2.

Lemma g_ret {A} (a : A) : guarantees (mret a).
Proof. intros s _ Hq. split; [done|]. split; [apply rtc_refl|done]. Qed.

Lemma g_bind {A B} (m : prog W A) (k : A -> prog W B) :
  guarantees m -> (forall a, guarantees (k a)) -> guarantees (m ≫= k).
Proof.
  intros Hm Hk s Hs Hq. destruct (Hm s Hs Hq) as (H1 & H2 & H3). unfold mbind, prog_bind.
  destruct (m s) as [[a|e| |] s1]; cbn [fst snd safe] in *; try done.
  destruct (Hk a s1) as (H4 & H5 & H6); [by eapply atomics_ok|done|].
  split; [done|]. split; [by etrans|done].
Qed.

Lemma g_now : guarantees now.
Proof.
  intros [r w] _ Hq. pose proof (st_now _ HQ w Hq). unfold now, r_now. destruct (o_now w).
  split; [done|]. by split; [apply rtc_refl|].
Qed.

Lemma g_get : guarantees get.
Proof. intros s _ Hq. split; [done|]. split; [apply rtc_refl|done]. Qed.

Lemma g_fail {A} e : guarantees (fail e : prog W A).
Proof. intros s _ Hq. split; [done|]. split; [apply rtc_refl|done]. Qed.

Lemma g_update f : (forall r, atomic r (f r)) -> guarantees (update f).
Proof. intros H [r w] _ Hq. split; [done|]. by split; [apply rtc_once|]. Qed.

Lemma g_try_update f :
  (forall r, resolver_ok r -> match f r with
                              | Ok r' => rtc atomic r r' | Err _ => True | _ => False end) ->
  guarantees (try_update f).
Proof.
  intros H [r w] Hr Hq. specialize (H r Hr). unfold try_update. by destruct (f r).
Qed.

(** The first atomic step of a cache call that starts no prefetch. *)
Lemma at_cache_step r o :
  ~ reconfigures o -> atomic r (with_cache r (CacheSpec.step o (r_cache r)).2).
Proof.
  intros Ho. pose proof (at_cache r o [] Ho) as H. rewrite app_nil_r in H. by destruct r.
Qed.

Lemma g_cache_call {A} (f : Z -> Cache -> A * Cache) :
  (forall t c, exists o, ~ reconfigures o /\ (f t c).2 = (CacheSpec.step o c).2) ->
  guarantees (cache_call f).
Proof.
  intros Hf. apply g_bind; [apply g_now|]. intros t [r w] _ Hq. unfold act.
  destruct (Hf t (r_cache r)) as (o & Ho & E). destruct (f t (r_cache r)) as [a c].
  cbn in E. subst c. split; [done|]. split; [by apply rtc_once, at_cache_step|done].
Qed.

Lemma g_GetNegative key : guarantees (cache_call (fun t c => GetNegative t key c)).
Proof.
  apply g_cache_call. intros t c. exists (OGetNegative t key). split; [by intros []|].
  cbn [CacheSpec.step]. by destruct (GetNegative t key c).
Qed.

Lemma g_GetStaleOnError key : guarantees (cache_call (fun t c => GetStaleOnError t key c)).
Proof.
  apply g_cache_call. intros t c. exists (OStaleOnError t key). split; [by intros []|].
  cbn [CacheSpec.step]. by destruct (GetStaleOnError t key c).
Qed.

Lemma g_cache_Get key : guarantees (cache_Get key).
Proof.
  apply g_bind; [apply g_now|]. intros t [r w] _ Hq. unfold act.
  pose proof (at_cache r (OGet t key)) as H. cbn [CacheSpec.step] in H.
  destruct (Get t key (r_cache r)) as [[g started] c]. split; [done|]. split; [|done].
  by apply rtc_once, H; intros [].
Qed.

Lemma g_incSecurityCounter reason s :
  Q s.2 -> rtc atomic s.1 (incSecurityCounter reason s).1 /\ Q (incSecurityCounter reason s).2.
Proof.
  destruct s as [r w]. intros Hq. unfold incSecurityCounter. bcase; [by split; [apply rtc_refl|]|].
  split; [apply rtc_once, at_security|]. cbn [snd] in *. unfold call_hooks.
  revert w Hq. induction (r_secHooks r) as [|k l IH]; intros w Hq; [done|]. apply IH. by apply HQ.
Qed.

Lemma g_is_blocked qname : guarantees (is_blocked qname).
Proof.
  intros [r w] _ Hq. unfold is_blocked. destruct (IsBlocked qname (r_blocklist r)).
  split; [done|]. split; [apply rtc_once, at_blocklist|done].
Qed.

Lemma g_newQueryID : guarantees newQueryID.
Proof.
  intros [r w] _ Hq. unfold newQueryID. pose proof (st_rand _ HQ 16 w Hq) as H1.
  destruct (o_rand 16 w) as [[b|] w1]; cbn [snd] in H1.
  - split; [done|]. by split; [apply rtc_refl|].
  - pose proof (st_now _ HQ w1 H1). destruct (o_now w1). split; [done|]. by split; [apply rtc_refl|].
Qed.

Lemma publish_all_atomic events r :
  hub_inv (r_hub r) ->
  exists h, publish_all events (r_hub r) = Ok h /\ rtc atomic r (with_hub r h).
Proof.
  revert r. induction events as [|e events IH]; intros r Hi; cbn [publish_all].
  { eexists. split; [done|]. destruct r. apply rtc_refl. }
  destruct (hub_step_ok (E := bytes) (HPublish e) (r_hub r) Hi) as (h & E & Hh). cbn [hub_step] in E.
  rewrite E. cbn [mbind result_bind]. destruct (IH (with_hub r h) Hh) as (h' & E' & Ha).
  exists h'. split; [exact E'|]. eapply rtc_l; [by apply (at_hub r (HPublish e) h)|exact Ha].
Qed.

Lemma g_publishTrace id qname qtype msg events cached stale started :
  guarantees (publishTrace id qname qtype msg events cached stale started).
Proof.
  apply g_bind; [apply g_now|]. intros t. apply g_bind.
  - apply g_try_update. intros r Hr.
    destruct (publish_all_atomic events r (ro_hub r Hr)) as (h & -> & Ha). exact Ha.
  - intros _. apply g_bind; [apply g_now|]. intros t'. apply g_update. intros r. apply at_query.
Qed.

Lemma g_finish id qname qtype msg events cached stale soe blocked started :
  guarantees (finish_resolve id qname qtype msg events cached stale soe blocked started).
Proof.
  apply g_bind; [apply g_publishTrace|]. intros _. apply g_bind; [apply g_now|]. intros t. apply g_ret.
Qed.

Lemma g_first_event st id qname qtype err : guarantees (first_event st id qname qtype err).
Proof. apply g_bind; [apply g_now|]. intros t. apply g_ret. Qed.

Lemma g_store_answer key qname qtype msg : guarantees (store_answer key qname qtype msg).
Proof.
  unfold store_answer. cbv zeta. repeat bcase; try apply g_ret; apply g_cache_call; intros t c.
  - exists (OSetNegative t key (h_RCode (m_Header msg)) (TTLFromSOA (Some msg)) (authoritySOAName msg)).
    split; [by intros []|done].
  - exists (OSetNegative t key RCodeNoError (TTLFromSOA (Some msg)) (authoritySOAName msg)).
    split; [by intros []|done].
  - exists (OSet t key (Some msg) (minTTL (Some msg))). split; [by intros []|done].
Qed.

(** What other goroutines do to the resolver and the world while an upstream
    query is under way. *)
Context (interference : forall id n name type servers s,
  resolver_ok s.1 -> Q s.2 ->
  rtc atomic s.1 (o_query id n name type servers s).2.1 /\ Q (o_query id n name type servers s).2.2).

Lemma g_run_recursive id qname qtype cfg : guarantees (run_recursive id qname qtype cfg).
Proof.
  intros s Hs Hq. unfold run_recursive.
  pose proof (@resolveRecursive_safe U _ upstream cfg id qname qtype s) as Hsafe.
  pose proof (@resolveRecursive_preserved U _ upstream (fun s' => rtc atomic s.1 s'.1 /\ Q s'.2)) as Hp.
  assert (rtc atomic s.1 (@resolveRecursive U _ upstream id qname qtype cfg s).2.1
    /\ Q (@resolveRecursive U _ upstream id qname qtype cfg s).2.2) as Ha.
  { apply Hp; [..|by split; [apply rtc_refl|]].
    - intros id' n name type servers s' [H Hq'].
      destruct (interference id' n name type servers s') as [H1 H2]; [by eapply atomics_ok|done|].
      split; [by etrans|done].
    - intros timeout host [r w] [H Hq']. pose proof (st_lookup _ HQ timeout host w Hq') as H1.
      cbn. by destruct (o_lookupIPs timeout host w).
    - intros reason s' [H Hq']. destruct (g_incSecurityCounter reason s' Hq') as [H1 H2].
      split; [by etrans|done].
    - intros [r w] [H Hq']. pose proof (st_now _ HQ w Hq') as H1. cbn. by destruct (o_now w). }
  destruct (resolveRecursive _ _ _ _ _) as [o s1]. cbn [fst snd] in *.
  destruct o as [evs [m|e| |]]; cbn [fst snd] in *; done.
Qed.

Lemma g_resolve_miss started id key qname qtype cfg :
  guarantees (resolve_miss started id key qname qtype cfg).
Proof.
  apply g_bind; [apply g_run_recursive|]. intros [events [msg|e| |]].
  1: { apply g_bind; [apply g_store_answer|]. intros _. apply g_finish. }
  all: apply g_bind; [apply g_GetStaleOnError|]; intros [m|];
    (apply g_bind; [first [apply g_now|apply g_publishTrace]|]; intros t;
     first [apply g_finish|apply g_fail]).
Qed.

Lemma g_Resolve qname qtype : guarantees (Resolve qname qtype).
Proof.
  apply g_bind; [apply g_now|]. intros started. cbv zeta.
  apply g_bind; [apply g_newQueryID|]. intros id. apply g_bind; [apply g_get|]. intros r.
  apply g_bind; [apply g_is_blocked|]. intros [|].
  { apply g_bind; [|intros _; apply g_bind; [apply g_first_event|intros; apply g_finish]].
    intros s _ Hq. split; [done|by apply g_incSecurityCounter]. }
  apply g_bind; [apply g_GetNegative|]. intros [n|].
  { apply g_bind; [apply g_first_event|]. intros events. apply g_finish. }
  apply g_bind; [apply g_cache_Get|]. intros g. destruct (g_Hit g).
  - apply g_bind; [apply g_first_event|]. intros events. apply g_finish.
  - apply g_resolve_miss.
Qed.

Lemma g_prefetchCallback key : guarantees (prefetchCallback key).
Proof.
  unfold prefetchCallback. destruct (Split _ _) as [|a [|b [|c l]]]; try apply g_ret.
  intros s Hs Hq. unfold act.
  destruct (g_Resolve a (if bool_decide (b = "AAAA") then TypeAAAA
    else if bool_decide (b = "MX") then TypeMX else TypeA) s Hs Hq) as [H1 H2].
  destruct (Resolve _ _ s) as [[x|e| |] s']; done.
Qed.

Lemma g_run_prefetch : guarantees run_prefetch.
Proof.
  intros [r w] Hr Hq. unfold run_prefetch. cbn [fst] in *.
  destruct (r_prefetching r) as [|key rest] eqn:E; [split; [done|by split; [apply rtc_refl|]]|].
  assert (atomic r (with_prefetching r rest)) as H0 by (by eapply at_goroutine).
  destruct (g_prefetchCallback key (with_prefetching r rest, w)) as (H1 & H2 & H3);
    [by eapply atomic_ok|done|].
  destruct (prefetchCallback _ _) as [x [r' w']]. cbn [fst snd] in *. split; [done|]. split; [|done].
  eapply rtc_l; [exact H0|]. eapply rtc_r; [exact H2|].
  apply (at_cache_step r' (OPrefetchDone key)). by intros [].
Qed.

Lemma g_ReplaceBlocklist raw : guarantees (ReplaceBlocklist raw).
Proof.
  apply g_bind; [apply g_now|]. intros t. apply g_try_update. intros r _. unfold ReplaceFromText.
  destruct (Replace_returns t (Split raw "010"%char) (r_blocklist r)) as [b ->].
  apply rtc_once, at_blocklist.
Qed.

Lemma g_LoadBlocklist scan path : (forall p, safe (scan p)) -> guarantees (LoadBlocklist scan path).
Proof.
  intros Hs. apply g_bind; [apply g_now|]. intros t. apply g_try_update. intros r _.
  unfold LoadFromFile. bcase; [apply rtc_once, at_blocklist|]. specialize (Hs path).
  destruct (scan path) as [ls|e| |]; cbn [mbind result_bind]; try done.
  destruct (Replace_returns t ls (r_blocklist r)) as [b ->]. apply rtc_once, at_blocklist.
Qed.

Lemma ApplyRuntimeSettings_atomic t m r : rtc atomic r (ApplyRuntimeSettings t m r).2.
Proof.
  destruct m as [m|]; [|apply rtc_refl]. unfold ApplyRuntimeSettings. cbv zeta.
  eapply rtc_l; [apply (at_config r m)|].
  set (r1 := with_cfg r _). etrans; [|].
  - instantiate (1 := if breakers_changed (read_updates m)
      then with_shared r1 (update_breakers (apply_updates (read_updates m) (r_cfg r)) (r_shared r1)) else r1).
    destruct (breakers_changed _); [apply rtc_once, at_shared|apply rtc_refl].
  - destruct (cache_update m); [apply rtc_once, at_cache_config|apply rtc_refl].
Qed.
End guarantee.

(** ** Runs of the resolver *)

Inductive resolver_op :=
| RResolve (qname : bytes) (qtype : Z)
| RPrefetch
| RReplaceBlocklist (raw : bytes)
| RLoadBlocklist (path : bytes)
| RApplySettings (settings : option (gmap bytes any))
| RSetUpstreamPort (port : Z)
| RHub (o : @hub_op ResolutionEvent)
| RCache (o : CacheSpec.op)
| RRootServers
| RUpstreamStatuses
| RAddSecurityHook (fn : option nat)
| RHistory (page limit : Z)
| RTrace (id : bytes)
| RHistoryEntry (id : bytes)
| RBlocklistStats
| RBlocklistDomains
| RSecurityStats
| RCacheStats
| RRuntimeConfig.

(** The end of the page is an [int]. *)
Definition page_fits (page limit : Z) : Prop :=
  (if page <? 1 then 1 else page) * (if limit <=? 0 then 50 else limit) <= MaxInt64.

(** Operations that do not compute beyond the range of an [int]. *)
Definition op_fits (o : resolver_op) : Prop :=
  match o with RHistory page limit => page_fits page limit | _ => True end.

Lemma History_returns page limit r :
  page_fits page limit -> len (r_history r) <= 1000 -> exists l, History page limit r = Ok l.
Proof.
  unfold page_fits, History, MaxInt64. cbv zeta. intros Hf Hl.
  set (p := if page <? 1 then 1 else page) in *. set (n := if limit <=? 0 then 50 else limit) in *.
  assert (1 <= p) by (unfold p; destruct (page <? 1) eqn:?; lia).
  assert (1 <= n) by (unfold n; destruct (limit <=? 0) eqn:?; lia).
  set (off := (p - 1) * n). assert (0 <= off /\ off + n < 2 ^ 63) as [H1 H2] by (unfold off; nia).
  rewrite (i64_small off), (i64_small (off + n)) by (unfold is_i64, MinInt64, MaxInt64; lia).
  destruct (len (r_history r) <=? off) eqn:E; [by eexists|].
  destruct (len (r_history r) <? off + n) eqn:?; rewrite slice_ok by lia; by eexists.
Qed.

Section run.
Context {U : UnicodeTables} {W : Type} {O : Outside W} (scan : bytes -> result bytes (list bytes)).

(** An operation whose result is dropped: an error is part of the result. *)
Definition discard {A} (m : prog W A) : prog W unit := fun s =>
  match m s with
  | (Panic, s') => (Panic, s')
  | (Fuel, s') => (Fuel, s')
  | (_, s') => (Ok tt, s')
  end.

(** A call that only reads. *)
Definition reads {A} (f : Resolver -> A) : prog W unit :=
  r ← get; let _ := f r in mret tt.

Definition resolver_step (o : resolver_op) : prog W unit :=
  match o with
  | RResolve qname qtype => discard (Resolve qname qtype)
  | RPrefetch => discard run_prefetch
  | RReplaceBlocklist raw => discard (ReplaceBlocklist raw)
  | RLoadBlocklist path => discard (LoadBlocklist scan path)
  | RApplySettings m => t ← now; update (fun r => (ApplyRuntimeSettings t m r).2)
  | RSetUpstreamPort port => update (SetUpstreamPort port)
  | RHub o => discard (try_update (fun r => h ← hub_step o (r_hub r); Ok (with_hub r h)))
  | RCache o => update (fun r => with_cache r (CacheSpec.step o (r_cache r)).2)
  | RRootServers => update (fun r => (RootServers r).2)
  | RUpstreamStatuses => update (fun r => (UpstreamStatuses r).2)
  | RAddSecurityHook fn => update (AddSecurityHook fn)
  | RHistory page limit => try_update (fun r => History page limit r;; Ok r)
  | RTrace id => reads (Trace id)
  | RHistoryEntry id => reads (HistoryEntry_ id)
  | RBlocklistStats => reads BlocklistStats_
  | RBlocklistDomains => reads BlocklistDomains
  | RSecurityStats => reads SecurityStats
  | RCacheStats => t ← now; reads (CacheStats t)
  | RRuntimeConfig => reads RuntimeConfig
  end.

Fixpoint resolver_run (os : list resolver_op) : prog W unit :=
  match os with
  | [] => mret tt
  | o :: os' => resolver_step o;; resolver_run os'
  end.

Let any : W -> Prop := fun _ => True.

Lemma g_discard {A} (m : prog W A) : guarantees (Q := any) m -> guarantees (Q := any) (discard m).
Proof.
  intros H s Hs Hq. destruct (H s Hs Hq) as [H1 H2]. unfold discard. by destruct (m s) as [[a|e| |] s'].
Qed.

Lemma g_updates (f : Resolver -> Resolver) :
  (forall r, rtc atomic r (f r)) -> guarantees (Q := any) (update f : prog W unit).
Proof. intros H [r w] _ _. by split. Qed.

Lemma cache_op_atomic o r : rtc atomic r (with_cache r (CacheSpec.step o (r_cache r)).2).
Proof.
  apply rtc_once. destruct o; try (apply at_cache_step; by intros []). apply at_cache_config.
Qed.

Context (interference : forall id n name type servers s,
  resolver_ok s.1 -> rtc atomic s.1 (o_query id n name type servers s).2.1).
Context (scan_returns : forall path, safe (scan path)).

Lemma g_reads {A} (f : Resolver -> A) : guarantees (Q := any) (reads f).
Proof. intros [r w] _ _. by split. Qed.

Lemma g_step o : op_fits o -> guarantees (Q := any) (resolver_step o).
Proof.
  pose proof (stable_True (W := W)) as HT. fold any in HT.
  assert (forall id n name type servers s, resolver_ok s.1 -> any s.2 ->
    rtc atomic s.1 (o_query id n name type servers s).2.1
    /\ any (o_query id n name type servers s).2.2) as Hi by (split; [by apply interference|done]).
  destruct o as [qname qtype| |raw|path|m|port|o|o| | |fn|page limit| | | | | | |];
    cbn [resolver_step op_fits]; intros Hfit; try apply g_reads.
  - apply g_discard. by apply g_Resolve.
  - apply g_discard. by apply g_run_prefetch.
  - by apply g_discard, g_ReplaceBlocklist.
  - apply g_discard. by apply g_LoadBlocklist.
  - apply g_bind; [by apply g_now|]. intros t. apply g_updates. intros r. apply ApplyRuntimeSettings_atomic.
  - apply g_update. intros r. apply at_port.
  - apply g_discard, g_try_update. intros r Hr.
    destruct (hub_step_ok (E := bytes) o _ (ro_hub r Hr)) as (h & E & _). rewrite E.
    apply rtc_once. by eapply at_hub.
  - apply g_updates. intros r. apply cache_op_atomic.
  - apply g_update. intros r. unfold RootServers. destruct (root_statuses _ _ _ _). apply at_shared.
  - apply g_update. intros r. unfold UpstreamStatuses. destruct (add_roots _ _ _ _ _) as [[b o] n].
    apply at_shared.
  - apply g_updates. intros r. unfold AddSecurityHook.
    destruct fn; [apply rtc_once, at_security|apply rtc_refl].
  - apply g_try_update. intros r Hr.
    destruct (History_returns page limit r Hfit (ro_history r Hr)) as [l ->]. apply rtc_refl.
  - apply g_bind; [by apply g_now|]. intros t. apply g_reads.
Qed.

Lemma g_run os : Forall op_fits os -> guarantees (Q := any) (resolver_run os).
Proof.
  induction 1 as [|o os Ho _ IH]; [apply g_ret|]. apply g_bind; [by apply g_step|]. by intros [].
Qed.

Lemma NewResolver_ok t cfg c :
  (forall x, c = Some x -> cache_ok x) -> resolver_ok (NewResolver t cfg c).
Proof.
  intros Hc. split; cbn.
  - apply new_config_ok.
  - apply cache_ok_prefetch. destruct c; [by apply Hc|]. by apply cache_ok_New.
  - apply hub_inv_new.
  - done.
  - intros id [v Hv]. by rewrite lookup_empty in Hv.
  - done.
Qed.

Lemma discard_no_err {A} (m : prog W A) s e : (discard m s).1 <> Err e.
Proof. unfold discard. by destruct (m s) as [[a|e'| |] s']. Qed.

Lemma step_no_err o s e : (resolver_step o s).1 <> Err e.
Proof.
  destruct o; cbn [resolver_step]; try apply discard_no_err; destruct s as [r w]; try done;
    try (unfold reads, mbind, prog_bind, now, r_now; by destruct (o_now w)).
  unfold try_update, History, slice. repeat bcase; done.
Qed.

Lemma run_no_err os s e : (resolver_run os s).1 <> Err e.
Proof.
  revert s. induction os as [|o os IH]; intros s; cbn [resolver_run]; [done|].
  pose proof (step_no_err o s) as H. unfold mbind, prog_bind.
  destruct (resolver_step o s) as [[u|e'| |] s']; [apply IH|done..].
Qed.

(** C6. Any sequence of operations of a new resolver, in which no page of the
    history ends beyond the range of an [int], runs to its end without a panic and
    leaves the resolver well formed: a configuration with usable
    limits, a consistent cache, a hub whose subscribers are open, at most a
    thousand queries in the history, traces only of queries of the history.
    While an upstream query waits, other goroutines may do any number of
    atomic steps; the operations themselves consist of such steps. *)
Theorem resolver_invariant t cfg c os w :
  (forall x, c = Some x -> cache_ok x) -> Forall op_fits os ->
  let r0 := NewResolver t cfg c in
  let '(x, (r, _)) := resolver_run os (r0, w) in
  x = Ok tt /\ resolver_ok r /\ rtc atomic r0 r.
Proof.
  intros Hc Hos r0. pose proof (NewResolver_ok t cfg c Hc) as H0. fold r0 in H0.
  destruct (g_run os Hos (r0, w) H0 I) as (H1 & H2 & _). pose proof (run_no_err os (r0, w)) as H3.
  destruct (resolver_run os (r0, w)) as [x [r w']]. cbn [fst snd] in *.
  split; [|split; [by eapply atomics_ok|done]]. destruct x as [[]|e| |]; [done| |done..]. by destruct (H3 e).
Qed.
End run.

(** ** A small world for the examples

    Its state is a clock that ticks at every reading; name servers give every
    name the address 192.0.2.1. *)

Definition lab_answer (name : bytes) (type : Z) : Message :=
  mkMessage (own_header RCodeNoError) [mkQuestion name type ClassIN]
    [mkRR name TypeA ClassIN 300 (Some (AData (map byte_of_Z [192; 0; 2; 1]))) []] [] [].

#[export] Instance lab : Outside Z := {
  o_query id n name type servers s := (mkAnswer (Some (lab_answer name type)) [] None, s);
  o_lookupIPs timeout host w := (None, w);
  o_hook n reason w := w;
  o_now w := (w, w + 1);
  o_rand n w := (Some (PutUint32 w), w)
}.

Theorem resolver_invariant_witness :
  let r0 := NewResolver 0 DefaultConfig None in
  let os := [RResolve "www.Example.com" TypeA; RResolve "www.example.com." TypeA; RPrefetch;
             RSetUpstreamPort 0; RHub (HSubscribe 2); RReplaceBlocklist "ads.example.com";
             RResolve "ads.example.com" TypeAAAA; RUpstreamStatuses; RHistory 2 1; RCacheStats] in
  let '(x, (r, _)) := @resolver_run latin1 Z lab (fun _ => Ok []) os (r0, 7) in
  x = Ok tt /\ resolver_ok r /\ rtc (@atomic latin1) r0 r.
Proof.
  apply (@resolver_invariant latin1 Z lab (fun _ => Ok [])).
  - intros. apply rtc_refl.
  - done.
  - done.
  - repeat constructor; done.
Defined.
