(* ===== verification/HistoryProps.v ===== *)
(** * The history of the resolver: a window over the last thousand queries. *)

From S2P Require Import Prelude.
From S2P Require Import GoStrings.
From S2P Require Import GoTime.
From S2P Require Import Protocol.
From S2P Require Import Pipeline.
From S2P Require Import Recursive.
From S2P Require Import Cache.
From S2P Require Import Settings.
From S2P Require Import Resolver.
From S2P Require Import ResolverProps.

#[local] Open Scope go_scope.

(** ** The window *)

(** A query that was published: its history entry and its events. *)
Definition published : Type := HistoryEntry * list ResolutionEvent.

(** The last thousand of [qs]. *)
Definition window (qs : list published) : list published := drop (length qs - 1000)%nat qs.

Lemma drop_S_tail {A} n (l : list A) : drop (S n) l = tail (drop n l).
Proof. revert n. induction l as [|x l IH]; intros [|n]; try done. cbn. apply IH. Qed.

Lemma window_snoc qs q :
  window (qs ++ [q]) = (if bool_decide (1000 <= length qs)%nat then tail (window qs) else window qs) ++ [q].
Proof.
  unfold window. rewrite length_app. cbn [length]. case_bool_decide as E.
  - replace (length qs + 1 - 1000)%nat with (S (length qs - 1000)) by lia.
    rewrite drop_app_le by lia. f_equal. apply drop_S_tail.
  - replace (length qs + 1 - 1000)%nat with 0%nat by lia.
    by replace (length qs - 1000)%nat with 0%nat by lia.
Qed.

Lemma length_window qs : length (window qs) = Nat.min (length qs) 1000.
Proof. unfold window. rewrite length_drop. lia. Qed.

Definition query_id (q : published) : bytes := he_QueryID q.1.

(** The query of the list with the identifier. *)
Definition find_id (id : bytes) (l : list published) : option published :=
  List.find (fun q => bool_decide (query_id q = id)) l.

(** What the resolver holds after the queries [qs]. *)
Record recorded (qs : list published) (r : Resolver) : Prop := {
  rec_history : r_history r = map fst (window qs);
  rec_traces : forall id, r_traces r !! id = snd <$> find_id id (window qs)
}.

Lemma find_id_none id l : id ∉ map query_id l -> find_id id l = None.
Proof.
  unfold find_id. induction l as [|q l IH]; [done|]. cbn [map List.find].
  rewrite not_elem_of_cons. intros [H1 H2]. rewrite bool_decide_eq_false_2 by congruence. by apply IH.
Qed.

Lemma find_id_snoc id l q :
  find_id id (l ++ [q])
  = match find_id id l with
    | Some x => Some x
    | None => if bool_decide (query_id q = id) then Some q else None
    end.
Proof. unfold find_id. induction l as [|x l IH]; [done|]. cbn [app List.find]. by destruct (bool_decide (query_id x = id)). Qed.

Lemma find_id_elem q l : NoDup (map query_id l) -> q ∈ l -> find_id (query_id q) l = Some q.
Proof.
  unfold find_id. induction l as [|x l IH]; [intros _ H; by apply elem_of_nil in H|].
  cbn [map List.find]. intros [Hx Hnd]%NoDup_cons [->|Hq]%elem_of_cons.
  - by rewrite bool_decide_eq_true_2.
  - rewrite bool_decide_eq_false_2; [by apply IH|]. intros E. apply Hx. rewrite E.
    by apply (list_elem_of_fmap_2 query_id).
Qed.

Lemma window_suffix qs : exists old, qs = old ++ window qs.
Proof. exists (take (length qs - 1000) qs). symmetry. apply take_drop. Qed.

Lemma record_query_recorded q qs r :
  NoDup (map query_id (qs ++ [q])) ->
  recorded qs r -> recorded (qs ++ [q]) (record_query q.1 q.2 r).
Proof.
  intros Hnd [Hh Ht]. assert (NoDup (map query_id (window qs ++ [q]))) as Hw.
  { destruct (window_suffix qs) as [old E]. rewrite E, <- app_assoc, map_app in Hnd.
    by apply NoDup_app in Hnd as (_ & _ & ?). }
  clear Hnd. unfold record_query. rewrite Hh.
  assert ((1000 <=? len (map fst (window qs))) = bool_decide (1000 <= length qs)%nat) as ->.
  { unfold len. rewrite length_map, length_window. case_bool_decide; lia. }
  split; rewrite window_snoc; (case_bool_decide; [|]).
  - destruct (window qs); by rewrite ?map_app.
  - by rewrite map_app.
  - destruct (window qs) as [|old rest] eqn:E.
    { apply (f_equal length) in E. rewrite length_window in E. cbn in E. lia. }
    intros id. cbn [map tail r_traces with_history]. rewrite find_id_snoc.
    change (he_QueryID q.1) with (query_id q). cbn [app map] in Hw.
    apply NoDup_cons in Hw as [Hold Hw]. rewrite map_app in Hw, Hold.
    apply NoDup_app in Hw as (Hr & Hq & _). specialize (Hq (query_id q)).
    destruct (decide (query_id q = id)) as [<-|Hne].
    + rewrite lookup_insert_eq, find_id_none; [by rewrite bool_decide_eq_true_2|].
      intros Hin. apply (Hq Hin). by left.
    + rewrite lookup_insert_ne, bool_decide_eq_false_2 by done.
      change (he_QueryID old.1) with (query_id old).
      destruct (decide (query_id old = id)) as [<-|Hne'].
      * rewrite lookup_delete_eq, find_id_none; [done|]. intros Hin. apply Hold.
        apply elem_of_app. by left.
      * rewrite lookup_delete_ne, Ht by done. unfold find_id at 1. cbn [List.find].
        rewrite bool_decide_eq_false_2 by done. fold (find_id id rest). by destruct (find_id id rest).
  - intros id. cbn [r_traces with_history]. rewrite find_id_snoc.
    change (he_QueryID q.1) with (query_id q). rewrite map_app in Hw.
    apply NoDup_app in Hw as (_ & Hq & _). specialize (Hq (query_id q)).
    destruct (decide (query_id q = id)) as [<-|Hne].
    + rewrite lookup_insert_eq, find_id_none; [by rewrite bool_decide_eq_true_2|].
      intros Hin. apply (Hq Hin). by left.
    + rewrite lookup_insert_ne, bool_decide_eq_false_2, Ht by done. by destruct (find_id id _).
Qed.

(** ** Publishing and paging *)

(** The arguments of [publishTrace]. *)
Record query_done := mkQueryDone {
  q_id : bytes; q_name : bytes; q_type : Z; q_msg : option Message; q_events : list ResolutionEvent;
  q_cached : bool; q_stale : bool; q_started : Z
}.

(** What is recorded of a query, apart from the clock readings. *)
Definition published_as (q : query_done) (p : published) : Prop :=
  p.2 = q_events q /\ exists timestamp duration,
    p.1 = mkHistoryEntry (q_id q) timestamp (q_name q) (TypeToString (q_type q))
            (match q_msg q with Some m => RCodeToString (h_RCode (m_Header m)) | None => "SERVFAIL" end)
            (dnssecStatus (q_msg q)) duration (q_cached q) (q_stale q).

Section publish.
Context {W : Type} {O : Outside W}.

Fixpoint publish_run (qs : list query_done) : prog W unit :=
  match qs with
  | [] => mret tt
  | q :: qs' =>
      publishTrace (q_id q) (q_name q) (q_type q) (q_msg q) (q_events q) (q_cached q) (q_stale q)
        (q_started q);;
      publish_run qs'
  end.

Lemma publish_all_ok events h : hub_inv h -> exists h', publish_all events h = Ok h' /\ hub_inv h'.
Proof.
  revert h. induction events as [|e events IH]; intros h Hi; cbn [publish_all]; [by exists h|].
  destruct (hub_step_ok (E := bytes) (HPublish e) h Hi) as (h' & E & Hi'). cbn [hub_step] in E.
  rewrite E. by apply IH.
Qed.

Lemma publishTrace_records q (r : Resolver) (w : W) :
  hub_inv (r_hub r) ->
  exists p h w', publishTrace (q_id q) (q_name q) (q_type q) (q_msg q) (q_events q) (q_cached q)
      (q_stale q) (q_started q) (r, w) = (Ok tt, (record_query p.1 p.2 (with_hub r h), w'))
    /\ hub_inv h /\ published_as q p.
Proof.
  intros Hi. destruct (publish_all_ok (q_events q) _ Hi) as (h & E & Hi').
  unfold publishTrace, mbind, prog_bind, now, r_now, try_update, update. destruct (o_now w) as [t w1].
  rewrite E. cbn [result_bind mbind]. destruct (o_now w1) as [t' w2].
  eexists (_, q_events q), h, w2. cbn [fst snd]. split; [reflexivity|]. split; [done|].
  split; [done|]. cbn [fst]. by eexists _, _.
Qed.

Lemma record_query_hub e evs r : r_hub (record_query e evs r) = r_hub r.
Proof.
  unfold record_query. destruct (_ <=? _); [|done]. by destruct (r_history r).
Qed.

Lemma recorded_hub qs r h : recorded qs r -> recorded qs (with_hub r h).
Proof. by intros []. Qed.

Lemma published_as_id q p : published_as q p -> query_id p = q_id q.
Proof. unfold query_id. by intros (_ & t & d & ->). Qed.

Lemma publish_run_recorded qs ps r w :
  hub_inv (r_hub r) -> recorded ps r -> NoDup (map query_id ps ++ map q_id qs) ->
  exists ps' r' w', publish_run qs (r, w) = (Ok tt, (r', w')) /\ Forall2 published_as qs ps'
    /\ recorded (ps ++ ps') r'.
Proof.
  revert ps r w. induction qs as [|q qs IH]; intros ps r w Hi Hr Hnd; cbn [publish_run].
  { exists [], r, w. by rewrite app_nil_r. }
  destruct (publishTrace_records q r w Hi) as (p & h & w1 & E & Hh & Hp).
  unfold mbind at 1, prog_bind at 1. rewrite E. cbn [map] in Hnd.
  rewrite <- (published_as_id q p Hp) in Hnd.
  assert (NoDup (map query_id (ps ++ [p]))) as Hnd1.
  { rewrite map_app. cbn [map]. rewrite (cons_middle (query_id p)), app_assoc in Hnd.
    by apply NoDup_app in Hnd as (? & _ & _). }
  destruct (IH (ps ++ [p]) (record_query p.1 p.2 (with_hub r h)) w1) as (ps' & r' & w' & E' & Hf & Hr').
  - by rewrite record_query_hub.
  - by apply record_query_recorded; [|apply recorded_hub].
  - rewrite map_app. cbn [map]. by rewrite <- app_assoc.
  - exists (p :: ps'), r', w'. split; [exact E'|]. split; [by constructor|].
    by rewrite <- app_assoc in Hr'.
Qed.

(** The page the caller asks for, when its bounds fit an [int]. *)
Lemma History_page page limit r :
  1 <= page -> 1 <= limit -> page * limit < 2 ^ 63 -> len (r_history r) < 2 ^ 63 ->
  History page limit r = Ok (take (Z.to_nat limit) (drop (Z.to_nat ((page - 1) * limit)) (r_history r))).
Proof.
  intros Hp Hl Ho Hh. unfold History.
  assert ((page <? 1) = false) as -> by lia. assert ((limit <=? 0) = false) as -> by lia. cbv zeta.
  set (off := (page - 1) * limit). assert (0 <= off /\ off + limit < 2 ^ 63) as [H1 H2] by (unfold off; nia).
  rewrite (i64_small off), (i64_small (off + limit)) by (unfold is_i64, MinInt64, MaxInt64; lia).
  destruct (len (r_history r) <=? off) eqn:E.
  - rewrite drop_ge by (unfold len in E; lia). by rewrite take_nil.
  - set (stop := if len (r_history r) <? off + limit then _ else _).
    assert (stop = Z.min (len (r_history r)) (off + limit)) as ->
      by (unfold stop; destruct (_ <? _) eqn:?; lia).
    rewrite slice_ok by lia. unfold sub. f_equal.
    destruct (Z.min_spec (len (r_history r)) (off + limit)) as [[? ->]|[? ->]].
    + rewrite !take_ge; [done|..]; rewrite length_drop; unfold len in *; lia.
    + f_equal. lia.
Qed.

(** The entry found by its identifier. *)
Lemma HistoryEntry_find id r (l : list published) :
  r_history r = map fst l -> HistoryEntry_ id r = fst <$> find_id id l.
Proof.
  unfold HistoryEntry_, find_id. intros ->. induction l as [|q l IH]; [done|]. cbn [map List.find].
  unfold query_id. destruct (bool_decide (he_QueryID q.1 = id)); [done|exact IH].
Qed.
End publish.

(** C20. The history and the traces hold exactly the last thousand queries: each
    of them is found by its identifier with its own events, earlier ones are
    forgotten with their traces, and the pages cut the history into blocks of
    the size asked for, in the order of the queries. *)
Theorem history_window {W} {O : Outside W} t cfg c qs (w : W) page limit :
  NoDup (map q_id qs) -> 1 <= page -> 1 <= limit -> page * limit < 2 ^ 63 ->
  exists ps r w', publish_run qs (NewResolver t cfg c, w) = (Ok tt, (r, w'))
    /\ Forall2 published_as qs ps
    /\ History page limit r
       = Ok (take (Z.to_nat limit) (drop (Z.to_nat ((page - 1) * limit)) (map fst (window ps))))
    /\ (forall p, p ∈ window ps -> Trace (query_id p) r = p.2 /\ HistoryEntry_ (query_id p) r = Some p.1)
    /\ (forall id, id ∉ map query_id (window ps) -> Trace id r = [] /\ HistoryEntry_ id r = None).
Proof.
  intros Hnd Hp Hl Ho.
  destruct (publish_run_recorded qs [] (NewResolver t cfg c) w) as (ps & r & w' & E & Hf & Hh & Ht);
    [apply hub_inv_new|by split|done|].
  cbn [app] in Hh, Ht. exists ps, r, w'.
  assert (NoDup (map query_id ps)) as Hps.
  { assert (map query_id ps = map q_id qs) as ->; [|done]. clear -Hf.
    induction Hf; [done|]. cbn [map]. f_equal; [by apply published_as_id|done]. }
  assert (NoDup (map query_id (window ps))) as Hw.
  { destruct (window_suffix ps) as [old Eo]. rewrite Eo, map_app in Hps. by apply NoDup_app in Hps as (_ & _ & ?). }
  split; [done|]. split; [done|]. split.
  { rewrite <- Hh. apply History_page; try done. rewrite Hh. unfold len. rewrite length_map, length_window. lia. }
  unfold Trace. split.
  - intros p Hin. by rewrite (HistoryEntry_find _ _ _ Hh), Ht, (find_id_elem p).
  - intros id Hin. by rewrite (HistoryEntry_find _ _ _ Hh), Ht, (find_id_none id).
Qed.

Definition lab_query (id : bytes) : query_done :=
  mkQueryDone id "example.com." TypeA (Some (lab_answer "example.com." TypeA))
    [local_event id 5 1 "cache_hit" "example.com." "A" ""] true false 0.

Theorem history_window_witness :
  let qs := [lab_query "q1"; lab_query "q2"; lab_query "q3"] in
  exists ps r w', @publish_run Z lab qs (NewResolver 0 DefaultConfig None, 7) = (Ok tt, (r, w'))
    /\ Forall2 published_as qs ps
    /\ History 2 2 r = Ok (take 2 (drop 2 (map fst (window ps))))
    /\ (forall p, p ∈ window ps -> Trace (query_id p) r = p.2 /\ HistoryEntry_ (query_id p) r = Some p.1)
    /\ (forall id, id ∉ map query_id (window ps) -> Trace id r = [] /\ HistoryEntry_ id r = None).
Proof.
  apply (@history_window Z lab 0 DefaultConfig None _ 7 2 2); [|done..].
  apply (bool_decide_unpack _). vm_compute. exact I.
Defined.

(** A page number that makes the offset overflow: the lower bound of the slice
    is negative, even when the history is empty. *)
Theorem History_overflow r : History (2 ^ 61 + 1) 4 r = Panic.
Proof.
  unfold History. change (2 ^ 61 + 1 <? 1) with false. change (4 <=? 0) with false. cbv iota zeta.
  assert (i64 ((2 ^ 61 + 1 - 1) * 4) = - 2 ^ 63) as -> by reflexivity.
  assert (i64 (- 2 ^ 63 + 4) = - 2 ^ 63 + 4) as -> by reflexivity.
  pose proof (len_nonneg (r_history r)). bcase; [lia|]. bcase; [lia|]. unfold slice. by bcase.
Qed.
