(* ===== verification/ResolveProps.v ===== *)
(** * What [Resolve] answers: the blocklist, the caches, the resolution. *)

From S2P Require Import Prelude.
From S2P Require Import GoStrings.
From S2P Require Import GoTime.
From S2P Require Import Protocol.
From S2P Require Import Names.
From S2P Require Import Blocklist.
From S2P Require Import Cache.
From S2P Require Import Pipeline.
From S2P Require Import Recursive.
From S2P Require Import RecursiveProps.
From S2P Require Import Race.
From S2P Require Import Settings.
From S2P Require Import CacheContract.
From S2P Require Import Resolver.
From S2P Require Import ResolverProps.
From S2P Require Import HistoryProps.

#[local] Open Scope go_scope.

(** ** Reasoning about programs *)

Section wp.
Context {W : Type}.

(** What holds when the program returns normally. *)
Definition wp {A} (m : prog W A) (Q : A -> Resolver * W -> Prop) (s : Resolver * W) : Prop :=
  match m s with (Ok a, s') => Q a s' | _ => True end.

(** The program returns normally, and [Q] holds then. *)
Definition twp {A} (m : prog W A) (Q : A -> Resolver * W -> Prop) (s : Resolver * W) : Prop :=
  match m s with (Ok a, s') => Q a s' | _ => False end.

Lemma wp_bind {A B} (m : prog W A) (k : A -> prog W B) Q s :
  wp m (fun a s' => wp (k a) Q s') s -> wp (m ≫= k) Q s.
Proof. unfold wp, mbind, prog_bind. by destruct (m s) as [[a|e| |] s']. Qed.

Lemma twp_bind {A B} (m : prog W A) (k : A -> prog W B) Q s :
  twp m (fun a s' => twp (k a) Q s') s -> twp (m ≫= k) Q s.
Proof. unfold twp, mbind, prog_bind. by destruct (m s) as [[a|e| |] s']. Qed.

Lemma wp_mono {A} (m : prog W A) (P Q : A -> Resolver * W -> Prop) s :
  wp m P s -> (forall a s', P a s' -> Q a s') -> wp m Q s.
Proof. unfold wp. destruct (m s) as [[a|e| |] s']; auto. Qed.

(** The cache and the blocklist are the same. *)
Definition same_data (s s' : Resolver * W) : Prop :=
  r_cache s'.1 = r_cache s.1 /\ r_blocklist s'.1 = r_blocklist s.1.

#[export] Instance same_data_preorder : PreOrder same_data.
Proof. split; [by intros s|]. intros s1 s2 s3 [E1 E2] [E3 E4]. split; congruence. Qed.

Definition keeps {A} (m : prog W A) : Prop := forall s, same_data s (m s).2.

Lemma keeps_bind {A B} (m : prog W A) (k : A -> prog W B) :
  keeps m -> (forall a, keeps (k a)) -> keeps (m ≫= k).
Proof.
  intros Hm Hk s. specialize (Hm s). unfold mbind, prog_bind.
  destruct (m s) as [[a|e| |] s']; try exact Hm. etrans; [exact Hm|apply Hk].
Qed.

Lemma wp_any {A} (m : prog W A) (Q : A -> Resolver * W -> Prop) s : (forall a s', Q a s') -> wp m Q s.
Proof. intros H. unfold wp. by destruct (m s) as [[a|e| |] s']. Qed.

Lemma wp_keeps {A} (m : prog W A) Q s :
  keeps m -> (forall a s', same_data s s' -> Q a s') -> wp m Q s.
Proof. intros H HQ. specialize (H s). unfold wp. destruct (m s) as [[a|e| |] s']; try done. by apply HQ. Qed.
End wp.

Section frame.
Context {U : UnicodeTables} {W : Type} {O : Outside W}.

Lemma keeps_now : keeps now.
Proof. intros [r w]. unfold now, r_now. by destruct (o_now w). Qed.

Lemma keeps_ret {A} (a : A) : keeps (mret a : prog W A).
Proof. by intros s. Qed.

Lemma keeps_update (f : Resolver -> Resolver) :
  (forall r, r_cache (f r) = r_cache r /\ r_blocklist (f r) = r_blocklist r) -> keeps (update f : prog W unit).
Proof. intros H [r w]. apply H. Qed.

Lemma record_query_data e evs r :
  r_cache (record_query e evs r) = r_cache r /\ r_blocklist (record_query e evs r) = r_blocklist r.
Proof. unfold record_query. destruct (_ <=? _); [|done]. by destruct (r_history r). Qed.

Lemma keeps_publishTrace id qname qtype msg events cached stale started :
  keeps (publishTrace id qname qtype msg events cached stale started).
Proof.
  apply keeps_bind; [apply keeps_now|]. intros t. apply keeps_bind.
  - intros [r w]. unfold try_update. destruct (publish_all _ _) as [h|e| |]; done.
  - intros _. apply keeps_bind; [apply keeps_now|]. intros t'. apply keeps_update.
    intros r. apply record_query_data.
Qed.

Lemma keeps_newQueryID : keeps newQueryID.
Proof.
  intros [r w]. unfold newQueryID. destruct (o_rand 16 w) as [[b|] w1]; [done|]. by destruct (o_now w1).
Qed.

Lemma keeps_first_event st id qname qtype err : keeps (first_event st id qname qtype err).
Proof. apply keeps_bind; [apply keeps_now|]. intros t. apply keeps_ret. Qed.

Lemma keeps_incSecurityCounter reason s : same_data s (incSecurityCounter reason s).
Proof. destruct s as [r w]. unfold incSecurityCounter. by bcase. Qed.

(** The result that [finish_resolve] builds, apart from the duration. *)
Definition result_of (msg : option Message) (events : list ResolutionEvent)
    (cached stale soe blocked : bool) (res : ResolveResult) : Prop :=
  rr_Message res = msg /\ rr_Events res = events /\ rr_Cached res = cached /\ rr_Stale res = stale
  /\ rr_StaleOnError res = soe /\ rr_DNSSECStatus res = dnssecStatus msg /\ rr_Blocked res = blocked.

Lemma wp_finish id qname qtype msg events cached stale soe blocked started s :
  wp (finish_resolve id qname qtype msg events cached stale soe blocked started)
    (fun res s' => result_of msg events cached stale soe blocked res /\ same_data s s') s.
Proof.
  apply wp_bind, wp_keeps; [apply keeps_publishTrace|]. intros _ s1 H1.
  apply wp_bind, wp_keeps; [apply keeps_now|]. intros t s2 H2. cbn. split; [done|]. by etrans.
Qed.

Lemma twp_finish id qname qtype msg events cached stale soe blocked started s :
  hub_inv (r_hub s.1) ->
  twp (finish_resolve id qname qtype msg events cached stale soe blocked started)
    (fun res s' => result_of msg events cached stale soe blocked res /\ same_data s s') s.
Proof.
  intros Hi. destruct s as [r w].
  pose proof (wp_finish id qname qtype msg events cached stale soe blocked started (r, w)) as H.
  destruct (publishTrace_records (mkQueryDone id qname qtype msg events cached stale started) r w Hi)
    as (p & h & w' & E & _). cbn in E.
  unfold wp, twp, finish_resolve in *. unfold mbind, prog_bind in *. rewrite E in *.
  unfold now, r_now in *. by destruct (o_now w').
Qed.
End frame.

(** ** Blocked names *)

Section blocked.
Context {U : UnicodeTables} {W : Type} {O : Outside W}.

(** The answer of a blocked name. *)
Definition answered_blocked (qname : bytes) (qtype : Z) (res : ResolveResult) : Prop :=
  rr_Message res = Some (nxdomainMessage qname qtype) /\ rr_Blocked res = true /\ rr_Cached res = false
  /\ exists id t, rr_Events res
       = [local_event id t 1 "blocked" qname (TypeToString qtype) "blocked by local blocklist"].

Lemma twp_now Q r (w : W) : (forall t w', Q t (r, w')) -> twp now Q (r, w).
Proof. intros H. unfold twp, now, r_now. destruct (o_now w). apply H. Qed.

Lemma twp_newQueryID Q r (w : W) : (forall id w', Q id (r, w')) -> twp newQueryID Q (r, w).
Proof.
  intros H. unfold twp, newQueryID. destruct (o_rand 16 w) as [[b|] w1]; [apply H|].
  destruct (o_now w1). apply H.
Qed.

Lemma twp_first_event st id qname qtype err Q r (w : W) :
  (forall t w', Q [local_event id t 1 st qname (TypeToString qtype) err] (r, w')) ->
  twp (first_event st id qname qtype err) Q (r, w).
Proof. intros H. apply twp_bind, twp_now. intros t w'. apply H. Qed.

Lemma twp_Resolve_blocked qname qtype r (w : W) :
  let n := normalizeFQDN qname in
  hub_inv (r_hub r) -> (IsBlocked n (r_blocklist r)).1 = true ->
  twp (Resolve qname qtype) (fun res s' => answered_blocked n qtype res /\ r_cache s'.1 = r_cache r) (r, w).
Proof.
  intros n Hi Hb. apply twp_bind, twp_now. intros started w1. cbv zeta. fold n.
  apply twp_bind, twp_newQueryID. intros id w2. apply twp_bind. unfold twp at 1, get.
  apply twp_bind. unfold twp at 1, is_blocked. rewrite IsBlocked_state, Hb.
  apply twp_bind. unfold twp at 1, act, incSecurityCounter. destruct (bool_decide _); [|];
    (apply twp_bind, twp_first_event; intros t w3;
     match goal with |- twp (finish_resolve ?id ?n ?q ?m ?e _ _ _ _ ?st) _ ?s =>
       pose proof (twp_finish id n q m e false false false true st s Hi) as H end;
     unfold twp in *; destruct (finish_resolve _ _ _ _ _ _ _ _ _ _ _) as [[res|e| |] s']; try done;
     destruct H as [(? & He & ? & ? & ? & _ & ?) [Hc _]]; unfold answered_blocked; ands; eauto).
Qed.

Lemma wp_finish_blocked id qname qtype msg events cached stale soe started (s : Resolver * W) :
  wp (finish_resolve id qname qtype msg events cached stale soe false started)
    (fun res _ => rr_Blocked res = false) s.
Proof. eapply wp_mono; [apply wp_finish|]. by intros res s' [(_ & _ & _ & _ & _ & _ & ?) _]. Qed.

Lemma wp_Resolve_unblocked qname qtype r (w : W) :
  (IsBlocked (normalizeFQDN qname) (r_blocklist r)).1 = false ->
  wp (Resolve qname qtype) (fun res _ => rr_Blocked res = false) (r, w).
Proof.
  intros Hb. apply wp_bind, wp_keeps; [apply keeps_now|]. intros started s1 [_ B1]. cbv zeta.
  apply wp_bind, wp_keeps; [apply keeps_newQueryID|]. intros id s2 [_ B2].
  apply wp_bind. unfold wp at 1, get. apply wp_bind. unfold wp at 1, is_blocked.
  destruct s2 as [r2 w2]. cbn [fst] in *. rewrite IsBlocked_state, B2, B1, Hb.
  apply wp_bind, wp_any. intros [n|] s3.
  { apply wp_bind, wp_any. intros evs s4. apply wp_finish_blocked. }
  apply wp_bind, wp_any. intros g s4. destruct (g_Hit g).
  { apply wp_bind, wp_any. intros evs s5. apply wp_finish_blocked. }
  apply wp_bind, wp_any. intros [evs [msg|e| |]] s5.
  1: apply wp_bind, wp_any; intros [] s6; apply wp_finish_blocked.
  all: apply wp_bind, wp_any; intros [m|] s6; apply wp_bind, wp_any; intros x s7;
    [apply wp_finish_blocked|done].
Qed.

(** A result always has a message. *)
Lemma wp_finish_message id qname qtype m events cached stale soe blocked started (s : Resolver * W) :
  wp (finish_resolve id qname qtype (Some m) events cached stale soe blocked started)
    (fun res _ => is_Some (rr_Message res)) s.
Proof. eapply wp_mono; [apply wp_finish|]. intros res s' [(-> & _) _]. by eexists. Qed.

Lemma wp_cache_Get_message key (s : Resolver * W) :
  wp (cache_Get key) (fun g _ => g_Hit g = true -> is_Some (g_Message g)) s.
Proof.
  destruct s as [r w]. unfold wp, cache_Get, mbind, prog_bind, now, r_now, act. destruct (o_now w) as [t w1].
  cbn [r_cache].
  assert (g_Hit (Get t key (r_cache r)).1.1 = true -> is_Some (g_Message (Get t key (r_cache r)).1.1)) as H.
  { unfold Get. cbv zeta. destruct (c_items (r_cache r) !! key); [|done].
    repeat first [match goal with |- context [maybePrefetchLocked ?a ?b ?c] =>
      destruct (maybePrefetchLocked a b c) end | bcase]; try done; intros _; by eexists. }
  by destruct (Get t key (r_cache r)) as [[g st] c].
Qed.

Lemma wp_Resolve_message qname qtype (s : Resolver * W) :
  wp (Resolve qname qtype) (fun res _ => is_Some (rr_Message res)) s.
Proof.
  apply wp_bind, wp_any. intros started s1. cbv zeta. apply wp_bind, wp_any. intros id s2.
  apply wp_bind, wp_any. intros r s3. apply wp_bind, wp_any. intros [] s4.
  { apply wp_bind, wp_any. intros x s5. apply wp_bind, wp_any. intros evs s6. apply wp_finish_message. }
  apply wp_bind, wp_any. intros [n|] s5.
  { apply wp_bind, wp_any. intros evs s6. apply wp_finish_message. }
  apply wp_bind. eapply wp_mono; [apply wp_cache_Get_message|]. intros g s6 Hg. cbn beta in Hg. destruct (g_Hit g).
  { destruct (Hg eq_refl) as [m ->]. apply wp_bind, wp_any. intros evs s7. apply wp_finish_message. }
  apply wp_bind, wp_any. intros [evs [msg|e| |]] s7.
  1: apply wp_bind, wp_any; intros [] s8; apply wp_finish_message.
  all: apply wp_bind, wp_any; intros [m|] s8; apply wp_bind, wp_any; intros x s9;
    [apply wp_finish_message|done].
Qed.

(** A resolution that knows no blocklist. *)
Definition unfiltered (qname : bytes) (qtype : Z) : prog W ResolveResult :=
  started ← now;
  let qname := normalizeFQDN qname in
  let key := cacheKey qname qtype in
  queryID ← newQueryID;
  r ← get;
  neg ← cache_call (fun t c => GetNegative t key c);
  match neg with
  | Some n =>
      events ← first_event "cache_hit" queryID qname qtype "";
      finish_resolve queryID qname qtype (Some (negativeCacheMessage qname qtype (n_RCode n))) events
        true false false false started
  | None =>
      cached ← cache_Get key;
      if g_Hit cached then
        events ← first_event "cache_hit" queryID qname qtype "";
        finish_resolve queryID qname qtype (g_Message cached) events true (g_Stale cached) false false started
      else resolve_miss started queryID key qname qtype (r_cfg r)
  end.

Lemma bind_ext {A B} (m : prog W A) (k k' : A -> prog W B) s :
  (forall a s', m s = (Ok a, s') -> k a s' = k' a s') -> (m ≫= k) s = (m ≫= k') s.
Proof. intros H. unfold mbind, prog_bind. destruct (m s) as [[a|e| |] s'] eqn:E; [by apply H|done..]. Qed.

Lemma Resolve_unfiltered qname qtype r (w : W) :
  (IsBlocked (normalizeFQDN qname) (r_blocklist r)).1 = false ->
  Resolve qname qtype (r, w) = unfiltered qname qtype (r, w).
Proof.
  intros Hb. apply bind_ext. intros started [r1 w1] E1. cbv zeta.
  assert (r1 = r) as -> by (unfold now, r_now in E1; destruct (o_now w); by injection E1).
  apply bind_ext. intros id [r2 w2] E2.
  assert (r2 = r) as ->.
  { unfold newQueryID in E2. destruct (o_rand 16 w1) as [[b|] w3]; [by injection E2|].
    destruct (o_now w3). by injection E2. }
  apply bind_ext. intros r3 s E3. unfold get in E3. injection E3 as <- <-. cbn [fst]. unfold mbind at 1, prog_bind at 1, is_blocked.
  rewrite IsBlocked_state, Hb. assert (with_blocklist r (r_blocklist r) = r) as -> by by destruct r. done.
Qed.

(** C22. After a blocklist text is loaded the resolver answers the names it
    lists with NXDOMAIN and leaves the cache alone; the trace has the one event of
    the refusal.  Listed are the names of the text and, for an entry
    [*.suffix], the names below [suffix].  Any other name is resolved as without
    a blocklist, unless it ends with the text of a wildcard's suffix within a
    label ([blocklist_wildcard_no_boundary]). *)
Theorem resolve_blocked raw qname qtype r (w : W) :
  resolver_ok r ->
  let n := normalizeFQDN qname in
  let es := entries (Split raw "010"%char) in
  exists s, ReplaceBlocklist raw (r, w) = (Ok tt, s)
    /\ (listed es (normalizeFQDN n) -> exists res s', Resolve qname qtype s = (Ok res, s')
          /\ answered_blocked n qtype res /\ r_cache s'.1 = r_cache r)
    /\ (~ listed es (normalizeFQDN n) -> ~ resembles es (normalizeFQDN n) ->
        Resolve qname qtype s = unfiltered qname qtype s
        /\ forall res s', Resolve qname qtype s = (Ok res, s') -> rr_Blocked res = false).
Proof.
  intros Hr n es. unfold ReplaceBlocklist, mbind, prog_bind, now, r_now. destruct (o_now w) as [t w1].
  destruct (Replace_decides t (Split raw "010"%char) (r_blocklist r)) as (b & E & Hd).
  unfold try_update, ReplaceFromText. rewrite E. eexists. split; [done|]. split.
  - intros Hl. apply listed_blocked, Hd in Hl.
    pose proof (twp_Resolve_blocked qname qtype (with_blocklist r b) w1 (ro_hub r Hr) Hl) as H.
    unfold twp in H. destruct (Resolve _ _ _) as [[res|e| |] s']; try done. by exists res, s'.
  - intros Hl Hs.
    assert ((IsBlocked n b).1 = false) as Hb.
    { apply not_true_is_false. intros [?|?]%Hd%blocked_listed; tauto. }
    split; [by apply Resolve_unfiltered|]. intros res s' Er.
    pose proof (wp_Resolve_unblocked qname qtype (with_blocklist r b) w1 Hb) as H. unfold wp in H.
    by rewrite Er in H.
Qed.
End blocked.

(** ** An answer is kept *)

Section stored.
Context {U : UnicodeTables} {W : Type} {O : Outside W}.

(** Nobody else touches the cache and the blocklist during an upstream query. *)
Context (quiet : forall id n name type servers s,
  rtc atomic s.1 (o_query id n name type servers s).2.1 /\ same_data s (o_query id n name type servers s).2).
(** The readings of the clock. *)
Context (T0 T1 : Z) (clock : forall w, T0 <= (o_now w).1 < T1).

(** A response that is kept as a positive answer. *)
Definition positive (m : Message) (qname : bytes) (qtype : Z) : Prop :=
  h_RCode (m_Header m) = RCodeNoError /\ shouldCacheAsNODATA (Some m) qname qtype = false
  /\ m_Answers m <> [].

Definition answered (key : bytes) (m : Message) (t : Z) (c : Cache) : Prop :=
  cache_ok c /\ ac_fresh key (cloneMessage m) t c /\ ~ ac_denied key c.

(** Looked up in vain: the cache is sound and the key is not denied. *)
Definition open_for (key : bytes) (ttl : Z) (c : Cache) : Prop :=
  cache_ok c /\ c_minTTL c = ttl /\ ~ ac_denied key c.

Lemma wp_cache_call {A} (f : Z -> Cache -> A * Cache) Q s :
  (forall t w', T0 <= t < T1 -> Q (f t (r_cache s.1)).1 (with_cache s.1 (f t (r_cache s.1)).2, w')) ->
  wp (cache_call f) Q s.
Proof.
  intros H. destruct s as [r w]. unfold wp, cache_call, mbind, prog_bind, now, r_now, act.
  pose proof (clock w) as Hc. destruct (o_now w) as [t w1]. cbn [fst snd] in *.
  specialize (H t w1 Hc). by destruct (f t (r_cache r)).
Qed.

Lemma twp_cache_call {A} (f : Z -> Cache -> A * Cache) Q s :
  (forall t w', T0 <= t < T1 -> Q (f t (r_cache s.1)).1 (with_cache s.1 (f t (r_cache s.1)).2, w')) ->
  twp (cache_call f) Q s.
Proof.
  intros H. destruct s as [r w]. unfold twp, cache_call, mbind, prog_bind, now, r_now, act.
  pose proof (clock w) as Hc. destruct (o_now w) as [t w1]. cbn [fst snd] in *.
  specialize (H t w1 Hc). by destruct (f t (r_cache r)).
Qed.

Lemma wp_cache_Get key Q s :
  (forall t pre w', T0 <= t < T1 -> Q (Get t key (r_cache s.1)).1.1
     (with_prefetching (with_cache s.1 (Get t key (r_cache s.1)).2) pre, w')) ->
  wp (cache_Get key) Q s.
Proof.
  intros H. destruct s as [r w]. unfold wp, cache_Get, mbind, prog_bind, now, r_now, act.
  pose proof (clock w) as Hc. destruct (o_now w) as [t w1]. cbn [fst snd] in *.
  destruct (Get t key (r_cache r)) as [[g started] c] eqn:E.
  specialize (H t (r_prefetching r ++ started) w1 Hc). by rewrite E in H.
Qed.

Lemma keeps_run_recursive id qname qtype cfg : keeps (run_recursive id qname qtype cfg).
Proof.
  intros s. unfold run_recursive.
  pose proof (@resolveRecursive_preserved U _ upstream (same_data s)) as Hp.
  assert (same_data s (@resolveRecursive U _ upstream id qname qtype cfg s).2) as H.
  { apply Hp; [..|done].
    - intros id' n name type servers s' H. etrans; [exact H|apply quiet].
    - intros timeout host [r w] H. cbn. by destruct (o_lookupIPs timeout host w).
    - intros reason s' H. etrans; [exact H|apply keeps_incSecurityCounter].
    - intros [r w] H. cbn. by destruct (o_now w). }
  destruct (resolveRecursive _ _ _ _ _) as [[evs [m|e| |]] s1]; exact H.
Qed.

Lemma cacheKey_nonempty qname qtype : cacheKey qname qtype <> "".
Proof. unfold cacheKey. destruct (ToLower _); done. Qed.

Lemma wp_store_answer key qname qtype ttl msg s :
  key <> "" -> open_for key ttl (r_cache s.1) ->
  wp (store_answer key qname qtype msg) (fun _ s' =>
    r_blocklist s'.1 = r_blocklist s.1
    /\ (positive msg qname qtype -> answered key msg (T0 + ttl) (r_cache s'.1))) s.
Proof.
  intros Hk (Hok & Hmin & Hd). unfold store_answer. cbv zeta. bcase.
  { apply wp_cache_call. intros t w' Ht. split; [done|]. intros (E & _ & _). rewrite E in Hb. done. }
  bcase; [|split; [done|]; intros (E & _ & _); by rewrite E in *].
  bcase.
  { apply wp_cache_call. intros t w' Ht. split; [done|]. intros (_ & E & _). congruence. }
  bcase.
  - apply wp_cache_call. intros t w' Ht. split; [done|]. intros _. cbn [fst snd r_cache with_cache].
    pose proof (ac_ok_Set t key (Some msg) (minTTL (Some msg)) (r_cache s.1) Hok) as H1.
    pose proof (ac_fresh_Set t key msg (minTTL (Some msg)) (r_cache s.1) Hok Hk) as H2.
    pose proof (ac_denied_Set t key key (Some msg) (minTTL (Some msg)) (r_cache s.1)) as H3.
    split; [exact H1|]. split; [|by intros H; apply Hd, H3].
    destruct H2 as (e & ? & ? & He). exists e. ands; [done..|]. cbn [ac_min lru_cache] in He. lia.
  - split; [done|]. intros (_ & _ & Ha). exfalso. apply Ha. unfold len in *. by destruct (m_Answers msg).
Qed.

Lemma wp_resolve_miss started id key qname qtype cfg ttl s :
  key <> "" -> open_for key ttl (r_cache s.1) ->
  wp (resolve_miss started id key qname qtype cfg) (fun res s' =>
    rr_Cached res = false ->
    r_blocklist s'.1 = r_blocklist s.1
    /\ forall m, rr_Message res = Some m -> positive m qname qtype ->
         answered key m (T0 + ttl) (r_cache s'.1)) s.
Proof.
  intros Hk Ho. apply wp_bind, wp_keeps; [apply keeps_run_recursive|]. intros [events o] s1 [Hc1 Hb1].
  assert (wp (stale ← cache_call (fun t c => GetStaleOnError t key c);
      match stale with
      | Some m =>
          t ← now;
          let e := local_event id t (len events + 1) "serve_stale_on_error" qname (TypeToString qtype) "" in
          finish_resolve id qname qtype (Some m) (events ++ [e]) true true true false started
      | None =>
          publishTrace id qname qtype (Some (servfailMessage qname qtype)) events false false started;;
          fail "resolve"
      end) (fun res _ => rr_Cached res = true) s1) as Herr.
  { apply wp_bind, wp_cache_call. intros t w' _. destruct (GetStaleOnError _ _ _).1 as [m|].
    - apply wp_bind, wp_keeps; [apply keeps_now|]. intros t' s2 _.
      eapply wp_mono; [apply wp_finish|]. by intros res s' [(_ & _ & ? & _) _].
    - apply wp_bind, wp_keeps; [apply keeps_publishTrace|]. by intros [] s2 _. }
  destruct o as [msg|e| |].
  2-4: eapply wp_mono; [exact Herr|]; intros res s' -> ?; done.
  apply wp_bind. eapply wp_mono; [apply (wp_store_answer key qname qtype ttl); [done|by rewrite Hc1]|].
  intros [] s2 [Hb2 Hp]. eapply wp_mono; [apply wp_finish|].
  intros res s' [(Em & _) [Hc3 Hb3]] _. split; [congruence|]. intros m. rewrite Em. intros [= <-].
  rewrite Hc3. exact Hp.
Qed.

Lemma wp_Resolve qname qtype r w :
  cache_ok (r_cache r) ->
  wp (Resolve qname qtype) (fun res s' =>
    rr_Cached res = false -> rr_Blocked res = false ->
    (IsBlocked (normalizeFQDN qname) (r_blocklist s'.1)).1 = false
    /\ forall m, rr_Message res = Some m -> positive m (normalizeFQDN qname) qtype ->
         answered (cacheKey (normalizeFQDN qname) qtype) m (T0 + c_minTTL (r_cache r)) (r_cache s'.1)) (r, w).
Proof.
  intros Hok. apply wp_bind, wp_keeps; [apply keeps_now|]. intros started s1 [H1 B1]. cbv zeta.
  set (n := normalizeFQDN qname). set (key := cacheKey n qtype).
  apply wp_bind, wp_keeps; [apply keeps_newQueryID|]. intros id s2 [H2 B2]. cbn [fst] in H1, B1.
  rewrite H1 in H2. rewrite B1 in B2. clear H1 B1 s1.
  apply wp_bind. unfold wp at 1, get. apply wp_bind. unfold wp at 1, is_blocked.
  destruct s2 as [r2 w2]. cbn [fst] in H2, B2 |- *. rewrite IsBlocked_state.
  destruct (IsBlocked n (r_blocklist r2)).1 eqn:Eb.
  { apply wp_bind, wp_keeps; [intros s; apply keeps_incSecurityCounter|]. intros [] s3 _.
    apply wp_bind, wp_keeps; [apply keeps_first_event|]. intros evs s4 _.
    eapply wp_mono; [apply wp_finish|]. intros res s' [(_ & _ & _ & _ & _ & _ & ->) _] _ ?. done. }
  apply wp_bind, wp_cache_call. intros t w3 _. cbn [fst r_cache with_blocklist]. rewrite H2.
  pose proof (ac_ok_GetNegative t key (r_cache r) Hok) as Hok1.
  pose proof (ac_min_GetNegative t key (r_cache r) Hok) as Hmin1.
  pose proof (ac_denied_GetNegative t key (r_cache r)) as Hd1. cbn [ac_GetNegative ac_min ac_ok lru_cache] in *.
  destruct (GetNegative t key (r_cache r)) as [[neg|] c1]; cbn [fst snd] in *.
  { apply wp_bind, wp_keeps; [apply keeps_first_event|]. intros evs s4 _.
    eapply wp_mono; [apply wp_finish|]. intros res s' [(_ & _ & -> & _) _] ?. done. }
  apply wp_bind, wp_cache_Get. intros t' pre w4 _. cbn [fst r_cache with_cache].
  pose proof (ac_ok_Get t' key c1 Hok1) as Hok2. pose proof (ac_min_Get t' key c1 Hok1) as Hmin2.
  pose proof (ac_denied_Get t' key key c1) as Hd2. cbn [ac_Get ac_min ac_ok lru_cache] in *.
  destruct (g_Hit _).
  { apply wp_bind, wp_keeps; [apply keeps_first_event|]. intros evs s4 _.
    eapply wp_mono; [apply wp_finish|]. intros res s' [(_ & _ & -> & _) _] ?. done. }
  eapply wp_mono; [apply (wp_resolve_miss _ _ _ _ _ _ (c_minTTL (r_cache r))); [apply cacheKey_nonempty|]|].
  { split; [exact Hok2|]. split; [cbn; congruence|]. cbn. intros H. by apply Hd1, Hd2. }
  intros res s' H Hca _. destruct (H Hca) as [-> Hm]. split; [done|exact Hm].
Qed.

Lemma twp_cache_Get key Q r w :
  (forall t pre w', T0 <= t < T1 -> Q (Get t key (r_cache r)).1.1
     (with_prefetching (with_cache r (Get t key (r_cache r)).2) pre, w')) ->
  twp (cache_Get key) Q (r, w).
Proof.
  intros H. unfold twp, cache_Get, mbind, prog_bind, now, r_now, act.
  pose proof (clock w) as Hc. destruct (o_now w) as [t w1]. cbn [fst snd] in *.
  destruct (Get t key (r_cache r)) as [[g started] c] eqn:E.
  specialize (H t (r_prefetching r ++ started) w1 Hc). by rewrite E in H.
Qed.

(** The answer of a cached name: one local event, nothing asked upstream. *)
Definition answered_locally (qname : bytes) (qtype : Z) (msg : Message) (res : ResolveResult) : Prop :=
  rr_Message res = Some msg /\ rr_Cached res = true /\ rr_Stale res = false
  /\ rr_StaleOnError res = false /\ rr_Blocked res = false
  /\ exists id t, rr_Events res = [local_event id t 1 "cache_hit" qname (TypeToString qtype) ""].

Lemma twp_Resolve_answered qname qtype m r w :
  let n := normalizeFQDN qname in
  hub_inv (r_hub r) -> (IsBlocked n (r_blocklist r)).1 = false ->
  answered (cacheKey n qtype) m T1 (r_cache r) ->
  twp (Resolve qname qtype) (fun res _ => answered_locally n qtype (cloneMessage (cloneMessage m)) res) (r, w).
Proof.
  intros n Hi Hb (Hok & Hf & Hd). apply twp_bind, twp_now. intros started w1. cbv zeta. fold n.
  set (key := cacheKey n qtype) in *.
  apply twp_bind, twp_newQueryID. intros id w2. apply twp_bind. unfold twp at 1, get.
  apply twp_bind. unfold twp at 1, is_blocked. rewrite IsBlocked_state, Hb.
  apply twp_bind, twp_cache_call. intros t w3 _. cbn [fst r_cache with_blocklist].
  pose proof (ac_GetNegative_denied t key (r_cache r) Hd) as Hn.
  pose proof (ac_ok_GetNegative t key (r_cache r) Hok) as Hok1.
  pose proof (ac_fresh_GetNegative t key key (cloneMessage m) T1 (r_cache r) Hf) as Hf1.
  cbn [ac_GetNegative ac_ok ac_fresh lru_cache] in *.
  destruct (GetNegative t key (r_cache r)) as [neg c1]; cbn [fst snd] in *. subst neg.
  apply twp_bind, twp_cache_Get. intros t' pre w4 Ht. cbn [r_cache with_cache].
  pose proof (ac_fresh_Get t' key (cloneMessage m) T1 c1 Hok1 Hf1 (proj2 Ht)) as Hg.
  cbn [ac_Get ac_stored lru_cache] in Hg. rewrite Hg. cbn [g_Hit g_Message g_Stale].
  apply twp_bind, twp_first_event. intros t2 w5.
  pose proof (twp_finish id n qtype (Some (cloneMessage (cloneMessage m)))
    [local_event id t2 1 "cache_hit" n (TypeToString qtype) ""] true false false false started
    (with_prefetching (with_cache (with_cache (with_blocklist r (r_blocklist r)) c1)
       (Get t' key c1).2) pre, w5) Hi) as H.
  unfold twp in *. destruct (finish_resolve _ _ _ _ _ _ _ _ _ _ _) as [[res|e| |] s']; try done.
  destruct H as [(? & He & ? & ? & ? & _ & ?) _]. unfold answered_locally. ands; eauto.
Qed.

(** C9. An answer is fetched once.  After a resolution that got a positive
    answer from upstream, resolving the name again, in any letter case and with
    or without the final dot, within the shortest caching time returns that
    answer from the cache, fresh, with the one event of a cache hit. *)
Theorem resolve_twice qname qname' qtype r w :
  resolver_ok r -> normalizeFQDN qname' = normalizeFQDN qname -> T1 <= T0 + c_minTTL (r_cache r) ->
  forall res m s', Resolve qname qtype (r, w) = (Ok res, s') ->
    rr_Cached res = false -> rr_Blocked res = false -> rr_Message res = Some m ->
    positive m (normalizeFQDN qname) qtype ->
  exists res' s'', Resolve qname' qtype s' = (Ok res', s'')
    /\ answered_locally (normalizeFQDN qname) qtype (cloneMessage (cloneMessage m)) res'.
Proof.
  intros Hr En HT res m [r1 w1] E Hc Hb Hm Hp.
  destruct (@g_Resolve U W O _ stable_True
    (fun id n name type servers s _ _ => conj (proj1 (quiet id n name type servers s)) I)
    qname qtype (r, w) Hr I) as (_ & Ha & _). rewrite E in Ha.
  pose proof (wp_Resolve qname qtype r w (ro_cache r Hr)) as H. unfold wp in H. rewrite E in H.
  destruct (H Hc Hb) as [Hbl Hans]. destruct (Hans m Hm Hp) as (Hok & (e & He1 & He2 & He3) & Hd).
  pose proof (twp_Resolve_answered qname' qtype m r1 w1) as H2. cbv zeta in H2. rewrite En in H2.
  unfold twp in H2. destruct (Resolve qname' qtype (r1, w1)) as [[res'|e'| |] s''].
  { exists res', s''. split; [done|]. apply H2; [by eapply ro_hub, atomics_ok|done|].
    split; [done|]. split; [|done]. exists e. ands; [done..|]. lia. }
  all: exfalso; apply H2; [by eapply ro_hub, atomics_ok|done|];
    (split; [done|]; split; [|done]; exists e; ands; [done..|lia]).
Qed.
End stored.

(** ** An example

    The small world of the other examples with a clock that stands still. *)

#[local] Instance still : Outside unit := {
  o_query id n name type servers s := (mkAnswer (Some (lab_answer name type)) [] None, s);
  o_lookupIPs timeout host w := (None, w);
  o_hook n reason w := w;
  o_now w := (Hour, w);
  o_rand n w := (None, w)
}.

Definition lab_resolver : Resolver :=
  NewResolver 0 (mkConfig Second 1 10 10 false false true 1232 5 2 (30 * Second)) None.

Theorem resolve_twice_witness :
  let first := @Resolve latin1 unit still "www.example.com" TypeA (lab_resolver, tt) in
  let m := lab_answer "www.example.com." TypeA in
  exists res res' s'', first.1 = Ok res /\ rr_Message res = Some m /\ rr_Cached res = false
    /\ @Resolve latin1 unit still "WWW.example.COM." TypeA first.2 = (Ok res', s'')
    /\ answered_locally "www.example.com." TypeA (@cloneMessage latin1 (@cloneMessage latin1 m)) res'.
Proof.
  cbv zeta. destruct (@Resolve latin1 unit still "www.example.com" TypeA (lab_resolver, tt)) as [x s1] eqn:E.
  assert (match x with Ok res => rr_Cached res = false /\ rr_Blocked res = false
            /\ rr_Message res = Some (lab_answer "www.example.com." TypeA) | _ => False end) as Hx.
  { change x with (x, s1).1. rewrite <- E. clear. vm_compute. repeat split. }
  destruct x as [res|e| |]; [|exact (False_ind _ Hx)..]. destruct Hx as (Hc & Hb & Hm).
  assert (@normalizeFQDN latin1 "WWW.example.COM." = @normalizeFQDN latin1 "www.example.com") as En
    by (vm_compute; reflexivity).
  destruct (@resolve_twice latin1 unit still
    (fun id n name type servers s => conj (rtc_refl _ _) (reflexivity s)) Hour (Hour + 1)
    (fun w => ltac:(cbn; lia)) "www.example.com" "WWW.example.COM." TypeA lab_resolver tt
    ltac:(apply NewResolver_ok; done) En ltac:(vm_compute; discriminate)
    res (lab_answer "www.example.com." TypeA) s1 E Hc Hb Hm
    ltac:(vm_compute; repeat split; discriminate)) as (res' & s'' & E' & H).
  exists res, res', s''. exact (conj eq_refl (conj Hm (conj Hc (conj E' H)))).
Defined.

(** One listed name and one that is resolved. *)
Theorem resolve_blocked_witness :
  exists s res s', @ReplaceBlocklist latin1 unit still "*.example.com" (lab_resolver, tt) = (Ok tt, s)
    /\ @Resolve latin1 unit still "Ads.example.com" TypeA s = (Ok res, s')
    /\ answered_blocked "ads.example.com." TypeA res /\ r_cache s'.1 = r_cache lab_resolver
    /\ @Resolve latin1 unit still "example.com" TypeA s = @unfiltered latin1 unit still "example.com" TypeA s.
Proof.
  assert (@normalizeFQDN latin1 "Ads.example.com" = "ads.example.com.") as E1 by (vm_compute; reflexivity).
  assert (@normalizeFQDN latin1 "ads.example.com." = "ads.example.com.") as E2 by (vm_compute; reflexivity).
  assert (@normalizeFQDN latin1 "example.com" = "example.com.") as E3 by (vm_compute; reflexivity).
  assert (@normalizeFQDN latin1 "example.com." = "example.com.") as E4 by (vm_compute; reflexivity).
  assert (@entries latin1 (Split "*.example.com" "010"%char) = ["*.example.com."]) as E5
    by (vm_compute; reflexivity).
  destruct (@resolve_blocked latin1 unit still "*.example.com" "Ads.example.com" TypeA lab_resolver tt
    ltac:(by apply NewResolver_ok)) as (s & Hs & H1 & _).
  destruct (@resolve_blocked latin1 unit still "*.example.com" "example.com" TypeA lab_resolver tt
    ltac:(by apply NewResolver_ok)) as (s2 & Hs2 & _ & H2).
  rewrite Hs in Hs2. injection Hs2 as <-. cbv zeta in H1, H2. rewrite E1, E2, E5 in H1. rewrite E3, E4, E5 in H2.
  destruct H1 as (res & s' & Hr & Ha & Hc).
  { split; [done|]. right. exists "example.com.". split; [by left|]. exists "ads". split; [discriminate|reflexivity]. }
  exists s, res, s'. split; [exact Hs|]. split; [exact Hr|]. split; [exact Ha|]. split; [exact Hc|].
  apply H2.
  - intros [_ [H|(x & Hx & Hb)]]; [by apply list_elem_of_singleton in H|].
    apply list_elem_of_singleton in Hx. injection Hx as ->. exact (proj1 (below_suffix _ _ Hb) eq_refl).
  - intros (x & Hx & Hn & _). apply list_elem_of_singleton in Hx. injection Hx as ->. exact (Hn eq_refl).
Defined.
