(* ===== verification/Prometheus.v ===== *)
(** * internal/metrics/prometheus.go: the counters shown to Prometheus, whose
    text is in [PromText]. *)

From S2P Require Import Prelude.
From S2P Require Import GoStrings.
From S2P Require Import GoTime.
From S2P Require Import GoFloat.

#[local] Open Scope go_scope.

(** The bounds of the buckets in thousandths, and as the literals. *)
Definition bucket_thousandths : list Z := [1; 5; 10; 25; 50; 100; 250; 500; 1000; 2500; 5000; 10000].
Definition durationBuckets : list float64 :=
  map (fun n => f_div (f_of_int n) (f_of_int 1000)) bucket_thousandths.

Record promHistogram := mkPromHistogram { ph_counts : list Z; ph_sum : float64; ph_count : Z }.

Definition newPromHistogram : promHistogram :=
  mkPromHistogram (replicate (S (length durationBuckets)) 0) (f_of_int 0) 0.

(** The index of the first bucket that holds the value; the last one else. *)
Fixpoint bucket_index (value : float64) (buckets : list float64) : nat :=
  match buckets with
  | [] => 0%nat
  | b :: rest => if f_leb value b then 0%nat else S (bucket_index value rest)
  end.

Definition hist_Observe (value : float64) (h : promHistogram) : promHistogram :=
  let idx := bucket_index value durationBuckets in
  mkPromHistogram (alter (fun c => u64 (c + 1)) idx (ph_counts h)) (f_add (ph_sum h) value)
    (u64 (ph_count h + 1)).

Record PromMetrics := mkPromMetrics {
  pm_queryTotal : gmap bytes float64;
  pm_resolutionDuration : gmap bytes promHistogram;
  pm_upstreamDuration : gmap bytes promHistogram;
  pm_cacheEntries : gmap bytes float64;
  pm_circuitState : gmap bytes float64;
  pm_securityDrops : gmap bytes float64;
  pm_goroutines : float64
}.

Definition NewPrometheus : PromMetrics := mkPromMetrics ∅ ∅ ∅ ∅ ∅ ∅ (f_of_int 0).

(** [m[key]++] for a float. *)
Definition f_inc (key : bytes) (m : gmap bytes float64) : gmap bytes float64 :=
  <[key := f_add (default (f_of_int 0) (m !! key)) (f_of_int 1)]> m.

(** A histogram of the map, created when it is missing. *)
Definition observe_in (key : bytes) (dur : Z) (m : gmap bytes promHistogram)
  : gmap bytes promHistogram :=
  <[key := hist_Observe (Seconds dur) (default newPromHistogram (m !! key))]> m.

Definition prom_ObserveQuery (qtype protocol rcode : bytes) (cached : bool) (p : PromMetrics)
  : PromMetrics :=
  let key := "type=" ++ qtype ++ ",protocol=" ++ protocol ++ ",rcode=" ++ rcode ++ ",cached="
               ++ (if cached then "true" else "false") in
  mkPromMetrics (f_inc key (pm_queryTotal p)) (pm_resolutionDuration p) (pm_upstreamDuration p)
    (pm_cacheEntries p) (pm_circuitState p) (pm_securityDrops p) (pm_goroutines p).

Definition prom_ObserveResolutionStep (qtype step : bytes) (dur : Z) (p : PromMetrics) : PromMetrics :=
  let key := "type=" ++ qtype ++ ",step=" ++ step in
  mkPromMetrics (pm_queryTotal p) (observe_in key dur (pm_resolutionDuration p))
    (pm_upstreamDuration p) (pm_cacheEntries p) (pm_circuitState p) (pm_securityDrops p)
    (pm_goroutines p).

Definition prom_ObserveUpstream (server zone : bytes) (dur : Z) (p : PromMetrics) : PromMetrics :=
  let key := "server=" ++ server ++ ",zone=" ++ zone in
  mkPromMetrics (pm_queryTotal p) (pm_resolutionDuration p)
    (observe_in key dur (pm_upstreamDuration p)) (pm_cacheEntries p) (pm_circuitState p)
    (pm_securityDrops p) (pm_goroutines p).

Definition prom_SetCacheEntries (kind : bytes) (value : float64) (p : PromMetrics) : PromMetrics :=
  mkPromMetrics (pm_queryTotal p) (pm_resolutionDuration p) (pm_upstreamDuration p)
    (<[kind := value]> (pm_cacheEntries p)) (pm_circuitState p) (pm_securityDrops p)
    (pm_goroutines p).

Definition prom_SetCircuitState (server : bytes) (state : Z) (p : PromMetrics) : PromMetrics :=
  mkPromMetrics (pm_queryTotal p) (pm_resolutionDuration p) (pm_upstreamDuration p)
    (pm_cacheEntries p) (<[server := f_of_int state]> (pm_circuitState p)) (pm_securityDrops p)
    (pm_goroutines p).

Definition prom_IncSecurityDrop (reason : bytes) (p : PromMetrics) : PromMetrics :=
  mkPromMetrics (pm_queryTotal p) (pm_resolutionDuration p) (pm_upstreamDuration p)
    (pm_cacheEntries p) (pm_circuitState p) (f_inc reason (pm_securityDrops p)) (pm_goroutines p).

Definition prom_SetGoroutines (count : Z) (p : PromMetrics) : PromMetrics :=
  mkPromMetrics (pm_queryTotal p) (pm_resolutionDuration p) (pm_upstreamDuration p)
    (pm_cacheEntries p) (pm_circuitState p) (pm_securityDrops p) (f_of_int count).

(** ** Histograms *)

(** The bucket counts add up to the number of observations. *)
Definition hist_total (h : promHistogram) : Z := foldr Z.add 0 (ph_counts h).

Record hist_ok (h : promHistogram) : Prop := {
  hk_length : length (ph_counts h) = S (length durationBuckets);
  hk_total : u64 (hist_total h) = u64 (ph_count h)
}.

Lemma bucket_index_le value buckets : (bucket_index value buckets <= length buckets)%nat.
Proof. induction buckets as [|b l IH]; cbn; [lia|]. bcase; lia. Qed.

Lemma total_alter (l : list Z) i :
  (i < length l)%nat ->
  u64 (foldr Z.add 0 (alter (fun c => u64 (c + 1)) i l)) = u64 (foldr Z.add 0 l + 1).
Proof.
  revert i. induction l as [|x l IH]; intros [|i] Hi; cbn [length] in Hi; try lia; cbn.
  - unfold u64. rewrite Zplus_mod_idemp_l. f_equal. lia.
  - specialize (IH i ltac:(lia)). unfold u64 in *.
    change (list_alter _ i l) with (alter (fun c => (c + 1) mod 2 ^ 64) i l).
    rewrite <- Zplus_mod_idemp_r, IH, Zplus_mod_idemp_r. f_equal. lia.
Qed.

(** Each observation goes to exactly one bucket. *)
Lemma hist_Observe_ok value h : hist_ok h -> hist_ok (hist_Observe value h).
Proof.
  intros [H1 H2]. split; cbn [hist_Observe ph_counts ph_count].
  - by rewrite length_alter.
  - unfold hist_total. cbn [hist_Observe ph_counts]. rewrite total_alter.
    + unfold hist_total, u64 in *. rewrite Zplus_mod_idemp_l || idtac.
      rewrite <- Zplus_mod_idemp_l, H2, Zplus_mod_idemp_l. by rewrite Zmod_mod.
    + rewrite H1. pose proof (bucket_index_le value durationBuckets). lia.
Qed.

Lemma newPromHistogram_ok : hist_ok newPromHistogram.
Proof. by split. Qed.
