(* ===== verification/PromText.v ===== *)
(** * internal/metrics/prometheus.go: the page that Prometheus reads.

    [prom_page] is the text the handler writes; [page_of_calls] says what stands
    on it after any calls of the counters. *)

From S2P Require Import Prelude.
From S2P Require Import GoStrings.
From S2P Require Import GoTime.
From S2P Require Import GoFloat.
From S2P Require Import GoFormat.
From S2P Require Import Prometheus.

#[local] Open Scope go_scope.

Section text.
Context {U : UnicodeTables}.

(** [strings.SplitN(p, "=", 2)] when it has two parts *)
Definition split_label (p : bytes) : option (bytes * bytes) :=
  let i := IndexByte p "="%char in
  if i =? -1 then None else Some (take (Z.to_nat i) p, drop (S (Z.to_nat i)) p).

Definition promLabels (k : bytes) : bytes :=
  Join (omap (fun p => (fun kv => kv.1 ++ "=" ++ Quote kv.2) <$> split_label p) (Split k ","%char)) ",".

Definition bucket_line (metric baseLabels le : bytes) (cumulative : Z) : bytes :=
  metric ++ "_bucket{" ++ baseLabels ++ ",le=" ++ Quote le ++ "} " ++ itoa cumulative.

(** The lines of the buckets with a bound, and the sum of their counts. *)
Fixpoint bucket_lines (metric baseLabels : bytes) (buckets : list float64) (counts : list Z) (cumulative : Z)
  : list bytes * Z :=
  match buckets, counts with
  | b :: buckets, n :: counts =>
      let cumulative := u64 (cumulative + n) in
      let '(lines, total) := bucket_lines metric baseLabels buckets counts cumulative in
      (bucket_line metric baseLabels (FormatFloat_f b) cumulative :: lines, total)
  | _, _ => ([], cumulative)
  end.

Definition histogramLines (metric labelKey : bytes) (hist : promHistogram) : list bytes :=
  let baseLabels := promLabels labelKey in
  let '(lines, cumulative) := bucket_lines metric baseLabels durationBuckets (ph_counts hist) 0 in
  let cumulative := u64 (cumulative + default 0 (last (ph_counts hist))) in
  lines ++ [bucket_line metric baseLabels "+Inf" cumulative;
            metric ++ "_sum{" ++ baseLabels ++ "} " ++ float_v (ph_sum hist);
            metric ++ "_count{" ++ baseLabels ++ "} " ++ itoa (ph_count hist)].

(** The orders in which the ranges over the maps visit them. *)
Record prom_ranges := mkRanges {
  rg_queryTotal : list (bytes * float64);
  rg_resolutionDuration : list (bytes * promHistogram);
  rg_upstreamDuration : list (bytes * promHistogram);
  rg_cacheEntries : list (bytes * float64);
  rg_circuitState : list (bytes * float64);
  rg_securityDrops : list (bytes * float64)
}.

Record enumerates (r : prom_ranges) (p : PromMetrics) : Prop := {
  en_queryTotal : rg_queryTotal r ≡ₚ map_to_list (pm_queryTotal p);
  en_resolutionDuration : rg_resolutionDuration r ≡ₚ map_to_list (pm_resolutionDuration p);
  en_upstreamDuration : rg_upstreamDuration r ≡ₚ map_to_list (pm_upstreamDuration p);
  en_cacheEntries : rg_cacheEntries r ≡ₚ map_to_list (pm_cacheEntries p);
  en_circuitState : rg_circuitState r ≡ₚ map_to_list (pm_circuitState p);
  en_securityDrops : rg_securityDrops r ≡ₚ map_to_list (pm_securityDrops p)
}.

Definition ranges_of (p : PromMetrics) : prom_ranges :=
  mkRanges (map_to_list (pm_queryTotal p)) (map_to_list (pm_resolutionDuration p))
    (map_to_list (pm_upstreamDuration p)) (map_to_list (pm_cacheEntries p))
    (map_to_list (pm_circuitState p)) (map_to_list (pm_securityDrops p)).

Definition query_line (kv : bytes * float64) : bytes :=
  "dns_query_total{" ++ promLabels kv.1 ++ "} " ++ float_v kv.2.
Definition gauge_line (metric label : bytes) (kv : bytes * float64) : bytes :=
  metric ++ "{" ++ label ++ "=" ++ Quote kv.1 ++ "} " ++ float_v kv.2.

Definition prom_lines (r : prom_ranges) (goroutines : float64) : list bytes :=
  map query_line (rg_queryTotal r)
  ++ flat_map (fun kv => histogramLines "dns_resolution_duration_seconds" kv.1 kv.2) (rg_resolutionDuration r)
  ++ flat_map (fun kv => histogramLines "dns_upstream_query_duration_seconds" kv.1 kv.2) (rg_upstreamDuration r)
  ++ map (gauge_line "dns_cache_entries" "kind") (rg_cacheEntries r)
  ++ map (gauge_line "dns_circuit_breaker_state" "server") (rg_circuitState r)
  ++ map (gauge_line "dns_security_drops_total" "reason") (rg_securityDrops r)
  ++ ["dns_goroutine_count " ++ float_v goroutines].

(** What [Handler] writes, with the ranges in the order [r]. *)
Definition prom_page (r : prom_ranges) (p : PromMetrics) : bytes :=
  Join (sort_strings (prom_lines r (pm_goroutines p))) [newline] ++ [newline].

(** ** The calls *)

Inductive prom_op :=
| OpQuery (qtype protocol rcode : bytes) (cached : bool)
| OpStep (qtype step : bytes) (dur : Z)
| OpUpstream (server zone : bytes) (dur : Z)
| OpCacheEntries (kind : bytes) (value : float64)
| OpCircuitState (server : bytes) (state : Z)
| OpDrop (reason : bytes)
| OpGoroutines (count : Z).

Definition prom_apply (p : PromMetrics) (op : prom_op) : PromMetrics :=
  match op with
  | OpQuery qtype protocol rcode cached => prom_ObserveQuery qtype protocol rcode cached p
  | OpStep qtype step dur => prom_ObserveResolutionStep qtype step dur p
  | OpUpstream server zone dur => prom_ObserveUpstream server zone dur p
  | OpCacheEntries kind value => prom_SetCacheEntries kind value p
  | OpCircuitState server state => prom_SetCircuitState server state p
  | OpDrop reason => prom_IncSecurityDrop reason p
  | OpGoroutines count => prom_SetGoroutines count p
  end.
Definition prom_run (ops : list prom_op) : PromMetrics := foldl prom_apply NewPrometheus ops.

(** Labels that go through the maps joined by commas have none themselves. *)
Definition comma_free (s : bytes) : Prop := ","%char ∉ s.
Definition op_plain (op : prom_op) : Prop :=
  match op with
  | OpQuery qtype protocol rcode _ => comma_free qtype /\ comma_free protocol /\ comma_free rcode
  | OpStep qtype step _ => comma_free qtype /\ comma_free step
  | OpUpstream server zone _ => comma_free server /\ comma_free zone
  | _ => True
  end.

(** How many of the queries have the labels. *)
Definition same_query (qtype protocol rcode : bytes) (cached : bool) (op : prom_op) : bool :=
  match op with
  | OpQuery q t r c => bool_decide ((q, t, r, c) = (qtype, protocol, rcode, cached))
  | _ => false
  end.
Definition queries (qtype protocol rcode : bytes) (cached : bool) (ops : list prom_op) : Z :=
  len (List.filter (same_query qtype protocol rcode cached) ops).
Definition same_drop (reason : bytes) (op : prom_op) : bool :=
  match op with OpDrop r => bool_decide (r = reason) | _ => false end.
Definition drops (reason : bytes) (ops : list prom_op) : Z := len (List.filter (same_drop reason) ops).

Definition same_step (qtype step : bytes) (op : prom_op) : bool :=
  match op with OpStep q s _ => bool_decide ((q, s) = (qtype, step)) | _ => false end.
Definition steps (qtype step : bytes) (ops : list prom_op) : Z := len (List.filter (same_step qtype step) ops).

Definition query_key (qtype protocol rcode : bytes) (cached : bool) : bytes :=
  "type=" ++ qtype ++ ",protocol=" ++ protocol ++ ",rcode=" ++ rcode ++ ",cached="
    ++ (if cached then "true" else "false").
Definition step_key (qtype step : bytes) : bytes := "type=" ++ qtype ++ ",step=" ++ step.
Definition upstream_key (server zone : bytes) : bytes := "server=" ++ server ++ ",zone=" ++ zone.

(** The labels as they stand on the page. *)
Definition query_labels (qtype protocol rcode : bytes) (cached : bool) : bytes :=
  "type=" ++ Quote qtype ++ ",protocol=" ++ Quote protocol ++ ",rcode=" ++ Quote rcode ++ ",cached="
    ++ Quote (if cached then "true" else "false").
Definition step_labels (qtype step : bytes) : bytes := "type=" ++ Quote qtype ++ ",step=" ++ Quote step.
Definition upstream_labels (server zone : bytes) : bytes := "server=" ++ Quote server ++ ",zone=" ++ Quote zone.

(** ** Keys and labels *)

Lemma IndexByte_app s c k : c ∉ s -> IndexByte (s ++ c :: k) c = len s.
Proof.
  induction s as [|x s IH]; cbn [app IndexByte].
  - intros _. case_decide; [done|congruence].
  - intros [Hx Hs]%not_elem_of_cons. case_decide; [congruence|]. rewrite IH by done.
    rewrite len_cons. pose proof (len_nonneg s). bcase; lia.
Qed.

Lemma split_label_app n v : "="%char ∉ n -> split_label (n ++ "=" ++ v) = Some (n, v).
Proof.
  intros H. unfold split_label. cbn [app]. rewrite IndexByte_app by done. pose proof (len_nonneg n).
  bcase; [lia|]. unfold len. rewrite Nat2Z.id, take_app_length. by rewrite <- Nat.add_1_r, drop_app_add.
Qed.

Lemma comma_free_app s k : comma_free s -> comma_free k -> comma_free (s ++ k).
Proof. unfold comma_free. rewrite elem_of_app. tauto. Qed.

Lemma comma_free_literal s : bool_decide (","%char ∈ s) = false -> comma_free s.
Proof. by intros H%bool_decide_eq_false. Qed.

Lemma comma_free_label n v : bool_decide (","%char ∈ n) = false -> comma_free v -> comma_free (n ++ v).
Proof. intros H. apply comma_free_app. by apply comma_free_literal. Qed.

Lemma split_query_key q t c b :
  comma_free q -> comma_free t -> comma_free c ->
  Split (query_key q t c b) ","%char
  = ["type=" ++ q; "protocol=" ++ t; "rcode=" ++ c; "cached=" ++ (if b then "true" else "false")].
Proof.
  intros Hq Ht Hc. unfold query_key.
  change ("type=" ++ q ++ ",protocol=" ++ t ++ ",rcode=" ++ c ++ ",cached=" ++ (if b then "true" else "false"))
    with ("type=" ++ q ++ ","%char :: ("protocol=" ++ t ++ ","%char :: ("rcode=" ++ c ++ ","%char ::
            ("cached=" ++ (if b then "true" else "false"))))).
  rewrite (app_assoc _ q), Split_app_sep by by apply comma_free_label.
  rewrite (app_assoc _ t), Split_app_sep by by apply comma_free_label.
  rewrite (app_assoc _ c), Split_app_sep by by apply comma_free_label.
  rewrite Split_single by by destruct b; apply comma_free_literal. done.
Qed.

Lemma split_step_key q s : comma_free q -> comma_free s ->
  Split (step_key q s) ","%char = ["type=" ++ q; "step=" ++ s].
Proof.
  intros Hq Hs. unfold step_key. change ("type=" ++ q ++ ",step=" ++ s) with ("type=" ++ q ++ ","%char :: ("step=" ++ s)).
  rewrite (app_assoc _ q), Split_app_sep by by apply comma_free_label.
  by rewrite Split_single by by apply comma_free_label.
Qed.

Lemma split_upstream_key s z : comma_free s -> comma_free z ->
  Split (upstream_key s z) ","%char = ["server=" ++ s; "zone=" ++ z].
Proof.
  intros Hs Hz. unfold upstream_key.
  change ("server=" ++ s ++ ",zone=" ++ z) with ("server=" ++ s ++ ","%char :: ("zone=" ++ z)).
  rewrite (app_assoc _ s), Split_app_sep by by apply comma_free_label.
  by rewrite Split_single by by apply comma_free_label.
Qed.

Lemma not_elem_literal (c : byte) (s : bytes) : bool_decide (c ∈ s) = false -> c ∉ s.
Proof. apply bool_decide_eq_false. Qed.

Lemma split_named l n v :
  l = n ++ "=" -> bool_decide ("="%char ∈ n) = false -> split_label (l ++ v) = Some (n, v).
Proof. intros -> H. rewrite <- app_assoc. apply split_label_app. by apply not_elem_literal. Qed.

Lemma query_key_labels q t c b :
  comma_free q -> comma_free t -> comma_free c -> promLabels (query_key q t c b) = query_labels q t c b.
Proof.
  intros Hq Ht Hc. unfold promLabels. rewrite split_query_key by done. cbn [omap list_omap].
  rewrite (split_named "type=" "type" q), (split_named "protocol=" "protocol" t), (split_named "rcode=" "rcode" c),
    (split_named "cached=" "cached" (if b then "true" else "false")) by done.
  cbn [fmap option_fmap option_map fst snd Join]. unfold query_labels. by rewrite <- !app_assoc.
Qed.

Lemma step_key_labels q s : comma_free q -> comma_free s -> promLabels (step_key q s) = step_labels q s.
Proof.
  intros Hq Hs. unfold promLabels. rewrite split_step_key by done. cbn [omap list_omap].
  rewrite (split_named "type=" "type" q), (split_named "step=" "step" s) by done.
  cbn [fmap option_fmap option_map fst snd Join]. unfold step_labels. by rewrite <- !app_assoc.
Qed.

Lemma upstream_key_labels s z : comma_free s -> comma_free z ->
  promLabels (upstream_key s z) = upstream_labels s z.
Proof.
  intros Hs Hz. unfold promLabels. rewrite split_upstream_key by done. cbn [omap list_omap].
  rewrite (split_named "server=" "server" s), (split_named "zone=" "zone" z) by done.
  cbn [fmap option_fmap option_map fst snd Join]. unfold upstream_labels. by rewrite <- !app_assoc.
Qed.

(** Different labels have different keys. *)
Lemma query_key_inj q t c b q' t' c' b' :
  comma_free q -> comma_free t -> comma_free c -> comma_free q' -> comma_free t' -> comma_free c' ->
  query_key q t c b = query_key q' t' c' b' -> (q, t, c, b) = (q', t', c', b').
Proof.
  intros H1 H2 H3 H4 H5 H6 E%(f_equal (fun k => Split k ","%char)). rewrite !split_query_key in E by done.
  injection E as -> -> -> E. by destruct b, b'.
Qed.

Lemma step_key_inj q s q' s' :
  comma_free q -> comma_free s -> comma_free q' -> comma_free s' ->
  step_key q s = step_key q' s' -> (q, s) = (q', s').
Proof.
  intros H1 H2 H3 H4 E%(f_equal (fun k => Split k ","%char)). rewrite !split_step_key in E by done.
  by injection E as -> ->.
Qed.

(** ** What the maps hold *)

Lemma prom_run_snoc ops op : prom_run (ops ++ [op]) = prom_apply (prom_run ops) op.
Proof. unfold prom_run. by rewrite foldl_app. Qed.

Lemma count_snoc (f : prom_op -> bool) ops op :
  len (List.filter f (ops ++ [op])) = len (List.filter f ops) + (if f op then 1 else 0).
Proof. rewrite List.filter_app, len_app. cbn. by destruct (f op). Qed.

(** A counter shows how often it was incremented. *)
Definition counted (n : Z) : option float64 := if n =? 0 then None else Some (f_of_int n).

Lemma f_inc_same k m n :
  0 <= n -> n + 1 < 2 ^ 53 -> m !! k = counted n -> f_inc k m !! k = counted (n + 1).
Proof.
  intros H1 H2 H. unfold f_inc. rewrite lookup_insert_eq, H. unfold counted.
  assert ((n + 1 =? 0) = false) as -> by lia. f_equal.
  bcase; cbn [default]; [|by apply f_add_one]. assert (n = 0) as -> by lia. done.
Qed.

Lemma f_inc_other k k' m : k' <> k -> f_inc k' m !! k = m !! k.
Proof. intros H. unfold f_inc. by rewrite lookup_insert_ne. Qed.

Lemma queries_shown q t c b ops :
  comma_free q -> comma_free t -> comma_free c -> Forall op_plain ops -> queries q t c b ops < 2 ^ 53 ->
  pm_queryTotal (prom_run ops) !! query_key q t c b = counted (queries q t c b ops).
Proof.
  intros Hq Ht Hc. induction ops as [|op ops IH] using rev_ind; [done|].
  intros [Hops [Hop _]%Forall_cons]%Forall_app. unfold queries in *. rewrite count_snoc, prom_run_snoc.
  pose proof (len_nonneg (List.filter (same_query q t c b) ops)).
  destruct op as [q' t' c' b'| | | | | |]; cbn [prom_apply same_query];
    try (rewrite Z.add_0_r; intros Hn; exact (IH Hops Hn)).
  destruct Hop as (Hq' & Ht' & Hc'). unfold prom_ObserveQuery. cbn [pm_queryTotal].
  change ("type=" ++ q' ++ _) with (query_key q' t' c' b'). case_bool_decide as E; intros Hn.
  - injection E as -> -> -> ->. apply f_inc_same; [done..|]. apply IH; [done|lia].
  - rewrite f_inc_other, Z.add_0_r; [apply IH; [done|lia]|]. intros Ek. by apply E, query_key_inj.
Qed.

Lemma drops_shown reason ops :
  drops reason ops < 2 ^ 53 -> pm_securityDrops (prom_run ops) !! reason = counted (drops reason ops).
Proof.
  induction ops as [|op ops IH] using rev_ind; [done|]. unfold drops in *. rewrite count_snoc, prom_run_snoc.
  pose proof (len_nonneg (List.filter (same_drop reason) ops)).
  destruct op as [| | | | |r|]; cbn [prom_apply same_drop]; try (rewrite Z.add_0_r; intros Hn; exact (IH Hn)).
  unfold prom_IncSecurityDrop. cbn [pm_securityDrops]. case_bool_decide as E; intros Hn.
  - subst r. apply f_inc_same; [done..|]. apply IH. lia.
  - rewrite f_inc_other, Z.add_0_r by done. apply IH. lia.
Qed.

(** A histogram that has seen [n] values. *)
Definition hist_of (n : Z) (h : promHistogram) : Prop := hist_ok h /\ ph_count h = u64 n.

Lemma hist_Observe_of n v h : hist_of n h -> hist_of (n + 1) (hist_Observe v h).
Proof.
  intros [H E]. split; [by apply hist_Observe_ok|]. cbn [hist_Observe ph_count]. rewrite E. unfold u64.
  by rewrite Zplus_mod_idemp_l.
Qed.

Lemma steps_shown q s ops :
  comma_free q -> comma_free s -> Forall op_plain ops ->
  match pm_resolutionDuration (prom_run ops) !! step_key q s with
  | Some h => hist_of (steps q s ops) h
  | None => steps q s ops = 0
  end.
Proof.
  intros Hq Hs. induction ops as [|op ops IH] using rev_ind; [done|].
  intros [Hops [Hop _]%Forall_cons]%Forall_app. specialize (IH Hops). unfold steps in *.
  rewrite count_snoc, prom_run_snoc.
  destruct op as [|q' s' d| | | | |]; cbn [prom_apply same_step]; try (rewrite Z.add_0_r; exact IH).
  destruct Hop as (Hq' & Hs'). unfold prom_ObserveResolutionStep. cbn [pm_resolutionDuration].
  change ("type=" ++ q' ++ _) with (step_key q' s'). unfold observe_in. case_bool_decide as E.
  - injection E as -> ->. rewrite lookup_insert_eq. apply hist_Observe_of.
    destruct (_ !! _); cbn [default]; [done|]. rewrite IH. split; [apply newPromHistogram_ok|done].
  - rewrite lookup_insert_ne, Z.add_0_r; [done|]. intros Ek. by apply E, step_key_inj.
Qed.

(** ** Lines *)

(** The keys of the maps give labels of one line. *)
Definition line_keys {A} (m : gmap bytes A) : Prop := map_Forall (fun k _ => one_line (promLabels k)) m.
Record keys_ok (p : PromMetrics) : Prop := {
  ko_query : line_keys (pm_queryTotal p);
  ko_resolution : line_keys (pm_resolutionDuration p);
  ko_upstream : line_keys (pm_upstreamDuration p)
}.

Lemma line_keys_insert {A} k (x : A) m : one_line (promLabels k) -> line_keys m -> line_keys (<[k := x]> m).
Proof. intros H Hm. by apply map_Forall_insert_2. Qed.

Lemma keys_ok_run ops : Forall op_plain ops -> keys_ok (prom_run ops).
Proof.
  induction ops as [|op ops IH] using rev_ind; [intros _; split; apply map_Forall_empty|].
  intros [Hops [Hop _]%Forall_cons]%Forall_app. destruct (IH Hops) as [H1 H2 H3]. rewrite prom_run_snoc.
  destruct op as [q t c b|q s d|s z d| | | |]; cbn [prom_apply]; split; try done; apply line_keys_insert; try done.
  - change (one_line (promLabels (query_key q t c b))). destruct Hop as (Hq & Ht & Hc).
    rewrite query_key_labels by done. unfold query_labels. destruct b; auto 20 with go.
  - change (one_line (promLabels (step_key q s))). destruct Hop as (Hq & Hs).
    rewrite step_key_labels by done. unfold step_labels. auto 20 with go.
  - change (one_line (promLabels (upstream_key s z))). destruct Hop as (Hs & Hz).
    rewrite upstream_key_labels by done. unfold upstream_labels. auto 20 with go.
Qed.

Lemma bucket_line_one_line metric base le n :
  one_line metric -> one_line base -> one_line (bucket_line metric base le n).
Proof. intros H1 H2. unfold bucket_line. auto 20 with go. Qed.

Lemma bucket_lines_one_line metric base buckets counts n :
  one_line metric -> one_line base -> Forall one_line (bucket_lines metric base buckets counts n).1.
Proof.
  intros H1 H2. revert counts n. induction buckets as [|b buckets IH]; intros [|x counts] n; cbn [bucket_lines]; try constructor.
  specialize (IH counts (u64 (n + x))). destruct (bucket_lines _ _ _ _ _) as [lines total].
  constructor; [by apply bucket_line_one_line|done].
Qed.

Lemma histogramLines_one_line metric k h :
  one_line metric -> one_line (promLabels k) -> Forall one_line (histogramLines metric k h).
Proof.
  intros H1 H2. unfold histogramLines.
  pose proof (bucket_lines_one_line metric (promLabels k) durationBuckets (ph_counts h) 0 H1 H2) as H.
  destruct (bucket_lines _ _ _ _ _) as [lines total]. cbn [fst] in H. apply Forall_app. split; [done|].
  repeat constructor; [by apply bucket_line_one_line|auto 20 with go..].
Qed.


Lemma prom_lines_one_line p g : keys_ok p -> Forall one_line (prom_lines (ranges_of p) g).
Proof.
  intros [H1 H2 H3]. unfold prom_lines, ranges_of.
  cbn [rg_queryTotal rg_resolutionDuration rg_upstreamDuration rg_cacheEntries rg_circuitState rg_securityDrops].
  assert (forall l, (forall x : bytes, x ∈ l -> one_line x) -> Forall one_line l) as Hall by (intros l; by rewrite Forall_forall).
  rewrite !Forall_app. ands; apply Hall.
  - intros x ([k v] & -> & Hk)%list_elem_of_fmap. apply elem_of_map_to_list in Hk. specialize (H1 k v Hk).
    unfold query_line. cbn [fst snd]. auto 20 with go.
  - intros x Hx. apply list_elem_of_In, in_flat_map in Hx as ([k h] & Hk%list_elem_of_In & Hx%list_elem_of_In).
    apply elem_of_map_to_list in Hk. specialize (H2 k h Hk). revert x Hx. apply Forall_forall.
    apply histogramLines_one_line; auto with go.
  - intros x Hx. apply list_elem_of_In, in_flat_map in Hx as ([k h] & Hk%list_elem_of_In & Hx%list_elem_of_In).
    apply elem_of_map_to_list in Hk. specialize (H3 k h Hk). revert x Hx. apply Forall_forall.
    apply histogramLines_one_line; auto with go.
  - intros x ([k v] & -> & _)%list_elem_of_fmap. unfold gauge_line. auto 20 with go.
  - intros x ([k v] & -> & _)%list_elem_of_fmap. unfold gauge_line. auto 20 with go.
  - intros x ([k v] & -> & _)%list_elem_of_fmap. unfold gauge_line. auto 20 with go.
  - intros x ->%list_elem_of_singleton. auto 20 with go.
Qed.

Lemma prom_lines_perm r p g : enumerates r p -> prom_lines r g ≡ₚ prom_lines (ranges_of p) g.
Proof.
  intros [H1 H2 H3 H4 H5 H6]. unfold prom_lines, ranges_of.
  cbn [rg_queryTotal rg_resolutionDuration rg_upstreamDuration rg_cacheEntries rg_circuitState rg_securityDrops].
  by rewrite H1, H2, H3, H4, H5, H6.
Qed.

Lemma Join_snoc ps sep (x : bytes) : ps <> [] -> Join (ps ++ [x]) sep = Join ps sep ++ sep ++ x.
Proof.
  induction ps as [|p ps IH]; [done|]. intros _. destruct ps as [|q ps]; [done|].
  change ((p :: q :: ps) ++ [x]) with (p :: ((q :: ps) ++ [x])).
  rewrite (Join_cons p ((q :: ps) ++ [x])), (Join_cons p (q :: ps)), IH by done. by rewrite <- !app_assoc.
Qed.

(** A page splits into the lines it was made of. *)
Lemma page_lines (lines : list bytes) :
  lines <> [] -> Forall one_line lines -> Split (Join lines [newline] ++ [newline]) newline = lines ++ [[]].
Proof.
  intros Hn Hl. rewrite <- (app_nil_r [newline]) at 2. rewrite <- Join_snoc by done.
  apply Split_Join; [by destruct lines|]. apply Forall_app. split; [exact Hl|]. repeat constructor. apply not_elem_of_nil.
Qed.

Lemma bucket_lines_total metric base buckets counts n :
  length counts = S (length buckets) ->
  u64 ((bucket_lines metric base buckets counts n).2 + default 0 (last counts)) = u64 (n + foldr Z.add 0 counts).
Proof.
  revert counts n. induction buckets as [|b buckets IH]; intros [|x counts] n H; cbn [length] in H; try lia.
  - destruct counts; [|cbn in H; lia]. cbn. by rewrite Z.add_0_r.
  - destruct counts as [|y counts]; [cbn in H; lia|]. cbn [bucket_lines].
    specialize (IH (y :: counts) (u64 (n + x)) ltac:(cbn in *; lia)).
    destruct (bucket_lines _ _ _ _ _) as [lines total]. cbn [snd] in *. change (last (x :: y :: counts)) with (last (y :: counts)).
    rewrite IH. cbn [foldr]. unfold u64. rewrite Zplus_mod_idemp_l. f_equal. lia.
Qed.

(** The last bucket and the count show the number of observations. *)
Lemma histogram_counts metric k h n x :
  hist_of n h -> 0 <= n < 2 ^ 64 ->
  x = bucket_line metric (promLabels k) "+Inf" n \/ x = metric ++ "_count{" ++ promLabels k ++ "} " ++ itoa n ->
  x ∈ histogramLines metric k h.
Proof.
  intros [[H1 H2] E] Hn Hx. unfold histogramLines.
  pose proof (bucket_lines_total metric (promLabels k) durationBuckets (ph_counts h) 0 H1) as Ht.
  change (foldr Z.add 0 (ph_counts h)) with (hist_total h) in Ht. rewrite Z.add_0_l, H2, E in Ht.
  assert (u64 n = n) as Eu by (apply Z.mod_small; lia). rewrite !Eu in Ht.
  destruct (bucket_lines _ _ _ _ _) as [lines total]. cbn [snd] in Ht. rewrite Ht, E, Eu.
  apply elem_of_app. right. rewrite !elem_of_cons. destruct Hx; auto.
Qed.

(** C37. What Prometheus reads after any calls of the counters, with labels
    without commas.  The page does not depend on the order in which the maps are
    ranged over; it consists of whole lines, in order; every kind of query and
    every reason of a drop has a line with the number of its calls, and the
    histogram of a resolution step shows that number in its last bucket and in
    its count. *)
Theorem page_of_calls ops r :
  Forall op_plain ops -> enumerates r (prom_run ops) ->
  let page := prom_page r (prom_run ops) in
  page = prom_page (ranges_of (prom_run ops)) (prom_run ops) /\
  exists lines, Split page newline = lines ++ [[]] /\ sort_strings lines = lines
  /\ (forall q t c b, comma_free q -> comma_free t -> comma_free c -> 0 < queries q t c b ops < 2 ^ 53 ->
        "dns_query_total{" ++ query_labels q t c b ++ "} " ++ float_v (f_of_int (queries q t c b ops)) ∈ lines)
  /\ (forall reason, 0 < drops reason ops < 2 ^ 53 ->
        "dns_security_drops_total{reason=" ++ Quote reason ++ "} " ++ float_v (f_of_int (drops reason ops)) ∈ lines)
  /\ (forall q s, comma_free q -> comma_free s -> 0 < steps q s ops < 2 ^ 64 ->
        let metric := "dns_resolution_duration_seconds" in
        bucket_line metric (step_labels q s) "+Inf" (steps q s ops) ∈ lines
        /\ metric ++ "_count{" ++ step_labels q s ++ "} " ++ itoa (steps q s ops) ∈ lines).
Proof.
  intros Hops Hr page. set (p := prom_run ops) in *. set (all := prom_lines (ranges_of p) (pm_goroutines p)).
  assert (page = Join (sort_strings all) [newline] ++ [newline]) as ->.
  { unfold page, prom_page. by rewrite (prom_lines_perm r p) by done. }
  split; [done|]. exists (sort_strings all). ands.
  - apply page_lines.
    + intros E. assert ("dns_goroutine_count " ++ float_v (pm_goroutines p) ∈ sort_strings all) as H.
      { rewrite sort_strings_perm. unfold all, prom_lines. rewrite !elem_of_app, elem_of_cons. auto 10. }
      rewrite E in H. by apply elem_of_nil in H.
    + apply Forall_forall. intros x. rewrite sort_strings_perm. revert x. apply Forall_forall.
      by apply prom_lines_one_line, keys_ok_run.
  - by rewrite (sort_strings_perm all) at 1.
  - intros q t c b Hq Ht Hc Hn. rewrite sort_strings_perm. unfold all, prom_lines. apply elem_of_app. left.
    apply list_elem_of_fmap. exists (query_key q t c b, f_of_int (queries q t c b ops)). split.
    + unfold query_line. cbn [fst snd]. by rewrite query_key_labels.
    + apply elem_of_map_to_list. unfold p. rewrite queries_shown by (done || lia). unfold counted. bcase; [lia|done].
  - intros reason Hn. rewrite sort_strings_perm. unfold all, prom_lines. rewrite !elem_of_app. do 5 right. left.
    apply list_elem_of_fmap. exists (reason, f_of_int (drops reason ops)). split; [done|].
    apply elem_of_map_to_list. unfold p. rewrite drops_shown by lia. unfold counted. bcase; [lia|done].
  - intros q s Hq Hs Hn metric. pose proof (steps_shown q s ops Hq Hs Hops) as H. fold p in H.
    destruct (pm_resolutionDuration p !! step_key q s) as [h|] eqn:E; [|lia].
    assert (forall x, x ∈ histogramLines metric (step_key q s) h -> x ∈ sort_strings all) as Hin.
    { intros x Hx. rewrite sort_strings_perm. unfold all, prom_lines. rewrite !elem_of_app. right. left.
      apply list_elem_of_In, in_flat_map. exists (step_key q s, h). rewrite <- !list_elem_of_In.
      split; [by apply elem_of_map_to_list|done]. }
    split; apply Hin, (histogram_counts metric _ h _ _ H ltac:(lia)); rewrite step_key_labels by done; auto.
Qed.
End text.

(** ** A run *)

Definition scrape_calls : list prom_op :=
  [OpQuery "A" "udp" "NOERROR" false; OpStep "A" "root_query" 3000000; OpDrop "rrl";
   OpQuery "AAAA" "udp" "NXDOMAIN" true; OpQuery "A" "udp" "NOERROR" false; OpDrop "rrl"; OpGoroutines 12].

Theorem page_of_calls_witness :
  let p := prom_run scrape_calls in
  let r := mkRanges (rev (map_to_list (pm_queryTotal p))) (map_to_list (pm_resolutionDuration p)) [] [] []
             (map_to_list (pm_securityDrops p)) in
  prom_page (U := latin1) r p = prom_page (U := latin1) (ranges_of p) p
  /\ exists lines, Split (prom_page (U := latin1) r p) newline = lines ++ [[]]
       /\ "dns_query_total{" ++ query_labels (U := latin1) "A" "udp" "NOERROR" false ++ "} 2" ∈ lines.
Proof.
  intros p r.
  assert (Forall op_plain scrape_calls) as H1 by (repeat constructor; apply comma_free_literal; vm_compute; reflexivity).
  assert (enumerates r p) as H2 by (split; try reflexivity; symmetry; apply Permutation_rev).
  destruct (page_of_calls (U := latin1) scrape_calls r H1 H2) as (E & lines & Hl & _ & Hq & _).
  split; [exact E|]. exists lines. split; [exact Hl|].
  exact (Hq "A" "udp" "NOERROR" false ltac:(apply comma_free_literal; vm_compute; reflexivity)
    ltac:(apply comma_free_literal; vm_compute; reflexivity) ltac:(apply comma_free_literal; vm_compute; reflexivity)
    ltac:(vm_compute; split; reflexivity)).
Defined.

(** Lines are sorted as text, which puts the last bucket first and 10 before
    2.5, while the exposition format asks for increasing bounds. *)
Theorem buckets_out_of_order :
  map (fun l => bool_decide (l ∈ map (fun le => bucket_line (U := latin1) "m" (promLabels (U := latin1) "step=s") le 0)
                                   ["+Inf"; "0.001"; "10"; "2.5"]))
      (sort_strings (histogramLines (U := latin1) "m" "step=s" newPromHistogram))
  = [true; true; false; false; false; false; false; false; false; false; true; true; false; false; false]
  /\ head (sort_strings (histogramLines (U := latin1) "m" "step=s" newPromHistogram))
     = Some (bucket_line (U := latin1) "m" (promLabels (U := latin1) "step=s") "+Inf" 0).
Proof. split; vm_compute; reflexivity. Qed.
