(* ===== verification/Handler.v ===== *)
(** * internal/server/handler.go: from a packet to the packet that answers it.

    The handler runs on the resolver: its programs are those of [Resolver] over
    a world that holds the handler's own state beside the rest. *)

From S2P Require Import Prelude.
From S2P Require Import GoStrings.
From S2P Require Import GoTime.
From S2P Require Import GoNet.
From S2P Require Import GoFloat.
From S2P Require Import Protocol.
From S2P Require Import Decoder.
From S2P Require Import Encoder.
From S2P Require Import Cache.
From S2P Require Import Pipeline.
From S2P Require Import Hints.
From S2P Require Import Recursive.
From S2P Require Import RateLimits.
From S2P Require Import Settings.
From S2P Require Import GoJson.
From S2P Require Import Metrics.
From S2P Require Import Prometheus.
From S2P Require Import Resolver.

#[local] Open Scope go_scope.

(** ** Data *)

Record QueryEvent := mkQueryEvent {
  qe_ID : bytes; qe_QueryID : bytes; qe_Timestamp : Z; qe_Domain : bytes; qe_Type : bytes;
  qe_QueryType : bytes; qe_ClientIP : bytes; qe_Protocol : bytes; qe_LatencyMS : Z;
  qe_DurationMS : Z; qe_Steps : Z; qe_RCode : bytes; qe_Cached : bool; qe_Stale : bool
}.

Record Handler := mkHandler {
  hd_limiter : option RateLimiter;
  hd_rrl : option RRL;
  hd_maxUDPSize : Z;
  hd_metrics : Metrics;
  hd_prom : option PromMetrics;
  hd_rrlEnabled : bool;
  hd_allowRecursive : bool;
  hd_queries : Hub QueryEvent;
  hd_securityDrop : gmap bytes Z;
  hd_logger : bool;
  hd_rateLogAt : gmap bytes Z;
  hd_secLogAt : gmap bytes Z;
  hd_queryClientIP : gmap bytes bytes;
  hd_rdnsCache : gmap bytes bytes
}.

Definition with_limits (h : Handler) (limiter : option RateLimiter) (rrl : option RRL) : Handler :=
  mkHandler limiter rrl (hd_maxUDPSize h) (hd_metrics h) (hd_prom h) (hd_rrlEnabled h)
    (hd_allowRecursive h) (hd_queries h) (hd_securityDrop h) (hd_logger h) (hd_rateLogAt h)
    (hd_secLogAt h) (hd_queryClientIP h) (hd_rdnsCache h).
Definition with_metrics (h : Handler) (m : Metrics) (p : option PromMetrics) : Handler :=
  mkHandler (hd_limiter h) (hd_rrl h) (hd_maxUDPSize h) m p (hd_rrlEnabled h)
    (hd_allowRecursive h) (hd_queries h) (hd_securityDrop h) (hd_logger h) (hd_rateLogAt h)
    (hd_secLogAt h) (hd_queryClientIP h) (hd_rdnsCache h).
Definition with_switches (h : Handler) (rrlEnabled allowRecursive : bool) : Handler :=
  mkHandler (hd_limiter h) (hd_rrl h) (hd_maxUDPSize h) (hd_metrics h) (hd_prom h) rrlEnabled
    allowRecursive (hd_queries h) (hd_securityDrop h) (hd_logger h) (hd_rateLogAt h)
    (hd_secLogAt h) (hd_queryClientIP h) (hd_rdnsCache h).
Definition with_queries (h : Handler) (q : Hub QueryEvent) : Handler :=
  mkHandler (hd_limiter h) (hd_rrl h) (hd_maxUDPSize h) (hd_metrics h) (hd_prom h) (hd_rrlEnabled h)
    (hd_allowRecursive h) q (hd_securityDrop h) (hd_logger h) (hd_rateLogAt h)
    (hd_secLogAt h) (hd_queryClientIP h) (hd_rdnsCache h).
Definition with_drops (h : Handler) (m : gmap bytes Z) : Handler :=
  mkHandler (hd_limiter h) (hd_rrl h) (hd_maxUDPSize h) (hd_metrics h) (hd_prom h) (hd_rrlEnabled h)
    (hd_allowRecursive h) (hd_queries h) m (hd_logger h) (hd_rateLogAt h)
    (hd_secLogAt h) (hd_queryClientIP h) (hd_rdnsCache h).
Definition with_logs (h : Handler) (rate sec : gmap bytes Z) : Handler :=
  mkHandler (hd_limiter h) (hd_rrl h) (hd_maxUDPSize h) (hd_metrics h) (hd_prom h) (hd_rrlEnabled h)
    (hd_allowRecursive h) (hd_queries h) (hd_securityDrop h) (hd_logger h) rate sec
    (hd_queryClientIP h) (hd_rdnsCache h).
Definition with_clients (h : Handler) (ips rdns : gmap bytes bytes) : Handler :=
  mkHandler (hd_limiter h) (hd_rrl h) (hd_maxUDPSize h) (hd_metrics h) (hd_prom h) (hd_rrlEnabled h)
    (hd_allowRecursive h) (hd_queries h) (hd_securityDrop h) (hd_logger h) (hd_rateLogAt h)
    (hd_secLogAt h) ips rdns.

(** The options, without the resolver. *)
Record Options := mkHandlerOptions {
  op_RateLimiter : option RateLimiter; op_RRL : option RRL; op_MaxUDPSize : Z;
  op_Metrics : option Metrics; op_Prometheus : option PromMetrics; op_RRLEnabled : bool;
  op_AllowRecursive : option bool; op_Logger : bool
}.

(** The address of a client: [OtherAddr] is any other [net.Addr], by its text. *)
Inductive net_addr := UDPAddr (ip : bytes) | TCPAddr (ip : bytes) | OtherAddr (s : bytes).

(** What is written to the log. *)
Inductive level := LevelDebug | LevelInfo | LevelWarn | LevelError.

Record QueryLogFields := mkQueryLogFields {
  lf_RequestID : bytes; lf_QueryID : bytes; lf_TraceID : bytes; lf_Domain : bytes; lf_QType : bytes;
  lf_RCode : bytes; lf_DurationMS : Z; lf_Cached : bool; lf_Stale : bool; lf_ClientIP : bytes;
  lf_Protocol : bytes; lf_Steps : Z; lf_Err : option bytes
}.

Inductive log_entry :=
| LogRateLimit (l : level) (ip : bytes)
| LogMalformed (reason protocolName clientIP raw_hex : bytes) (decodeErr : option error)
| LogSecurity (l : level) (reason : bytes)
| LogQuery (l : level) (f : QueryLogFields).

(** The identifiers a context carries. *)
Record context := mkContext { cx_request_id : bytes; cx_trace_id : bytes }.

(** The world outside the handler. [s_pick] chooses the key a range over a map
    yields first. *)
Class Surroundings (W : Type) := {
  s_query : bytes -> Z -> bytes -> Z -> list bytes -> Resolver * (Handler * W) ->
            answer * (Resolver * (Handler * W));
  s_lookupIPs : option Z -> bytes -> W -> option (list (option bytes)) * W;
  s_lookupAddr : bytes -> W -> option (list bytes) * W;
  s_now : W -> Z * W;
  s_rand : nat -> W -> option bytes * W;
  s_pick : list bytes -> W -> bytes * W;
  s_pick_in : forall keys w, keys <> [] -> (s_pick keys w).1 ∈ keys;
  s_goroutines : W -> Z;
  s_log : log_entry -> W -> W
}.

(** ** Construction *)

Definition NewHandler (opts : Options) (r : Resolver) : Handler * Resolver :=
  (mkHandler (op_RateLimiter opts) (op_RRL opts)
     (if op_MaxUDPSize opts <=? 0 then MaxUDPPacketLen else op_MaxUDPSize opts)
     (default NewMetrics (op_Metrics opts)) (op_Prometheus opts) (op_RRLEnabled opts)
     (default true (op_AllowRecursive opts)) new_hub ∅ (op_Logger opts) ∅ ∅ ∅ ∅,
   AddSecurityHook (Some 0%nat) r).

(** ** Small functions *)

Section handler.
Context {U : UnicodeTables}.

Definition formerrFromID (id : Z) : option bytes :=
  match Encode (Some (mkMessage (mkHeader id true 0 false false false false 0 RCodeFormatError 0 0 0 0)
                        [] [] [] [])) with
  | (_, Ok wire) => Some wire
  | _ => None
  end.

Definition formerrFromPacket (raw : bytes) : option bytes :=
  formerrFromID (match raw with a :: b :: _ => Z.lor (Z.shiftl (Z_of_byte a) 8) (Z_of_byte b) | _ => 0 end).

Definition hasEDNS (msg : Message) : bool :=
  existsb (fun rr => rr_Type rr =? TypeOPT) (m_Additionals msg).

Definition clientIPString (addr : option net_addr) : bytes :=
  match addr with
  | None => ""
  | Some (UDPAddr ip) | Some (TCPAddr ip) => ip_String ip
  | Some (OtherAddr s) => default s (SplitHost s)
  end.

Definition resID (res : option ResolveResult) : bytes :=
  match res with Some r => rr_QueryID r | None => "" end.

Definition eventCount (res : option ResolveResult) : Z :=
  match res with Some r => len (rr_Events r) | None => 0 end.

Definition zoneLabelForStep (stepType : bytes) : bytes :=
  if bool_decide (stepType = "root_query") then "root"
  else if bool_decide (stepType = "tld_query") then "tld" else "auth".

Definition boolFromAny (v : any) : option bool :=
  match v with VBool b => Some b | _ => None end.

Definition floatFromAny (v : any) : option float64 :=
  match v with
  | VFloat64 f | VFloat32 f => Some f
  | VInt n | VInt64 n => Some (f_of_int n)
  | _ => None
  end.

Definition intFromAny (v : any) : option Z :=
  match v with
  | VInt n | VInt64 n => Some n
  | VFloat64 f | VFloat32 f => Some (f_to_int f)
  | _ => None
  end.

Definition incSecurityDrop (reason : bytes) (h : Handler) : Handler :=
  with_metrics (with_drops h (inc reason (hd_securityDrop h)))
    (IncSecurityDrop reason (hd_metrics h)) (hd_prom h).

(** A call on the Prometheus metrics, if there are any. *)
Definition prom_call (f : PromMetrics -> PromMetrics) (h : Handler) : Handler :=
  with_metrics h (hd_metrics h) (f <$> hd_prom h).

(** Whether a line is a warning: the first one of its key in a minute. *)
Definition throttle (now : Z) (key : bytes) (at_ : gmap bytes Z) : level * gmap bytes Z :=
  match at_ !! key with
  | Some last => if 60 * Second <? time_Sub now last then (LevelWarn, <[key := now]> at_)
                 else (LevelDebug, at_)
  | None => (LevelWarn, <[key := now]> at_)
  end.

(** ** Programs of the handler *)

Context {W : Type} {S : Surroundings W}.

(** The hook [NewHandler] installs, and the log lines it writes. *)
Definition logSecurityReason (reason : bytes) '((h, w) : Handler * W) : Handler * W :=
  if negb (hd_logger h) || bool_decide (TrimSpace reason = "") then (h, w) else
  let '(_, w) := s_now w in
  let '(t, w) := s_now w in
  let '(l, m) := throttle t reason (hd_secLogAt h) in
  (with_logs h (hd_rateLogAt h) m, s_log (LogSecurity l reason) w).

Definition security_hook (reason : bytes) '((h, w) : Handler * W) : Handler * W :=
  let h := incSecurityDrop reason h in
  let h := prom_call (prom_IncSecurityDrop reason) h in
  logSecurityReason reason (h, w).

(** The resolver runs in the handler's world. *)
#[export] Instance handler_world : Outside (Handler * W) := {
  o_query id n name type servers s := s_query id n name type servers s;
  o_lookupIPs timeout host '(h, w) := let '(a, w) := s_lookupIPs timeout host w in (a, (h, w));
  o_hook n reason hw := security_hook reason hw;
  o_now '(h, w) := let '(t, w) := s_now w in (t, (h, w));
  o_rand n '(h, w) := let '(b, w) := s_rand n w in (b, (h, w))
}.

Definition hget : prog (Handler * W) Handler := fun '(r, (h, w)) => (Ok h, (r, (h, w))).
Definition hupdate (f : Handler -> Handler) : prog (Handler * W) unit := fun '(r, (h, w)) =>
  (Ok tt, (r, (f h, w))).
Definition log (e : log_entry) : prog (Handler * W) unit := fun '(r, (h, w)) =>
  (Ok tt, (r, (h, if hd_logger h then s_log e w else w))).

Definition logRateLimit (ip : bytes) : prog (Handler * W) unit := fun '(r, (h, w)) =>
  if negb (hd_logger h) || bool_decide (TrimSpace ip = "") then (Ok tt, (r, (h, w))) else
  let '(_, w) := s_now w in
  let '(t, w) := s_now w in
  let '(l, m) := throttle t ip (hd_rateLogAt h) in
  (Ok tt, (r, (with_logs h m (hd_secLogAt h), s_log (LogRateLimit l ip) w))).

Definition logMalformedPacket (reason raw : bytes) (decodeErr : option error)
    (protocolName clientIP : bytes) : prog (Handler * W) unit :=
  let hexPayload := flat_map hex_byte raw in
  let hexPayload := if 4096 <? len hexPayload then take (Z.to_nat 4096) hexPayload else hexPayload in
  log (LogMalformed reason protocolName clientIP hexPayload decodeErr).

(** [limiter.Allow] under its own clock; no limiter allows everything. *)
Definition limiter_allow (clientIP : bytes) : prog (Handler * W) bool :=
  h ← hget;
  match hd_limiter h with
  | None => mret true
  | Some l =>
      t ← now;
      act (fun '(r, (h, w)) =>
        let '(ok, l) := Limiter_Allow t clientIP l in
        (Ok ok, (r, (with_limits h (Some l) (hd_rrl h), w))))
  end.

Definition rrl_allow (tuple : bytes) : prog (Handler * W) bool :=
  h ← hget;
  match hd_rrl h with
  | Some l =>
      if hd_rrlEnabled h then
        t ← now;
        act (fun '(r, (h, w)) =>
          let '(ok, l) := RRL_Allow t tuple l in
          (Ok ok, (r, (with_limits h (hd_limiter h) (Some l), w))))
      else mret true
  | None => mret true
  end.

(** [r.Resolve]: an error leaves no result. *)
Definition resolve (qname : bytes) (qtype : Z) : prog (Handler * W) (option ResolveResult) := fun s =>
  match Resolve qname qtype s with
  | (Ok res, s) => (Ok (Some res), s)
  | (Err e, s) => (Ok None, s)
  | (Panic, s) => (Panic, s)
  | (Fuel, s) => (Fuel, s)
  end.

(** A key of a full map is dropped, whichever the range yields first. *)
Definition make_room {A} (limit : Z) (m : gmap bytes A) (w : W) : gmap bytes A * W :=
  if limit <=? Z.of_nat (size m) then
    let '(k, w) := s_pick (map_to_list m).*1 w in (delete k m, w)
  else (m, w).

Definition recordQueryClient (queryID clientIP : bytes) : prog (Handler * W) unit := fun '(r, (h, w)) =>
  if bool_decide (TrimSpace queryID = "") || bool_decide (TrimSpace clientIP = "")
  then (Ok tt, (r, (h, w))) else
  let '(m, w) := make_room 2000 (hd_queryClientIP h) w in
  (Ok tt, (r, (with_clients h (<[queryID := clientIP]> m) (hd_rdnsCache h), w))).

Definition ClientIPForQuery (queryID : bytes) (h : Handler) : option bytes :=
  let id := TrimSpace queryID in
  if bool_decide (id = "") then None else hd_queryClientIP h !! id.

Definition ReverseHostname (clientIP : bytes) : prog (Handler * W) bytes := fun '(r, (h, w)) =>
  let clientIP := TrimSpace clientIP in
  match ParseIP clientIP with
  | None => (Ok "", (r, (h, w)))
  | Some _ =>
      match hd_rdnsCache h !! clientIP with
      | Some host => (Ok host, (r, (h, w)))
      | None =>
          let '(names, w) := s_lookupAddr clientIP w in
          let host := match names with
                      | Some (name :: _) => TrimSuffix (TrimSpace name) "."
                      | _ => ""
                      end in
          let '(m, w) := make_room 1024 (hd_rdnsCache h) w in
          (Ok host, (r, (with_clients h (hd_queryClientIP h) (<[clientIP := host]> m), w)))
      end
  end.

(** ** Query events *)

Definition SubscribeQueries (buffer : Z) (h : Handler) : nat * Handler :=
  let '(ch, q) := add_chan (if buffer <=? 0 then 128 else buffer) (hd_queries h) in
  (ch, with_queries h q).

Definition UnsubscribeQueries (ch : nat) (h : Handler) : result bytes Handler :=
  q ← Unsubscribe ch (hd_queries h); Ok (with_queries h q).

Definition publishQueryEvent (ev : QueryEvent) : prog (Handler * W) unit := fun '(r, (h, w)) =>
  match Publish (E := bytes) ev (hd_queries h) with
  | Ok q => (Ok tt, (r, (with_queries h q, w)))
  | Err e => (Err e, (r, (h, w)))
  | Panic => (Panic, (r, (h, w)))
  | Fuel => (Fuel, (r, (h, w)))
  end.

(** ** Observation *)

Definition logQuery (ctx : context) (q : Question) (response : Message)
    (protocolName clientIP : bytes) (dur : Z) (cached stale : bool) (res : option ResolveResult)
    (resolveErr : option bytes) : prog (Handler * W) unit :=
  let level := match resolveErr with Some _ => LevelError | None => LevelInfo end in
  log (LogQuery level (mkQueryLogFields (cx_request_id ctx) (resID res) (cx_trace_id ctx) (q_Name q)
    (TypeToString (q_Type q)) (RCodeToString (h_RCode (m_Header response))) (Z.quot dur Millisecond)
    cached stale clientIP protocolName (eventCount res) resolveErr)).

Definition observe_event (qtype : bytes) (h : Handler) (ev : ResolutionEvent) : Handler :=
  if bool_decide (ev_Server ev = "") || (ev_Latency ev <=? 0) then h else
  let dur := i64 (ev_Latency ev * Millisecond) in
  let zone := zoneLabelForStep (ev_StepType ev) in
  with_metrics h (ObserveUpstream (ev_Server ev) dur (hd_metrics h))
    ((fun p => prom_ObserveUpstream (ev_Server ev) zone dur
                 (prom_ObserveResolutionStep qtype (ev_StepType ev) dur p)) <$> hd_prom h).

Definition observeResolutionEvents (qtype : bytes) (res : option ResolveResult) (h : Handler) : Handler :=
  match res with
  | None => h
  | Some r => foldl (observe_event qtype) h (rr_Events r)
  end.

Definition set_circuit (h : Handler) (up : UpstreamStatus) : Handler :=
  with_metrics h (SetCircuitState (us_Server up) (us_StateCode up) (hd_metrics h))
    (prom_SetCircuitState (us_Server up) (us_StateCode up) <$> hd_prom h).

Definition cache_gauges (cs : Stats) (goroutines : Z) (p : PromMetrics) : PromMetrics :=
  prom_SetGoroutines goroutines
    (prom_SetCacheEntries "stale" (f_of_int (st_StaleEntries cs))
       (prom_SetCacheEntries "negative" (f_of_int (st_NegativeEntries cs))
          (prom_SetCacheEntries "positive" (f_of_int (st_PositiveEntries cs)) p))).

Definition updateObservabilityGauges : prog (Handler * W) unit :=
  h ← hget;
  match hd_prom h with
  | Some _ =>
      t ← now;
      act (fun '(r, (h, w)) =>
        (Ok tt, (r, (prom_call (cache_gauges (CacheStats t r) (s_goroutines w)) h, w))))
  | None => mret tt
  end;;
  act (fun '(r, (h, w)) =>
    let '(ups, r) := UpstreamStatuses r in
    (Ok tt, (r, (foldl set_circuit h ups, w)))).

(** ** Packets *)

(** The header of a response the handler makes itself. *)
Definition reply_header (h : Header) (opcode : Z) (RA : bool) (rcode : Z) : Header :=
  mkHeader (h_ID h) true opcode false false (h_RD h) RA 0 rcode 0 0 0 0.

(** The response to the question [q]: the resolver's message with the request's
    identifier, or a server failure. *)
Definition response_for (request : Message) (q : Question) (res : option ResolveResult)
  : Message * bool * bool :=
  let failure :=
    mkMessage (reply_header (m_Header request) 0 true RCodeServerFailure) [q] [] [] [] in
  match res with
  | Some r =>
      match rr_Message r with
      | Some m =>
          let rh := m_Header request in
          let mh := m_Header m in
          let header := mkHeader (h_ID rh) true (h_Opcode mh) (h_AA mh) (h_TC mh) (h_RD rh) true
                          (h_Z mh) (h_RCode mh) (h_QuestionCount mh) (h_AnswerCount mh)
                          (h_AuthorityCount mh) (h_AdditionalCount mh) in
          let questions := if len (m_Questions m) =? 0 then [q] else m_Questions m in
          (mkMessage header questions (m_Answers m) (m_Authorities m) (m_Additionals m),
           rr_Cached r, rr_Stale r)
      | None => (failure, false, false)
      end
  | None => (failure, false, false)
  end.

Definition truncated (m : Message) : Message :=
  let h := m_Header m in
  mkMessage (mkHeader (h_ID h) (h_QR h) (h_Opcode h) (h_AA h) true (h_RD h) (h_RA h) (h_Z h)
               (h_RCode h) (h_QuestionCount h) (h_AnswerCount h) (h_AuthorityCount h)
               (h_AdditionalCount h)) (m_Questions m) [] [] [].

(** [Encode] in a program: the message it leaves and the packet. *)
Definition encode (m : Message) (what : bytes) : prog (Handler * W) (Message * bytes) :=
  match Encode (Some m) with
  | (m', Ok wire) => mret (default m m', wire)
  | (_, Err _) => fail what
  | (_, Panic) => act (fun s => (Panic, s))
  | (_, Fuel) => act (fun s => (Fuel, s))
  end.

(** The response and its packet, cut down for a client without EDNS. *)
Definition encode_response (udp : bool) (request response : Message)
  : prog (Handler * W) (Message * bytes) :=
  '(response, respWire) ← encode response "encode response";
  if udp && negb (hasEDNS request) && (512 <? len respWire)
  then encode (truncated response) "encode truncated response"
  else mret (response, respWire).

(** The end of [HandlePacket]: counters, subscribers and the log. *)
Definition observe_query (ctx : context) (q : Question) (response : Message)
    (protocolName clientIP : bytes) (started : Z) (cached stale : bool) (res : option ResolveResult)
  : prog (Handler * W) unit :=
  t ← now;
  let dur := time_Sub t started in
  let qtype := TypeToString (q_Type q) in
  let rcode := RCodeToString (h_RCode (m_Header response)) in
  t ← now;
  hupdate (fun h =>
    with_metrics h (ObserveQuery t qtype protocolName rcode cached stale dur (hd_metrics h))
      (prom_ObserveQuery qtype protocolName rcode cached <$> hd_prom h));;
  hupdate (observeResolutionEvents qtype res);;
  t ← now;
  publishQueryEvent (mkQueryEvent (resID res) (resID res) t (q_Name q) qtype qtype clientIP protocolName
    (Z.quot dur Millisecond) (Z.quot dur Millisecond) (eventCount res) rcode cached stale);;
  recordQueryClient (resID res) clientIP;;
  logQuery ctx q response protocolName clientIP dur cached stale res None;;
  updateObservabilityGauges.

(** The part of [HandlePacket] that answers a question. *)
Definition answer_question (ctx : context) (request : Message) (q : Question)
    (protocolName clientIP : bytes) (started : Z) : prog (Handler * W) (option bytes * bool) :=
  let udp := bool_decide (protocolName = "udp") in
  res ← resolve (q_Name q) (q_Type q);
  let '(response, cached, stale) := response_for request q res in
  '(response, respWire) ← encode_response udp request response;
  let tuple := Join [clientIP; ToLower (q_Name q); TypeToString (q_Type q);
                     RCodeToString (h_RCode (m_Header response))] "|" in
  ok ← rrl_allow tuple;
  if negb ok then
    hupdate (fun h => prom_call (prom_IncSecurityDrop "rrl") (incSecurityDrop "rrl" h));;
    mret (None, true)
  else
    observe_query ctx q response protocolName clientIP started cached stale res;;
    mret (Some respWire, false).

Definition malformed (reason raw : bytes) (decodeErr : option error) (protocolName clientIP : bytes)
    (reply : option bytes) : prog (Handler * W) (option bytes * bool) :=
  hupdate (incSecurityDrop "format");;
  logMalformedPacket reason raw decodeErr protocolName clientIP;;
  mret (reply, false).

(** The answer to a decoded packet. *)
Definition handle_request (ctx : context) (raw : bytes) (request : Message)
    (protocolName clientIP : bytes) (started : Z) : prog (Handler * W) (option bytes * bool) :=
  match m_Questions request with
  | [] => malformed "missing_question" raw None protocolName clientIP
            (formerrFromID (h_ID (m_Header request)))
  | q :: _ =>
      h ← hget;
      if negb (hd_allowRecursive h) then
        let rh := m_Header request in
        '(_, wire) ← encode (mkMessage (reply_header rh (h_Opcode rh) false RCodeRefused)
                              (m_Questions request) [] [] []) "encode refused response";
        mret (Some wire, false)
      else answer_question ctx request q protocolName clientIP started
  end.

Definition HandlePacket (ctx : context) (raw : bytes) (clientAddr : option net_addr)
    (protocolName : bytes) : prog (Handler * W) (option bytes * bool) :=
  started ← now;
  let clientIP := clientIPString clientAddr in
  let udp := bool_decide (protocolName = "udp") in
  h ← hget;
  if udp && (hd_maxUDPSize h <? len raw) then
    malformed "udp_size_exceeded" raw None protocolName clientIP (formerrFromPacket raw)
  else
  allowed ← (if udp then limiter_allow clientIP else mret true);
  if negb allowed then
    hupdate (fun h => prom_call (prom_IncSecurityDrop "rate_limit") (incSecurityDrop "rate_limit" h));;
    logRateLimit clientIP;;
    mret (None, true)
  else
  match Decode raw with
  | Ok request => handle_request ctx raw request protocolName clientIP started
  | Err e => malformed "decode_error" raw (Some e) protocolName clientIP (formerrFromPacket raw)
  | Panic => act (fun s => (Panic, s))
  | Fuel => act (fun s => (Fuel, s))
  end.

(** ** Settings *)

(** The limits: new values where they are given, and what is reported. *)
Definition apply_limiter (m : gmap bytes any) (h : Handler) (applied : gmap bytes any)
  : Handler * gmap bytes any :=
  match hd_limiter h with
  | Some l =>
      let qps := floatFromAny (setting m "rate_limit_qps") in
      let burst := intFromAny (setting m "rate_limit_burst") in
      if bool_decide (is_Some qps) || bool_decide (is_Some burst) then
        let l := Limiter_Update (default (f_of_int 0) qps) (default 0 burst) l in
        let '(rate, b) := Limiter_Config l in
        (with_limits h (Some l) (hd_rrl h),
         <["rate_limit_burst" := VInt b]> (<["rate_limit_qps" := VFloat64 rate]> applied))
      else (h, applied)
  | None => (h, applied)
  end.

Definition apply_rrl (m : gmap bytes any) (h : Handler) (applied : gmap bytes any)
  : Handler * gmap bytes any :=
  match hd_rrl h with
  | Some l =>
      let limit := intFromAny (setting m "rrl_responses_per_sec") in
      let slip := intFromAny (setting m "rrl_slip") in
      if bool_decide (is_Some limit) || bool_decide (is_Some slip) then
        let l := RRL_Update (default 0 limit) (default 0 slip) l in
        let '(n, s) := RRL_Config l in
        (with_limits h (hd_limiter h) (Some l),
         <["rrl_slip" := VInt s]> (<["rrl_responses_per_sec" := VInt n]> applied))
      else (h, applied)
  | None => (h, applied)
  end.

Definition apply_switches (m : gmap bytes any) (h : Handler) (applied : gmap bytes any)
  : Handler * gmap bytes any :=
  let rrl := boolFromAny (setting m "rrl_enabled") in
  let recursive := boolFromAny (setting m "allow_recursive") in
  (with_switches h (default (hd_rrlEnabled h) rrl) (default (hd_allowRecursive h) recursive),
   report "allow_recursive" recursive VBool (report "rrl_enabled" rrl VBool applied)).

Definition Handler_ApplyRuntimeSettings (settings : option (gmap bytes any))
  : prog (Handler * W) (gmap bytes any) :=
  match settings with
  | None => mret ∅
  | Some m =>
      t ← now;
      act (fun '(r, (h, w)) =>
        let '(applied, r) := ApplyRuntimeSettings t settings r in
        let '(h, applied) := apply_switches m h applied in
        let '(h, applied) := apply_limiter m h applied in
        let '(h, applied) := apply_rrl m h applied in
        (Ok applied, (r, (h, w))))
  end.

Definition Handler_RuntimeConfig (r : Resolver) (h : Handler) : gmap bytes any :=
  let out := <["allow_recursive" := VBool (hd_allowRecursive h)]>
               (<["rrl_enabled" := VBool (hd_rrlEnabled h)]> (RuntimeConfig r)) in
  let out := match hd_limiter h with
             | Some l => let '(rate, burst) := Limiter_Config l in
                 <["rate_limit_burst" := VInt burst]> (<["rate_limit_qps" := VFloat64 rate]> out)
             | None => out
             end in
  match hd_rrl h with
  | Some l => let '(limit, slip) := RRL_Config l in
      <["rrl_slip" := VInt slip]> (<["rrl_responses_per_sec" := VInt limit]> out)
  | None => out
  end.

(** ** Statistics *)

Definition Handler_SecurityStats (h : Handler) : gmap bytes Z := hd_securityDrop h.
Definition SecurityStatsJSON (h : Handler) : bytes := Marshal (json_map JInt (Handler_SecurityStats h)).
Definition RRLDrops (h : Handler) : Z :=
  match hd_rrl h with Some l => RRL_Drops l | None => 0 end.
Definition RateLimiterTrackedIPs (h : Handler) : Z :=
  match hd_limiter h with Some l => Limiter_Size l | None => 0 end.
Definition RateLimiterBlocked (limit : Z) (h : Handler) : list BlockedIP :=
  match hd_limiter h with Some l => BlockedIPs limit l | None => [] end.
Definition RateLimiterDrops (h : Handler) : Z :=
  match hd_limiter h with Some l => TotalDrops l | None => 0 end.
Definition RRLTrackedTuples (h : Handler) : Z :=
  match hd_rrl h with Some l => RRL_Size l | None => 0 end.
End handler.
