(* ===== verification/HandlerProps.v ===== *)
(** * What the handler sends back. *)

From S2P Require Import Prelude.
From S2P Require Import GoStrings.
From S2P Require Import GoTime.
From S2P Require Import GoNet.
From S2P Require Import GoFloat.
From S2P Require Import Protocol.
From S2P Require Import Decoder.
From S2P Require Import Encoder.
From S2P Require Import WireRData.
From S2P Require Import WireRoundtrip.
From S2P Require Import Cache.
From S2P Require Import Pipeline.
From S2P Require Import Hints.
From S2P Require Import Recursive.
From S2P Require Import RateLimits.
From S2P Require Import Settings.
From S2P Require Import Metrics.
From S2P Require Import Prometheus.
From S2P Require Import Resolver.
From S2P Require Import ResolverProps.
From S2P Require Import Handler.

#[local] Open Scope go_scope.

(** ** The handler's invariant *)

Record handler_ok (h : Handler) : Prop := {
  ho_queries : hub_inv (hd_queries h);
  ho_clients : Z.of_nat (size (hd_queryClientIP h)) <= 2000;
  ho_rdns : Z.of_nat (size (hd_rdnsCache h)) <= 1024
}.

(** An update of the parts the invariant does not mention. *)
Definition same_core (h h' : Handler) : Prop :=
  hd_queries h' = hd_queries h /\ hd_queryClientIP h' = hd_queryClientIP h
  /\ hd_rdnsCache h' = hd_rdnsCache h.

Lemma same_core_ok h h' : same_core h h' -> handler_ok h -> handler_ok h'.
Proof. intros (E1 & E2 & E3) []. split; by rewrite ?E1, ?E2, ?E3. Qed.

Ltac core :=
  match goal with H : handler_ok ?h |- handler_ok _ => apply (same_core_ok h); [done|exact H] end.

Section handler.
Context {U : UnicodeTables} {W : Type} {S : Surroundings W}.

Lemma security_hook_ok reason (hw : Handler * W) : handler_ok hw.1 -> handler_ok (security_hook reason hw).1.
Proof.
  destruct hw as [h w]. cbn [fst]. intros Hh.
  assert (handler_ok (prom_call (prom_IncSecurityDrop reason) (incSecurityDrop reason h))) as H1 by core.
  unfold security_hook, logSecurityReason. bcase; [done|].
  destruct (s_now w) as [t1 w1], (s_now w1) as [t2 w2], (throttle _ _ _) as [l m].
  core.
Qed.

Lemma handler_stable : stable (W := Handler * W) (fun hw => handler_ok hw.1).
Proof.
  split.
  - intros [h w] H. cbn. by destruct (s_now w).
  - intros n [h w] H. cbn. by destruct (s_rand n w).
  - intros timeout host [h w] H. cbn. by destruct (s_lookupIPs timeout host w).
  - intros n reason hw. apply security_hook_ok.
Qed.

(** ** Postconditions *)

Definition good (s : Resolver * (Handler * W)) : Prop := resolver_ok s.1 /\ handler_ok s.2.1.

(** Started in a good state [m] does not panic, ends in a good state, and a
    normal result satisfies [R]. *)
Definition hpost {A} (m : prog (Handler * W) A) (R : A -> Prop) : Prop :=
  forall s, good s -> post R (m s).1 /\ good (m s).2.

Lemma hp_ret {A} (a : A) (R : A -> Prop) : R a -> hpost (mret a) R.
Proof. by intros Ha s Hs. Qed.

Lemma hp_fail {A} e (R : A -> Prop) : hpost (fail e) R.
Proof. by intros s Hs. Qed.

Lemma hp_bind {A B} (m : prog (Handler * W) A) (k : A -> prog (Handler * W) B) P R :
  hpost m P -> (forall a, P a -> hpost (k a) R) -> hpost (m ≫= k) R.
Proof.
  intros Hm Hk s Hs. destruct (Hm s Hs) as [H1 H2]. unfold mbind, prog_bind.
  destruct (m s) as [[a|e| |] s']; cbn [post fst snd] in *; try done. by apply Hk.
Qed.

(** The common case: the value does not matter. *)
Lemma hp_seq {A B} (m : prog (Handler * W) A) (k : A -> prog (Handler * W) B) R :
  hpost m (fun _ => True) -> (forall a, hpost (k a) R) -> hpost (m ≫= k) R.
Proof. intros Hm Hk. eapply hp_bind; [exact Hm|]. auto. Qed.

Lemma hp_now : hpost now (fun _ => True).
Proof. intros [r [h w]] Hs. unfold now, r_now. cbn. by destruct (s_now w). Qed.

Lemma hp_hget : hpost hget (fun _ => True).
Proof. by intros [r [h w]] Hs. Qed.

Lemma hp_hupdate f : (forall h, handler_ok h -> handler_ok (f h)) -> hpost (hupdate f) (fun _ => True).
Proof. intros H [r [h w]] [Hr Hh]. split; [done|]. split; [done|]. by apply H. Qed.

Lemma hp_core f : (forall h, same_core h (f h)) -> hpost (hupdate f) (fun _ => True).
Proof. intros H. apply hp_hupdate. intros h. by apply same_core_ok. Qed.

Lemma hp_log e : hpost (log e) (fun _ => True).
Proof. by intros [r [h w]] [Hr Hh]. Qed.

Lemma hp_logRateLimit ip : hpost (logRateLimit ip) (fun _ => True).
Proof.
  intros [r [h w]] [Hr Hh]. unfold logRateLimit. bcase; [done|].
  destruct (s_now w) as [t1 w1], (s_now w1) as [t2 w2], (throttle _ _ _) as [l m].
  split; [done|]. split; [done|]. core.
Qed.

Lemma hp_limiter_allow ip : hpost (limiter_allow ip) (fun _ => True).
Proof.
  apply hp_seq; [apply hp_hget|]. intros h. destruct (hd_limiter h) as [l|]; [|by apply hp_ret].
  apply hp_seq; [apply hp_now|]. intros t [r [h' w]] [Hr Hh]. unfold act.
  destruct (Limiter_Allow t ip l). split; [done|]. split; [done|]. core.
Qed.

Lemma hp_rrl_allow tuple : hpost (rrl_allow tuple) (fun _ => True).
Proof.
  apply hp_seq; [apply hp_hget|]. intros h. destruct (hd_rrl h) as [l|]; [|by apply hp_ret].
  bcase; [|by apply hp_ret]. apply hp_seq; [apply hp_now|]. intros t [r [h' w]] [Hr Hh]. unfold act.
  destruct (RRL_Allow t tuple l). split; [done|]. split; [done|]. core.
Qed.

(** One more key after making room. *)
Lemma make_room_size {A} (m : gmap bytes A) limit k v (w : W) :
  0 < limit -> Z.of_nat (size m) <= limit ->
  Z.of_nat (size (<[k := v]> (make_room limit m w).1)) <= limit.
Proof.
  intros Hl Hm. unfold make_room. destruct (limit <=? Z.of_nat (size m)) eqn:E.
  - assert ((map_to_list m).*1 <> []) as Hne.
    { intros H. apply (f_equal length) in H. rewrite length_fmap, length_map_to_list in H. cbn in H. lia. }
    pose proof (s_pick_in _ w Hne) as Hin. destruct (s_pick _ w) as [x w']. cbn [fst] in *.
    apply list_elem_of_fmap in Hin as ([x' a] & -> & Hin). apply elem_of_map_to_list in Hin. cbn [fst] in *.
    assert (is_Some (m !! x')) as Hs by (by exists a).
    rewrite map_size_insert, map_size_delete_Some by done. destruct (delete x' m !! k); unfold id; lia.
  - cbn [fst]. rewrite map_size_insert. destruct (m !! k); cbn; lia.
Qed.

Lemma hp_recordQueryClient id ip : hpost (recordQueryClient id ip) (fun _ => True).
Proof.
  intros [r [h w]] [Hr [H1 H2 H3]]. unfold recordQueryClient. bcase; [done|].
  pose proof (make_room_size (hd_queryClientIP h) 2000 id ip w ltac:(done) H2) as Hs.
  destruct (make_room _ _ w) as [m w']. split; [done|]. by split.
Qed.

Lemma hp_ReverseHostname ip : hpost (ReverseHostname ip) (fun _ => True).
Proof.
  intros [r [h w]] [Hr [H1 H2 H3]]. unfold ReverseHostname.
  destruct (ParseIP (TrimSpace ip)); [|done]. destruct (hd_rdnsCache h !! TrimSpace ip); [done|].
  destruct (s_lookupAddr _ w) as [names w1].
  set (host := match names with Some (name :: _) => _ | _ => _ end).
  pose proof (make_room_size (hd_rdnsCache h) 1024 (TrimSpace ip) host w1 ltac:(done) H3) as Hs.
  destruct (make_room _ _ w1) as [m w']. split; [done|]. by split.
Qed.

Lemma hp_publishQueryEvent ev : hpost (publishQueryEvent ev) (fun _ => True).
Proof.
  intros [r [h w]] [Hr [H1 H2 H3]]. unfold publishQueryEvent.
  destruct (hub_step_ok (E := bytes) (HPublish ev) (hd_queries h) H1) as (q & E & Hq).
  cbn [hub_step] in E. rewrite E. split; [done|]. by split.
Qed.

Lemma observe_events_core qtype evs h : same_core h (foldl (observe_event qtype) h evs).
Proof.
  revert h. induction evs as [|ev evs IH]; intros h; [done|]. cbn [foldl].
  destruct (IH (observe_event qtype h ev)) as (E1 & E2 & E3). unfold same_core. rewrite E1, E2, E3.
  unfold observe_event. by bcase.
Qed.

Lemma set_circuit_core ups h : same_core h (foldl set_circuit h ups).
Proof.
  revert h. induction ups as [|u ups IH]; intros h; [done|]. cbn [foldl]. by destruct (IH (set_circuit h u)).
Qed.

Lemma hp_gauges : hpost updateObservabilityGauges (fun _ => True).
Proof.
  apply hp_seq; [apply hp_hget|]. intros h. apply hp_seq.
  - destruct (hd_prom h); [|by apply hp_ret]. apply hp_seq; [apply hp_now|].
    intros t [r [h' w]] [Hr Hh]. split; [done|]. split; [done|]. core.
  - intros _ [r [h' w]] [Hr Hh]. unfold act, UpstreamStatuses.
    destruct (add_roots _ _ _ _ _) as [[b o] n]. split; [done|]. split; [by destruct Hr|].
    eapply same_core_ok; [apply set_circuit_core|exact Hh].
Qed.

Lemma hp_observe_query ctx q response proto ip started cached stale res :
  hpost (observe_query ctx q response proto ip started cached stale res) (fun _ => True).
Proof.
  apply hp_seq; [apply hp_now|]. intros t. apply hp_seq; [apply hp_now|]. intros t'.
  apply hp_seq; [by apply hp_core|]. intros _.
  apply hp_seq; [apply hp_core; intros h; destruct res; [apply observe_events_core|done]|]. intros _.
  apply hp_seq; [apply hp_now|]. intros t''. apply hp_seq; [apply hp_publishQueryEvent|]. intros _.
  apply hp_seq; [apply hp_recordQueryClient|]. intros _. apply hp_seq; [apply hp_log|]. intros _.
  apply hp_gauges.
Qed.

(** ** Replies *)

(** The identifier a client waits for: the first two bytes, or zero. *)
Definition packet_id (raw : bytes) : Z :=
  match raw with a :: b :: _ => Z_of_byte b + Z_of_byte a * 2 ^ 8 | _ => 0 end.

(** At most 512 bytes, or marked as truncated and without records. *)
Definition small (hdr : Header) (wire : bytes) : Prop :=
  len wire <= 512
  \/ h_TC hdr = true /\ h_AnswerCount hdr = 0 /\ h_AuthorityCount hdr = 0 /\ h_AdditionalCount hdr = 0.

(** A packet that answers [raw]; if [plain], to a client that expects small ones. *)
Definition answers (raw : bytes) (plain : Prop) (wire : bytes) : Prop :=
  exists hdr, Header_decode wire = Ok hdr /\ h_ID hdr = packet_id raw /\ h_QR hdr = true
    /\ (plain -> small hdr wire \/ h_RCode hdr = RCodeRefused).

(** Sent, or dropped on purpose. *)
Definition replies (raw : bytes) (plain : Prop) (reply : option bytes * bool) : Prop :=
  match reply with
  | (Some wire, drop) => drop = false /\ answers raw plain wire
  | (None, drop) => drop = true
  end.

Lemma packet_id_range raw : is_u16 (packet_id raw).
Proof.
  unfold is_u16. destruct raw as [|a [|b raw]]; cbn [packet_id]; try lia.
  pose proof (Z_of_byte_range a). pose proof (Z_of_byte_range b). lia.
Qed.

Lemma Header_decode_id data h : Header_decode data = Ok h -> h_ID h = packet_id data.
Proof.
  unfold Header_decode. bcase; [done|]. destruct data as [|x [|y data]]; [by unfold HeaderSize in Hb..|].
  assert (Uint16_at (x :: y :: data) 0 2 = @Uint16 error [x; y]) as ->.
  { unfold Uint16_at. rewrite slice_ok by len_lia. done. }
  rewrite Uint16_pair. cbn [mbind result_bind]. intros H.
  repeat match type of H with mbind _ ?m = _ => destruct m eqn:?; cbn [mbind result_bind] in H; try done end.
  by injection H as <-.
Qed.

Lemma Decode_id raw m : Decode raw = Ok m -> h_ID (m_Header m) = packet_id raw.
Proof.
  unfold Decode. bcase; [done|]. bcase; [done|]. unfold HeaderSize in *.
  rewrite slice_ok by lia. cbn [mbind result_bind].
  destruct (Header_decode (sub raw 0 12)) as [h|e| |] eqn:E; cbn [mbind result_bind]; try done.
  intros H. apply Header_decode_id in E.
  repeat match type of H with mbind _ ?m = _ =>
    destruct m as [[? ?]|?| |] eqn:?; cbn [mbind result_bind] in H; try done end.
  bcase_in H; [done|]. injection H as <-. cbn [m_Header]. rewrite E.
  by destruct raw as [|x [|y raw]].
Qed.

Lemma formerr_reply id :
  is_u16 id -> exists wire, formerrFromID id = Some wire /\ len wire = 12
    /\ exists hdr, Header_decode wire = Ok hdr /\ h_ID hdr = id /\ h_QR hdr = true
       /\ h_RCode hdr = RCodeFormatError.
Proof.
  intros Hid. set (h := mkHeader id true 0 false false false false 0 RCodeFormatError 0 0 0 0).
  assert (formerrFromID id = Some (Header_encode h)) as -> by done.
  eexists. split; [done|]. split; [done|].
  rewrite <- (app_nil_r (Header_encode h)), Header_decode_encode. eexists. split; [done|].
  cbn. by rewrite u16_small.
Qed.

Lemma formerr_answers id raw plain :
  id = packet_id raw -> replies raw plain (formerrFromID id, false).
Proof.
  intros ->. destruct (formerr_reply (packet_id raw) (packet_id_range raw)) as (wire & -> & Hl & hdr & H1 & H2 & H3 & _).
  split; [done|]. exists hdr. ands; try done. intros _. left. left. lia.
Qed.

Lemma packet_formerr raw : formerrFromPacket raw = formerrFromID (packet_id raw).
Proof.
  unfold formerrFromPacket, packet_id. destruct raw as [|a [|b raw]]; try done.
  rewrite Z.lor_comm, lor_shift_add; [done|lia|]. apply Z_of_byte_range.
Qed.

Lemma hp_malformed reason raw e proto ip reply (R : option bytes * bool -> Prop) :
  R (reply, false) -> hpost (malformed reason raw e proto ip reply) R.
Proof.
  intros HR. apply hp_seq; [by apply hp_core|]. intros _. apply hp_seq; [apply hp_log|]. intros _. by apply hp_ret.
Qed.

Lemma hp_encode m what :
  hpost (encode m what) (fun '(m1, wire) => Encode (Some m) = (Some m1, Ok wire)).
Proof.
  intros s Hs. unfold encode. pose proof (post_safe _ _ (Encode_post (Some m))) as Hp.
  assert (forall m', (Encode (Some m)).1 = m' -> is_Some m') as Hm.
  { intros m' <-. unfold Encode. destruct (NormalizeCounts m); by eexists. }
  destruct (Encode (Some m)) as [m1 [wire|e| |]] eqn:E; cbn in Hp; try done.
  destruct (Hm m1 eq_refl) as [m2 ->]. by split.
Qed.

(** What the header of an encoded message says. *)
Lemma encoded_header m m1 wire :
  Encode (Some m) = (Some m1, Ok wire) ->
  exists hdr, Header_decode wire = Ok hdr /\ h_ID hdr = u16 (h_ID (m_Header m))
    /\ h_QR hdr = h_QR (m_Header m) /\ h_TC hdr = h_TC (m_Header m)
    /\ h_RCode hdr = Z.land (h_RCode (m_Header m)) 15
    /\ h_AnswerCount hdr = u16 (len (m_Answers m)) /\ h_AuthorityCount hdr = u16 (len (m_Authorities m))
    /\ h_AdditionalCount hdr = u16 (len (m_Additionals m))
    /\ h_ID (m_Header m1) = h_ID (m_Header m) /\ h_QR (m_Header m1) = h_QR (m_Header m).
Proof.
  intros E. apply Encode_header in E as [Hn Hd]. apply NormalizeCounts_inv in Hn as (-> & _).
  eexists. split; [exact Hd|]. by cbn.
Qed.

(** The response is identified, and cut down for a client without EDNS. *)
Lemma hp_encode_response udp request response :
  hpost (encode_response udp request response) (fun '(m1, wire) =>
    exists hdr, Header_decode wire = Ok hdr /\ h_ID hdr = u16 (h_ID (m_Header response))
      /\ h_QR hdr = h_QR (m_Header response)
      /\ (udp = true -> hasEDNS request = false -> small hdr wire)).
Proof.
  eapply hp_bind; [apply hp_encode|]. intros [m1 wire] E1. cbn beta iota in E1.
  apply encoded_header in E1 as (hdr & H1 & H2 & H3 & _ & _ & _ & _ & _ & Hi & Hq). bcase.
  - intros s Hs. destruct (hp_encode (truncated m1) "encode truncated response" s Hs) as [Hp Hg].
    split; [|done]. destruct (encode _ _ s) as [[[m2 wire2]|e| |] s']; try done.
    cbn [post fst] in Hp |- *.
    apply encoded_header in Hp as (hdr2 & D1 & D2 & D3 & D4 & _ & D5 & D6 & D7 & _).
    exists hdr2. cbn in D2, D3, D4, D5, D6, D7. rewrite Hi in D2. rewrite Hq in D3. ands; try done.
    intros _ _. by right.
  - apply hp_ret. exists hdr. ands; try done. intros -> Hn. rewrite Hn in Hb. cbn in Hb. left. lia.
Qed.

(** ** Programs that return no error *)

Definition no_err {A} (m : prog (Handler * W) A) : Prop := forall s e, (m s).1 <> Err e.

Lemma ne_bind {A B} (m : prog (Handler * W) A) (k : A -> prog (Handler * W) B) :
  no_err m -> (forall a, no_err (k a)) -> no_err (m ≫= k).
Proof.
  intros Hm Hk s e. specialize (Hm s). unfold mbind, prog_bind.
  destruct (m s) as [[a|e'| |] s']; try done; [apply Hk|]. intros [= E]. by apply (Hm e').
Qed.

Lemma ne_ret {A} (a : A) : no_err (mret a).
Proof. by intros s e. Qed.
Lemma ne_now : no_err now.
Proof. intros [r [h w]] e. unfold now, r_now. cbn. by destruct (s_now w). Qed.
Lemma ne_hget : no_err hget.
Proof. by intros [r [h w]] e. Qed.
Lemma ne_hupdate f : no_err (hupdate f).
Proof. by intros [r [h w]] e. Qed.
Lemma ne_log x : no_err (log x).
Proof. by intros [r [h w]] e. Qed.
Lemma ne_recordQueryClient id ip : no_err (recordQueryClient id ip).
Proof. intros [r [h w]] e. unfold recordQueryClient. bcase; [done|]. by destruct (make_room _ _ _). Qed.

Lemma send_all_no_err {E A} (ev : A) order m (e : E) : send_all ev order m <> Err e.
Proof.
  revert m. induction order as [|ch order IH]; intros m; cbn [send_all]; [done|].
  unfold try_send at 1. destruct (m !! ch) as [c|]; [|apply IH].
  destruct (ch_closed c); [done|]. bcase; apply IH.
Qed.

Lemma ne_publishQueryEvent ev : no_err (publishQueryEvent ev).
Proof.
  intros [r [h w]] e. unfold publishQueryEvent, Publish.
  pose proof (send_all_no_err (E := bytes) ev (elements (hub_subscribers (hd_queries h)))
    (hub_chans (hd_queries h))) as H.
  destruct (send_all ev _ _) as [m|e'| |]; try done. exfalso. by eapply H.
Qed.

Lemma ne_gauges : no_err updateObservabilityGauges.
Proof.
  apply ne_bind; [apply ne_hget|]. intros h. apply ne_bind.
  - destruct (hd_prom h); [|apply ne_ret]. apply ne_bind; [apply ne_now|]. by intros t [r [h' w]] e.
  - intros _ [r [h' w]] e. unfold act. by destruct (UpstreamStatuses r).
Qed.

Lemma observe_query_ok ctx q response proto ip started cached stale res s :
  good s -> exists s', observe_query ctx q response proto ip started cached stale res s = (Ok tt, s').
Proof.
  intros Hs. pose proof (hp_observe_query ctx q response proto ip started cached stale res s Hs) as [Hp _].
  assert (no_err (observe_query ctx q response proto ip started cached stale res)) as Hn.
  { repeat (apply ne_bind; [first [apply ne_now|apply ne_hupdate|apply ne_publishQueryEvent
      |apply ne_recordQueryClient|apply ne_log]|intros ?]). apply ne_gauges. }
  specialize (Hn s). destruct (observe_query _ _ _ _ _ _ _ _ _ s) as [[[]|e| |] s']; try done; [by eexists|].
  exfalso. by eapply Hn.
Qed.

(** What other goroutines do while an upstream query is under way. *)
Context (interference : forall id n name type servers s,
  good s ->
  rtc atomic s.1 (s_query id n name type servers s).2.1
  /\ handler_ok (s_query id n name type servers s).2.2.1).

Lemma hp_resolve qname qtype : hpost (resolve qname qtype) (fun _ => True).
Proof.
  intros s [Hr Hh].
  destruct (g_Resolve handler_stable (fun id n name type servers s H1 H2 =>
    interference id n name type servers s (conj H1 H2)) qname qtype s Hr Hh) as (H1 & H2 & H3).
  unfold resolve. destruct (Resolve qname qtype s) as [[res|e| |] s']; try done;
    (split; [done|]; split; [by eapply atomics_ok|done]).
Qed.

(** A client that takes at most 512 bytes. *)
Definition plain_client (raw proto : bytes) : Prop :=
  proto = "udp" /\ forall request, Decode raw = Ok request -> hasEDNS request = false.

Lemma response_id request q res :
  let '(response, _, _) := response_for request q res in
  h_ID (m_Header response) = h_ID (m_Header request) /\ h_QR (m_Header response) = true.
Proof. unfold response_for. by destruct res as [[? [m|] ? ? ? ? ? ? ?]|]. Qed.

Lemma hp_answer_question ctx raw request q proto ip started :
  Decode raw = Ok request ->
  hpost (answer_question ctx request q proto ip started) (replies raw (plain_client raw proto)).
Proof.
  intros Hd. unfold answer_question. cbv zeta. apply hp_seq; [apply hp_resolve|]. intros res.
  pose proof (response_id request q res) as Hi. destruct (response_for request q res) as [[response c] st].
  destruct Hi as [Hi Hq]. eapply hp_bind; [apply hp_encode_response|].
  intros [m1 wire] (hdr & H1 & H2 & H3 & H4). apply hp_seq; [apply hp_rrl_allow|]. intros ok. bcase.
  - apply hp_seq; [by apply hp_core|]. intros _. by apply hp_ret.
  - apply hp_seq; [apply hp_observe_query|]. intros _. apply hp_ret. split; [done|].
    exists hdr. rewrite Hi, (Decode_id raw request Hd), u16_small in H2 by apply packet_id_range.
    rewrite Hq in H3. ands; try done. intros [-> Hp]. left. apply H4; [by apply bool_decide_eq_true|].
    by apply Hp.
Qed.

Lemma hp_handle_request ctx raw request proto ip started :
  Decode raw = Ok request ->
  hpost (handle_request ctx raw request proto ip started) (replies raw (plain_client raw proto)).
Proof.
  intros Hd. unfold handle_request. destruct (m_Questions request) as [|q qs].
  { apply hp_malformed, formerr_answers. by apply Decode_id. }
  apply hp_seq; [apply hp_hget|]. intros h. bcase; [|by apply hp_answer_question].
  eapply hp_bind; [apply hp_encode|]. intros [m1 wire] E. cbn beta iota in E.
  apply encoded_header in E as (hdr & H1 & H2 & H3 & _ & H5 & _). apply hp_ret. split; [done|].
  exists hdr. cbn in H2, H3, H5. rewrite (Decode_id raw request Hd), u16_small in H2 by apply packet_id_range.
  ands; try done. by right.
Qed.

Lemma hp_HandlePacket ctx raw addr proto :
  hpost (HandlePacket ctx raw addr proto) (replies raw (plain_client raw proto)).
Proof.
  apply hp_seq; [apply hp_now|]. intros started. cbv zeta. apply hp_seq; [apply hp_hget|]. intros h. bcase.
  { apply hp_malformed. rewrite packet_formerr. by apply formerr_answers. }
  apply hp_seq; [bcase; [apply hp_limiter_allow|by apply hp_ret]|]. intros ok. bcase.
  { apply hp_seq; [by apply hp_core|]. intros _. apply hp_seq; [apply hp_logRateLimit|]. intros _.
    by apply hp_ret. }
  pose proof (Decode_post raw) as Hp. destruct (Decode raw) as [request|e| |] eqn:Hd; try done.
  - by apply hp_handle_request.
  - apply hp_malformed. rewrite packet_formerr. by apply formerr_answers.
Qed.

(** ** What becomes of a packet *)

(** The client's rate limit, asked for UDP only, and what it leaves. *)
Definition door (proto ip : bytes) (s : Resolver * (Handler * W)) : bool * (Resolver * (Handler * W)) :=
  let '(r, (h, w)) := s in
  match hd_limiter h with
  | Some l =>
      if bool_decide (proto = "udp") then
        let '(t, w) := s_now w in
        let '(ok, l) := Limiter_Allow t ip l in (ok, (r, (with_limits h (Some l) (hd_rrl h), w)))
      else (true, s)
  | None => (true, s)
  end.

(** The verdict of the response rate limit, when it is on. *)
Definition rrl_says (tuple : bytes) (s : Resolver * (Handler * W)) : bool :=
  match hd_rrl s.2.1 with
  | Some l => if hd_rrlEnabled s.2.1 then (RRL_Allow (s_now s.2.2).1 tuple l).1 else true
  | None => true
  end.

Definition rrl_tuple (ip : bytes) (q : Question) (rcode : Z) : bytes :=
  Join [ip; ToLower (q_Name q); TypeToString (q_Type q); RCodeToString rcode] "|".

Definition oversize (raw proto : bytes) (s : Resolver * (Handler * W)) : Prop :=
  proto = "udp" /\ hd_maxUDPSize s.2.1 < len raw.

(** A query that can be read. *)
Definition asks (raw : bytes) (request : Message) (q : Question) : Prop :=
  Decode raw = Ok request /\ head (m_Questions request) = Some q.

(** Read, and let in: the handler is in the state [s1]. *)
Definition admitted (raw proto ip : bytes) s request q s1 : Prop :=
  ~ oversize raw proto s /\ door proto ip s = (true, s1) /\ asks raw request q.

(** Recursion is on and the resolver, asked in [s1], returned [res] in [s2]; the
    response is then [m]. *)
Definition resolved (request : Message) (q : Question) (s1 s2 : Resolver * (Handler * W)) (m : Message) : Prop :=
  hd_allowRecursive s1.2.1 = true /\
  exists res, Resolve (q_Name q) (q_Type q) s1 = (res, s2) /\
    m = (response_for request q (match res with Ok a => Some a | _ => None end)).1.1.

Definition refusal (request : Message) : Message :=
  mkMessage (reply_header (m_Header request) (h_Opcode (m_Header request)) false RCodeRefused)
    (m_Questions request) [] [] [].

(** [m], or [m] marked as truncated and without its records. *)
Definition cut (m m' : Message) : Prop :=
  m' = m \/ m_Questions m' = m_Questions m /\ h_TC (m_Header m') = true
           /\ m_Answers m' = [] /\ m_Authorities m' = [] /\ m_Additionals m' = [].

(** [m] may be sent as [wire]; it has no wire form. *)
Definition sent_as (m : Message) (wire : bytes) : Prop := exists m', cut m m' /\ (Encode (Some m')).2 = Ok wire.
Definition unencodable (m : Message) : Prop := exists m' e, cut m m' /\ (Encode (Some m')).2 = Err e.

(** A response to [raw] with this response code. *)
Definition responds (raw wire : bytes) (rcode : Z) (hdr : Header) : Prop :=
  Header_decode wire = Ok hdr /\ h_ID hdr = packet_id raw /\ h_QR hdr = true
  /\ h_RCode hdr = Z.land rcode 15.

Inductive outcome (raw proto ip : bytes) s : result bytes (option bytes * bool) -> Prop :=
| Malformed wire hdr :
    oversize raw proto s
    \/ (~ oversize raw proto s /\ (door proto ip s).1 = true /\ forall request q, ~ asks raw request q) ->
    responds raw wire RCodeFormatError hdr -> len wire = 12 ->
    outcome raw proto ip s (Ok (Some wire, false))
| Limited :
    ~ oversize raw proto s -> (door proto ip s).1 = false ->
    outcome raw proto ip s (Ok (None, true))
| Refused request q s1 wire hdr :
    admitted raw proto ip s request q s1 -> hd_allowRecursive s1.2.1 = false ->
    responds raw wire RCodeRefused hdr -> (Encode (Some (refusal request))).2 = Ok wire ->
    outcome raw proto ip s (Ok (Some wire, false))
| Answered request q s1 s2 m wire hdr :
    admitted raw proto ip s request q s1 -> resolved request q s1 s2 m ->
    rrl_says (rrl_tuple ip q (h_RCode (m_Header m))) s2 = true ->
    responds raw wire (h_RCode (m_Header m)) hdr -> sent_as m wire ->
    (proto = "udp" -> hasEDNS request = false -> small hdr wire) ->
    outcome raw proto ip s (Ok (Some wire, false))
| Suppressed request q s1 s2 m :
    admitted raw proto ip s request q s1 -> resolved request q s1 s2 m ->
    rrl_says (rrl_tuple ip q (h_RCode (m_Header m))) s2 = false ->
    outcome raw proto ip s (Ok (None, true))
| Unencodable request q s1 s2 m e :
    admitted raw proto ip s request q s1 ->
    (hd_allowRecursive s1.2.1 = false /\ m = refusal request \/ resolved request q s1 s2 m) ->
    unencodable m ->
    outcome raw proto ip s (Err e).

Lemma now_run r h w : now (r, (h, w)) = (Ok (s_now w).1, (r, (h, (s_now w).2))).
Proof. unfold now, r_now, o_now. cbn. by destruct (s_now w). Qed.

Lemma malformed_run reason raw e proto ip reply (s : Resolver * (Handler * W)) :
  (malformed reason raw e proto ip reply s).1 = Ok (reply, false).
Proof. by destruct s as [r [h w]]. Qed.

Lemma limiter_run proto ip s :
  (if bool_decide (proto = "udp") then limiter_allow ip else mret true) s
  = (Ok (door proto ip s).1, (door proto ip s).2).
Proof.
  destruct s as [r [h w]]. unfold door, limiter_allow, mbind, prog_bind, hget.
  bcase; destruct (hd_limiter h) as [l|]; try done. rewrite now_run. unfold act.
  destruct (s_now w) as [t w1]. cbn [fst snd]. by destruct (Limiter_Allow t ip l).
Qed.

Lemma door_good proto ip s : good s -> good (door proto ip s).2.
Proof.
  intros Hs. pose proof (limiter_run proto ip s) as E. destruct (bool_decide (proto = "udp")).
  - destruct (hp_limiter_allow ip s Hs) as [_ H]. by rewrite E in H.
  - injection E as _ <-. exact Hs.
Qed.

Lemma rrl_run tuple s : exists s', rrl_allow tuple s = (Ok (rrl_says tuple s), s').
Proof.
  destruct s as [r [h w]]. unfold rrl_says, rrl_allow, mbind, prog_bind, hget. cbn [fst snd].
  destruct (hd_rrl h) as [l|]; [|by eexists]. bcase; [|by eexists]. rewrite now_run. unfold act.
  destruct (RRL_Allow _ tuple l). by eexists.
Qed.

Lemma resolve_run qname qtype s :
  good s -> exists res s2, Resolve qname qtype s = (res, s2)
    /\ resolve qname qtype s = (Ok (match res with Ok a => Some a | _ => None end), s2) /\ good s2.
Proof.
  intros Hs. destruct (hp_resolve qname qtype s Hs) as [Hp Hg]. unfold resolve in *.
  destruct (Resolve qname qtype s) as [[res|e| |] s2]; cbn in Hp; try done; by eexists _, _.
Qed.

Lemma encode_run m what (s : Resolver * (Handler * W)) :
  (exists m1 wire, encode m what s = (Ok (m1, wire), s) /\ Encode (Some m) = (Some m1, Ok wire))
  \/ (exists e, encode m what s = (Err what, s) /\ (Encode (Some m)).2 = Err e).
Proof.
  unfold encode. pose proof (post_safe _ _ (Encode_post (Some m))) as Hp.
  assert (is_Some (Encode (Some m)).1) as [m' Hm].
  { unfold Encode. destruct (NormalizeCounts m); by eexists. }
  destruct (Encode (Some m)) as [x [wire|e| |]]; cbn in Hp, Hm; subst; try done.
  - left. by eexists _, _.
  - right. by eexists.
Qed.

Lemma encode_response_run udp request m (s : Resolver * (Handler * W)) :
  (exists m1 wire hdr, encode_response udp request m s = (Ok (m1, wire), s)
     /\ h_RCode (m_Header m1) = h_RCode (m_Header m)
     /\ Header_decode wire = Ok hdr /\ h_ID hdr = u16 (h_ID (m_Header m)) /\ h_QR hdr = h_QR (m_Header m)
     /\ h_RCode hdr = Z.land (h_RCode (m_Header m)) 15 /\ sent_as m wire
     /\ (udp = true -> hasEDNS request = false -> small hdr wire))
  \/ (exists e, encode_response udp request m s = (Err e, s) /\ unencodable m).
Proof.
  unfold encode_response, mbind, prog_bind.
  destruct (encode_run m "encode response" s) as [(m1 & wire & -> & E)|(e & -> & E)].
  2: { right. eexists. split; [done|]. exists m, e. split; [by left|done]. }
  pose proof (f_equal snd E) as Es. cbn [snd] in Es.
  pose proof E as Hn. apply Encode_header in Hn as [Hn _]. apply NormalizeCounts_inv in Hn as (Hm & _).
  apply encoded_header in E as (hdr & H1 & H2 & H3 & _ & H5 & _). bcase.
  - destruct (encode_run (truncated m1) "encode truncated response" s)
      as [(m2 & wire2 & -> & E2)|(e & -> & E2)].
    + pose proof (f_equal snd E2) as Es2. cbn [snd] in Es2. pose proof E2 as Hn. apply Encode_header in Hn as [Hn _]. apply NormalizeCounts_inv in Hn as (Hm2 & _).
      apply encoded_header in E2 as (hdr2 & D1 & D2 & D3 & D4 & D5 & D6 & D7 & D8 & _).
      left. exists m2, wire2, hdr2. subst m2 m1. ands; try done; [|intros _ _; by right].
      eexists. split; [|exact Es2]. by right.
    + right. eexists. split; [done|]. exists (truncated m1), e. split; [right|done]. by subst m1.
  - left. exists m1, wire, hdr. subst m1. ands; try done; [exists m; split; [by left|done]|]. intros -> Hn. rewrite Hn in Hb. cbn in Hb. left. lia.
Qed.

Lemma formerr_outcome raw : exists wire hdr,
  formerrFromID (packet_id raw) = Some wire /\ responds raw wire RCodeFormatError hdr /\ len wire = 12.
Proof.
  destruct (formerr_reply (packet_id raw) (packet_id_range raw)) as (wire & E & Hl & hdr & H1 & H2 & H3 & H4).
  by exists wire, hdr.
Qed.

Lemma answer_question_outcome ctx raw request q proto ip started s s1 :
  good s1 -> admitted raw proto ip s request q s1 -> hd_allowRecursive s1.2.1 = true ->
  outcome raw proto ip s (answer_question ctx request q proto ip started s1).1.
Proof.
  intros Hs Had Ha. pose proof Had as (_ & _ & Hd & _). unfold answer_question. cbv zeta. unfold mbind at 1, prog_bind at 1.
  destruct (resolve_run (q_Name q) (q_Type q) s1 Hs) as (res & s2 & Hr & -> & Hs2).
  set (res' := match res with Ok a => Some a | _ => None end).
  pose proof (response_id request q res') as Hi.
  assert (resolved request q s1 s2 (response_for request q res').1.1) as Hres by (split; [done|by exists res]).
  destruct (response_for request q res') as [[m c] st]. destruct Hi as [Hi Hq]. cbn [fst] in Hres.
  unfold mbind at 1, prog_bind at 1.
  destruct (encode_response_run (bool_decide (proto = "udp")) request m s2)
    as [(m1 & wire & hdr & -> & E0 & E1 & E2 & E3 & E4 & Es & E5)|(e & -> & Hu)].
  2: { cbn [fst]. eapply Unencodable; [exact Had| |exact Hu]. right. exact Hres. }
  rewrite Hi, (Decode_id raw request Hd), u16_small in E2 by apply packet_id_range. rewrite Hq in E3.
  unfold mbind at 1, prog_bind at 1. rewrite E0. fold (rrl_tuple ip q (h_RCode (m_Header m))).
  destruct (hp_rrl_allow (rrl_tuple ip q (h_RCode (m_Header m))) s2 Hs2) as [_ Hs3].
  destruct (rrl_run (rrl_tuple ip q (h_RCode (m_Header m))) s2) as [s3 E]. rewrite E in Hs3 |- *.
  destruct (rrl_says _ s2) eqn:Er; cbn [negb].
  - unfold mbind, prog_bind.
    destruct (observe_query_ok ctx q m1 proto ip started c st res' s3 Hs3) as [s4 ->].
    cbn [fst]. eapply Answered; [exact Had|exact Hres|exact Er|done|exact Es|].
    intros Hp. apply E5. by apply bool_decide_eq_true.
  - destruct s3 as [r3 [h3 w3]]. cbn. by eapply Suppressed.
Qed.

Lemma handle_request_outcome ctx raw request proto ip started s s1 :
  good s1 -> ~ oversize raw proto s -> door proto ip s = (true, s1) -> Decode raw = Ok request ->
  outcome raw proto ip s (handle_request ctx raw request proto ip started s1).1.
Proof.
  intros Hs Ho Hdoor Hd. unfold handle_request. destruct (m_Questions request) as [|q qs] eqn:Eq.
  { rewrite malformed_run, (Decode_id raw request Hd). destruct (formerr_outcome raw) as (wire & hdr & -> & H1 & H2).
    eapply Malformed; [right|exact H1|exact H2]. rewrite Hdoor. split; [done|]. split; [done|].
    intros rq q [Hd' Hq]. assert (rq = request) as -> by congruence. by rewrite Eq in Hq. }
  assert (admitted raw proto ip s request q s1) as Had by (unfold admitted, asks; rewrite Eq; ands; done).
  destruct (hd_allowRecursive s1.2.1) eqn:Ea.
  - pose proof (answer_question_outcome ctx raw request q proto ip started s s1 Hs Had Ea) as H.
    destruct s1 as [r [h w]]. unfold mbind, prog_bind, hget. cbn [fst snd] in Ea. rewrite Ea. exact H.
  - destruct s1 as [r [h w]]. unfold mbind at 1, prog_bind at 1, hget. cbn [fst snd] in Ea. rewrite Ea. cbn [negb].
    cbv zeta. rewrite <- Eq. fold (refusal request). unfold mbind, prog_bind.
    destruct (encode_run (refusal request) "encode refused response" (r, (h, w)))
      as [(m1 & wire & -> & E)|(e & -> & E)]; cbn [fst].
    + pose proof (f_equal snd E) as Es. cbn [snd] in Es.
      pose proof E as Hn. apply Encode_header in Hn as [Hn Hdec]. apply NormalizeCounts_inv in Hn as (Hm & _).
      subst m1. eapply Refused; [exact Had|exact Ea| |].
      * unfold responds. ands; [exact Hdec| |done|done]. cbn.
        rewrite (Decode_id raw request Hd), u16_small by apply packet_id_range. done.
      * done.
    + eapply (Unencodable _ _ _ _ _ _ _ (r, (h, w)) (refusal request)); [exact Had|by left|]. exists (refusal request), e.
      split; [by left|done].
Qed.

Lemma HandlePacket_outcome ctx raw addr proto r h w :
  good (r, (h, w)) ->
  outcome raw proto (clientIPString addr) (r, (h, (s_now w).2)) (HandlePacket ctx raw addr proto (r, (h, w))).1.
Proof.
  intros Hs. unfold HandlePacket. unfold mbind at 1, prog_bind at 1. rewrite now_run. cbv zeta.
  assert (good (r, (h, (s_now w).2))) as Hs0 by done. set (ip := clientIPString addr).
  set (s0 := (r, (h, (s_now w).2))) in *. unfold mbind at 1, prog_bind at 1, hget at 1. unfold s0 at 2. cbv beta iota.
  fold s0. destruct (bool_decide (proto = "udp") && (hd_maxUDPSize h <? len raw)) eqn:Eo.
  { rewrite malformed_run, packet_formerr. destruct (formerr_outcome raw) as (wire & hdr & -> & H1 & H2).
    eapply Malformed; [left|exact H1|exact H2]. unfold oversize, s0. cbn [fst snd].
    apply andb_prop in Eo as [E1 E2]. apply bool_decide_eq_true in E1. split; [done|lia]. }
  assert (~ oversize raw proto s0) as Ho.
  { intros [-> H]. unfold s0 in H. cbn [fst snd] in H. rewrite bool_decide_eq_true_2 in Eo by done. cbn in Eo. lia. }
  unfold mbind at 1, prog_bind at 1. rewrite limiter_run.
  assert (good (door proto ip s0).2) as Hs1 by (by apply door_good).
  destruct (door proto ip s0) as [[] s1] eqn:Edoor; cbn [fst snd negb] in *.
  - pose proof (Decode_post raw) as Hp. destruct (Decode raw) as [request|e| |] eqn:Hd; cbn in Hp; try done.
    + by apply handle_request_outcome.
    + rewrite malformed_run, packet_formerr. destruct (formerr_outcome raw) as (wire & hdr & -> & H1 & H2).
      eapply Malformed; [right|exact H1|exact H2]. rewrite Edoor. split; [done|]. split; [done|].
      intros rq q [Hd' _]. by rewrite Hd in Hd'.
  - unfold mbind, prog_bind. destruct s1 as [r1 [h1 w1]]. unfold hupdate, logRateLimit. cbn [fst snd].
    assert (outcome raw proto ip s0 (Ok (None, true))) as H by (apply Limited; [done|by rewrite Edoor]).
    bcase; [exact H|]. destruct (s_now w1) as [t2 w2], (s_now w2) as [t3 w3], (throttle _ _ _). exact H.
Qed.


(** C16. A TCP client gets the resolver's answer.  When the resolver returns a
    message for the first question of a packet and recursion is allowed, the
    reply is the encoding of that message under the identifier of the request,
    which decodes to the same header, questions and records, up to the letter case
    of names.  It is sent exactly when the response rate limit, asked after the
    resolution, admits the client's address, name, type and response code. *)
Theorem HandlePacket_answer ctx raw addr request q qs r h w res s2 m m1 wire :
  good (r, (h, w)) -> Decode raw = Ok request -> m_Questions request = q :: qs ->
  hd_allowRecursive h = true ->
  Resolve (q_Name q) (q_Type q) (r, (h, (s_now w).2)) = (Ok res, s2) ->
  rr_Message res = Some m ->
  let response := (response_for request q (Some res)).1.1 in
  message_ok response -> Encode (Some response) = (Some m1, Ok wire) ->
  (exists s3, HandlePacket ctx raw addr "tcp" (r, (h, w)) =
     (Ok (if rrl_says (rrl_tuple (clientIPString addr) q (h_RCode (m_Header m))) s2
          then (Some wire, false) else (None, true)), s3))
  /\ m_Answers m1 = m_Answers m /\ m_Authorities m1 = m_Authorities m
  /\ m_Additionals m1 = m_Additionals m /\ h_ID (m_Header m1) = packet_id raw
  /\ h_RCode (m_Header m1) = h_RCode (m_Header m)
  /\ exists m2, Decode wire = Ok m2 /\ same_message m1 m2.
Proof.
  intros Hs Hd Hq Ha Hr Hm. cbv zeta. intros Hok He.
  pose proof He as Hn. apply Encode_header in Hn as [Hn _]. apply NormalizeCounts_inv in Hn as (Hm1 & _).
  assert (h_RCode (m_Header m1) = h_RCode (m_Header m)) as Erc.
  { rewrite Hm1. unfold response_for. by rewrite Hm. }
  split.
  - unfold HandlePacket. unfold mbind at 1, prog_bind at 1. rewrite now_run. cbv zeta.
    destruct (hp_resolve (q_Name q) (q_Type q) (r, (h, (s_now w).2))) as [_ Hs2].
    { by destruct Hs. }
    destruct (s_now w) as [t w1]. cbn [snd fst] in *.
    unfold mbind at 1, prog_bind at 1, hget at 1. rewrite bool_decide_eq_false_2 by done. cbn [andb].
    unfold mbind at 1, prog_bind at 1, mret at 1, prog_ret at 1. cbn [negb]. rewrite Hd. unfold handle_request. rewrite Hq.
    unfold mbind at 1, prog_bind at 1, hget at 1. rewrite Ha. cbn [negb]. unfold answer_question. cbv zeta.
    unfold mbind at 1, prog_bind at 1. unfold resolve in *. rewrite Hr in *. cbn [snd] in Hs2.
    destruct (response_for request q (Some res)) as [[resp c] st] eqn:Er. cbn [fst] in He.
    unfold mbind at 1, prog_bind at 1, encode_response. unfold mbind at 1, prog_bind at 1. unfold encode at 1. rewrite He.
    unfold mret at 1, prog_ret at 1. rewrite bool_decide_eq_false_2 by done. cbn [andb default].
    unfold mret at 1, prog_ret at 1. change (id m1) with m1. rewrite Erc.
    fold (rrl_tuple (clientIPString addr) q (h_RCode (m_Header m))).
    unfold mbind at 1, prog_bind at 1.
    destruct (hp_rrl_allow (rrl_tuple (clientIPString addr) q (h_RCode (m_Header m))) s2 Hs2) as [_ Hs3].
    destruct (rrl_run (rrl_tuple (clientIPString addr) q (h_RCode (m_Header m))) s2) as [s3 E3].
    rewrite E3 in Hs3 |- *. destruct (rrl_says _ s2); cbn [negb].
    + unfold mbind, prog_bind.
      destruct (observe_query_ok ctx q m1 "tcp" (clientIPString addr) t c st (Some res) s3 Hs3) as [s4 ->].
      by eexists.
    + destruct s3 as [r3 [h3 w3]]. by eexists.
  - pose proof (Encode_reads_back _ _ _ Hok He) as Hrb. subst m1.
    unfold response_for in *. rewrite Hm in *. cbn in *. ands; try done.
    by apply Decode_id.
Qed.
End handler.

(** ** An example *)

Lemma NewHandler_ok opts r : resolver_ok r -> resolver_ok (NewHandler opts r).2 /\ handler_ok (NewHandler opts r).1.
Proof. intros []. split; [by split|]. split; [apply hub_inv_new|done..]. Qed.

(** A world whose clock stands still and where every name has one address. *)
#[local] Instance calm : Surroundings unit.
Proof.
  refine {|
    s_query id n name type servers s := (mkAnswer (Some (lab_answer name type)) [] None, s);
    s_lookupIPs timeout host w := (None, w);
    s_lookupAddr addr w := (None, w);
    s_now w := (Hour, w);
    s_rand n w := (None, w);
    s_pick keys w := (hd "" keys, w);
    s_goroutines w := 1;
    s_log e w := w |}.
  intros [|k keys] w Hk; [done|]. by left.
Defined.

Definition lab_state : Resolver * (Handler * unit) :=
  let '(h, r) := NewHandler (mkHandlerOptions None (Some (NewRRL 0 15 2)) 0 None None true None true)
    (NewResolver 0 (mkConfig Second 1 10 10 false false true 1232 5 2 (30 * Second)) None) in
  (r, (h, tt)).

Definition lab_query_packet : bytes :=
  map byte_of_Z [18; 52; 1; 0; 0; 1; 0; 0; 0; 0; 0; 0; 3] ++ "www" ++ [byte_of_Z 7] ++ "example"
  ++ [byte_of_Z 3] ++ "com" ++ map byte_of_Z [0; 0; 1; 0; 1].

Lemma lab_good : good lab_state.
Proof. apply NewHandler_ok. by apply NewResolver_ok. Qed.


Theorem HandlePacket_answer_witness :
  exists wire s3 m2,
    @HandlePacket latin1 unit calm (mkContext "" "") lab_query_packet None "tcp" lab_state
    = (Ok (Some wire, false), s3)
    /\ Decode wire = Ok m2 /\ len (m_Answers m2) = 1.
Proof.
  set (q := mkQuestion "www.example.com." TypeA ClassIN).
  set (request := mkMessage (mkHeader 4660 false 0 false false true false 0 0 1 0 0 0) [q] [] [] []).
  assert (Decode lab_query_packet = Ok request) as Ed by (vm_compute; reflexivity).
  set (resp := mkMessage (mkHeader 4660 true 0 false false true true 0 0 0 0 0 0) [q]
    (m_Answers (lab_answer "www.example.com." TypeA)) [] []).
  destruct (@Encode latin1 (Some resp)) as [[m1|] [wire|e| |]] eqn:Ee; try (vm_compute in Ee; discriminate).
  assert (message_ok resp) as Hok.
  { constructor; cbn.
    - unfold Header_wf, is_u16. cbn. lia.
    - by repeat constructor.
    - repeat constructor; try done. eexists. split; [done|]. by repeat constructor.
    - constructor.
    - constructor. }
  assert (let '(x, s2) := @Resolve latin1 (Handler * unit) handler_world "www.example.com." TypeA lab_state in
    match x with Ok res => rr_Message res = Some (lab_answer "www.example.com." TypeA) | _ => False end
    /\ @rrl_says unit calm (@rrl_tuple latin1 "" q RCodeNoError) s2 = true) as H0 by (vm_compute; split; reflexivity).
  destruct (@Resolve latin1 (Handler * unit) handler_world "www.example.com." TypeA lab_state) as [x s2] eqn:Er.
  destruct H0 as [Hx Hl].
  destruct x as [res|e| |]; [|exact (False_ind _ Hx)..].
  assert ((response_for request q (Some res)).1.1 = resp) as Hresp by (unfold response_for; by rewrite Hx).
  rewrite <- Hresp in Ee, Hok.
  destruct (@HandlePacket_answer latin1 unit calm
    (fun id n name type servers s H => conj (rtc_refl _ _) (proj2 H))
    (mkContext "" "") lab_query_packet None request q []
    lab_state.1 lab_state.2.1 tt res s2 (lab_answer "www.example.com." TypeA) m1 wire
    lab_good Ed eq_refl eq_refl Er Hx Hok Ee) as ([s3 H1] & H2 & _ & _ & _ & _ & m2 & H3 & H4).
  change (h_RCode (m_Header (lab_answer "www.example.com." TypeA))) with RCodeNoError in H1.
  change (clientIPString None) with "" in H1. rewrite Hl in H1.
  exists wire, s3, m2. split; [exact H1|]. split; [exact H3|].
  destruct H4 as [_ _ H4 _ _]. apply Forall2_length in H4. unfold len. rewrite <- H4, H2. reflexivity.
Defined.
