(* ===== verification/EventJson.v ===== *)
(** * internal/resolver/pipeline.go, internal/server/handler.go: the JSON text of
    the events that the websockets send. *)

From S2P Require Import Prelude.
From S2P Require Import GoStrings.
From S2P Require Import GoTime.
From S2P Require Import Protocol.
From S2P Require Import Decoder.
From S2P Require Import Pipeline.
From S2P Require Import GoNet.
From S2P Require Import GoFloat.
From S2P Require Import GoFormat.
From S2P Require Import GoBase64.
From S2P Require Import Settings.
From S2P Require Import GoJson.
From S2P Require Import JsonText.
From S2P Require Import GoDate.
From S2P Require Import Handler.

#[local] Open Scope go_scope.

(** ** Messages *)

Definition header_value (h : Header) : jvalue :=
  JObject [("id", JInt (h_ID h)); ("qr", JBool (h_QR h)); ("opcode", JInt (h_Opcode h));
    ("aa", JBool (h_AA h)); ("tc", JBool (h_TC h)); ("rd", JBool (h_RD h)); ("ra", JBool (h_RA h));
    ("z", JInt (h_Z h)); ("rcode", JInt (h_RCode h)); ("qdcount", JInt (h_QuestionCount h));
    ("ancount", JInt (h_AnswerCount h)); ("nscount", JInt (h_AuthorityCount h));
    ("arcount", JInt (h_AdditionalCount h))].

Definition question_value (q : Question) : jvalue :=
  JObject [("name", JString (q_Name q)); ("type", JInt (q_Type q)); ("class", JInt (q_Class q))].

Definition rr_value (rr : ResourceRecord) : jvalue :=
  JObject ([("name" : bytes, JString (rr_Name rr)); ("type" : bytes, JInt (rr_Type rr));
            ("class" : bytes, JInt (rr_Class rr)); ("ttl" : bytes, JInt (rr_TTL rr))]
    ++ unless (bool_decide (rr_Data rr = None)) "data" (rdata_value (rr_Data rr))
    ++ unless (bool_decide (rr_RawRData rr = "")) "raw_rdata" (JBytes (rr_RawRData rr))).

Definition message_value (m : Message) : jvalue :=
  JObject ([("header" : bytes, header_value (m_Header m))]
    ++ list_field "questions" question_value (m_Questions m)
    ++ list_field "answers" rr_value (m_Answers m)
    ++ list_field "authorities" rr_value (m_Authorities m)
    ++ list_field "additionals" rr_value (m_Additionals m)).

(** ** Events *)

(** [hex.EncodeToString] *)
Definition hex_text (s : bytes) : bytes := flat_map hex_byte s.

(** The payload of [ResolutionEvent.MarshalJSON], its time as a text. *)
Definition event_value (timestamp : bytes) (e : ResolutionEvent) : fields :=
  [("query_id" : bytes, JString (ev_QueryID e)); ("timestamp" : bytes, JString timestamp);
   ("step" : bytes, JInt (ev_Step e)); ("step_type" : bytes, JString (ev_StepType e));
   ("server" : bytes, JString (ev_Server e)); ("server_name" : bytes, JString (ev_ServerName e));
   ("query" : bytes, JString (ev_Query e)); ("query_type" : bytes, JString (ev_QueryType e));
   ("latency_ms" : bytes, JInt (ev_Latency e)); ("success" : bytes, JBool (ev_Success e));
   ("raw_request" : bytes, JString (hex_text (ev_RawRequest e)));
   ("raw_response" : bytes, JString (hex_text (ev_RawResponse e)))]
  ++ match ev_ParsedMsg e with Some m => [("parsed_message" : bytes, message_value m)] | None => [] end
  ++ string_field "error" (ev_ErrorMsg e).

(** [json.Marshal] of an event; an error for a year that RFC 3339 cannot write. *)
Definition MarshalJSON (e : ResolutionEvent) : option bytes :=
  (fun timestamp => Marshal (JObject (event_value timestamp e))) <$> time_text (ev_Timestamp e).

(** [json.Marshal] of a query event, by the tags of its fields. *)
Definition query_event_value (timestamp : bytes) (e : QueryEvent) : fields :=
  [("id" : bytes, JString (qe_ID e))]
  ++ string_field "query_id" (qe_QueryID e)
  ++ [("timestamp" : bytes, JString timestamp); ("domain" : bytes, JString (qe_Domain e));
      ("type" : bytes, JString (qe_Type e))]
  ++ string_field "query_type" (qe_QueryType e)
  ++ [("client_ip" : bytes, JString (qe_ClientIP e))]
  ++ string_field "protocol" (qe_Protocol e)
  ++ [("latency_ms" : bytes, JInt (qe_LatencyMS e))]
  ++ unless (qe_DurationMS e =? 0) "duration_ms" (JInt (qe_DurationMS e))
  ++ [("steps" : bytes, JInt (qe_Steps e)); ("rcode" : bytes, JString (qe_RCode e));
      ("cached" : bytes, JBool (qe_Cached e)); ("stale" : bytes, JBool (qe_Stale e))].

Definition query_event_json (e : QueryEvent) : option bytes :=
  (fun timestamp => Marshal (JObject (query_event_value timestamp e))) <$> time_text (qe_Timestamp e).

Example MarshalJSON_example :
  MarshalJSON (local_event "q1" (1709210096 * Second) 1 "cache_hit" "a.example." "A" "")
  = Some ("{" ++ Join (map (fun kv : bytes * bytes => quoted kv.1 ++ ":" ++ kv.2)
      [("query_id", quoted "q1"); ("timestamp", quoted "2024-02-29T12:34:56Z"); ("step", "1");
       ("step_type", quoted "cache_hit"); ("server", quoted ""); ("server_name", quoted "");
       ("query", quoted "a.example."); ("query_type", quoted "A"); ("latency_ms", "0"); ("success", "true");
       ("raw_request", quoted ""); ("raw_response", quoted "")]) "," ++ "}").
Proof. vm_compute. reflexivity. Qed.

(** ** Reading an event back

    What a client finds under the keys of an event. *)

Definition get_string (m : gmap bytes any) (key : bytes) : option bytes :=
  match m !! key with Some (VString s) => Some s | _ => None end.
Definition get_int (m : gmap bytes any) (key : bytes) : option Z :=
  match m !! key with Some (VFloat64 f) => Some (f_to_int f) | _ => None end.
Definition get_bool (m : gmap bytes any) (key : bytes) : option bool :=
  match m !! key with Some (VBool b) => Some b | _ => None end.

Fixpoint read_hex (s : bytes) : option bytes :=
  match s with
  | [] => Some []
  | [_] => None
  | a :: b :: k => x ← hex_value a; y ← hex_value b; r ← read_hex k; Some (byte_of_Z (16 * x + y) :: r)
  end.

(** The event, and its parsed message as a value. *)
Definition read_event (m : gmap bytes any) : option (ResolutionEvent * option any) :=
  id ← get_string m "query_id"; t ← get_string m "timestamp"; t ← parse_RFC3339 t;
  step ← get_int m "step"; stepType ← get_string m "step_type"; server ← get_string m "server";
  serverName ← get_string m "server_name"; query ← get_string m "query"; queryType ← get_string m "query_type";
  latency ← get_int m "latency_ms"; success ← get_bool m "success";
  request ← get_string m "raw_request"; request ← read_hex request;
  response ← get_string m "raw_response"; response ← read_hex response;
  Some (mkEvent id t step stepType server serverName query queryType latency success request response None
          (default "" (get_string m "error")), m !! ("parsed_message" : bytes)).

(** An event with its texts made valid UTF-8, and without its message. *)
Definition valid_event (e : ResolutionEvent) : ResolutionEvent :=
  mkEvent (to_valid (ev_QueryID e)) (ev_Timestamp e) (ev_Step e) (to_valid (ev_StepType e)) (to_valid (ev_Server e))
    (to_valid (ev_ServerName e)) (to_valid (ev_Query e)) (to_valid (ev_QueryType e)) (ev_Latency e) (ev_Success e)
    (ev_RawRequest e) (ev_RawResponse e) None (to_valid (ev_ErrorMsg e)).

(** *** Texts of ASCII *)

Lemma hex_digit_value n : 0 <= n < 16 -> hex_value (hex_digit n) = Some n /\ is_ascii (hex_digit n) = true.
Proof.
  intros Hn. unfold hex_value, hex_digit, is_ascii. destruct (n <? 10) eqn:E.
  - rewrite Z_of_byte_of_Z, Z.mod_small by lia. replace ((48 <=? 48 + n) && (48 + n <=? 57)) with true by lia.
    split; [f_equal; lia|lia].
  - rewrite Z_of_byte_of_Z, Z.mod_small by lia. replace ((48 <=? 87 + n) && (87 + n <=? 57)) with false by lia.
    replace ((97 <=? 87 + n) && (87 + n <=? 102)) with true by lia. split; [f_equal; lia|lia].
Qed.

Lemma read_hex_text s : read_hex (hex_text s) = Some s /\ all_ascii (hex_text s) = true.
Proof.
  induction s as [|c s [IH1 IH2]]; [done|]. pose proof (Z_of_byte_range c).
  destruct (hex_digit_value (Z_of_byte c / 16) ltac:(dlia)) as [E1 A1].
  destruct (hex_digit_value (Z_of_byte c mod 16) ltac:(dlia)) as [E2 A2].
  change (hex_text (c :: s)) with (hex_digit (Z_of_byte c / 16) :: hex_digit (Z_of_byte c mod 16) :: hex_text s).
  split; [|by rewrite !all_ascii_cons, A1, A2].
  cbn [read_hex]. rewrite E1, E2, IH1. cbn [mbind option_bind]. do 2 f_equal.
  replace (16 * (Z_of_byte c / 16) + Z_of_byte c mod 16) with (Z_of_byte c) by dlia. apply byte_of_Z_of_byte.
Qed.

(** *** The bounds of the decoder *)

Lemma exact_small n : 0 <= n < 2 ^ 32 -> exact (JInt n) = true.
Proof. intros H. cbn [ints_below]. lia. Qed.

Lemma exact_array {A} (f : A -> jvalue) l : (forall x, x ∈ l -> exact (f x) = true) -> exact (JArray (map f l)) = true.
Proof.
  intros H. cbn [ints_below]. apply forallb_forall. intros v (x & <- & Hx)%in_map_iff. apply H. by apply list_elem_of_In.
Qed.

Lemma exact_JBytes s : exact (JBytes s) = true.
Proof. unfold JBytes. by bcase. Qed.

Lemma exact_unless b key v : exact v = true -> forallb (fun kv => exact kv.2) (unless b key v) = true.
Proof. intros H. destruct b; cbn; by rewrite ?H. Qed.

Lemma exact_list {A} key (f : A -> jvalue) l :
  (forall x, x ∈ l -> exact (f x) = true) -> forallb (fun kv => exact kv.2) (list_field key f l) = true.
Proof. intros H. by apply exact_unless, exact_array. Qed.

Lemma exact_rdata d : rdata_wf d -> is_u16 (recordType d) -> exact (rdata_value (Some d)) = true.
Proof.
  destruct d; cbn [rdata_wf rdata_value recordType]; unfold is_u32, is_u16, is_u8; intros Hd Ht;
    try (cbn [ints_below forallb snd]; rewrite ?exact_JBytes; cbn [andb]; lia).
  - cbn [ints_below forallb snd]. rewrite andb_true_r. apply exact_array. intros x _. apply exact_small.
    pose proof (Z_of_byte_range x). lia.
  - cbn [ints_below forallb snd]. rewrite andb_true_r. apply exact_array. intros x _. apply exact_small.
    pose proof (Z_of_byte_range x). lia.
  - cbn [ints_below forallb snd]. rewrite andb_true_r. by apply exact_array.
Qed.

Lemma exact_rr rr : ResourceRecord_wf rr -> exact (rr_value rr) = true.
Proof.
  intros (_ & Ht & Hc & Httl & _ & Hd). unfold is_u16, is_u32 in *. unfold rr_value. cbn [ints_below].
  rewrite !forallb_app, exact_unless, exact_unless; [cbn; lia|apply exact_JBytes|].
  destruct (rr_Data rr) as [d|]; [|done]. destruct Hd as [E Hd]. apply exact_rdata; [done|]. unfold is_u16. lia.
Qed.

Lemma exact_message m : Message_wf m -> exact (message_value m) = true.
Proof.
  intros [(H1 & H2 & H3 & H4 & H5 & H6 & H7 & H8) _ _ _ _ Hq Ha Hn Hr]. unfold is_u16 in *.
  unfold message_value. cbn [ints_below]. rewrite Forall_forall in Hq. rewrite Forall_forall in Ha, Hn, Hr.
  rewrite !forallb_app.
  rewrite !exact_list; [cbn; lia|auto using exact_rr..|].
  intros q (_ & Ht & Hc)%Hq. unfold is_u16 in *. cbn. lia.
Qed.

(** At most [b] levels. *)
Lemma height_object l b : 0 <= b -> Forall (fun kv => height kv.2 <= b) l -> height (JObject l) <= 1 + b.
Proof. intros Hb H. cbn [height]. induction H as [|kv l Hv _ IH]; cbn [map foldr]; lia. Qed.

Lemma height_array {A} (f : A -> jvalue) l b : 0 <= b -> (forall x, height (f x) <= b) -> height (JArray (map f l)) <= 1 + b.
Proof. intros Hb H. cbn [height]. induction l as [|x l IH]; cbn [map foldr]; [lia|]. specialize (H x). lia. Qed.

Lemma height_unless c key v b : height v <= b -> Forall (fun kv => height kv.2 <= b) (unless c key v).
Proof. intros H. destruct c; by repeat constructor. Qed.

Lemma height_list {A} key (f : A -> jvalue) l b :
  0 <= b -> (forall x, height (f x) <= b) -> Forall (fun kv => height kv.2 <= 1 + b) (list_field key f l).
Proof. intros Hb H. by apply height_unless, height_array. Qed.

Lemma height_rdata d : height (rdata_value d) <= 2.
Proof.
  destruct d as [d|]; [|cbn; lia]. destruct d; cbn [rdata_value];
    try (apply (height_object _ 1); [lia|]; repeat constructor; cbn [snd]; try (cbn; lia); try (unfold JBytes; bcase; cbn; lia));
    by apply (height_array _ _ 0).
Qed.

Lemma height_rr rr : height (rr_value rr) <= 3.
Proof.
  apply (height_object _ 2); [lia|]. repeat apply Forall_app_2; [by repeat constructor; cbn| |].
  - apply height_unless, height_rdata.
  - apply height_unless. unfold JBytes. by bcase.
Qed.

Lemma height_message m : height (message_value m) <= 5.
Proof.
  apply (height_object _ 4); [lia|]. repeat apply Forall_app_2; [by repeat constructor; cbn| | | |];
    apply (height_list _ _ _ 3); try lia; auto using height_rr. intros q. cbn. lia.
Qed.

(** *** Events *)

(** The integers of an event are exact, and its message is one that [Decode]
    accepts. *)
Definition event_exact (e : ResolutionEvent) : Prop :=
  Z.abs (ev_Step e) < 2 ^ 53 /\ Z.abs (ev_Latency e) < 2 ^ 53
  /\ match ev_ParsedMsg e with Some m => Message_wf m | None => True end.

Lemma event_value_bounds ts e : event_exact e ->
  forallb (fun kv => exact kv.2) (event_value ts e) = true /\ height (JObject (event_value ts e)) <= 10000.
Proof.
  intros (Hs & Hl & Hm). unfold event_value. split.
  - rewrite !forallb_app. apply andb_true_iff. split; [cbn; lia|]. apply andb_true_iff. split.
    + destruct (ev_ParsedMsg e) as [m|]; [|done]. cbn [forallb snd]. by rewrite exact_message.
    + by apply exact_unless.
  - transitivity (1 + 5); [|lia]. apply height_object; [lia|]. repeat apply Forall_app_2.
    + by repeat constructor; cbn.
    + destruct (ev_ParsedMsg e) as [m|]; [|done]. constructor; [apply height_message|done].
    + by apply height_unless.
Qed.

(** A client reads every field of an event from its members. *)
Lemma read_event_members (ts : bytes) (e : ResolutionEvent) (m : gmap bytes any) :
  (forall key : bytes, m !! key = find_last (map (fun kv => (to_valid kv.1, any_of kv.2)) (event_value ts e)) key) ->
  time_text (ev_Timestamp e) = Some ts -> event_exact e ->
  read_event m = Some (valid_event e, (fun msg => any_of (message_value msg)) <$> ev_ParsedMsg e).
Proof.
  intros Hm Ht (Hs & Hl & _). pose proof (time_text_reads _ _ Ht) as Hread. apply time_text_ascii in Ht.
  destruct (read_hex_text (ev_RawRequest e)) as [R1 A1]. destruct (read_hex_text (ev_RawResponse e)) as [R2 A2].
  assert (forall key v, find_last (map (fun kv => (to_valid kv.1, any_of kv.2)) (event_value ts e)) key = Some v ->
    m !! key = Some v) as G by (intros key v <-; apply Hm).
  unfold read_event, get_string, get_int, get_bool. rewrite (Hm "error"), (Hm "parsed_message"). clear Hm.
  destruct e as [id t step type server name query qtype latency success request response msg err]. unfold event_value in *.
  cbn [ev_QueryID ev_Timestamp ev_Step ev_StepType ev_Server ev_ServerName ev_Query ev_QueryType ev_Latency
    ev_Success ev_RawRequest ev_RawResponse ev_ParsedMsg ev_ErrorMsg] in *.
  unfold string_field, unless in *.
  destruct msg as [msg|]; case_bool_decide as Herr;
    rewrite (G "query_id" (VString (to_valid id)) eq_refl), (G "timestamp" (VString (to_valid ts)) eq_refl),
      (G "step" (VFloat64 (f_of_int step)) eq_refl), (G "step_type" (VString (to_valid type)) eq_refl),
      (G "server" (VString (to_valid server)) eq_refl), (G "server_name" (VString (to_valid name)) eq_refl),
      (G "query" (VString (to_valid query)) eq_refl), (G "query_type" (VString (to_valid qtype)) eq_refl),
      (G "latency_ms" (VFloat64 (f_of_int latency)) eq_refl), (G "success" (VBool success) eq_refl),
      (G "raw_request" (VString (to_valid (hex_text request))) eq_refl),
      (G "raw_response" (VString (to_valid (hex_text response))) eq_refl); clear G;
    cbn [mbind option_bind]; rewrite (to_valid_ascii ts), Hread by done; cbn [mbind option_bind];
    rewrite (to_valid_ascii (hex_text request)), (to_valid_ascii (hex_text response)), R1 by done;
    cbn [mbind option_bind]; rewrite R2; cbn [mbind option_bind]; rewrite !f_to_int_int by done; subst; reflexivity.
Qed.

(** The text of an event is decoded to its fields: the texts made valid UTF-8,
    the packets and the time as they were. *)
Lemma MarshalJSON_reads e text k : MarshalJSON e = Some text -> event_exact e -> stops k ->
  exists m, DecodeMap (text ++ k) = Some (Some m)
    /\ read_event m = Some (valid_event e, (fun msg => any_of (message_value msg)) <$> ev_ParsedMsg e).
Proof.
  unfold MarshalJSON. intros (ts & Ht & ->)%fmap_Some He Hk. destruct (event_value_bounds ts e He) as [B1 B2].
  eexists. split; [by apply DecodeMap_render|]. eapply read_event_members; [|done|done].
  intros key. apply lookup_members.
Qed.
