(* ===== verification/Server.v ===== *)
(** * internal/server/tcp.go, udp.go: from the network to the handler and back.

    A TCP connection is the bytes the client sends until it stops or a deadline
    passes, the bytes written so far, and how many more writes succeed. *)

From S2P Require Import Prelude.
From S2P Require Import GoStrings.
From S2P Require Import GoTime.
From S2P Require Import Protocol.
From S2P Require Import Decoder.
From S2P Require Import Encoder.
From S2P Require Import WireRoundtrip.
From S2P Require Import Resolver.
From S2P Require Import ResolverProps.
From S2P Require Import Handler.
From S2P Require Import HandlerProps.

#[local] Open Scope go_scope.

(** ** Connections *)

Record conn := mkConn { c_in : bytes; c_out : bytes; c_writes : nat }.

(** [io.ReadFull] of [n] bytes; [None] is an error. *)
Definition ReadFull (n : Z) (c : conn) : option bytes * conn :=
  if len (c_in c) <? n then (None, mkConn "" (c_out c) (c_writes c))
  else (Some (take (Z.to_nat n) (c_in c)), mkConn (drop (Z.to_nat n) (c_in c)) (c_out c) (c_writes c)).

(** [conn.Write]: whether it succeeds. *)
Definition Write (b : bytes) (c : conn) : bool * conn :=
  match c_writes c with
  | O => (false, c)
  | S n => (true, mkConn (c_in c) (c_out c ++ b) n)
  end.

(** The length and the payload of the next frame. *)
Definition read_frame (c : conn) : option bytes * conn :=
  match ReadFull 2 c with
  | (Some lenBuf, c) =>
      match @Uint16 unit lenBuf with
      | Ok sz => if sz <=? 0 then (None, c) else ReadFull sz c
      | _ => (None, c)
      end
  | (None, c) => (None, c)
  end.

(** The two writes of a response; false when one fails. *)
Definition write_frame (resp : bytes) (c : conn) : bool * conn :=
  let '(ok, c) := Write (PutUint16 (u16 (len resp))) c in
  if ok then Write resp c else (false, c).

(** ** The TCP server *)

(** [tcp_active]: how many tokens are in the channel [sem]. *)
Record TCPServer := mkTCPServer {
  tcp_maxConn : Z; tcp_idleTO : Z; tcp_active : Z; tcp_running : bool
}.

Definition NewTCPServer (maxConn : Z) : TCPServer :=
  mkTCPServer (if maxConn <=? 0 then 500 else maxConn) (30 * Second) 0 false.

(** An accepted connection is served when the semaphore has room, else refused. *)
Definition accept_conn (s : TCPServer) : bool * TCPServer :=
  if tcp_active s <? tcp_maxConn s
  then (true, mkTCPServer (tcp_maxConn s) (tcp_idleTO s) (tcp_active s + 1) (tcp_running s))
  else (false, s).

(** The deferred functions of [serveConn]. *)
Definition conn_done (s : TCPServer) : TCPServer :=
  mkTCPServer (tcp_maxConn s) (tcp_idleTO s) (tcp_active s - 1) (tcp_running s).

Section server.
Context {U : UnicodeTables}.

Definition refusedResponse (queryWire : bytes) : result bytes bytes :=
  match Decode queryWire with
  | Ok msg =>
      let rh := m_Header msg in
      map_err (fun _ => "encode refused response")
        (Encode (Some (mkMessage (reply_header rh (h_Opcode rh) true RCodeRefused) (m_Questions msg) [] [] []))).2
  | Err _ =>
      let id := match queryWire with
                | a :: b :: _ => Z.lor (Z.shiftl (Z_of_byte a) 8) (Z_of_byte b)
                | _ => 0
                end in
      map_err (fun _ => "encode fallback refused response")
        (Encode (Some (mkMessage (mkHeader id true 0 false false false true 0 RCodeRefused 0 0 0 0)
                         [] [] [] []))).2
  | Panic => Panic
  | Fuel => Fuel
  end.

Definition refuseConn (c : conn) : result bytes conn :=
  match read_frame c with
  | (Some payload, c) =>
      match refusedResponse payload with
      | Ok resp => Ok (write_frame resp c).2
      | Err _ => Ok c
      | Panic => Panic
      | Fuel => Fuel
      end
  | (None, c) => Ok c
  end.

Context {W : Type} {S : Surroundings W}.

(** [HandlePacket] with its error as no reply. *)
Definition handle (ctx : context) (payload : bytes) (addr : option net_addr) (proto : bytes)
  : prog (Handler * W) (option bytes) := fun s =>
  match HandlePacket ctx payload addr proto s with
  | (Ok (Some resp, false), s) => (Ok (if len resp =? 0 then None else Some resp), s)
  | (Ok _, s) | (Err _, s) => (Ok None, s)
  | (Panic, s) => (Panic, s)
  | (Fuel, s) => (Fuel, s)
  end.

Fixpoint serve_loop (fuel : nat) (ctx : context) (addr : option net_addr) (c : conn)
  : prog (Handler * W) conn :=
  match fuel with
  | O => act (fun s => (Fuel, s))
  | Datatypes.S fuel' =>
      match read_frame c with
      | (None, c) => mret c
      | (Some payload, c) =>
          resp ← handle ctx payload addr "tcp";
          match resp with
          | None => mret c
          | Some resp =>
              if 65535 <? len resp then mret c else
              let '(ok, c) := write_frame resp c in
              if ok then serve_loop fuel' ctx addr c else mret c
          end
      end
  end.

Definition serveConn (ctx : context) (addr : option net_addr) (c : conn) : prog (Handler * W) conn :=
  serve_loop (Datatypes.S (length (c_in c))) ctx addr c.
End server.

(** ** The UDP server

    The queue between the reading goroutine and the workers. *)

Record udpPacket := mkUDPPacket { up_data : bytes; up_addr : bytes }.

Record UDPServer := mkUDPServer { udp_workers : Z; udp_queue : list udpPacket }.

Definition NewUDPServer (workers : Z) : UDPServer :=
  mkUDPServer (if workers <=? 0 then 1000 else workers) [].

(** One packet read: queued, or dropped when the queue is full. *)
Definition udp_read (pkt : udpPacket) (s : UDPServer) : UDPServer :=
  if len (udp_queue s) <? udp_workers s * 2
  then mkUDPServer (udp_workers s) (udp_queue s ++ [pkt]) else s.

Section udp.
Context {U : UnicodeTables} {W : Type} {S : Surroundings W}.

(** A worker takes a packet: the response and whom it is sent to. *)
Definition udp_work (ctx : context) (srv : UDPServer)
  : prog (Handler * W) (option (bytes * bytes) * UDPServer) :=
  match udp_queue srv with
  | [] => mret (None, srv)
  | pkt :: rest =>
      resp ← handle ctx (up_data pkt) (Some (UDPAddr (up_addr pkt))) "udp";
      mret ((fun r => (r, up_addr pkt)) <$> resp, mkUDPServer (udp_workers srv) rest)
  end.
End udp.

(** ** Frames *)

Definition frame (payload : bytes) : bytes := PutUint16 (len payload) ++ payload.

Definition frames (payloads : list bytes) : bytes := concat (map frame payloads).

Lemma ReadFull_ok n c b c' :
  0 <= n -> ReadFull n c = (Some b, c') ->
  len b = n /\ c_in c = b ++ c_in c' /\ c_out c' = c_out c /\ c_writes c' = c_writes c.
Proof.
  unfold ReadFull. destruct (_ <? n) eqn:E; [done|]. intros Hn [= <- <-]. cbn [c_in c_out c_writes].
  rewrite take_drop. ands; try done. unfold len in *. rewrite length_take. lia.
Qed.

(** A frame read is a frame of the input. *)
Lemma read_frame_ok c payload c' :
  read_frame c = (Some payload, c') ->
  c_in c = frame payload ++ c_in c' /\ c_out c' = c_out c /\ c_writes c' = c_writes c
  /\ 1 <= len payload.
Proof.
  unfold read_frame. destruct (ReadFull 2 c) as [[b|] c1] eqn:E1; [|done].
  apply ReadFull_ok in E1 as (L1 & I1 & O1 & W1); [|done].
  destruct b as [|x [|y [|z b]]]; unfold len in L1; cbn [length] in L1; try lia.
  rewrite Uint16_pair. destruct (_ <=? 0) eqn:Ez; [done|]. intros H.
  apply ReadFull_ok in H as (L2 & I2 & O2 & W2); [|lia].
  rewrite I1, I2, O2, O1, W2, W1. ands; try done; [|lia].
  unfold frame. rewrite L2, <- app_assoc. f_equal.
  pose proof (Z_of_byte_range x). pose proof (Z_of_byte_range y).
  unfold PutUint16. rewrite Z.shiftr_div_pow2 by lia.
  f_equal; [|f_equal]; apply Z_of_byte_inj; rewrite Z_of_byte_of_Z; [dlia|dlia].
Qed.

Lemma write_frame_ok resp c ok c' :
  len resp <= 65535 -> write_frame resp c = (ok, c') ->
  c_in c' = c_in c /\ exists tail, c_out c' = c_out c ++ tail
    /\ if ok then tail = frame resp else tail `prefix_of` frame resp.
Proof.
  intros Hl. unfold write_frame, Write, frame. pose proof (len_nonneg resp).
  rewrite u16_small by lia.
  destruct (c_writes c) as [|n]; [intros [= <- <-]; split; [done|]; exists ""; rewrite app_nil_r;
    split; [done|apply prefix_nil]|].
  cbn [c_writes c_in c_out]. destruct n as [|n]; intros [= <- <-]; (split; [done|]); cbn [c_out].
  - exists (PutUint16 (len resp)). split; [done|]. by exists resp.
  - exists (PutUint16 (len resp) ++ resp). by rewrite app_assoc.
Qed.

(** ** The theorems *)

Section serve.
Context {U : UnicodeTables} {W : Type} {S : Surroundings W}.
Context (interference : forall id n name type servers s,
  good s ->
  rtc atomic s.1 (s_query id n name type servers s).2.1
  /\ handler_ok (s_query id n name type servers s).2.2.1).

Lemma answers_mono raw (P Q : Prop) wire : (Q -> P) -> answers raw P wire -> answers raw Q wire.
Proof. intros H (hdr & H1 & H2 & H3 & H4). exists hdr. ands; auto. Qed.

(** A reply of the handler, and never an error. *)
Lemma handle_ok ctx payload addr proto s :
  good s -> exists r s', handle ctx payload addr proto s = (Ok r, s') /\ good s'
    /\ forall resp, r = Some resp -> answers payload (plain_client payload proto) resp.
Proof.
  intros Hs. destruct (hp_HandlePacket interference ctx payload addr proto s Hs) as [Hp Hg].
  unfold handle. destruct (HandlePacket ctx payload addr proto s) as [[[[resp|] d]|e| |] s']; cbn in Hp, Hg;
    try done.
  - destruct Hp as [-> Ha]. eexists _, s'. split; [reflexivity|]. split; [done|].
    intros resp'. bcase; [done|]. by intros [= <-].
  - by eexists _, s'.
  - by eexists _, s'.
Qed.

(** Why no further frame is answered: there is none, the next one gets no
    reply, or a write fails. *)
Inductive stopped (ctx : context) (addr : option net_addr) (c' : conn) (rest tail : bytes) : Prop :=
| no_frame :
    tail = "" ->
    (forall payload rest', payload <> "" -> len payload <= 65535 -> rest <> frame payload ++ rest') ->
    stopped ctx addr c' rest tail
| no_reply req rest' si r :
    tail = "" -> rest = frame req ++ rest' -> good si -> (handle ctx req addr "tcp" si).1 = Ok r ->
    match r with Some resp => 65535 < len resp | None => True end ->
    stopped ctx addr c' rest tail
| write_failed req rest' resp :
    c_writes c' = O -> rest = frame req ++ rest' -> answers req False resp ->
    tail `prefix_of` frame resp -> stopped ctx addr c' rest tail.

(** What a connection got for what it sent. *)
Definition served (ctx : context) (addr : option net_addr) (c c' : conn) : Prop :=
  exists reqs resps rest tail,
    c_in c = frames reqs ++ rest /\ c_out c' = c_out c ++ frames resps ++ tail
    /\ Forall2 (fun req resp => answers req False resp) reqs resps
    /\ stopped ctx addr c' rest tail.

Lemma served_none ctx addr c c' :
  c_out c' = c_out c -> stopped ctx addr c' (c_in c) "" -> served ctx addr c c'.
Proof. intros E H. exists [], [], (c_in c), "". ands; [done| |done|done]. by rewrite E, app_nil_r. Qed.

Lemma read_frame_none c c' :
  read_frame c = (None, c') ->
  c_out c' = c_out c
  /\ forall payload rest', payload <> "" -> len payload <= 65535 -> c_in c <> frame payload ++ rest'.
Proof.
  intros H. split.
  - revert H. unfold read_frame, ReadFull. destruct (_ <? 2); [by intros [= <-]|].
    destruct (Uint16 _) as [sz|e| |]; try by intros [= <-]. destruct (sz <=? 0); [by intros [= <-]|].
    destruct (_ <? sz); by intros [= <-].
  - intros payload rest' Hne Hl E. unfold read_frame, ReadFull in H. rewrite E in H.
    unfold frame in H. rewrite <- app_assoc in H. cbn [c_in] in H.
    assert (0 < len payload) as Hp by (destruct payload; [done|]; len_lia).
    destruct (_ <? 2) eqn:E1 in H; [pose proof (len_nonneg rest'); len_lia|].
    change (take (Z.to_nat 2) _) with (PutUint16 (len payload)) in H.
    change (drop (Z.to_nat 2) _) with (payload ++ rest') in H.
    rewrite Uint16_PutUint16, u16_small in H by lia.
    destruct (len payload <=? 0) eqn:E2 in H; [lia|]. cbn [c_in] in H.
    destruct (_ <? len payload) eqn:E3 in H; [|done]. pose proof (len_nonneg rest'). len_lia.
Qed.

Lemma write_failed_writes resp c c' : write_frame resp c = (false, c') -> c_writes c' = O.
Proof.
  unfold write_frame, Write. destruct (c_writes c) as [|[|n]] eqn:E; cbn [c_writes]; by intros [= <-].
Qed.

Lemma serve_loop_ok fuel ctx addr c s :
  (length (c_in c) < fuel)%nat -> good s ->
  exists c' s', serve_loop fuel ctx addr c s = (Ok c', s') /\ good s' /\ served ctx addr c c'.
Proof.
  revert c s. induction fuel as [|fuel IH]; intros c s Hf Hs; [lia|]. cbn [serve_loop].
  destruct (read_frame c) as [[payload|] c1] eqn:E1.
  2: { apply read_frame_none in E1 as [O1 N1]. exists c1, s. split; [done|]. split; [done|].
    apply served_none; [done|]. by apply no_frame. }
  apply read_frame_ok in E1 as (I1 & O1 & W1 & L1).
  destruct (handle_ok ctx payload addr "tcp" s Hs) as (r & s1 & E2 & Hs1 & Ha).
  assert ((handle ctx payload addr "tcp" s).1 = Ok r) as E2' by (by rewrite E2).
  unfold mbind, prog_bind. rewrite E2. destruct r as [resp|].
  2: { exists c1, s1. split; [done|]. split; [done|]. apply served_none; [done|]. eapply no_reply; [done|exact I1|exact Hs|exact E2'|done]. }
  specialize (Ha resp eq_refl). apply (answers_mono _ _ False) in Ha; [|done]. bcase.
  { exists c1, s1. split; [done|]. split; [done|]. apply served_none; [done|].
    eapply no_reply; [done|exact I1|exact Hs|exact E2'|]. cbn. lia. }
  destruct (write_frame resp c1) as [ok c2] eqn:E3. pose proof E3 as E3'.
  apply write_frame_ok in E3 as (I2 & tail & O2 & Ht); [|lia]. destruct ok.
  - subst tail. destruct (IH c2 s1) as (c' & s' & E4 & Hs' & reqs & resps & rest & tl & R1 & R2 & R3 & R4).
    { rewrite I2. rewrite I1 in Hf. unfold frame in Hf. rewrite !length_app in Hf.
      unfold len in L1. cbn in Hf. lia. }
    { done. }
    exists c', s'. split; [done|]. split; [done|].
    exists (payload :: reqs), (resp :: resps), rest, tl. ands.
    + rewrite I1, <- I2, R1. unfold frames. cbn [map concat]. by rewrite <- app_assoc.
    + rewrite R2, O2, O1. unfold frames. cbn [map concat]. by rewrite <- !app_assoc.
    + by constructor.
    + done.
  - exists c2, s1. split; [done|]. split; [done|]. exists [], [], (c_in c), tail. ands; [done| |done|].
    + by rewrite O2, O1.
    + eapply write_failed; [by eapply write_failed_writes|exact I1|done|done].
Qed.

(** C18. Serving a TCP connection ends, does not panic, and answers frame by
    frame: what is written is the length-prefixed responses to the requests at
    the start of what the client sent, in their order, each with the
    identifier of its request.  It stops only at input that holds no further
    frame, at a request that gets no reply, or at a write that fails, when a
    part of one more response may have been written. *)
Theorem serveConn_frames ctx addr c s :
  good s ->
  exists c' s', serveConn ctx addr c s = (Ok c', s') /\ good s' /\ served ctx addr c c'.
Proof. intros Hs. apply serve_loop_ok; [lia|done]. Qed.
End serve.

(** The semaphore never holds more tokens than its capacity. *)
Lemma accept_conn_bounded s :
  tcp_active s <= tcp_maxConn s -> tcp_active (accept_conn s).2 <= tcp_maxConn s.
Proof. intros H. unfold accept_conn. bcase; cbn; lia. Qed.

Lemma refusedResponse_ok `{U : UnicodeTables} payload :
  match refusedResponse payload with
  | Ok wire => exists hdr, Header_decode wire = Ok hdr /\ h_ID hdr = packet_id payload
                 /\ h_QR hdr = true /\ h_RCode hdr = RCodeRefused
  | Err _ => True
  | _ => False
  end.
Proof.
  assert (forall m, h_ID (m_Header m) = packet_id payload -> h_QR (m_Header m) = true ->
    h_RCode (m_Header m) = RCodeRefused -> forall e : bytes,
    match map_err (fun _ => e) (Encode (Some m)).2 with
    | Ok wire => exists hdr, Header_decode wire = Ok hdr /\ h_ID hdr = packet_id payload
                   /\ h_QR hdr = true /\ h_RCode hdr = RCodeRefused
    | Err _ => True | _ => False end) as H.
  { intros m Hi Hq Hc e. pose proof (post_safe _ _ (Encode_post (Some m))) as Hp.
    destruct (Encode (Some m)) as [m1 [wire|e'| |]] eqn:E; try done.
    assert (exists m2, m1 = Some m2) as [m2 ->].
    { unfold Encode in E. destruct (NormalizeCounts m); injection E as <-; by eexists. }
    apply encoded_header in E as (hdr & H1 & H2 & H3 & _ & H5 & _). exists hdr. cbn.
    rewrite H2, Hi, H3, Hq, H5, Hc, u16_small by apply packet_id_range. by ands. }
  unfold refusedResponse. pose proof (Decode_post payload) as Hd.
  destruct (Decode payload) as [msg|e| |] eqn:Ed; try done.
  - apply H; cbn; try done. by apply Decode_id.
  - apply H; cbn; try done. unfold packet_id. destruct payload as [|a [|b l]]; try done.
    rewrite Z.lor_comm, lor_shift_add; [done|lia|]. apply Z_of_byte_range.
Qed.

Theorem serveConn_frames_witness :
  let c := mkConn (frame lab_query_packet ++ frame lab_query_packet ++ "x") "" 9 in
  exists c' s', @serveConn latin1 unit calm (mkContext "" "") None c lab_state = (Ok c', s')
    /\ good s' /\ @served latin1 unit calm (mkContext "" "") None c c'.
Proof.
  intros c. apply (@serveConn_frames latin1 unit calm).
  - intros id n name type servers s [_ Hh]. split; [apply rtc_refl|exact Hh].
  - exact lab_good.
Defined.
