(* ===== verification/ServerLife.v ===== *)
(** * internal/server/udp.go, tcp.go: start, work and shutdown of the servers.

    The goroutines of a server (the reader and the workers, or the accept loop
    and the connections, the one that waits for the context, and the callers of
    [Shutdown]) are a transition system; a step is what a goroutine does between
    two synchronisations.  A [close] of a closed channel and a send on one are
    panics. *)

From S2P Require Import Prelude.
From S2P Require Import GoStrings.
From S2P Require Import Server.

#[local] Open Scope go_scope.

(** ** State *)

Inductive reader := Reading | Holding (pkt : udpPacket) | ReaderDone.
Inductive worker := Idle | Busy (pkt : udpPacket) | WorkerDone.

(** A caller of [Shutdown]: the goroutine of [Start] that waits for the context,
    or another one.  [bounded]: its own context has a deadline. *)
Inductive caller :=
| AwaitCancel                        (* <-ctx.Done() *)
| Called (bounded : bool)            (* before running.Swap *)
| Stopping (bounded : bool)          (* before close(s.shutdown) *)
| Closing (bounded : bool)           (* before conn.Close *)
| AwaitReader (bounded : bool)       (* readWG.Wait *)
| ClosingQueue (bounded : bool)      (* before close(s.queue) *)
| AwaitWorkers (bounded : bool)      (* the select *)
| Drained                            (* returned nil after workWG.Wait *)
| TimedOut                           (* returned the timeout *)
| AlreadyDown.                       (* returned nil at once *)

Record life := mkLife {
  lf_running : bool;
  lf_shutdown_closed : bool;
  lf_conn_open : bool;
  lf_cancelled : bool;
  lf_queue : list udpPacket;
  lf_queue_closed : bool;
  lf_reader : reader;
  lf_workers : list worker;
  lf_callers : list caller;
  (* what happened to the packets *)
  lf_read : list udpPacket;
  lf_handled : list udpPacket;
  lf_dropped : list udpPacket;
  lf_panicked : bool
}.

(** [Start], with the goroutines it starts. *)
Definition life_start (srv : UDPServer) : life :=
  mkLife true false true false [] false Reading (repeat Idle (Z.to_nat (udp_workers srv))) [AwaitCancel]
    [] [] [] false.

Section life.
Context (srv : UDPServer).

(** [make(chan udpPacket, s.workers*2)] *)
Definition queue_cap : Z := udp_workers srv * 2.

Inductive life_step : life -> life -> Prop :=
(** readLoop *)
| l_read pkt rn sc ca q qc ws cs rd hd dr pa :
    life_step (mkLife rn sc true ca q qc Reading ws cs rd hd dr pa)
      (mkLife rn sc true ca q qc (Holding pkt) ws cs (rd ++ [pkt]) hd dr pa)
| l_read_error rn sc co ca q qc ws cs rd hd dr pa :
    life_step (mkLife rn sc co ca q qc Reading ws cs rd hd dr pa)
      (mkLife rn sc co ca q qc (if rn then Reading else ReaderDone) ws cs rd hd dr pa)
| l_enqueue pkt rn sc co ca q qc ws cs rd hd dr pa :
    len q < queue_cap \/ qc = true ->
    life_step (mkLife rn sc co ca q qc (Holding pkt) ws cs rd hd dr pa)
      (mkLife rn sc co ca (q ++ [pkt]) qc Reading ws cs rd hd dr (pa || qc))
| l_drop pkt rn sc co q ws cs rd hd dr pa :
    queue_cap <= len q ->
    life_step (mkLife rn sc co false q false (Holding pkt) ws cs rd hd dr pa)
      (mkLife rn sc co false q false Reading ws cs rd hd (dr ++ [pkt]) pa)
| l_reader_cancelled pkt rn sc co q qc ws cs rd hd dr pa :
    life_step (mkLife rn sc co true q qc (Holding pkt) ws cs rd hd dr pa)
      (mkLife rn sc co true q qc ReaderDone ws cs rd hd (dr ++ [pkt]) pa)
(** worker *)
| l_take pkt ws1 ws2 rn sc co ca q qc r cs rd hd dr pa :
    life_step (mkLife rn sc co ca (pkt :: q) qc r (ws1 ++ Idle :: ws2) cs rd hd dr pa)
      (mkLife rn sc co ca q qc r (ws1 ++ Busy pkt :: ws2) cs rd hd dr pa)
| l_handle pkt ws1 ws2 rn sc co ca q qc r cs rd hd dr pa :
    life_step (mkLife rn sc co ca q qc r (ws1 ++ Busy pkt :: ws2) cs rd hd dr pa)
      (mkLife rn sc co ca q qc r (ws1 ++ Idle :: ws2) cs rd (hd ++ [pkt]) dr pa)
| l_worker_closed ws1 ws2 rn sc co ca r cs rd hd dr pa :
    life_step (mkLife rn sc co ca [] true r (ws1 ++ Idle :: ws2) cs rd hd dr pa)
      (mkLife rn sc co ca [] true r (ws1 ++ WorkerDone :: ws2) cs rd hd dr pa)
| l_worker_cancelled ws1 ws2 rn sc co q qc r cs rd hd dr pa :
    life_step (mkLife rn sc co true q qc r (ws1 ++ Idle :: ws2) cs rd hd dr pa)
      (mkLife rn sc co true q qc r (ws1 ++ WorkerDone :: ws2) cs rd hd dr pa)
(** the context is cancelled; somebody calls [Shutdown] *)
| l_cancel rn sc co q qc r ws cs rd hd dr pa :
    life_step (mkLife rn sc co false q qc r ws cs rd hd dr pa)
      (mkLife rn sc co true q qc r ws cs rd hd dr pa)
| l_call b rn sc co ca q qc r ws cs rd hd dr pa :
    life_step (mkLife rn sc co ca q qc r ws cs rd hd dr pa)
      (mkLife rn sc co ca q qc r ws (cs ++ [Called b]) rd hd dr pa)
(** Shutdown *)
| l_awake cs1 cs2 rn sc co q qc r ws rd hd dr pa :
    life_step (mkLife rn sc co true q qc r ws (cs1 ++ AwaitCancel :: cs2) rd hd dr pa)
      (mkLife rn sc co true q qc r ws (cs1 ++ Called false :: cs2) rd hd dr pa)
| l_swap b cs1 cs2 rn sc co ca q qc r ws rd hd dr pa :
    life_step (mkLife rn sc co ca q qc r ws (cs1 ++ Called b :: cs2) rd hd dr pa)
      (mkLife false sc co ca q qc r ws (cs1 ++ (if rn then Stopping b else AlreadyDown) :: cs2) rd hd dr pa)
| l_stop b cs1 cs2 rn sc co ca q qc r ws rd hd dr pa :
    life_step (mkLife rn sc co ca q qc r ws (cs1 ++ Stopping b :: cs2) rd hd dr pa)
      (mkLife rn true co ca q qc r ws (cs1 ++ Closing b :: cs2) rd hd dr (pa || sc))
| l_close_conn b cs1 cs2 rn sc co ca q qc r ws rd hd dr pa :
    life_step (mkLife rn sc co ca q qc r ws (cs1 ++ Closing b :: cs2) rd hd dr pa)
      (mkLife rn sc false ca q qc r ws (cs1 ++ AwaitReader b :: cs2) rd hd dr pa)
| l_reader_gone b cs1 cs2 rn sc co ca q qc ws rd hd dr pa :
    life_step (mkLife rn sc co ca q qc ReaderDone ws (cs1 ++ AwaitReader b :: cs2) rd hd dr pa)
      (mkLife rn sc co ca q qc ReaderDone ws (cs1 ++ ClosingQueue b :: cs2) rd hd dr pa)
| l_close_queue b cs1 cs2 rn sc co ca q qc r ws rd hd dr pa :
    life_step (mkLife rn sc co ca q qc r ws (cs1 ++ ClosingQueue b :: cs2) rd hd dr pa)
      (mkLife rn sc co ca q true r ws (cs1 ++ AwaitWorkers b :: cs2) rd hd dr (pa || qc))
| l_drained b cs1 cs2 rn sc co ca q qc r ws rd hd dr pa :
    Forall (eq WorkerDone) ws ->
    life_step (mkLife rn sc co ca q qc r ws (cs1 ++ AwaitWorkers b :: cs2) rd hd dr pa)
      (mkLife rn sc co ca q qc r ws (cs1 ++ Drained :: cs2) rd hd dr pa)
| l_timeout cs1 cs2 rn sc co ca q qc r ws rd hd dr pa :
    life_step (mkLife rn sc co ca q qc r ws (cs1 ++ AwaitWorkers true :: cs2) rd hd dr pa)
      (mkLife rn sc co ca q qc r ws (cs1 ++ TimedOut :: cs2) rd hd dr pa).

Definition life_reachable : life -> Prop := rtc life_step (life_start srv).

(** ** The invariant *)

(** How far a call of [Shutdown] that won the swap has come; 0 for any other. *)
Definition phase (c : caller) : Z :=
  match c with
  | AwaitCancel | Called _ | AlreadyDown => 0
  | Stopping _ => 1
  | Closing _ => 2
  | AwaitReader _ => 3
  | ClosingQueue _ => 4
  | AwaitWorkers _ => 5
  | Drained | TimedOut => 6
  end.
Definition winners (cs : list caller) : list caller := List.filter (fun c => 0 <? phase c) cs.
Definition level (cs : list caller) : Z := match winners cs with [] => 0 | c :: _ => phase c end.

Definition busy (ws : list worker) : list udpPacket :=
  flat_map (fun w => match w with Busy pkt => [pkt] | _ => [] end) ws.
Definition held (r : reader) : list udpPacket := match r with Holding pkt => [pkt] | _ => [] end.

Record life_inv (s : life) : Prop := {
  li_panic : lf_panicked s = false;
  li_winner : len (winners (lf_callers s)) = if lf_running s then 0 else 1;
  li_shutdown : lf_shutdown_closed s = (2 <=? level (lf_callers s));
  li_conn : lf_conn_open s = (level (lf_callers s) <? 3);
  li_queue : lf_queue_closed s = (5 <=? level (lf_callers s));
  li_reader : 4 <= level (lf_callers s) -> lf_reader s = ReaderDone;
  li_cap : len (lf_queue s) <= queue_cap;
  li_packets : lf_read s ≡ₚ lf_handled s ++ lf_dropped s ++ lf_queue s ++ busy (lf_workers s) ++ held (lf_reader s);
  li_drained : Drained ∈ lf_callers s -> Forall (eq WorkerDone) (lf_workers s);
  li_worker : WorkerDone ∈ lf_workers s -> lf_cancelled s = true \/ 5 <= level (lf_callers s) /\ lf_queue s = [];
  li_workers : length (lf_workers s) = Z.to_nat (udp_workers srv)
}.

Lemma winners_app cs1 cs2 : winners (cs1 ++ cs2) = winners cs1 ++ winners cs2.
Proof. apply List.filter_app. Qed.

Lemma winners_cons c cs : winners (c :: cs) = if 0 <? phase c then c :: winners cs else winners cs.
Proof. done. Qed.

(** The call that won is the only one. *)
Lemma level_of cs1 c cs2 n :
  0 < phase c -> len (winners (cs1 ++ c :: cs2)) = n -> n <= 1 ->
  winners cs1 = [] /\ winners cs2 = [] /\ level (cs1 ++ c :: cs2) = phase c.
Proof.
  intros Hp Hn Hle. unfold level. rewrite winners_app, winners_cons in *.
  assert ((0 <? phase c) = true) as E by lia. rewrite E in *.
  rewrite len_app, len_cons in Hn. pose proof (len_nonneg (winners cs1)). pose proof (len_nonneg (winners cs2)).
  assert (winners cs1 = []) as -> by (apply len_zero; lia).
  assert (winners cs2 = []) as -> by (apply len_zero; lia). done.
Qed.

Lemma no_winner_drained cs : winners cs = [] -> Drained ∉ cs.
Proof.
  intros H Hd. assert (Drained ∈ winners cs) as Hw; [|by rewrite H in Hw; apply elem_of_nil in Hw].
  rewrite list_elem_of_In in *. by apply filter_In.
Qed.

(** The winner goes on. *)
Lemma winner_moves cs1 c c' cs2 n :
  0 < phase c -> 0 < phase c' -> len (winners (cs1 ++ c :: cs2)) = n -> n <= 1 ->
  n = 1 /\ level (cs1 ++ c :: cs2) = phase c /\ level (cs1 ++ c' :: cs2) = phase c'
  /\ len (winners (cs1 ++ c' :: cs2)) = 1 /\ (Drained ∈ cs1 ++ c' :: cs2 -> c' = Drained).
Proof.
  intros Hp Hp' Hn Hle. destruct (level_of cs1 c cs2 n Hp Hn Hle) as (E1 & E2 & El).
  assert ((0 <? phase c) = true) as Ec by lia. assert ((0 <? phase c') = true) as Ec' by lia.
  assert (forall x, (0 <? phase x) = true -> winners (cs1 ++ x :: cs2) = [x]) as Hx.
  { intros x Ex. by rewrite winners_app, winners_cons, E1, E2, Ex. }
  rewrite (Hx c Ec) in Hn. unfold level. rewrite (Hx c Ec), (Hx c' Ec'). ands; try done.
  rewrite elem_of_app, elem_of_cons. apply no_winner_drained in E1, E2. intros [?|[?|?]]; done.
Qed.

(** Another caller goes on. *)
Lemma other_moves cs1 c c' cs2 :
  phase c = 0 -> phase c' = 0 -> winners (cs1 ++ c' :: cs2) = winners (cs1 ++ c :: cs2)
  /\ level (cs1 ++ c' :: cs2) = level (cs1 ++ c :: cs2)
  /\ (Drained ∈ cs1 ++ c' :: cs2 -> Drained ∈ cs1 ++ c :: cs2).
Proof.
  intros H H'. unfold level. rewrite !winners_app, !winners_cons, H, H'. ands; try done.
  rewrite !elem_of_app, !elem_of_cons. intros [?|[<-|?]]; auto. discriminate H'.
Qed.

(** A call wins. *)
Lemma winner_starts cs1 b cs2 :
  len (winners (cs1 ++ Called b :: cs2)) = 0 ->
  level (cs1 ++ Called b :: cs2) = 0 /\ level (cs1 ++ Stopping b :: cs2) = 1
  /\ len (winners (cs1 ++ Stopping b :: cs2)) = 1.
Proof.
  intros H%len_zero. unfold level. rewrite H. rewrite winners_app, winners_cons in *.
  apply app_eq_nil in H as [E1 E2]. change (0 <? phase (Called b)) with false in E2. by rewrite E1, E2.
Qed.

Lemma caller_joins cs b : winners (cs ++ [Called b]) = winners cs /\ level (cs ++ [Called b]) = level cs
  /\ (Drained ∈ cs ++ [Called b] -> Drained ∈ cs).
Proof.
  unfold level. rewrite winners_app. change (winners [Called b]) with (@nil caller). rewrite app_nil_r.
  ands; try done. rewrite elem_of_app, list_elem_of_singleton. by intros [?|?].
Qed.

Lemma busy_app ws1 ws2 : busy (ws1 ++ ws2) = busy ws1 ++ busy ws2.
Proof. apply flat_map_app. Qed.

Ltac proj := cbn [lf_running lf_shutdown_closed lf_conn_open lf_cancelled lf_queue lf_queue_closed lf_reader
  lf_workers lf_callers lf_read lf_handled lf_dropped lf_panicked].

Lemma not_all_done ws1 w ws2 : w <> WorkerDone -> ~ Forall (eq WorkerDone) (ws1 ++ w :: ws2).
Proof. intros Hw [_ [H _]%Forall_cons]%Forall_app. congruence. Qed.

Lemma other_worker (ws1 : list worker) w w' ws2 x : x ∈ ws1 ++ w' :: ws2 -> x <> w' -> x ∈ ws1 ++ w :: ws2.
Proof. rewrite !elem_of_app, !elem_of_cons. tauto. Qed.

(** Steps of the reader, the workers and the context leave the callers. *)
Lemma work_step_inv s s' :
  life_inv s -> life_step s s' -> lf_callers s' = lf_callers s -> life_inv s'.
Proof.
  intros [H1 H2 H3 H4 H5 H6 H7 H8 H9 H10 H11] Hs Hc.
  destruct Hs; revert H1 H2 H3 H4 H5 H6 H7 H8 H9 H10 H11 Hc; proj;
    intros H1 H2 H3 H4 H5 H6 H7 H8 H9 H10 H11 Hc; subst.
  all: try (exfalso; first [ apply (f_equal length) in Hc; rewrite length_app in Hc; cbn in Hc; lia
                           | apply app_inv_head in Hc; injection Hc as Hc; by destruct rn ]).
  all: split; proj; try assumption; try reflexivity.
  all: try (rewrite H8, ?busy_app; cbn [busy flat_map held app]; rewrite ?app_nil_r; solve_Permutation).
  all: try (rewrite length_app in *; exact H11).
  all: try (assert (level cs < 4) as Hlow
    by (destruct (decide (4 <= level cs)) as [Hh|]; [discriminate (H6 Hh)|lia])).
  all: try lia; try (intros _; by left); try (intros _; right; split; [lia|done]).
  - by destruct rn.
  - rewrite len_app, len_cons, len_nil. destruct H as [H|H]; lia.
  - rewrite len_cons in H7. lia.
  - intros Hd. exfalso. by apply (not_all_done ws1 Idle ws2); [|apply H9].
  - intros Hw. destruct (H10 (other_worker ws1 _ _ ws2 _ Hw ltac:(done))) as [Hx|[_ Hx]]; [by left|done].
  - intros Hd. exfalso. by apply (not_all_done ws1 (Busy pkt) ws2); [|apply H9].
  - intros Hw. exact (H10 (other_worker ws1 _ _ ws2 _ Hw ltac:(done))).
  - intros Hd. exfalso. by apply (not_all_done ws1 Idle ws2); [|apply H9].
  - intros Hd. exfalso. by apply (not_all_done ws1 Idle ws2); [|apply H9].
Qed.

(** The winner goes on from [c] to [c']. *)
Ltac winner :=
  match goal with H2 : len (winners (?l1 ++ ?c :: ?l2)) = _ |- life_inv (mkLife ?rn _ _ _ _ _ _ _ (_ ++ ?c' :: _) _ _ _ _) =>
    let E1 := fresh in let E2 := fresh in let E3 := fresh in let E4 := fresh in let E5 := fresh in
    destruct (winner_moves l1 c c' l2 _ eq_refl eq_refl H2 ltac:(destruct rn; lia)) as (E1 & E2 & E3 & E4 & E5);
    destruct rn; [discriminate E1|]; rewrite E2 in *; cbn [phase] in *;
    split; proj; rewrite ?E3; cbn [phase]; try assumption; try done; try lia; try (by intros Hd%E5);
    try (intros _; match goal with H : 4 <= _ -> _ |- _ => by apply H end);
    try (intros Hw; match goal with H : WorkerDone ∈ _ -> _ |- _ =>
      destruct (H Hw) as [?|[? ?]]; [by left|right; split; [lia|done]] end)
  end.

Lemma call_step_inv s s' :
  life_inv s -> life_step s s' -> lf_callers s' <> lf_callers s -> life_inv s'.
Proof.
  intros [H1 H2 H3 H4 H5 H6 H7 H8 H9 H10 H11] Hs Hc.
  destruct Hs; revert H1 H2 H3 H4 H5 H6 H7 H8 H9 H10 H11 Hc; proj;
    intros H1 H2 H3 H4 H5 H6 H7 H8 H9 H10 H11 Hc; subst; try done; clear Hc.
  - destruct (caller_joins cs b) as (E1 & E2 & E3). split; proj; rewrite ?E1, ?E2; auto.
  - destruct (other_moves cs1 AwaitCancel (Called false) cs2 eq_refl eq_refl) as (E1 & E2 & E3).
    split; proj; rewrite ?E1, ?E2; auto.
  - destruct rn.
    + unfold level in *. rewrite winners_app, winners_cons in *. cbn [phase] in *.
      change (0 <? 0) with false in *. change (0 <? 1) with true in *.
      rewrite len_app in H2. pose proof (len_nonneg (winners cs1)). pose proof (len_nonneg (winners cs2)).
      assert (winners cs1 = []) as E1 by (apply len_zero; lia).
      assert (winners cs2 = []) as E2 by (apply len_zero; lia). rewrite E1, E2 in *. cbn [app] in *.
      split; proj; unfold level; rewrite ?winners_app, ?winners_cons, ?E1, ?E2; cbn [phase];
        change (0 <? 1) with true; cbn [app]; try done; auto.
      all: try (rewrite elem_of_app, elem_of_cons; intros [Hd|[Hd|Hd]]; [|done|];
          by apply no_winner_drained in Hd).
      all: intros Hw; destruct (H10 Hw) as [?|[? _]]; [by left|lia].
    + destruct (other_moves cs1 (Called b) AlreadyDown cs2 eq_refl eq_refl) as (E1 & E2 & E3).
      split; proj; rewrite ?E1, ?E2; auto.
  - winner.
  - winner.
  - winner.
  - winner.
  - winner.
  - winner.
Qed.

Instance caller_eq_dec : EqDecision caller.
Proof. solve_decision. Defined.

Lemma life_step_inv s s' : life_inv s -> life_step s s' -> life_inv s'.
Proof.
  intros Hi Hs. destruct (decide (lf_callers s' = lf_callers s)) as [E|E].
  - by eapply work_step_inv.
  - by eapply call_step_inv.
Qed.

Lemma life_reachable_inv s : 0 <= udp_workers srv -> life_reachable s -> life_inv s.
Proof.
  intros Hw H. assert (life_inv (life_start srv)) as Hi.
  { assert (busy (repeat Idle (Z.to_nat (udp_workers srv))) = []) as Eb
      by (induction (Z.to_nat (udp_workers srv)); done).
    assert (WorkerDone ∉ repeat Idle (Z.to_nat (udp_workers srv))) as Hd.
    { rewrite list_elem_of_In. by intros Hr%repeat_spec. }
    unfold life_start. split; proj; try done.
    - unfold queue_cap. rewrite len_nil. lia.
    - by rewrite Eb.
    - by intros Hd'%list_elem_of_singleton.
    - apply repeat_length. }
  unfold life_reachable in H. revert Hi. induction H as [|s1 s2 s3 Hs _ IH]; [done|].
  intros Hi. apply IH. by eapply life_step_inv.
Qed.

(** ** Shutdown ends *)

Definition caller_work (c : caller) : Z :=
  match c with
  | AwaitCancel => 8 | Called _ => 7 | Stopping _ => 6 | Closing _ => 5 | AwaitReader _ => 4
  | ClosingQueue _ => 3 | AwaitWorkers _ => 2 | Drained | TimedOut | AlreadyDown => 0
  end.
Definition reader_work (r : reader) : Z := match r with Reading => 1 | Holding _ => 5 | ReaderDone => 0 end.
Definition worker_work (w : worker) : Z := match w with Idle => 1 | Busy _ => 3 | WorkerDone => 0 end.
Definition sum {A} (f : A -> Z) (l : list A) : Z := foldr (fun x n => f x + n) 0 l.

Definition life_work (s : life) : Z :=
  (if lf_cancelled s then 0 else 1) + sum caller_work (lf_callers s) + reader_work (lf_reader s)
  + 3 * len (lf_queue s) + sum worker_work (lf_workers s).

Lemma sum_app {A} (f : A -> Z) l k : sum f (l ++ k) = sum f l + sum f k.
Proof. unfold sum. induction l as [|x l IH]; [done|]. cbn. rewrite IH. lia. Qed.

Lemma sum_cons {A} (f : A -> Z) x l : sum f (x :: l) = f x + sum f l.
Proof. done. Qed.

Lemma sum_nonneg {A} (f : A -> Z) l : (forall x, 0 <= f x) -> 0 <= sum f l.
Proof. intros H. induction l as [|x l IH]; [done|]. rewrite sum_cons. specialize (H x). lia. Qed.

Lemma life_work_nonneg s : 0 <= life_work s.
Proof.
  unfold life_work. pose proof (sum_nonneg caller_work (lf_callers s) ltac:(by intros [])).
  pose proof (sum_nonneg worker_work (lf_workers s) ltac:(by intros [])).
  pose proof (len_nonneg (lf_queue s)).
  assert (0 <= reader_work (lf_reader s)) by by destruct (lf_reader s).
  destruct (lf_cancelled s); lia.
Qed.

(** A new call of [Shutdown]. *)
Definition new_call (s s' : life) : Prop := exists b, lf_callers s' = lf_callers s ++ [Called b].

Lemma closed_step_work s s' :
  life_inv s -> lf_conn_open s = false -> life_step s s' -> life_work s' < life_work s \/ new_call s s'.
Proof.
  intros [H1 H2 H3 H4 _ _ _ _ _ _ _] Ho Hs. destruct Hs; revert H1 H2 H3 H4 Ho; proj; intros H1 H2 H3 H4 Ho; subst;
    try done; try (right; by eexists); left; unfold life_work; proj;
    rewrite ?sum_app, ?sum_cons, ?len_app, ?len_cons, ?len_nil; cbn [caller_work reader_work worker_work];
    try len_lia; try (destruct ca; len_lia).
  - destruct rn; [|cbn [reader_work]; lia]. apply len_zero in H2. unfold level in *. rewrite H2 in *. done.
  - destruct rn; cbn [caller_work]; lia.
Qed.

(** A call that has not returned, and is not waiting for the context. *)
Definition pending (cancelled : bool) (c : caller) : Prop :=
  match c with
  | AwaitCancel => cancelled = true
  | Drained | TimedOut | AlreadyDown => False
  | _ => True
  end.

Lemma worker_cases (ws : list worker) :
  Forall (eq WorkerDone) ws \/ (exists ws1 ws2, ws = ws1 ++ Idle :: ws2)
  \/ exists ws1 pkt ws2, ws = ws1 ++ Busy pkt :: ws2.
Proof.
  induction ws as [|[|pkt|] ws IH]; [by left|right; left; by exists [], ws|right; right; by exists [], pkt, ws|].
  destruct IH as [IH|[(l & k & ->)|(l & p & k & ->)]]; [left; by constructor|right; left|right; right].
  - by exists (WorkerDone :: l), k.
  - by exists (WorkerDone :: l), p, k.
Qed.

Ltac less := unfold life_work; proj; rewrite ?sum_app, ?sum_cons, ?sum_app, ?sum_cons, ?len_app, ?len_cons, ?len_nil;
    cbn [caller_work reader_work worker_work]; len_lia.

Lemma shutdown_progress s c :
  life_inv s -> lf_running s = false -> c ∈ lf_callers s -> pending (lf_cancelled s) c ->
  exists s', life_step s s' /\ life_work s' < life_work s.
Proof.
  intros [H1 H2 H3 H4 H5 H6 H7 _ _ _ _] Hr Hc Hp. destruct s as [rn sc co ca q qc r ws cs rd hd dr pa].
  revert H1 H2 H3 H4 H5 H6 H7 Hr Hc Hp. proj. intros H1 H2 H3 H4 H5 H6 H7 Hr Hc Hp. subst rn.
  apply list_elem_of_split in Hc as (cs1 & cs2 & ->).
  destruct c as [|b|b|b|b|b|b| | |]; cbn [pending] in Hp; try done.
  - subst ca. eexists; split; [apply l_awake|less].
  - eexists; split; [apply l_swap|less].
  - eexists; split; [apply l_stop|less].
  - eexists; split; [apply l_close_conn|less].
  - destruct r as [|pkt|].
    + eexists; split; [apply l_read_error|less].
    + destruct (decide (len q < queue_cap)) as [Hq|Hq]; [eexists; split; [apply l_enqueue; by left|less]|].
      destruct ca; [eexists; split; [apply l_reader_cancelled|less]|].
      destruct qc; [eexists; split; [apply l_enqueue; by right|less]|].
      eexists; split; [apply l_drop; lia|less].
    + eexists; split; [apply l_reader_gone|less].
  - eexists; split; [apply l_close_queue|less].
  - destruct (winner_moves cs1 (AwaitWorkers b) Drained cs2 _ eq_refl eq_refl H2 ltac:(lia)) as (_ & El & _).
    rewrite El in *. cbn [phase] in *. destruct (worker_cases ws) as [Hw|[(l & k & ->)|(l & p & k & ->)]].
    + eexists; split; [by apply l_drained|less].
    + destruct q as [|p q]; [|eexists; split; [apply l_take|less]].
      subst qc. eexists; split; [apply l_worker_closed|less].
    + eexists; split; [apply l_handle|less].
Qed.
End life.

(** ** What callers may rely on *)

Section lifecycle.
Context (srv : UDPServer) (Hsrv : 1 <= udp_workers srv).

(** C32. The life of the UDP server, in every interleaving of its reader, its
    workers, the cancellation of its context and any number of calls of
    [Shutdown].  No channel is closed twice and nothing is sent on a closed
    one; the queue keeps its bound; every packet read is waiting, at a worker,
    handled once or dropped.  When the call that stopped the server returns
    without an error, the reader and all workers are gone, and if the context
    was not cancelled every packet read was handled or dropped.  Once the server
    is stopped, a call that has not returned has a next step of the server
    before it, and after the socket is closed every step, new calls aside,
    leaves less to do. *)
Theorem udp_lifecycle s :
  life_reachable srv s ->
  lf_panicked s = false /\ len (lf_queue s) <= queue_cap srv
  /\ lf_read s ≡ₚ lf_handled s ++ lf_dropped s ++ lf_queue s ++ busy (lf_workers s) ++ held (lf_reader s)
  /\ (Drained ∈ lf_callers s ->
        lf_conn_open s = false /\ lf_reader s = ReaderDone /\ Forall (eq WorkerDone) (lf_workers s)
        /\ (lf_cancelled s = false -> lf_read s ≡ₚ lf_handled s ++ lf_dropped s))
  /\ (lf_running s = false -> forall c, c ∈ lf_callers s -> pending (lf_cancelled s) c ->
        exists s', life_step srv s s' /\ life_work s' < life_work s)
  /\ (lf_conn_open s = false -> forall s', life_step srv s s' ->
        0 <= life_work s' < life_work s \/ new_call s s').
Proof.
  intros H. apply life_reachable_inv in H; [|lia]. pose proof H as [H1 H2 H3 H4 H5 H6 H7 H8 H9 H10 H11]. ands; try done.
  - intros Hd. specialize (H9 Hd). pose proof Hd as Hl. apply list_elem_of_split in Hl as (l & k & E). rewrite E in *.
    destruct (winner_moves l Drained Drained k _ eq_refl eq_refl H2 ltac:(destruct (lf_running s); lia)) as (_ & El & _).
    rewrite El in *. cbn [phase] in *. ands; [done|by apply H6|done|].
    intros Hc. assert (WorkerDone ∈ lf_workers s) as Hw.
    { destruct H9 as [|w ws <- _]; [cbn in H11; lia|apply elem_of_cons; by left]. }
    destruct (H10 Hw) as [Hx|[_ Hq]]; [congruence|].
    rewrite H8, Hq, (H6 ltac:(lia)). cbn [held app]. rewrite app_nil_r.
    assert (busy (lf_workers s) = []) as ->; [|by rewrite app_nil_r].
    clear -H9. induction H9 as [|w ws <- Hw IH]; [done|exact IH].
  - intros Hr c. by apply shutdown_progress.
  - intros Ho s' Hs. destruct (closed_step_work srv s s' H Ho Hs) as [Hw|Hw]; [left|by right].
    pose proof (life_work_nonneg s'). lia.
Qed.
End lifecycle.

(** ** The TCP server

    The accept loop, the connections (their number is that of the tokens in
    [sem] and of the wait group) and the callers of [Shutdown], of whose phases
    [Stopping] is before listener.Close and [AwaitWorkers] the select. *)

Inductive acceptor := Accepting | Accepted | AcceptDone.

Record tlife := mkTLife {
  tl_srv : TCPServer;
  tl_open : bool;
  tl_cancelled : bool;
  tl_acceptor : acceptor;
  tl_refusing : nat;
  tl_callers : list caller
}.

Definition with_running (srv : TCPServer) (b : bool) : TCPServer :=
  mkTCPServer (tcp_maxConn srv) (tcp_idleTO srv) (tcp_active srv) b.

(** [Start] *)
Definition tcp_start (srv : TCPServer) : tlife :=
  mkTLife (with_running srv true) true false Accepting 0 [AwaitCancel].

(** acceptLoop: waiting in Accept, and with a connection before the [select]. *)
Inductive accept_step : tlife -> tlife -> Prop :=
| t_accept srv ca rf cs :
    accept_step (mkTLife srv true ca Accepting rf cs) (mkTLife srv true ca Accepted rf cs)
| t_accept_error srv op ca rf cs :
    accept_step (mkTLife srv op ca Accepting rf cs)
      (mkTLife srv op ca (if tcp_running srv then Accepting else AcceptDone) rf cs)
| t_serve srv srv' op ca rf cs :
    accept_conn srv = (true, srv') ->
    accept_step (mkTLife srv op ca Accepted rf cs) (mkTLife srv' op ca Accepting rf cs)
| t_refuse srv srv' op ca rf cs :
    accept_conn srv = (false, srv') ->
    accept_step (mkTLife srv op ca Accepted rf cs) (mkTLife srv' op ca Accepting (S rf) cs).

(** Shutdown, and the goroutine of [Start] that calls it. *)
Inductive tcp_shutdown_step : tlife -> tlife -> Prop :=
| t_awake cs1 cs2 srv op ac rf :
    tcp_shutdown_step (mkTLife srv op true ac rf (cs1 ++ AwaitCancel :: cs2))
      (mkTLife srv op true ac rf (cs1 ++ Called false :: cs2))
| t_swap b cs1 cs2 srv op ca ac rf :
    tcp_shutdown_step (mkTLife srv op ca ac rf (cs1 ++ Called b :: cs2))
      (mkTLife (with_running srv false) op ca ac rf
         (cs1 ++ (if tcp_running srv then Stopping b else AlreadyDown) :: cs2))
| t_close b cs1 cs2 srv op ca ac rf :
    tcp_shutdown_step (mkTLife srv op ca ac rf (cs1 ++ Stopping b :: cs2))
      (mkTLife srv false ca ac rf (cs1 ++ AwaitWorkers b :: cs2))
| t_drained b cs1 cs2 srv op ca ac rf :
    tcp_active srv = 0 ->
    tcp_shutdown_step (mkTLife srv op ca ac rf (cs1 ++ AwaitWorkers b :: cs2))
      (mkTLife srv op ca ac rf (cs1 ++ Drained :: cs2))
| t_timeout cs1 cs2 srv op ca ac rf :
    tcp_shutdown_step (mkTLife srv op ca ac rf (cs1 ++ AwaitWorkers true :: cs2))
      (mkTLife srv op ca ac rf (cs1 ++ TimedOut :: cs2)).

(** A step of the server: its goroutines, the end of a connection (which gives
    back its token and leaves the wait group), the end of a refusal, and what
    the rest of the program does. *)
Inductive tcp_step : tlife -> tlife -> Prop :=
| t_loop s s' : accept_step s s' -> tcp_step s s'
| t_conn_done srv op ca ac rf cs :
    0 < tcp_active srv ->
    tcp_step (mkTLife srv op ca ac rf cs) (mkTLife (conn_done srv) op ca ac rf cs)
| t_refused srv op ca ac rf cs :
    tcp_step (mkTLife srv op ca ac (S rf) cs) (mkTLife srv op ca ac rf cs)
| t_cancel srv op ac rf cs :
    tcp_step (mkTLife srv op false ac rf cs) (mkTLife srv op true ac rf cs)
| t_call b srv op ca ac rf cs :
    tcp_step (mkTLife srv op ca ac rf cs) (mkTLife srv op ca ac rf (cs ++ [Called b]))
| t_shutdown s s' : tcp_shutdown_step s s' -> tcp_step s s'.

Definition tcp_reachable (srv : TCPServer) : tlife -> Prop := rtc tcp_step (tcp_start srv).

Record tcp_inv (max : Z) (s : tlife) : Prop := {
  ti_max : tcp_maxConn (tl_srv s) = max;
  ti_active : 0 <= tcp_active (tl_srv s) <= max;
  ti_winner : len (winners (tl_callers s)) = if tcp_running (tl_srv s) then 0 else 1;
  ti_open : tl_open s = (level (tl_callers s) <? 5);
  ti_level : level (tl_callers s) <= 1 \/ 5 <= level (tl_callers s)
}.

(** The cases of a step, the goroutines' included. *)
Ltac step_cases Hs := destruct Hs as [? ? Hs| | | | |? ? Hs]; [destruct Hs| | | | |destruct Hs].

Ltac tproj := cbn [tl_srv tl_open tl_cancelled tl_acceptor tl_refusing tl_callers tcp_maxConn tcp_active
  tcp_running with_running conn_done].

Lemma tcp_step_inv max s s' : tcp_inv max s -> tcp_step s s' -> tcp_inv max s'.
Proof.
  intros [H1 H2 H3 H4 H5] Hs. step_cases Hs; revert H1 H2 H3 H4 H5; tproj; intros H1 H2 H3 H4 H5; subst.
  - split; tproj; done.
  - split; tproj; done.
  - unfold accept_conn in H. bcase_in H; [|done]. injection H as <-. split; tproj; done || lia.
  - unfold accept_conn in H. bcase_in H; [done|]. injection H as <-. split; tproj; done || lia.
  - split; tproj; done || lia.
  - split; tproj; done.
  - split; tproj; done.
  - destruct (caller_joins cs b) as (E1 & E2 & _). split; tproj; rewrite ?E1, ?E2; done.
  - destruct (other_moves cs1 AwaitCancel (Called false) cs2 eq_refl eq_refl) as (E1 & E2 & _).
    split; tproj; rewrite ?E1, ?E2; done.
  - destruct (tcp_running srv).
    + destruct (winner_starts cs1 b cs2 H3) as (E1 & E2 & E3).
      split; tproj; rewrite ?E1, ?E2, ?E3; done || lia.
    + destruct (other_moves cs1 (Called b) AlreadyDown cs2 eq_refl eq_refl) as (E1 & E2 & _).
      split; tproj; rewrite ?E1, ?E2; done.
  - destruct (winner_moves cs1 (Stopping b) (AwaitWorkers b) cs2 _ eq_refl eq_refl H3
      ltac:(destruct (tcp_running srv); lia)) as (E1 & E2 & E3 & E4 & _).
    split; tproj; rewrite ?E3, ?E4; cbn [phase]; done || lia.
  - destruct (winner_moves cs1 (AwaitWorkers b) Drained cs2 _ eq_refl eq_refl H3
      ltac:(destruct (tcp_running srv); lia)) as (E1 & E2 & E3 & E4 & _).
    split; tproj; rewrite ?E2, ?E3, ?E4; cbn [phase]; done || lia.
  - destruct (winner_moves cs1 (AwaitWorkers true) TimedOut cs2 _ eq_refl eq_refl H3
      ltac:(destruct (tcp_running srv); lia)) as (E1 & E2 & E3 & E4 & _).
    split; tproj; rewrite ?E2, ?E3, ?E4; cbn [phase]; done || lia.
Qed.

Lemma tcp_reachable_inv srv s :
  tcp_active srv = 0 -> 0 <= tcp_maxConn srv -> tcp_reachable srv s -> tcp_inv (tcp_maxConn srv) s.
Proof.
  intros Ha Hm H. assert (tcp_inv (tcp_maxConn srv) (tcp_start srv)) as Hi by (split; cbn; done || lia).
  unfold tcp_reachable in H. revert Hi. induction H as [|s1 s2 s3 Hs _ IH]; [done|].
  intros Hi. apply IH. by eapply tcp_step_inv.
Qed.

Definition acceptor_work (a : acceptor) : Z := match a with Accepting => 1 | Accepted => 4 | AcceptDone => 0 end.
Definition tcp_work (s : tlife) : Z :=
  (if tl_cancelled s then 0 else 1) + sum caller_work (tl_callers s) + acceptor_work (tl_acceptor s)
  + 2 * tcp_active (tl_srv s) + 2 * Z.of_nat (tl_refusing s).

Ltac tcp_less := unfold tcp_work; tproj; rewrite ?sum_app, ?sum_cons;
  cbn [caller_work acceptor_work]; try lia.

Lemma tcp_closed_work max s s' :
  tcp_inv max s -> tl_open s = false -> tcp_step s s' ->
  tcp_work s' < tcp_work s \/ exists b, tl_callers s' = tl_callers s ++ [Called b].
Proof.
  intros [H1 H2 H3 H4 H5] Ho Hs. step_cases Hs; revert H1 H2 H3 H4 H5 Ho; tproj; intros H1 H2 H3 H4 H5 Ho; subst;
    try done; try (right; by eexists); left; tcp_less; try (destruct ca; lia).
  - destruct (tcp_running srv); [|tcp_less]. apply len_zero in H3. unfold level in *. rewrite H3 in *. done.
  - unfold accept_conn in H. bcase_in H; [|done]. injection H as <-. cbn. lia.
  - unfold accept_conn in H. bcase_in H; [done|]. injection H as <-. lia.
  - destruct (tcp_running srv); cbn [caller_work]; lia.
Qed.

Lemma tcp_progress max s c :
  tcp_inv max s -> tcp_running (tl_srv s) = false -> c ∈ tl_callers s -> pending (tl_cancelled s) c ->
  exists s', tcp_step s s' /\ tcp_work s' < tcp_work s.
Proof.
  intros [H1 H2 H3 H4 H5] Hr Hc Hp. destruct s as [srv op ca ac rf cs]. revert H1 H2 H3 H4 H5 Hr Hc Hp. tproj.
  intros H1 H2 H3 H4 H5 Hr Hc Hp. apply list_elem_of_split in Hc as (cs1 & cs2 & ->). rewrite Hr in H3.
  destruct c as [|b|b|b|b|b|b| | |]; cbn [pending] in Hp; try done.
  - subst ca. eexists. split; [apply t_shutdown, t_awake|tcp_less].
  - eexists. split; [apply t_shutdown, t_swap|]. rewrite Hr. tcp_less.
  - eexists. split; [apply t_shutdown, t_close|tcp_less].
  - destruct (level_of cs1 (Closing b) cs2 1 eq_refl H3 ltac:(lia)) as (_ & _ & El). rewrite El in H5. cbn in H5. lia.
  - destruct (level_of cs1 (AwaitReader b) cs2 1 eq_refl H3 ltac:(lia)) as (_ & _ & El). rewrite El in H5. cbn in H5. lia.
  - destruct (level_of cs1 (ClosingQueue b) cs2 1 eq_refl H3 ltac:(lia)) as (_ & _ & El). rewrite El in H5. cbn in H5. lia.
  - destruct (decide (tcp_active srv = 0)) as [Ha|Ha].
    + eexists. split; [by apply t_shutdown, t_drained|tcp_less].
    + eexists. split; [apply t_conn_done; lia|tcp_less].
Qed.

Section tcp_lifecycle.
Context (srv : TCPServer) (Hfresh : tcp_active srv = 0) (Hmax : 0 <= tcp_maxConn srv).

(** C33. The life of the TCP server, in every interleaving of its accept loop,
    its connections, the cancellation of its context and any number of calls
    of [Shutdown].  At most [maxConn] connections are served at a time, and a
    connection is refused only while that many are; at most one call stops the
    server, and a call returns drained only after the listener is closed.  Once the server is stopped, a
    call that has not returned has a next step of the server before it, and
    after the listener is closed every step, new calls aside, leaves less to
    do. *)
Theorem tcp_lifecycle s :
  tcp_reachable srv s ->
  0 <= tcp_active (tl_srv s) <= tcp_maxConn srv
  /\ (forall s', tcp_step s s' -> (tl_refusing s < tl_refusing s')%nat -> tcp_active (tl_srv s) = tcp_maxConn srv)
  /\ (Drained ∈ tl_callers s -> tl_open s = false)
  /\ len (winners (tl_callers s)) <= 1
  /\ (tcp_running (tl_srv s) = false -> forall c, c ∈ tl_callers s -> pending (tl_cancelled s) c ->
        exists s', tcp_step s s' /\ tcp_work s' < tcp_work s)
  /\ (tl_open s = false -> forall s', tcp_step s s' ->
        0 <= tcp_work s' < tcp_work s \/ exists b, tl_callers s' = tl_callers s ++ [Called b]).
Proof.
  intros H. apply tcp_reachable_inv in H; [|done..]. pose proof H as [H1 H2 H3 H4 H5]. ands; try lia.
  - intros s' Hs. step_cases Hs; tproj; try lia. intros _. unfold accept_conn in H0. cbn in *.
    bcase_in H0; [done|]. lia.
  - intros Hd. apply list_elem_of_split in Hd as (l & k & E). rewrite E in *.
    destruct (level_of l Drained k _ eq_refl H3 ltac:(destruct (tcp_running _); lia)) as (_ & _ & El).
    by rewrite H4, El.
  - rewrite H3. destruct (tcp_running _); lia.
  - intros Hr c. by eapply tcp_progress.
  - intros Ho s' Hs. destruct (tcp_closed_work _ s s' H Ho Hs) as [Hw|Hw]; [left|by right].
    split; [|done]. apply (tcp_step_inv _ _ _ H) in Hs as [_ Ha _ _ _]. unfold tcp_work.
    pose proof (sum_nonneg caller_work (tl_callers s') ltac:(by intros [])).
    assert (0 <= acceptor_work (tl_acceptor s')) by by destruct (tl_acceptor s'). destruct (tl_cancelled s'); lia.
Qed.
End tcp_lifecycle.


(** ** Examples *)

Definition one_worker : UDPServer := mkUDPServer 1 [].
Definition a_packet : udpPacket := mkUDPPacket "query" "192.0.2.7:4711".

(** A packet is handled while [Shutdown] waits for the worker. *)
Lemma drained_run : exists s, life_reachable one_worker s /\ Drained ∈ lf_callers s /\ lf_cancelled s = false
  /\ lf_read s = [a_packet].
Proof.
  eexists. split.
  - eapply rtc_l; [apply (l_read one_worker a_packet)|].
    eapply rtc_l; [apply l_enqueue; by left|].
    eapply rtc_l; [apply (l_take one_worker a_packet [] [])|].
    eapply rtc_l; [apply (l_call one_worker true)|].
    eapply rtc_l; [apply (l_swap one_worker true [AwaitCancel] [])|].
    eapply rtc_l; [apply (l_stop one_worker true [AwaitCancel] [])|].
    eapply rtc_l; [apply (l_close_conn one_worker true [AwaitCancel] [])|].
    eapply rtc_l; [apply l_read_error|].
    eapply rtc_l; [apply (l_reader_gone one_worker true [AwaitCancel] [])|].
    eapply rtc_l; [apply (l_close_queue one_worker true [AwaitCancel] [])|].
    eapply rtc_l; [apply (l_handle one_worker a_packet [] [])|].
    eapply rtc_l; [apply (l_worker_closed one_worker [] [])|].
    eapply rtc_l; [apply (l_drained one_worker true [AwaitCancel] []); by repeat constructor|].
    apply rtc_refl.
  - cbn. split; [|done]. apply elem_of_cons. right. by apply list_elem_of_singleton.
Qed.

Theorem udp_lifecycle_witness :
  exists s, life_reachable one_worker s /\ lf_read s = [a_packet] /\ lf_reader s = ReaderDone
    /\ lf_read s ≡ₚ lf_handled s ++ lf_dropped s.
Proof.
  destruct drained_run as (s & Hr & Hd & Hc & Hp). exists s.
  destruct (udp_lifecycle one_worker ltac:(vm_compute; discriminate) s Hr) as (_ & _ & _ & H & _).
  destruct (H Hd) as (_ & H1 & _ & H2). exact (conj Hr (conj Hp (conj H1 (H2 Hc)))).
Defined.

(** [main] cancels the context before it calls [Shutdown].  When the goroutine
    of [Start] comes first, the call of [main] returns nil at once: nothing is
    drained, a worker is still busy with a packet. *)
Theorem shutdown_without_drain : exists s, life_reachable one_worker s
  /\ lf_callers s = [Stopping false; AlreadyDown] /\ lf_workers s = [Busy a_packet].
Proof.
  eexists. split.
  - eapply rtc_l; [apply (l_read one_worker a_packet)|].
    eapply rtc_l; [apply l_enqueue; by left|].
    eapply rtc_l; [apply (l_take one_worker a_packet [] [])|].
    eapply rtc_l; [apply l_cancel|].
    eapply rtc_l; [apply (l_call one_worker true)|].
    eapply rtc_l; [apply (l_awake one_worker [] [Called true])|].
    eapply rtc_l; [apply (l_swap one_worker false [] [Called true])|].
    eapply rtc_l; [apply (l_swap one_worker true [Stopping false] [])|].
    apply rtc_refl.
  - done.
Qed.

Definition one_connection : TCPServer := NewTCPServer 1.

(** One connection is served when [Shutdown] is called, another refused. *)
Lemma busy_run : exists s, tcp_reachable one_connection s /\ tcp_active (tl_srv s) = 1 /\ tl_refusing s = 1%nat
  /\ tl_open s = false /\ AwaitWorkers true ∈ tl_callers s /\ tcp_running (tl_srv s) = false.
Proof.
  eexists. split.
  - eapply rtc_l; [apply t_loop, t_accept|]. eapply rtc_l; [by apply t_loop, t_serve|].
    eapply rtc_l; [apply t_loop, t_accept|]. eapply rtc_l; [by apply t_loop, t_refuse|].
    eapply rtc_l; [apply (t_call true)|].
    eapply rtc_l; [apply t_shutdown, (t_swap true [AwaitCancel] [])|].
    eapply rtc_l; [apply t_shutdown, (t_close true [AwaitCancel] [])|].
    apply rtc_refl.
  - cbn. ands; try done. apply elem_of_cons. right. by apply list_elem_of_singleton.
Qed.

Theorem tcp_lifecycle_witness :
  exists s s', tcp_reachable one_connection s /\ tcp_active (tl_srv s) = 1 /\ tcp_step s s' /\ tcp_work s' < tcp_work s.
Proof.
  destruct busy_run as (s & Hr & Ha & _ & _ & Hc & Hs).
  destruct (tcp_lifecycle one_connection eq_refl ltac:(vm_compute; discriminate) s Hr) as (_ & _ & _ & _ & H & _).
  destruct (H Hs _ Hc I) as (s' & H1 & H2). exists s, s'. exact (conj Hr (conj Ha (conj H1 H2))).
Defined.

(** A connection accepted just before the listener is closed is not counted
    yet when the wait group is found empty: [Shutdown] returns drained and the
    connection is served afterwards. *)
Theorem drained_then_served : exists s, tcp_reachable one_connection s
  /\ Drained ∈ tl_callers s /\ tcp_active (tl_srv s) = 1.
Proof.
  eexists. split.
  - eapply rtc_l; [apply t_loop, t_accept|].
    eapply rtc_l; [apply (t_call true)|].
    eapply rtc_l; [apply t_shutdown, (t_swap true [AwaitCancel] [])|].
    eapply rtc_l; [apply t_shutdown, (t_close true [AwaitCancel] [])|].
    eapply rtc_l; [by apply t_shutdown, (t_drained true [AwaitCancel] [])|].
    eapply rtc_l; [by apply t_loop, t_serve|].
    apply rtc_refl.
  - cbn. split; [|done]. apply elem_of_cons. right. by apply list_elem_of_singleton.
Qed.
