(* ===== verification/Dot.v ===== *)
(** * internal/server/dot.go: the DoT server and its certificate.

    A DoT server is a TCP server behind TLS: it starts, works and stops as
    [ServerLife] says.  Files, keys and certificates are the operations of a
    class; [disk] is an instance with a map of files. *)

From S2P Require Import Prelude.
From S2P Require Import GoStrings.
From S2P Require Import GoTime.
From S2P Require Import GoPath.
From S2P Require Import Server.
From S2P Require Import ServerLife.

#[local] Open Scope go_scope.

(** The template of the certificate; the key usages are those of a server. *)
Record Template := mkTemplate {
  tm_SerialNumber : Z; tm_CommonName : bytes; tm_NotBefore : Z; tm_NotAfter : Z; tm_DNSNames : list bytes
}.

Class CertHost (W : Type) := {
  (** os.IsNotExist of the error of os.Stat *)
  c_not_exist : bytes -> W -> bool * W;
  c_mkdir_all : bytes -> W -> option bytes * W;
  c_generate_key : W -> (bytes + bytes) * W;
  c_create_certificate : Template -> bytes -> W -> (bytes + bytes) * W;
  c_create : bytes -> W -> option bytes * W;
  c_pem_encode : bytes -> bytes -> bytes -> W -> option bytes * W;
  c_load_key_pair : bytes -> bytes -> W -> option bytes * W;
  c_listen : bytes -> W -> option bytes * W;
  c_now : W -> Z * W
}.

Definition io (W A : Type) : Type := W -> result bytes A * W.
#[export] Instance io_ret {W} : MRet (io W) := fun A a w => (Ok a, w).
#[export] Instance io_bind {W} : MBind (io W) := fun A B k m w =>
  match m w with
  | (Ok a, w) => k a w
  | (Err e, w) => (Err e, w)
  | (Panic, w) => (Panic, w)
  | (Fuel, w) => (Fuel, w)
  end.

Section dot.
Context {W : Type} {H : CertHost W}.

(** A call that returns an error, and one that returns a value or an error. *)
Definition or_fail (f : W -> option bytes * W) : io W unit := fun w =>
  match f w with (None, w) => (Ok tt, w) | (Some e, w) => (Err e, w) end.
Definition or_value {A} (f : W -> (bytes + A) * W) : io W A := fun w =>
  match f w with (inr a, w) => (Ok a, w) | (inl e, w) => (Err e, w) end.
Definition pure {A} (f : W -> A * W) : io W A := fun w => let '(a, w) := f w in (Ok a, w).

(** The directory of [path]; an error counts unless it is the current one. *)
Definition make_dir (path : bytes) : io W unit := fun w =>
  match c_mkdir_all (Dir path) w with
  | (Some e, w) => if bool_decide (Dir path = ".") then (Ok tt, w) else (Err e, w)
  | (None, w) => (Ok tt, w)
  end.

Definition write_pem (path type der : bytes) : io W unit :=
  or_fail (c_create path);; or_fail (c_pem_encode path type der).

Definition generateSelfSignedCert (certPath keyPath : bytes) : io W unit :=
  make_dir certPath;;
  make_dir keyPath;;
  priv ← or_value c_generate_key;
  t1 ← pure c_now;
  t2 ← pure c_now;
  t3 ← pure c_now;
  der ← or_value (c_create_certificate
          (mkTemplate t1 "dns-resolver.local" (t2 - Hour) (t3 + 365 * 24 * Hour) ["localhost"; "dns-resolver.local"])
          priv);
  write_pem certPath "CERTIFICATE" der;;
  write_pem keyPath "RSA PRIVATE KEY" priv.

Definition NewDoTServer (addr : bytes) (maxConn : Z) (certPath keyPath : bytes) (autoGenerate : bool)
  : io W TCPServer :=
  (if autoGenerate then
     missing ← pure (c_not_exist certPath);
     if missing : bool then generateSelfSignedCert certPath keyPath else mret tt
   else mret tt);;
  or_fail (c_load_key_pair certPath keyPath);;
  or_fail (c_listen addr);;
  mret (NewTCPServer maxConn).

(** [Start]: the goroutines of a TCP server, on the listener of [NewDoTServer]. *)
Definition dot_start (s : TCPServer) : tlife := tcp_start s.
(** [Shutdown] *)
Definition dot_shutdown_step : tlife -> tlife -> Prop := tcp_shutdown_step.
End dot.

(** ** Files on a disk *)

Section disk.
(** What keys and certificates are made of, which of them belong together, and
    which paths cannot be written. *)
Context (new_key : bytes) (certificate : Template -> bytes -> bytes)
  (pair : bytes -> bytes -> bool) (pair_made : forall t k, pair (certificate t k) k = true).

Record disk := mkDisk { dk_files : gmap bytes bytes; dk_refused : gset bytes; dk_now : Z }.

Definition disk_create (path : bytes) (d : disk) : option bytes * disk :=
  if decide (path ∈ dk_refused d) then (Some "permission denied" : option bytes, d)
  else (None, mkDisk (<[path := "" : bytes]> (dk_files d)) (dk_refused d) (dk_now d)).

#[local] Instance disk_host : CertHost disk := {|
  c_not_exist path d := (bool_decide (dk_files d !! path = None), d);
  c_mkdir_all path d := (None, d);
  c_generate_key d := (inr new_key, d);
  c_create_certificate t k d := (inr (certificate t k), d);
  c_create := disk_create;
  c_pem_encode path _ der d := (None, mkDisk (<[path := der]> (dk_files d)) (dk_refused d) (dk_now d));
  c_load_key_pair cert key d :=
    (match dk_files d !! cert, dk_files d !! key with
     | Some c, Some k => if pair c k then None else Some "private key does not match"
     | _, _ => Some "no such file"
     end, d);
  c_listen addr d := (None, d);
  c_now d := (dk_now d, d)
|}.

Ltac io := unfold mbind, io_bind, mret, io_ret, pure, or_fail, or_value; cbn.

Lemma create_ok path d : path ∉ dk_refused d ->
  disk_create path d = (None, mkDisk (<[path := "" : bytes]> (dk_files d)) (dk_refused d) (dk_now d)).
Proof. intros Hp. unfold disk_create. by destruct (decide _). Qed.

Lemma create_refused path d : path ∈ dk_refused d -> disk_create path d = (Some ("permission denied" : bytes), d).
Proof. intros Hp. unfold disk_create. by destruct (decide _). Qed.

Lemma write_pem_ok path type der d : path ∉ dk_refused d ->
  write_pem path type der d = (Ok tt, mkDisk (<[path := der]> (dk_files d)) (dk_refused d) (dk_now d)).
Proof.
  intros Hp. unfold write_pem. io. rewrite create_ok by done. cbn. by rewrite insert_insert_eq.
Qed.

Lemma write_pem_refused path type der d : path ∈ dk_refused d ->
  write_pem path type der d = (Err ("permission denied" : bytes), d).
Proof. intros Hp. unfold write_pem. io. by rewrite create_refused. Qed.

(** The certificate [generateSelfSignedCert] makes. *)
Definition self_signed (now : Z) : bytes :=
  certificate (mkTemplate now "dns-resolver.local" (now - Hour) (now + 365 * 24 * Hour)
    ["localhost"; "dns-resolver.local"]) new_key.

Lemma generate_writes cert key d :
  generateSelfSignedCert cert key d
  = (write_pem cert "CERTIFICATE" (self_signed (dk_now d));; write_pem key "RSA PRIVATE KEY" new_key) d.
Proof. reflexivity. Qed.

Lemma start_missing addr n cert key d : dk_files d !! cert = None ->
  NewDoTServer addr n cert key true d
  = (generateSelfSignedCert cert key;; or_fail (c_load_key_pair cert key);; mret (NewTCPServer n)) d.
Proof. intros Hc. unfold NewDoTServer. io. by rewrite (bool_decide_true (dk_files d !! cert = None)). Qed.

Lemma start_present addr n cert key auto c d : dk_files d !! cert = Some c ->
  NewDoTServer addr n cert key auto d = (or_fail (c_load_key_pair cert key);; mret (NewTCPServer n)) d.
Proof.
  intros Hc. unfold NewDoTServer. io. destruct auto; io; [|done].
  by rewrite (bool_decide_false (dk_files d !! cert = None)) by congruence.
Qed.

(** The first start makes the files; later ones use them as they are. *)
Theorem certificate_made_once addr n cert key d :
  dk_refused d = ∅ -> cert <> key -> dk_files d !! cert = None ->
  exists d', NewDoTServer addr n cert key true d = (Ok (NewTCPServer n), d')
    /\ is_Some (dk_files d' !! cert) /\ is_Some (dk_files d' !! key)
    /\ NewDoTServer addr n cert key true d' = (Ok (NewTCPServer n), d').
Proof.
  intros Hr Hne Hc. eexists. split.
  - rewrite start_missing by done. io. rewrite generate_writes. io.
    rewrite write_pem_ok by (rewrite Hr; apply not_elem_of_empty). cbn.
    rewrite write_pem_ok by (cbn; rewrite Hr; apply not_elem_of_empty). cbn.
    rewrite lookup_insert_ne, !lookup_insert_eq by done. unfold self_signed at 1. by rewrite pair_made.
  - cbn [dk_files]. rewrite lookup_insert_ne, !lookup_insert_eq by done. split; [done|]. split; [done|].
    rewrite (start_present _ _ _ _ _ (self_signed (dk_now d))) by (cbn [dk_files]; by rewrite lookup_insert_ne, lookup_insert_eq).
    io. rewrite lookup_insert_ne, !lookup_insert_eq by done. unfold self_signed at 1. by rewrite pair_made.
Qed.

(** When the key cannot be written the certificate stays behind, and from then on
    no start generates a pair again: every one fails, also when the key could be
    written now. *)
Theorem half_certificate_stays addr n cert key d :
  cert ∉ dk_refused d -> key ∈ dk_refused d -> cert <> key ->
  dk_files d !! cert = None -> dk_files d !! key = None ->
  exists d', NewDoTServer addr n cert key true d = (Err "permission denied", d')
    /\ forall refused t, let d2 := mkDisk (dk_files d') refused t in
         NewDoTServer addr n cert key true d2 = (Err "no such file", d2).
Proof.
  intros H1 H2 Hne Hc Hk. eexists. split.
  - rewrite start_missing by done. io. rewrite generate_writes. io.
    rewrite write_pem_ok by done. cbn. by rewrite write_pem_refused.
  - intros refused t d2. rewrite (start_present _ _ _ _ _ (self_signed (dk_now d))) by apply lookup_insert_eq.
    unfold d2. io. by rewrite lookup_insert_eq, lookup_insert_ne, Hk.
Qed.
End disk.
