(* ===== verification/ApiCompare.v ===== *)
(** * internal/api/handlers.go: asking other servers and comparing answers.

    The sockets are the operations of the class [Dialer]. *)

From S2P Require Import Prelude.
From S2P Require Import GoStrings.
From S2P Require Import GoTime.
From S2P Require Import GoNet.
From S2P Require Import GoJson.
From S2P Require Import Protocol.
From S2P Require Import Decoder.
From S2P Require Import Encoder.

#[local] Open Scope go_scope.

(** ** Data *)

(** The error of a query: its text, or that of the codec. *)
Inductive ext_error := ExtText (t : bytes) | ExtCodec (e : error).

Record compareResult := mkCompareResult {
  cr_Server : bytes; cr_Error : option ext_error; cr_RCode : bytes; cr_DNSSECStatus : bytes;
  cr_Message : option Message; cr_Answer : option Message
}.
Record compareRCodeDiff := mkRCodeDiff { rd_Server : bytes; rd_Expected : bytes; rd_Actual : bytes }.
Record compareAnswerDiff := mkAnswerDiff { ad_Server : bytes; ad_Missing : list bytes; ad_Extra : list bytes }.
Record compareTTLDiffItem := mkTTLDiff { td_Server : bytes; td_Record : bytes; td_Expected : Z; td_Actual : Z }.
Record compareDiff := mkCompareDiff {
  cd_Available : bool; cd_BaseServer : bytes; cd_BaseRCode : bytes;
  cd_RCodeMismatches : list compareRCodeDiff; cd_AnswerDiffs : list compareAnswerDiff;
  cd_TTLDiffs : list compareTTLDiffItem
}.

Definition maxCompareServers : Z := 8.

(** ** Names and lists of servers *)

Section compare.
Context {U : UnicodeTables}.

Definition normalizedName (name : bytes) : bytes :=
  let n := TrimSpace (ToLower name) in
  if bool_decide (n = "") || bool_decide (n = ".") then "."
  else if HasSuffix n "." then n else n ++ ".".

Definition splitCSV (v : bytes) : list bytes :=
  List.filter (fun p => negb (bool_decide (p = ""))) (map TrimSpace (Split v ",")).

(** The servers that are addresses, each once; [seen] are those kept so far. *)
Fixpoint keep_servers (servers seen : list bytes) : list bytes :=
  match servers with
  | [] => []
  | server :: rest =>
      let server := TrimSpace server in
      if bool_decide (server = "") then keep_servers rest seen else
      match ParseIP server with
      | None => keep_servers rest seen
      | Some _ => if bool_decide (server ∈ seen) then keep_servers rest seen
                  else server :: keep_servers rest (server :: seen)
      end
  end.
Definition normalizeServers (servers : list bytes) : list bytes := keep_servers servers [].

(** ** One query to one server *)

Definition validateExternalResponse (query decoded : Message) : option bytes :=
  let want := h_ID (m_Header query) in
  let got := h_ID (m_Header decoded) in
  if negb (got =? want) then Some ("query id mismatch: want=" ++ itoa want ++ " got=" ++ itoa got) else
  match m_Questions query, m_Questions decoded with
  | sent :: _, got :: _ =>
      if negb (bool_decide (normalizedName (q_Name sent) = normalizedName (q_Name got))) then
        Some ("response question name mismatch: want=" ++ q_Name sent ++ " got=" ++ q_Name got)
      else if negb (q_Type sent =? q_Type got) || negb (q_Class got =? ClassIN) then
        Some ("response question mismatch: type=" ++ itoa (q_Type got) ++ " class=" ++ itoa (q_Class got))
      else None
  | _, _ => Some "missing response question"
  end.

(** [d_udp ip wire]: the error, or the datagram that comes back; [d_tcp ip out]:
    the error, or what the server sends once [out] is written, with the error
    that ends it. *)
Class Dialer (W : Type) := {
  d_udp : bytes -> bytes -> W -> (bytes + bytes) * W;
  d_tcp : bytes -> bytes -> W -> (bytes + bytes * bytes) * W;
  d_now : W -> Z * W
}.

Context {W : Type} {D : Dialer W}.

(** A decoded packet that answers the query. *)
Definition accept_packet (q : Message) (packet : bytes) : result ext_error Message :=
  decoded ← map_err ExtCodec (Decode packet);
  match validateExternalResponse q decoded with
  | Some err => Err (ExtText err)
  | None => Ok decoded
  end.

(** The bytes of a stream that [io.ReadFull] reads, or its error. *)
Definition read_full (n : Z) (stream : bytes * bytes) : result ext_error (bytes * (bytes * bytes)) :=
  let '(data, err) := stream in
  if len data <? n then
    Err (ExtText (if bool_decide (err = "EOF") && (0 <? len data) then "unexpected EOF" else err))
  else Ok (take (Z.to_nat n) data, (drop (Z.to_nat n) data, err)).

(** What is read from the stream of [resolveViaServerTCP]. *)
Definition read_reply (query : Message) (stream : bytes * bytes) : result ext_error Message :=
  '(lenBuf, stream) ← read_full 2 stream;
  size ← Uint16 lenBuf;
  if (size <=? 0) || (MaxDNSPacketLen <? size) then
    Err (ExtText ("invalid tcp response size: " ++ itoa size))
  else
  '(payload, _) ← read_full size stream;
  accept_packet query payload.

Definition resolveViaServerTCP (ip wire : bytes) (query : Message) (w : W) : result ext_error Message * W :=
  match d_tcp (ip_String ip) (PutUint16 (u16 (len wire)) ++ wire) w with
  | (inl err, w) => (Err (ExtText err), w)
  | (inr stream, w) => (read_reply query stream, w)
  end.

Definition resolveViaServer (serverIP qname : bytes) (qtype : Z) (w : W) : result ext_error Message * W :=
  let qname := normalizedName qname in
  let '(t, w) := d_now w in
  let q := mkMessage (mkHeader (u16 t) false 0 false false true false 0 0 0 0 0 0)
             [mkQuestion qname qtype ClassIN] [] [] [] in
  match Encode (Some q) with
  | (_, Ok wire) =>
      match ParseIP serverIP with
      | None => (Err (ExtText ("invalid server ip: " ++ serverIP)), w)
      | Some ip =>
          match d_udp (ip_String ip) wire w with
          | (inl err, w) => (Err (ExtText err), w)
          | (inr datagram, w) =>
              match accept_packet q (take (Z.to_nat MaxUDPPacketLen) datagram) with
              | Ok decoded =>
                  if h_TC (m_Header decoded) then resolveViaServerTCP ip wire q w else (Ok decoded, w)
              | r => (r, w)
              end
          end
      end
  | (_, Err e) => (Err (ExtCodec e), w)
  | (_, Panic) => (Panic, w)
  | (_, Fuel) => (Fuel, w)
  end.

(** ** Comparing *)

Definition compareDNSSECStatus (msg : option Message) : bytes :=
  match msg with
  | None => "bogus"
  | Some m =>
      let rcode := h_RCode (m_Header m) in
      if rcode =? RCodeServerFailure then "bogus" else
      let all := m_Answers m ++ m_Authorities m ++ m_Additionals m in
      let hasRRSIG := existsb (fun rr => rr_Type rr =? TypeRRSIG) all in
      let hasKeyMaterial := existsb (fun rr => (rr_Type rr =? TypeDNSKEY) || (rr_Type rr =? TypeDS)) all in
      if hasRRSIG && hasKeyMaterial then "secure"
      else if hasRRSIG then "indeterminate"
      else if (rcode =? RCodeNoError) || (rcode =? RCodeNameError) then "insecure"
      else "indeterminate"
  end.

Definition recordFingerprint (rr : ResourceRecord) : bytes :=
  normalizedName (rr_Name rr) ++ "|" ++ TypeToString (rr_Type rr) ++ "|" ++ json_rdata (rr_Data rr).

Definition answerFingerprint (msg : option Message) : gmap bytes Z :=
  match msg with
  | None => ∅
  | Some m => foldl (fun out rr => <[recordFingerprint rr := rr_TTL rr]> out) ∅ (m_Answers m)
  end.

(** The keys of one map that the other lacks, sorted. *)
Definition keys_without (a b : gmap bytes Z) : list bytes :=
  sort_strings (List.filter (fun k => negb (bool_decide (is_Some (b !! k)))) (map_to_list a).*1).
Definition diffRecordKeys (base current : gmap bytes Z) : list bytes * list bytes :=
  (keys_without base current, keys_without current base).

(** The order of these is that of a range over a map. *)
Definition ttl_diffs (server : bytes) (base current : gmap bytes Z) : list compareTTLDiffItem :=
  omap (fun kv => match current !! kv.1 with
                  | Some actual => if actual =? kv.2 then None
                                   else Some (mkTTLDiff server kv.1 kv.2 actual)
                  | None => None
                  end) (map_to_list base).

Definition answered (r : compareResult) : bool :=
  match cr_Error r, cr_Answer r with None, Some _ => true | _, _ => false end.

(** One answered result against the base. *)
Definition compare_one (base : compareResult) (diff : compareDiff) (current : compareResult) : compareDiff :=
  let baseRecords := answerFingerprint (cr_Answer base) in
  if negb (bool_decide (cr_RCode current = cr_RCode base)) then
    mkCompareDiff (cd_Available diff) (cd_BaseServer diff) (cd_BaseRCode diff)
      (cd_RCodeMismatches diff ++ [mkRCodeDiff (cr_Server current) (cr_RCode base) (cr_RCode current)])
      (cd_AnswerDiffs diff) (cd_TTLDiffs diff)
  else
  let currentRecords := answerFingerprint (cr_Answer current) in
  let '(missing, extra) := diffRecordKeys baseRecords currentRecords in
  mkCompareDiff (cd_Available diff) (cd_BaseServer diff) (cd_BaseRCode diff) (cd_RCodeMismatches diff)
    (cd_AnswerDiffs diff ++ (if (0 <? len missing) || (0 <? len extra)
                             then [mkAnswerDiff (cr_Server current) missing extra] else []))
    (cd_TTLDiffs diff ++ ttl_diffs (cr_Server current) baseRecords currentRecords).

Definition no_diff : compareDiff := mkCompareDiff false "" "" [] [] [].

(** The first answered result is the base. *)
Definition buildCompareDiff (results : list compareResult) : compareDiff :=
  match List.filter answered results with
  | [] => no_diff
  | base :: others =>
      foldl (compare_one base) (mkCompareDiff true (cr_Server base) (cr_RCode base) [] [] []) others
  end.

(** The result of one server. *)
Definition compare_server (qname : bytes) (qtype : Z) (server : bytes) (w : W) : result bytes compareResult * W :=
  match resolveViaServer server qname qtype w with
  | (Ok msg, w) =>
      (Ok (mkCompareResult server None (RCodeToString (h_RCode (m_Header msg)))
             (compareDNSSECStatus (Some msg)) (Some msg) (Some msg)), w)
  | (Err e, w) => (Ok (mkCompareResult server (Some e) "" "" None None), w)
  | (Panic, w) => (Panic, w)
  | (Fuel, w) => (Fuel, w)
  end.
End compare.

(** ** What the comparison reports *)

(** Whether the comparison found nothing. *)
Definition same_answers (d : compareDiff) : Prop :=
  cd_RCodeMismatches d = [] /\ cd_AnswerDiffs d = [] /\ cd_TTLDiffs d = [].

Section spec.
Context {U : UnicodeTables}.

(** What one result adds to each list. *)
Definition rcode_part (base current : compareResult) : list compareRCodeDiff :=
  if bool_decide (cr_RCode current = cr_RCode base) then []
  else [mkRCodeDiff (cr_Server current) (cr_RCode base) (cr_RCode current)].
Definition answer_part (base current : compareResult) : list compareAnswerDiff :=
  let a := answerFingerprint (cr_Answer base) in
  let b := answerFingerprint (cr_Answer current) in
  if bool_decide (cr_RCode current = cr_RCode base)
     && ((0 <? len (keys_without a b)) || (0 <? len (keys_without b a)))
  then [mkAnswerDiff (cr_Server current) (keys_without a b) (keys_without b a)] else [].
Definition ttl_part (base current : compareResult) : list compareTTLDiffItem :=
  if bool_decide (cr_RCode current = cr_RCode base)
  then ttl_diffs (cr_Server current) (answerFingerprint (cr_Answer base)) (answerFingerprint (cr_Answer current))
  else [].

Lemma compare_all base l d :
  foldl (compare_one base) d l =
  mkCompareDiff (cd_Available d) (cd_BaseServer d) (cd_BaseRCode d)
    (cd_RCodeMismatches d ++ flat_map (rcode_part base) l)
    (cd_AnswerDiffs d ++ flat_map (answer_part base) l)
    (cd_TTLDiffs d ++ flat_map (ttl_part base) l).
Proof.
  revert d. induction l as [|r l IH]; intros d; cbn [foldl flat_map].
  { rewrite !app_nil_r. by destruct d. }
  rewrite IH. unfold compare_one, rcode_part, answer_part, ttl_part.
  destruct (bool_decide _); cbn [negb diffRecordKeys andb cd_Available cd_BaseServer cd_BaseRCode
    cd_RCodeMismatches cd_AnswerDiffs cd_TTLDiffs]; rewrite <- !app_assoc; cbn [app]; done.
Qed.

Lemma elem_of_keys_without k a b : k ∈ keys_without a b <-> is_Some (a !! k) /\ b !! k = None.
Proof.
  unfold keys_without. rewrite elem_of_sort_strings, !list_elem_of_In, filter_In, <- list_elem_of_In.
  rewrite negb_true_iff, bool_decide_eq_false, <- eq_None_not_Some, list_elem_of_fmap.
  split; [intros [([k' v] & -> & Hk%elem_of_map_to_list) Hb]; eauto|].
  intros [[v Hv] Hb]. split; [|done]. exists (k, v). by rewrite elem_of_map_to_list.
Qed.

Lemma keys_without_nil a b : keys_without a b = [] <-> forall k, is_Some (a !! k) -> is_Some (b !! k).
Proof.
  split.
  - intros E k Ha. destruct (b !! k) eqn:Hb; [by eexists|].
    assert (k ∈ keys_without a b) as Hk by by apply elem_of_keys_without.
    rewrite E in Hk. by apply elem_of_nil in Hk.
  - intros H. destruct (keys_without a b) as [|k l] eqn:E; [done|].
    assert (k ∈ keys_without a b) as [Ha Hb]%elem_of_keys_without by (rewrite E; set_solver).
    destruct (H k Ha) as [? ?]. congruence.
Qed.

Lemma elem_of_ttl_diffs it server a b :
  it ∈ ttl_diffs server a b <->
  td_Server it = server /\ a !! td_Record it = Some (td_Expected it)
  /\ b !! td_Record it = Some (td_Actual it) /\ td_Actual it <> td_Expected it.
Proof.
  unfold ttl_diffs. rewrite list_elem_of_omap. split.
  - intros ([k v] & Hk%elem_of_map_to_list & E). cbn [fst snd] in E.
    destruct (b !! k) as [w|] eqn:Hb; [|done]. bcase_in E; [done|]. injection E as <-.
    cbn [td_Server td_Record td_Expected td_Actual]. ands; [done..|lia].
  - destruct it as [s k v w]. cbn [td_Server td_Record td_Expected td_Actual]. intros (-> & Ha & Hb & Hn).
    exists (k, v). rewrite elem_of_map_to_list. split; [done|]. cbn [fst snd]. rewrite Hb.
    bcase; [lia|done].
Qed.

Lemma no_parts base r :
  rcode_part base r = [] /\ answer_part base r = [] /\ ttl_part base r = [] <->
  cr_RCode r = cr_RCode base
  /\ answerFingerprint (cr_Answer r) = answerFingerprint (cr_Answer base).
Proof.
  unfold rcode_part, answer_part, ttl_part.
  set (a := answerFingerprint (cr_Answer base)). set (b := answerFingerprint (cr_Answer r)).
  destruct (bool_decide (cr_RCode r = cr_RCode base)) eqn:Er;
    [apply bool_decide_eq_true in Er|apply bool_decide_eq_false in Er; naive_solver].
  cbn [andb]. split.
  - intros (_ & Ha & Ht). split; [done|].
    assert (keys_without a b = [] /\ keys_without b a = []) as [Hab Hba].
    { bcase_in Ha; [done|]. apply orb_false_elim in Hb as [H1 H2].
      split; apply len_zero; len_lia. }
    rewrite keys_without_nil in Hab, Hba. apply map_eq. intros k.
    destruct (b !! k) as [w|] eqn:Hb, (a !! k) as [v|] eqn:Ha'; try done.
    + destruct (decide (w = v)) as [->|Hne]; [done|].
      assert (mkTTLDiff (cr_Server r) k v w ∈ ttl_diffs (cr_Server r) a b) as Hin
        by (apply elem_of_ttl_diffs; done).
      rewrite Ht in Hin. by apply elem_of_nil in Hin.
    + destruct (Hba k) as [? ?]; [by eexists|congruence].
    + destruct (Hab k) as [? ?]; [by eexists|congruence].
  - intros [_ E]. fold a b in E. rewrite E.
    assert (keys_without a a = []) as -> by by apply keys_without_nil. cbn [len].
    split; [done|]. split; [done|].
    destruct (ttl_diffs (cr_Server r) a a) as [|it l] eqn:Et; [done|].
    assert (it ∈ ttl_diffs (cr_Server r) a a) as (_ & H1 & H2 & H3)%elem_of_ttl_diffs by (rewrite Et; set_solver).
    congruence.
Qed.

Lemma flat_map_nil {A B} (f : A -> list B) l : flat_map f l = [] <-> Forall (fun x => f x = []) l.
Proof.
  induction l as [|x l IH]; cbn [flat_map]; [by split|].
  rewrite Forall_cons, <- IH. split; [apply app_eq_nil|]. by intros [-> ->].
Qed.

(** The keys that one answer has and another lacks. *)
Definition lacks (a b : option Message) (k : bytes) : Prop :=
  is_Some (answerFingerprint a !! k) /\ answerFingerprint b !! k = None.

Lemma elem_of_flat_map {A} (f : compareResult -> list A) l x : x ∈ flat_map f l <-> exists r, r ∈ l /\ x ∈ f r.
Proof. rewrite list_elem_of_In, in_flat_map. by setoid_rewrite <- list_elem_of_In. Qed.

Lemma rcode_parts base l : flat_map (rcode_part base) l
  = map (fun r => mkRCodeDiff (cr_Server r) (cr_RCode base) (cr_RCode r))
      (List.filter (fun r => negb (bool_decide (cr_RCode r = cr_RCode base))) l).
Proof.
  induction l as [|r l IH]; [done|]. cbn [flat_map List.filter]. rewrite IH. unfold rcode_part. by destruct (bool_decide _).
Qed.

Lemma answer_part_spec base r x : x ∈ answer_part base r ->
  cr_RCode r = cr_RCode base /\ ad_Server x = cr_Server r
  /\ (exists k, lacks (cr_Answer base) (cr_Answer r) k \/ lacks (cr_Answer r) (cr_Answer base) k)
  /\ (forall k, k ∈ ad_Missing x <-> lacks (cr_Answer base) (cr_Answer r) k)
  /\ (forall k, k ∈ ad_Extra x <-> lacks (cr_Answer r) (cr_Answer base) k).
Proof.
  unfold answer_part. set (a := answerFingerprint _). set (b := answerFingerprint (cr_Answer r)). intros Hx.
  bcase_in Hx; [|by apply elem_of_nil in Hx]. apply andb_prop in Hb as [Hc Hd]. apply bool_decide_eq_true in Hc.
  apply list_elem_of_singleton in Hx as ->. cbn [ad_Server ad_Missing ad_Extra]. unfold lacks. fold a b.
  ands; [done..| |intros k; apply elem_of_keys_without|intros k; apply elem_of_keys_without].
  apply orb_prop in Hd as [Hd|Hd].
  - destruct (keys_without a b) as [|k l] eqn:E; [done|]. exists k. left. apply elem_of_keys_without. rewrite E. by left.
  - destruct (keys_without b a) as [|k l] eqn:E; [done|]. exists k. right. apply elem_of_keys_without. rewrite E. by left.
Qed.

Lemma answer_part_complete base r k : cr_RCode r = cr_RCode base ->
  lacks (cr_Answer base) (cr_Answer r) k \/ lacks (cr_Answer r) (cr_Answer base) k -> exists x, x ∈ answer_part base r.
Proof.
  unfold lacks, answer_part. intros Hc Hk. rewrite (bool_decide_eq_true_2 _ Hc). cbn [andb].
  rewrite <- !elem_of_keys_without in Hk. case_match eqn:Hn; [eexists; by left|]. exfalso.
  apply orb_false_elim in Hn as [H1 H2].
  destruct Hk as [Hk|Hk]; [destruct (keys_without _ _) as [|? l] in Hk, H1|destruct (keys_without _ _) as [|? l] in Hk, H2];
    try (by apply elem_of_nil in Hk); rewrite len_cons in *; pose proof (len_nonneg l); lia.
Qed.

Definition record_keys (r : compareResult) : gset bytes := dom (answerFingerprint (cr_Answer r)).

Lemma answer_parts base l : map ad_Server (flat_map (answer_part base) l)
  = map cr_Server (List.filter (fun r => bool_decide (cr_RCode r = cr_RCode base)
                                       && negb (bool_decide (record_keys r = record_keys base))) l).
Proof.
  induction l as [|r l IH]; [done|]. cbn [flat_map List.filter]. rewrite map_app, IH. unfold answer_part.
  destruct (bool_decide (cr_RCode r = cr_RCode base)); [|done]. cbn [andb]. unfold record_keys.
  set (a := answerFingerprint (cr_Answer base)). set (b := answerFingerprint (cr_Answer r)).
  assert (dom b = dom a :> gset bytes <-> keys_without a b = [] /\ keys_without b a = []) as Hd.
  { rewrite !keys_without_nil, set_eq. setoid_rewrite elem_of_dom. split; [intros H; split; intros k; by rewrite H|].
    intros [H1 H2] k. split; auto. }
  case_bool_decide as Hc; cbn [negb].
  - apply Hd in Hc as [-> ->]. done.
  - case_match eqn:Hn; [done|]. exfalso. apply Hc, Hd. apply orb_false_elim in Hn as [H1 H2].
    split; apply len_zero; len_lia.
Qed.

(** C31. The comparison of servers takes the first one that answered as the base
    and reports a difference exactly when another one answered with another
    response code or with another set of records and TTLs.  The differences of
    response codes are those of the servers with another code, in their order,
    with the base's code as the expected one.  Of the servers with the same code,
    exactly those that lack a record of the base or have one that it lacks are
    reported with these records, and exactly the records of both with different
    TTLs with these. *)
Theorem buildCompareDiff_spec (results : list compareResult) (base : compareResult) others :
  List.filter answered results = base :: others ->
  let d := buildCompareDiff results in
  cd_Available d = true /\ cd_BaseServer d = cr_Server base /\ cd_BaseRCode d = cr_RCode base
  /\ (same_answers d <-> Forall (fun r => cr_RCode r = cr_RCode base
        /\ answerFingerprint (cr_Answer r) = answerFingerprint (cr_Answer base)) others)
  /\ cd_RCodeMismatches d
     = map (fun r => mkRCodeDiff (cr_Server r) (cr_RCode base) (cr_RCode r))
         (List.filter (fun r => negb (bool_decide (cr_RCode r = cr_RCode base))) others)
  /\ (forall x, x ∈ cd_AnswerDiffs d -> exists r k, r ∈ others /\ cr_RCode r = cr_RCode base /\ ad_Server x = cr_Server r
        /\ (lacks (cr_Answer base) (cr_Answer r) k \/ lacks (cr_Answer r) (cr_Answer base) k)
        /\ (forall k, k ∈ ad_Missing x <-> lacks (cr_Answer base) (cr_Answer r) k)
        /\ (forall k, k ∈ ad_Extra x <-> lacks (cr_Answer r) (cr_Answer base) k))
  /\ map ad_Server (cd_AnswerDiffs d)
     = map cr_Server (List.filter (fun r => bool_decide (cr_RCode r = cr_RCode base)
                                          && negb (bool_decide (record_keys r = record_keys base))) others)
  /\ (forall r k, r ∈ others -> cr_RCode r = cr_RCode base ->
        lacks (cr_Answer base) (cr_Answer r) k \/ lacks (cr_Answer r) (cr_Answer base) k ->
        exists x, x ∈ cd_AnswerDiffs d /\ ad_Server x = cr_Server r
          /\ (forall k, k ∈ ad_Missing x <-> lacks (cr_Answer base) (cr_Answer r) k)
          /\ (forall k, k ∈ ad_Extra x <-> lacks (cr_Answer r) (cr_Answer base) k))
  /\ (forall x, x ∈ cd_TTLDiffs d <-> exists r, r ∈ others /\ cr_RCode r = cr_RCode base /\ td_Server x = cr_Server r
        /\ answerFingerprint (cr_Answer base) !! td_Record x = Some (td_Expected x)
        /\ answerFingerprint (cr_Answer r) !! td_Record x = Some (td_Actual x)
        /\ td_Actual x <> td_Expected x).
Proof.
  intros E. unfold buildCompareDiff. rewrite E, compare_all.
  cbn [cd_Available cd_BaseServer cd_BaseRCode cd_RCodeMismatches cd_AnswerDiffs cd_TTLDiffs app].
  ands; try done.
  - unfold same_answers. cbn [cd_RCodeMismatches cd_AnswerDiffs cd_TTLDiffs].
    rewrite !flat_map_nil, <- !Forall_and. apply Forall_iff. intros r. apply no_parts.
  - apply rcode_parts.
  - intros x (r & Hr & Hx)%elem_of_flat_map. apply answer_part_spec in Hx as (Hc & Hs & (k & Hk) & Hm & He).
    exists r, k. done.
  - apply answer_parts.
  - intros r k Hr Hc Hk. destruct (answer_part_complete base r k Hc Hk) as (x & Hx).
    exists x. split; [by apply elem_of_flat_map; exists r|].
    apply answer_part_spec in Hx as (_ & Hs & _ & Hm & He). done.
  - intros x. rewrite elem_of_flat_map. split.
    + intros (r & Hr & Hx). exists r. unfold ttl_part in Hx. bcase_in Hx; [|by apply elem_of_nil in Hx].
      apply bool_decide_eq_true in Hb. apply elem_of_ttl_diffs in Hx as (? & ? & ? & ?). done.
    + intros (r & Hr & Hc & Hx). exists r. split; [done|]. unfold ttl_part. rewrite bool_decide_eq_true_2 by done.
      by apply elem_of_ttl_diffs.
Qed.
End spec.

(** Three servers: the first fails, the other two give one record with
    different TTLs and one record that only the second has. *)
Definition sample_record (name : bytes) (ttl : Z) : ResourceRecord :=
  mkRR name TypeA ClassIN ttl (Some (AData (map byte_of_Z [192; 0; 2; 1]))) "".
Definition sample_result (server : bytes) (rrs : list ResourceRecord) : compareResult :=
  let m := mkMessage (mkHeader 0 true 0 false false true true 0 0 0 0 0 0) [] rrs [] [] in
  mkCompareResult server None "NOERROR" "insecure" (Some m) (Some m).
Definition sample_results : list compareResult :=
  [mkCompareResult "192.0.2.9" (Some (ExtText "EOF")) "" "" None None;
   sample_result "192.0.2.1" [sample_record "A.example." 60; sample_record "b.example." 60];
   sample_result "192.0.2.2" [sample_record "a.example." 30]].

Theorem buildCompareDiff_spec_witness :
  let U := latin1 in
  List.filter answered sample_results = tl sample_results
  /\ cd_Available (buildCompareDiff sample_results) = true
  /\ length (cd_AnswerDiffs (buildCompareDiff sample_results)) = 1%nat
  /\ length (cd_TTLDiffs (buildCompareDiff sample_results)) = 1%nat.
Proof.
  intros U. split; [reflexivity|]. split.
  - apply (buildCompareDiff_spec sample_results (sample_result "192.0.2.1"
      [sample_record "A.example." 60; sample_record "b.example." 60])
      [sample_result "192.0.2.2" [sample_record "a.example." 30]]). reflexivity.
  - vm_compute. split; reflexivity.
Defined.
