(* ===== verification/Api.v ===== *)
(** * internal/api/handlers.go, health.go: the handlers of the HTTP interface.

    A handler is a program of [Handler]: it runs on the resolver, the handler
    of packets and the world. *)

From S2P Require Import Prelude.
From S2P Require Import GoStrings.
From S2P Require Import GoTime.
From S2P Require Import GoFloat.
From S2P Require Import GoNet.
From S2P Require Import GoParse.
From S2P Require Import GoURL.
From S2P Require Import GoBase64.
From S2P Require Import GoJson.
From S2P Require Import Protocol.
From S2P Require Import Blocklist.
From S2P Require Import Cache.
From S2P Require Import Pipeline.
From S2P Require Import Hints.
From S2P Require Import RateLimits.
From S2P Require Import Settings.
From S2P Require Import Metrics.
From S2P Require Import Prometheus.
From S2P Require Import PromText.
From S2P Require Import Resolver.
From S2P Require Import Handler.
From S2P Require Import HandlerProps.
From S2P Require Import ApiCompare.

#[local] Open Scope go_scope.

(** ** Requests and responses *)

(** [rq_EscapedPath] is the path as it was sent, [rq_Header] has canonical names
    as keys, [rq_Body] is [None] when reading it fails. *)
Record request := mkRequest {
  rq_Method : bytes; rq_EscapedPath : bytes; rq_RawQuery : bytes;
  rq_Header : list (bytes * bytes); rq_Body : bytes + bytes; rq_RemoteAddr : bytes; rq_Host : bytes
}.

Definition URL_Path (r : request) : bytes := default (rq_EscapedPath r) (PathUnescape (rq_EscapedPath r)).
Definition Query_Get (r : request) (key : bytes) : bytes := Get_value (ParseQuery (rq_RawQuery r)) key.
Definition rq_Get (r : request) (name : bytes) : bytes := Header_Get (rq_Header r) name.

Record historyItem := mkHistoryItem {
  hi_entry : HistoryEntry; hi_ClientIP : bytes; hi_ClientHostname : bytes; hi_Type : bytes
}.
Record bulkItem := mkBulkItem { bi_Query : bytes; bi_RCode : bytes; bi_Error : bytes; bi_DurationMS : Z }.

(** A value given to the JSON encoder. *)
#[warnings="-register-all"] Inductive payload :=
| PString (s : bytes) | PInt (n : Z) | PBool (b : bool) | PFloat (f : float64) | PTime (t : Z)
| PAny (v : any)
| PMessage (m : option Message) | PEvents (l : list ResolutionEvent) | PSnapshot (s : MetricsSnapshot)
| PHistory (l : list historyItem) | PCompare (l : list compareResult) | PDiff (d : compareDiff)
| PBulk (l : list bulkItem) | PRootServers (l : list RootServer) | PUpstreams (l : list UpstreamStatus)
| PStrings (l : list bytes) | PBlocklistStats (s : BlocklistStats) | PCounts (m : gmap bytes Z)
| PBlockedIPs (l : list BlockedIP)
| PSettings (m : gmap bytes any) (blocklist : list bytes) (stats : BlocklistStats)
| PArray (l : list payload)
| PObject (l : list (bytes * payload)).

(** A body: JSON, bytes, what a handler of a library writes, or a websocket
    with the bytes that accept it and the channel it streams from. *)
Inductive body := JSON (v : payload) | Raw (b : bytes) | FileServer (path : bytes) | Profile (name : bytes)
| Upgraded (reply : bytes) (sub : option nat).

Record response := mkResponse { rs_Status : Z; rs_Header : list (bytes * bytes); rs_Body : body }.

Definition writeJSON (status : Z) (v : payload) : response :=
  mkResponse status [("Content-Type", "application/json")] (JSON v).
Definition writeError (status : Z) (text : bytes) : response :=
  writeJSON status (PObject [("error", PString text)]).
Definition NotFound : response :=
  mkResponse 404 [("Content-Type", "text/plain; charset=utf-8"); ("X-Content-Type-Options", "nosniff")]
    (Raw ("404 page not found" ++ ["010"%char])).

(** What the API was built with; a component left out is refused by the handlers
    that need it.  [dp_ControlPlaneToken] protects the control plane. *)
Record Deps := mkDeps {
  dp_Resolver : bool; dp_Cache : bool; dp_DNSHandler : bool; dp_Metrics : bool;
  dp_Prometheus : bool; dp_Logger : bool; dp_PPROFEnabled : bool; dp_ControlPlaneToken : bytes
}.

(** ** Small functions *)

Section functions.
Context {U : UnicodeTables}.

Definition parseQType (v : bytes) : Z :=
  let named :=
    let t := ToUpper (TrimSpace v) in
    if bool_decide (t = "AAAA") then TypeAAAA
    else if bool_decide (t = "MX") then TypeMX
    else if bool_decide (t = "NS") then TypeNS
    else if bool_decide (t = "TXT") then TypeTXT
    else if bool_decide (t = "PTR") then TypePTR
    else if bool_decide (t = "SRV") then TypeSRV
    else if bool_decide (t = "CAA") then TypeCAA
    else if bool_decide (t = "CNAME") then TypeCNAME
    else if bool_decide (t = "SOA") then TypeSOA
    else if bool_decide (t = "DS") then TypeDS
    else if bool_decide (t = "RRSIG") then TypeRRSIG
    else if bool_decide (t = "DNSKEY") then TypeDNSKEY
    else if bool_decide (t = "NSEC") then TypeNSEC
    else if bool_decide (t = "NSEC3") then TypeNSEC3
    else if bool_decide (t = "ANY") then TypeANY
    else TypeA in
  match Atoi (TrimSpace v) with
  | Some n => if (0 <? n) && (n <=? 65535) then n else named
  | None => named
  end.
Definition hexDigit (v : Z) : byte := hex_digit (Z.land v 0x0f).

(** [ip.To16()] *)
Definition ip_To16 (ip : bytes) : option bytes :=
  if len ip =? 4 then Some (v4_in_v6 ++ ip) else if len ip =? 16 then Some ip else None.

Definition reverseNameFromIP (ip : bytes) : option bytes :=
  match ip_To4 ip with
  | Some v4 => Some (Join (map (fun c => itoa (Z_of_byte c)) (rev v4)) "." ++ ".in-addr.arpa.")
  | None =>
      match ip_To16 ip with
      | Some v6 =>
          Some (flat_map (fun c => [hexDigit (Z_of_byte c); "."%char;
                                    hexDigit (Z.shiftr (Z_of_byte c) 4); "."%char]) (rev v6)
                ++ "ip6.arpa.")
      | None => None
      end
  end.

(** The last event with a message. *)
Definition lastParsedMessage (events : list ResolutionEvent) : option Message :=
  last (omap ev_ParsedMsg events).

(** Lines and commas separate the queries. *)
Definition splitBulkQueries (v : bytes) : list bytes :=
  List.filter (fun l => negb (bool_decide (l = "")))
    (map TrimSpace (Split (map (fun c => if bool_decide (c = ","%char) then "010"%char else c) v) "010")).

(** ** encoding/csv *)

Definition needs_quotes (field : bytes) : bool :=
  if bool_decide (field = "") then false
  else if bool_decide (field = "\.") then true
  else existsb (fun c => bool_decide (c ∈ [","%char; "034"%char; "013"%char; "010"%char])) field
       || IsSpace (DecodeRune field).1.

Definition csv_field (field : bytes) : bytes :=
  if needs_quotes field
  then ["034"%char] ++ flat_map (fun c => if bool_decide (c = "034"%char) then [c; c] else [c]) field ++ ["034"%char]
  else field.
Definition csv_line (fields : list bytes) : bytes := Join (map csv_field fields) "," ++ ["010"%char].

(** ** Programs *)

(** The line logged after a request. *)
Record http_log := mkHttpLog {
  hl_ctx : context; hl_method : bytes; hl_path : bytes; hl_remote : bytes; hl_duration_ms : Z
}.

(** The rest of the world: the address of a client, the Go runtime, the readiness
    check, and [site_order c n], the order in which [n] goroutines end when [c]
    of them run at a time. *)
Class Site (W : Type) := {
  #[global] site_surroundings :: Surroundings W;
  #[global] site_dialer :: Dialer W;
  site_resolveTCPAddr : bytes -> W -> option net_addr * W;
  site_order : Z -> nat -> W -> list nat * W;
  site_order_perm : forall c n w, (site_order c n w).1 ≡ₚ seq 0 n;
  site_runtime : W -> runtime_report;
  site_ready : W -> bool;
  site_log : http_log -> W -> W
}.

Context {W : Type} {T : Site W}.

Abbreviation program A := (prog (Handler * W) A) (only parsing).

(** [m] with its error as a value. *)
Definition attempt {A} (m : program A) : program (bytes + A) := fun s =>
  match m s with
  | (Ok a, s) => (Ok (inr a), s)
  | (Err e, s) => (Ok (inl e), s)
  | (Panic, s) => (Panic, s)
  | (Fuel, s) => (Fuel, s)
  end.

(** A step of the world alone. *)
Definition outside {A} (f : W -> A * W) : program A := fun '(r, (h, w)) =>
  let '(a, w) := f w in (Ok a, (r, (h, w))).
Definition of_result {A} (x : result bytes A) : program A := fun s => (x, s).
Definition panic {A} : program A := fun s => (Panic, s).

(** A goroutine that a handler starts and waits for.  Nothing recovers its panic:
    the process ends, and the handler does not return ([Fuel]), whereas net/http
    recovers the panic of a handler. *)
Definition goroutine {A} (m : program A) : program A := fun s =>
  match m s with
  | (Panic, s) => (Fuel, s)
  | x => x
  end.

(** The guards at the start of a handler. *)
Definition guard (ok : bool) (refusal : response) (k : program response) : program response :=
  if ok then k else mret refusal.
Definition method_is (r : request) (m : bytes) : program response -> program response :=
  guard (bool_decide (rq_Method r = m)) (writeError 405 "method not allowed").
Definition needs (present : bool) (what : bytes) : program response -> program response :=
  guard present (writeError 503 (what ++ " unavailable")).

(** ** health.go *)

Definition live : response := writeJSON 200 (PObject [("status", PString "alive")]).
Definition ready : program response := fun '(r, (h, w)) =>
  (Ok (if site_ready w then writeJSON 200 (PObject [("status", PString "ready")])
       else writeJSON 503 (PObject [("status", PString "not_ready")])), (r, (h, w))).

(** ** Resolving *)

(** [res.Message.Header] of a result without a message panics. *)
Definition message_of (res : ResolveResult) : program Message :=
  match rr_Message res with Some m => mret m | None => panic end.

Definition Milliseconds (d : Z) : Z := Z.quot d Millisecond.

Definition resolve_handler (dp : Deps) (r : request) : program response :=
  method_is r "GET" (
  let q := TrimSpace (Query_Get r "q") in
  guard (negb (bool_decide (q = ""))) (writeError 400 "missing q") (
  needs (dp_Resolver dp) "resolver" (
  let qtype := parseQType (Query_Get r "type") in
  res ← attempt (Resolve q qtype);
  match res with
  | inl err => mret (writeError 502 err)
  | inr res =>
      m ← message_of res;
      let payload := [("query", PString q); ("query_type", PString (TypeToString qtype));
        ("query_id", PString (rr_QueryID res)); ("rcode", PString (RCodeToString (h_RCode (m_Header m))));
        ("cached", PBool (rr_Cached res)); ("stale", PBool (rr_Stale res));
        ("stale_on_error", PBool (rr_StaleOnError res)); ("dnssec_status", PString (rr_DNSSECStatus res));
        ("duration_ms", PInt (Milliseconds (rr_Duration res))); ("steps", PInt (len (rr_Events res)));
        ("blocked", PBool (rr_Blocked res)); ("message", PMessage (Some m))] in
      let stale := (if rr_Stale res then [("X-DNS-Stale", "true")] else [])
                   ++ (if rr_StaleOnError res then [("X-DNS-Stale-On-Error", "true")] else []) in
      let trace := Query_Get r "trace" in
      let events := if bool_decide (trace = "1") || EqualFold trace "true"
                    then [("trace", PEvents (rr_Events res))] else [] in
      let out := writeJSON 200 (PObject (payload ++ events)) in
      mret (mkResponse (rs_Status out) (map (fun kv => (CanonicalMIMEHeaderKey kv.1, kv.2)) stale ++ rs_Header out)
              (rs_Body out))
  end))).

Definition reverseLookup (dp : Deps) (r : request) : program response :=
  method_is r "GET" (
  let ipText := TrimSpace (Query_Get r "ip") in
  guard (negb (bool_decide (ipText = ""))) (writeError 400 "missing ip") (
  match ParseIP ipText with
  | None => mret (writeError 400 "invalid ip")
  | Some ip =>
      needs (dp_Resolver dp) "resolver" (
      match reverseNameFromIP ip with
      | None => mret (writeError 400 "unsupported ip")
      | Some ptrName =>
          res ← attempt (Resolve ptrName TypePTR);
          match res with
          | inl err => mret (writeError 502 err)
          | inr res =>
              mret (writeJSON 200 (PObject [("ip", PString ipText); ("reverse_name", PString ptrName);
                ("query_id", PString (rr_QueryID res)); ("cached", PBool (rr_Cached res));
                ("stale", PBool (rr_Stale res)); ("stale_on_error", PBool (rr_StaleOnError res));
                ("dnssec_status", PString (rr_DNSSECStatus res));
                ("duration_ms", PInt (Milliseconds (rr_Duration res))); ("message", PMessage (rr_Message res))]))
          end
      end)
  end)).

(** ** The cache *)

Definition cache_item (now : Z) (item : ListItem) : payload :=
  let parts := Split (li_Key item) "|" in
  let recordType := if len parts =? 2 then default "" (parts !! 1%nat) else "" in
  let ttlRemaining := f_to_int (Seconds (time_Sub (li_ExpiresAt item) now)) in
  let ttlRemaining := if ttlRemaining <? 0 then 0 else ttlRemaining in
  let stale := (li_ExpiresAt item <? now) && (now <? li_StaleUntil item) in
  PObject [("key", PString (li_Key item)); ("type", PString recordType);
    ("expires_at", PTime (li_ExpiresAt item)); ("stale_until", PTime (li_StaleUntil item));
    ("hits", PInt (li_Hits item)); ("ttl", PInt (li_TTL item)); ("ttl_remaining", PInt ttlRemaining);
    ("stale", PBool stale)].

(** A call of the cache that starts no prefetch. *)
Definition on_cache {A} (f : Z -> Cache -> A * Cache) : program A :=
  t ← now;
  act (fun '(r, hw) => let '(a, c) := f t (r_cache r) in (Ok a, (with_cache r c, hw))).

Definition cache_handler (dp : Deps) (r : request) : program response :=
  needs (dp_Cache dp) "cache" (
  if bool_decide (rq_Method r = "GET") then
    let page := Atoi_value (Query_Get r "page") in
    let limit := Atoi_value (Query_Get r "limit") in
    rawItems ← on_cache (fun t c => (List_ t page limit c, c));
    t ← now;
    mret (writeJSON 200 (PObject [("entries", PArray (map (cache_item t) rawItems))]))
  else if bool_decide (rq_Method r = "DELETE") then
    on_cache (fun t c => (tt, Flush t c));;
    mret (writeJSON 200 (PObject [("status", PString "flushed")]))
  else mret (writeError 405 "method not allowed")).

Definition cacheKey_handler (dp : Deps) (r : request) : program response :=
  needs (dp_Cache dp) "cache" (
  method_is r "DELETE" (
  let key := TrimPrefix (URL_Path r) "/api/v1/cache/" in
  guard (negb (bool_decide (key = ""))) (writeError 400 "missing key") (
  on_cache (fun t c => (tt, Delete t key c));;
  mret (writeJSON 200 (PObject [("status", PString "evicted"); ("key", PString key)]))))).

Definition cacheStats (dp : Deps) (r : request) : program response :=
  needs (dp_Cache dp) "cache" (
  method_is r "GET" (
  stats ← on_cache (fun t c => (Stats_ t c, c));
  let total := u64 (st_Hits stats + st_Misses stats) in
  let hitRate := if 0 <? total then f_div (f_of_int (st_Hits stats)) (f_of_int total) else f_of_int 0 in
  mret (writeJSON 200 (PObject [("hits", PInt (st_Hits stats)); ("misses", PInt (st_Misses stats));
    ("stale_hits", PInt (st_StaleHits stats)); ("evictions", PInt (st_Evictions stats));
    ("expirations", PInt (st_Expirations stats)); ("prefetches", PInt (st_Prefetches stats));
    ("entries", PInt (st_Entries stats)); ("positive_entries", PInt (st_PositiveEntries stats));
    ("stale_entries", PInt (st_StaleEntries stats)); ("negative_entries", PInt (st_NegativeEntries stats));
    ("memory_bytes", PInt (st_MemoryBytes stats)); ("updated_at", PTime (st_UpdatedAt stats));
    ("hit_rate", PFloat hitRate); ("stale", PInt (st_StaleEntries stats))])))).

(** ** Metrics *)

Definition metrics_handler (dp : Deps) (r : request) : program response :=
  needs (dp_Metrics dp) "metrics" (
  method_is r "GET" (
  t ← now;
  h ← hget;
  rt ← outside (fun w => (site_runtime w, w));
  mret (writeJSON 200 (PSnapshot (Snapshot_ t rt (hd_metrics h)))))).

(** The page does not depend on the order of the ranges ([prom_lines_perm]), so
    one is chosen; metrics that the DNS handler does not know are never
    written. *)
Definition prometheus_handler (dp : Deps) : program response :=
  guard (dp_Prometheus dp) NotFound (
  h ← hget;
  let p := default NewPrometheus (hd_prom h) in
  mret (mkResponse 200 [("Content-Type", "text/plain; version=0.0.4")] (Raw (prom_page (ranges_of p) p)))).

(** ** History *)

Definition history_item (dp : Deps) (item : HistoryEntry) : program historyItem :=
  h ← hget;
  match (if dp_DNSHandler dp then ClientIPForQuery (he_QueryID item) h else None) with
  | Some ip =>
      host ← ReverseHostname ip;
      mret (mkHistoryItem item ip host (he_QType item))
  | None => mret (mkHistoryItem item "" "" (he_QType item))
  end.

Fixpoint history_items (dp : Deps) (items : list HistoryEntry) : program (list historyItem) :=
  match items with
  | [] => mret []
  | item :: rest => x ← history_item dp item; xs ← history_items dp rest; mret (x :: xs)
  end.

Definition history (dp : Deps) (r : request) : program response :=
  needs (dp_Resolver dp) "resolver" (
  method_is r "GET" (
  let page := Atoi_value (Query_Get r "page") in
  let limit := Atoi_value (Query_Get r "limit") in
  res ← get;
  items ← of_result (History page limit res);
  out ← history_items dp items;
  mret (writeJSON 200 (PObject [("items", PHistory out); ("queries", PHistory out)])))).

Definition historyReplay (dp : Deps) (r : request) (id : bytes) : program response :=
  method_is r "GET" (
  res ← get;
  let events := Trace id res in
  match last events with
  | None => mret (writeError 404 "history trace not found")
  | Some seed =>
      if bool_decide (TrimSpace (ev_Query seed) = "") then mret (writeError 400 "history trace missing query") else
      let qtype := parseQType (ev_QueryType seed) in
      replayed ← attempt (Resolve (ev_Query seed) qtype);
      match replayed with
      | inl err => mret (writeError 502 err)
      | inr replayed =>
          m ← message_of replayed;
          let prev := lastParsedMessage events in
          let rcode := RCodeToString (h_RCode (m_Header m)) in
          let diff :=
            match prev with
            | Some p =>
                buildCompareDiff
                  [mkCompareResult "history" None (RCodeToString (h_RCode (m_Header p)))
                     (compareDNSSECStatus prev) None prev;
                   mkCompareResult "replay" None rcode (rr_DNSSECStatus replayed) (Some m) (Some m)]
            | None => no_diff
            end in
          mret (writeJSON 200 (PObject [("history_id", PString id); ("query", PString (ev_Query seed));
            ("query_type", PString (ev_QueryType seed));
            ("original", PObject [("query", PString (ev_Query seed)); ("type", PString (ev_QueryType seed))]);
            ("previous_message", PMessage prev);
            ("replay", PObject [("query", PString (ev_Query seed)); ("query_type", PString (ev_QueryType seed));
               ("query_id", PString (rr_QueryID replayed)); ("rcode", PString rcode);
               ("dnssec_status", PString (rr_DNSSECStatus replayed)); ("cached", PBool (rr_Cached replayed));
               ("stale", PBool (rr_Stale replayed)); ("stale_on_error", PBool (rr_StaleOnError replayed));
               ("duration_ms", PInt (Milliseconds (rr_Duration replayed)));
               ("steps", PInt (len (rr_Events replayed))); ("message", PMessage (Some m))]);
            ("diff", PDiff diff)]))
      end
  end).

Definition history_entry_fields (e : HistoryEntry) : list (bytes * payload) :=
  [("query_id", PString (he_QueryID e)); ("query", PString (he_Domain e)); ("domain", PString (he_Domain e));
   ("query_type", PString (he_QType e)); ("type", PString (he_QType e)); ("rcode", PString (he_RCode e));
   ("duration_ms", PInt (he_Duration e)); ("cached", PBool (he_Cached e)); ("stale", PBool (he_Stale e))].

Definition historyByID (dp : Deps) (r : request) : program response :=
  needs (dp_Resolver dp) "resolver" (
  method_is r "GET" (
  let raw := TrimPrefix (URL_Path r) "/api/v1/history/" in
  guard (negb (bool_decide (raw = ""))) (writeError 400 "missing id") (
  if HasSuffix raw "/replay" then
    let id := TrimSuffix (TrimSuffix raw "/replay") "/" in
    guard (negb (bool_decide (id = ""))) (writeError 400 "missing id") (historyReplay dp r id)
  else
    let id := TrimSuffix raw "/" in
    res ← get;
    let trace := Trace id res in
    let entry := HistoryEntry_ id res in
    if (len trace =? 0) && negb (bool_decide (is_Some entry)) then mret (writeError 404 "history entry not found")
    else
      mret (writeJSON 200 (PObject ([("events", PEvents trace); ("trace", PEvents trace)]
        ++ match entry with Some e => history_entry_fields e | None => [] end)))))).

(** ** Comparing servers *)

(** The goroutines share nothing but the network, so their order is that of the
    servers. *)
Fixpoint compare_servers (servers : list bytes) (q : bytes) (qtype : Z) : program (list compareResult) :=
  match servers with
  | [] => mret []
  | s :: rest =>
      x ← goroutine (act (fun '(r, (h, w)) => let '(x, w) := compare_server q qtype s w in (x, (r, (h, w)))));
      xs ← compare_servers rest q qtype;
      mret (x :: xs)
  end.

Definition compare (r : request) : program response :=
  method_is r "GET" (
  let q := TrimSpace (Query_Get r "q") in
  guard (negb (bool_decide (q = ""))) (writeError 400 "missing q") (
  let qtype := parseQType (Query_Get r "type") in
  let param := TrimSpace (Query_Get r "servers") in
  let param := if bool_decide (param = "") then TrimSpace (Query_Get r "server") else param in
  let param := if bool_decide (param = "") then "1.1.1.1,8.8.8.8,9.9.9.9,208.67.222.222" else param in
  let servers := normalizeServers (splitCSV param) in
  guard (negb (len servers =? 0)) (writeError 400 "no valid servers") (
  let limited := maxCompareServers <? len servers in
  out ← compare_servers (if limited then take (Z.to_nat maxCompareServers) servers else servers) q qtype;
  mret (writeJSON 200 (PObject [("results", PCompare out); ("diff", PDiff (buildCompareDiff out));
    ("server_limit_applied", PBool limited)]))))).

(** ** Many queries *)

Definition maxBulkQueries : Z := 100.
Definition maxBulkConcurrency : Z := 20.

Definition bulk_concurrency (asked queries : Z) : Z :=
  let c := if asked <=? 0 then 10 else asked in
  let c := if maxBulkConcurrency <? c then maxBulkConcurrency else c in
  if (queries <? c) && (0 <? queries) then queries else c.

(** One goroutine. *)
Definition bulk_item (qtype : Z) (q : bytes) : program bulkItem :=
  start ← now;
  res ← attempt (Resolve q qtype);
  match res with
  | inl err => t ← now; mret (mkBulkItem q "" err (Milliseconds (time_Sub t start)))
  | inr res =>
      m ← message_of res;
      t ← now;
      mret (mkBulkItem q (RCodeToString (h_RCode (m_Header m))) "" (Milliseconds (time_Sub t start)))
  end.

(** The goroutines, in the order in which they end: each writes its own slot. A
    number that is no position of the list names no goroutine. *)
Fixpoint bulk_run (order : list nat) (queries : list bytes) (qtype : Z) (results : list bulkItem)
  : program (list bulkItem) :=
  match order with
  | [] => mret results
  | i :: rest =>
      match queries !! i with
      | Some q => x ← goroutine (bulk_item qtype q); bulk_run rest queries qtype (<[i := x]> results)
      | None => bulk_run rest queries qtype results
      end
  end.

Definition bulk (dp : Deps) (r : request) : program response :=
  method_is r "GET" (
  needs (dp_Resolver dp) "resolver" (
  let queriesParam := TrimSpace (Query_Get r "queries") in
  guard (negb (bool_decide (queriesParam = ""))) (writeError 400 "missing queries") (
  let queries := splitBulkQueries queriesParam in
  let queries := if maxBulkQueries <? len queries then take (Z.to_nat maxBulkQueries) queries else queries in
  let qtype := parseQType (Query_Get r "type") in
  let concurrency := bulk_concurrency (Atoi_value (Query_Get r "concurrency")) (len queries) in
  order ← outside (site_order concurrency (length queries));
  results ← bulk_run order queries qtype (repeat (mkBulkItem "" "" "" 0) (length queries));
  if EqualFold (TrimSpace (Query_Get r "format")) "csv" then
    mret (mkResponse 200 [("Content-Type", "text/csv; charset=utf-8");
        ("Content-Disposition", "attachment; filename=" ++ ["034"%char] ++ "bulk-results.csv" ++ ["034"%char])]
      (Raw (csv_line ["query"; "rcode"; "error"; "duration_ms"]
            ++ flat_map (fun x => csv_line [bi_Query x; bi_RCode x; bi_Error x; json_int (bi_DurationMS x)]) results)))
  else mret (writeJSON 200 (PObject [("results", PBulk results)]))))).

(** ** Servers, settings and security *)

Definition rootservers (dp : Deps) (r : request) : program response :=
  method_is r "GET" (
  needs (dp_Resolver dp) "resolver" (
  servers ← act (fun '(res, hw) => let '(a, res) := RootServers res in (Ok a, (res, hw)));
  upstreams ← act (fun '(res, hw) => let '(a, res) := UpstreamStatuses res in (Ok a, (res, hw)));
  mret (writeJSON 200 (PObject [("servers", PRootServers servers); ("upstreams", PUpstreams upstreams);
    ("count", PInt (len servers))])))).

(** The settings of the API itself: [RuntimeSettings] of router.go. *)
Abbreviation RuntimeSettings := (gmap bytes any) (only parsing).
Definition NewRuntimeSettings (initial : option RuntimeSettings) : RuntimeSettings := default ∅ initial.
Definition settings_Get (s : RuntimeSettings) : gmap bytes any := s.
Definition settings_Update (next : gmap bytes any) (s : RuntimeSettings) : RuntimeSettings := next ∪ s.

(** What a GET of the settings shows. *)
Definition show_settings (s : RuntimeSettings) : program response :=
  act (fun '(res, (h, w)) =>
    (Ok (writeJSON 200 (PSettings (Handler_RuntimeConfig res h ∪ settings_Get s) (BlocklistDomains res) (BlocklistStats_ res))),
     (res, (h, w)))).

(** The strings of an array, if there is nothing else in it. *)
Definition strings_of (l : list any) : option (list bytes) :=
  mapM (fun v => match v with VString s => Some s | _ => None end) l.

(** The blocklist of a posted value: its text, or why it is refused. *)
Definition posted_blocklist (m : gmap bytes any) : bytes + option bytes :=
  match m !! ("blocklist" : bytes) with
  | None => inr None
  | Some (VString s) => inr (Some s)
  | Some (VArray l) =>
      match strings_of l with
      | Some lines => inr (Some (Join lines ["010"%char]))
      | None => inl "blocklist array must contain only strings"
      end
  | Some _ => inl "blocklist must be a string or string array"
  end.

Definition post_settings (m : option (gmap bytes any)) (s : RuntimeSettings)
  : program (response * RuntimeSettings) :=
  match posted_blocklist (default ∅ m) with
  | inl err => mret (writeError 400 err, s)
  | inr raw =>
      match raw with Some text => ReplaceBlocklist text | None => mret tt end;;
      applied ← Handler_ApplyRuntimeSettings m;
      let s := settings_Update (applied ∪ default ∅ m) s in
      out ← show_settings s;
      mret (out, s)
  end.

Definition settings_handler (dp : Deps) (r : request) (s : RuntimeSettings)
  : program (response * RuntimeSettings) :=
  if negb (dp_Resolver dp && dp_DNSHandler dp) then mret (writeError 503 "runtime settings unavailable", s)
  else if bool_decide (rq_Method r = "GET") then out ← show_settings s; mret (out, s)
  else if bool_decide (rq_Method r = "POST") then
    match (match rq_Body r with inr b => DecodeMap b | inl _ => None end) with
    | Some m => post_settings m s
    | None => mret (writeError 400 "invalid json", s)
    end
  else mret (writeError 405 "method not allowed", s).

Definition count (m : gmap bytes Z) (key : bytes) : Z := default 0 (m !! key).

Definition securityStats (dp : Deps) (r : request) : program response :=
  method_is r "GET" (
  guard (dp_Resolver dp && dp_DNSHandler dp) (writeError 503 "security stats unavailable") (
  act (fun '(res, (h, w)) =>
    let resolverSec := SecurityStats res in
    let n := count resolverSec in
    let poisoningTotal :=
      u64 (n "poisoning_source_mismatch" + n "poisoning_id_mismatch" + n "poisoning_case_mismatch") in
    let runtimeCfg := Handler_RuntimeConfig res h in
    (Ok (writeJSON 200 (PObject [
      ("drops", PObject [("reasons", PCounts (Handler_SecurityStats h));
         ("rate_limit_total", PInt (RateLimiterDrops h)); ("rrl_total", PInt (RRLDrops h));
         ("blocklist_total", PInt (n "blocklist"))]);
      ("rate_limiter", PObject [("tracked_ips", PInt (RateLimiterTrackedIPs h));
         ("blocked_ips", PBlockedIPs (RateLimiterBlocked 100 h)); ("total_drops", PInt (RateLimiterDrops h))]);
      ("rrl", PObject [("enabled", PAny (setting runtimeCfg "rrl_enabled")); ("drops", PInt (RRLDrops h));
         ("tracked_tuples", PInt (RRLTrackedTuples h));
         ("limit_per_sec", PAny (setting runtimeCfg "rrl_responses_per_sec"));
         ("slip", PAny (setting runtimeCfg "rrl_slip"))]);
      ("poisoning_attempts", PObject [("total", PInt poisoningTotal);
         ("source_mismatch", PInt (n "poisoning_source_mismatch"));
         ("id_mismatch", PInt (n "poisoning_id_mismatch")); ("case_mismatch", PInt (n "poisoning_case_mismatch"))]);
      ("blocklist", PBlocklistStats (BlocklistStats_ res)); ("resolver_sec", PCounts resolverSec);
      ("blocklist_rules", PStrings (BlocklistDomains res));
      ("upstream_security", PObject [("bailiwick_rejected", PInt (n "bailiwick_rejected"))])])),
     (res, (h, w)))))).

(** ** DNS over HTTPS *)

Definition parseRemoteAddr (addr : bytes) : program net_addr :=
  a ← outside (site_resolveTCPAddr addr);
  mret (default (TCPAddr (v4_in_v6 ++ map byte_of_Z [0; 0; 0; 0])) a).

(** The packet of a request, or the refusal. *)
Definition doh_payload (r : request) : response + bytes :=
  if bool_decide (rq_Method r = "GET") then
    let enc := Query_Get r "dns" in
    if bool_decide (enc = "") then inl (writeError 400 "missing dns query parameter") else
    match RawURLDecodeString enc with
    | Some decoded => inr decoded
    | None => inl (writeError 400 "invalid base64 query")
    end
  else if bool_decide (rq_Method r = "POST") then
    if negb (Contains (rq_Get r "Content-Type") "application/dns-message")
    then inl (writeError 415 "content-type must be application/dns-message") else
    match rq_Body r with
    | inr b => inr (take (Z.to_nat 65535) b)
    | inl err => inl (writeError 400 err)
    end
  else inl (writeError 405 "method not allowed").

Definition doh_failed (err : bytes) : response := writeError 502 ("doh resolve failed: " ++ err).

Definition doh (dp : Deps) (ctx : context) (r : request) : program response :=
  match doh_payload r with
  | inl refusal => mret refusal
  | inr payload =>
      needs (dp_DNSHandler dp) "dns handler" (
      addr ← parseRemoteAddr (rq_RemoteAddr r);
      out ← attempt (HandlePacket ctx payload (Some addr) "doh");
      match out with
      | inl err => mret (doh_failed err)
      | inr (resp, drop) =>
          let resp := default "" resp in
          if drop || (len resp =? 0) then mret (doh_failed "<nil>")
          else mret (mkResponse 200 [("Content-Type", "application/dns-message")] (Raw resp))
      end)
  end.
End functions.

(** ** An example world

    Nobody answers on the network, and goroutines end in the order in which they
    start. *)
Definition quiet_site : Site unit.
Proof.
  refine {|
    site_surroundings := calm;
    site_dialer := {| d_udp ip out w := (inl ("i/o timeout" : bytes), w);
                      d_tcp ip out w := (inl ("i/o timeout" : bytes), w);
                      d_now w := (Hour, w) |};
    site_resolveTCPAddr addr w := (None, w);
    site_order c n w := (seq 0 n, w);
    site_runtime w := mkRuntimeReport None None None 1;
    site_ready w := true;
    site_log e w := w |}.
  done.
Defined.

Definition lab_deps (token : bytes) : Deps := mkDeps true true true true true true false token.
