(* ===== verification/Websocket.v ===== *)
(** * internal/api/websocket.go: the handshake, the frames and the loops of a
    websocket.

    A connection is that of [Server]: what the client sends until it stops or a
    deadline passes, what was written, and how many more writes succeed. *)

From S2P Require Import Prelude.
From S2P Require Import GoStrings.
From S2P Require Import GoBase64.
From S2P Require Import GoSha1.
From S2P Require Import Server.
From S2P Require Import Api.

#[local] Open Scope go_scope.

(** ** Frames *)

Definition frame_header (opcode n : Z) : bytes :=
  [byte_of_Z (Z.lor 0x80 opcode)] ++
  (if n <=? 125 then [byte_of_Z n]
   else if n <=? 65535 then [byte_of_Z 126; byte_of_Z (Z.shiftr n 8); byte_of_Z n]
   else map byte_of_Z [127; Z.shiftr n 56; Z.shiftr n 48; Z.shiftr n 40; Z.shiftr n 32;
                       Z.shiftr n 24; Z.shiftr n 16; Z.shiftr n 8; n]).

(** The two writes of [writeFrame]; false when one fails. *)
Definition writeFrame (opcode : Z) (payload : bytes) (c : conn) : bool * conn :=
  let '(ok, c) := Write (frame_header opcode (len payload)) c in
  if ok then Write payload c else (false, c).

Definition WritePing : conn -> bool * conn := writeFrame 0x9 "".
(** [WriteJSON] of a value with this text. *)
Definition WriteJSON (text : option bytes) (c : conn) : bool * conn :=
  match text with
  | Some payload => writeFrame 0x1 payload c
  | None => (false, c)
  end.

(** ** The frames of the client *)

(** The loop over the payload: byte [i] with byte [i mod 4] of the key. *)
Fixpoint mask_loop (key : bytes) (i : nat) (payload : bytes) : bytes :=
  match payload with
  | [] => []
  | b :: k =>
      byte_of_Z (Z.lxor (Z_of_byte b) (Z_of_byte (default "000"%char (key !! (i mod 4)%nat))))
      :: mask_loop key (S i) k
  end.

Record client_frame := mkFrame { fr_opcode : Z; fr_payload : bytes }.

(** A frame of at most 125 bytes, unmasked; [None] ends the loop. *)
Definition read_control (c : conn) : option client_frame * conn :=
  match ReadFull 2 c with
  | (Some [b0; b1], c) =>
      let fin := negb (Z.land (Z_of_byte b0) 0x80 =? 0) in
      let opcode := Z.land (Z_of_byte b0) 0x0f in
      let masked := negb (Z.land (Z_of_byte b1) 0x80 =? 0) in
      let payloadLen := Z.land (Z_of_byte b1) 0x7f in
      if negb fin then (None, c) else
      if (payloadLen =? 126) || (payloadLen =? 127) || (125 <? payloadLen) then (None, c) else
      let '(key, c) := if masked then ReadFull 4 c else (Some [], c) in
      match key with
      | None => (None, c)
      | Some key =>
          if 0 <? payloadLen then
            match ReadFull payloadLen c with
            | (Some payload, c) =>
                (Some (mkFrame opcode (if masked then mask_loop key 0 payload else payload)), c)
            | (None, c) => (None, c)
            end
          else (Some (mkFrame opcode ""), c)
      end
  | (_, c) => (None, c)
  end.

(** [drainWebSocketControl]; [done i] tells whether the context is done after
    the [i]-th frame.  The connection is closed at the end. *)
Fixpoint drain_loop (fuel : nat) (done : nat -> bool) (i : nat) (c : conn) : option conn :=
  match fuel with
  | O => None
  | S fuel' =>
      match read_control c with
      | (None, c) => Some c
      | (Some f, c) =>
          if fr_opcode f =? 0x8 then Some (writeFrame 0x8 (fr_payload f) c).2
          else if fr_opcode f =? 0x9 then
            let '(ok, c) := writeFrame 0xA (fr_payload f) c in
            if negb ok || done i then Some c else drain_loop fuel' done (S i) c
          else if fr_opcode f =? 0xA then drain_loop fuel' done (S i) c
          else Some c
      end
  end.

(** Every frame takes at least two bytes. *)
Definition drainWebSocketControl (done : nat -> bool) (c : conn) : option conn :=
  drain_loop (S (length (c_in c))) done 0 c.

(** ** The streams

    What a streaming loop wakes up for: a value to send, with its JSON text, a
    tick of the ping timer, the end of the context. *)
Inductive wakeup := Value (text : option bytes) | Tick | Done.

Fixpoint stream_loop (wakes : list wakeup) (c : conn) : conn :=
  match wakes with
  | [] | Done :: _ => c
  | Value text :: rest => let '(ok, c) := WriteJSON text c in if ok then stream_loop rest c else c
  | Tick :: rest => let '(ok, c) := WritePing c in if ok then stream_loop rest c else c
  end.

(** ** The handshake *)

Definition websocketAccept (key : bytes) : bytes :=
  StdEncodeToString (Sum (key ++ "258EAFA5-E914-47DA-95CA-C5AB0DC85B11")).

Example websocketAccept_rfc6455 :
  websocketAccept "dGhlIHNhbXBsZSBub25jZQ==" = "s3pPLMBiTxaQ9kYGzzhZRbK+xOo=".
Proof. by vm_compute. Qed.

Section handshake.
(** [url_host origin]: the host of a URL, [None] when it does not parse. *)
Context {U : UnicodeTables} (url_host : bytes -> option bytes).

Definition validateWebSocketOrigin (r : request) : option bytes :=
  let origin := TrimSpace (rq_Get r "Origin") in
  if bool_decide (origin = "") then None else
  match url_host origin with
  | None => Some "invalid websocket origin"
  | Some host => if EqualFold host (rq_Host r) then None else Some "forbidden websocket origin"
  end.

Definition crlf : bytes := ["013"%char; "010"%char].
Definition switching (key : bytes) : bytes :=
  "HTTP/1.1 101 Switching Protocols" ++ crlf ++ "Upgrade: websocket" ++ crlf ++
  "Connection: Upgrade" ++ crlf ++ "Sec-WebSocket-Accept: " ++ websocketAccept key ++ crlf ++ crlf.

(** The error, or the bytes that accept the upgrade. *)
Definition acceptWebSocket (r : request) : bytes + bytes :=
  if negb (bool_decide (rq_Method r = "GET")) then inl "method not allowed" else
  if negb (Contains (ToLower (rq_Get r "Connection")) "upgrade")
     || negb (EqualFold (rq_Get r "Upgrade") "websocket") then inl "not a websocket upgrade" else
  if negb (bool_decide (rq_Get r "Sec-WebSocket-Version" = "13")) then inl "unsupported websocket version" else
  match validateWebSocketOrigin r with
  | Some err => inl err
  | None =>
      let key := TrimSpace (rq_Get r "Sec-WebSocket-Key") in
      if bool_decide (key = "") then inl "missing websocket key" else inr (switching key)
  end.
End handshake.

(** ** Reading frames back

    [parse_frame] reads an unmasked frame as RFC 6455 defines it: its final bit,
    opcode and payload, and what follows. *)

Definition be_value (s : bytes) : Z := foldl (fun n b => 256 * n + Z_of_byte b) 0 s.

Definition parse_frame (s : bytes) : option (bool * client_frame * bytes) :=
  match s with
  | b0 :: b1 :: k =>
      let fin := Z.testbit (Z_of_byte b0) 7 in
      let opcode := Z_of_byte b0 mod 16 in
      let l := Z_of_byte b1 mod 128 in
      let '(n, k) :=
        if l <=? 125 then (l, k)
        else if l =? 126 then (be_value (take 2 k), drop 2 k)
        else (be_value (take 8 k), drop 8 k) in
      if Z.testbit (Z_of_byte b1) 7 || (len k <? n) then None
      else Some (fin, mkFrame opcode (take (Z.to_nat n) k), drop (Z.to_nat n) k)
  | _ => None
  end.

Lemma frame_opcode opcode : 0 <= opcode < 16 ->
  Z_of_byte (byte_of_Z (Z.lor 0x80 opcode)) = 128 + opcode.
Proof.
  intros H. rewrite Z_of_byte_of_Z, Z.lor_comm.
  change (Z.lor opcode 0x80) with (Z.lor opcode (Z.shiftl 1 7)).
  rewrite lor_shift_add by lia. change (1 * 2 ^ 7) with 128. dlia.
Qed.

Lemma be_value2 n : 0 <= n < 2 ^ 16 -> be_value [byte_of_Z (Z.shiftr n 8); byte_of_Z n] = n.
Proof.
  intros H. unfold be_value. cbn [foldl]. rewrite !Z_of_byte_of_Z, Z.shiftr_div_pow2 by lia.
  change (2 ^ 16) with 65536 in H. change (2 ^ 8) with 256. dlia.
Qed.

Lemma be_value8 n : 0 <= n < 2 ^ 63 ->
  be_value (map byte_of_Z [Z.shiftr n 56; Z.shiftr n 48; Z.shiftr n 40; Z.shiftr n 32;
                           Z.shiftr n 24; Z.shiftr n 16; Z.shiftr n 8; n]) = n.
Proof.
  intros H. unfold be_value. cbn [map foldl]. rewrite !Z_of_byte_of_Z, !Z.shiftr_div_pow2 by lia.
  change (2 ^ 56) with (256 * 256 * 256 * 256 * 256 * 256 * 256).
  change (2 ^ 48) with (256 * 256 * 256 * 256 * 256 * 256). change (2 ^ 40) with (256 * 256 * 256 * 256 * 256).
  change (2 ^ 32) with (256 * 256 * 256 * 256). change (2 ^ 24) with (256 * 256 * 256).
  change (2 ^ 16) with (256 * 256). change (2 ^ 8) with 256. rewrite <- !Z.div_div by lia.
  set (a := n / 256). set (b := a / 256). set (c := b / 256). set (d := c / 256).
  set (e := d / 256). set (f := e / 256). set (g := f / 256).
  pose proof (Z.div_mod n 256). pose proof (Z.div_mod a 256). pose proof (Z.div_mod b 256).
  pose proof (Z.div_mod c 256). pose proof (Z.div_mod d 256). pose proof (Z.div_mod e 256).
  pose proof (Z.div_mod f 256).
  assert (0 <= g < 128) as Hg.
  { subst a b c d e f g. rewrite !Z.div_div by lia. split; [by apply Z.div_pos; lia|].
    apply Z.div_lt_upper_bound; lia. }
  rewrite (Z.mod_small g) by lia. subst a b c d e f g. lia.
Qed.

Definition ws_frame (f : client_frame) : bytes := frame_header (fr_opcode f) (len (fr_payload f)) ++ fr_payload f.

Lemma byte_bits n : 0 <= n < 128 -> Z.testbit (Z_of_byte (byte_of_Z n)) 7 = false.
Proof.
  intros H. rewrite Z_of_byte_of_Z, Z.mod_small by lia. apply (testbit_above n 7); lia.
Qed.

Lemma testbit_high n : 0 <= n < 128 -> Z.testbit (128 + n) 7 = true.
Proof.
  intros H. replace (128 + n) with (n + 1 * 2 ^ 7) by lia.
  rewrite <- lor_shift_add by lia. rewrite Z.lor_spec, (testbit_above n 7) by lia. done.
Qed.

Lemma parse_ws_frame f rest : 0 <= fr_opcode f < 16 -> len (fr_payload f) < 2 ^ 63 ->
  parse_frame (ws_frame f ++ rest) = Some (true, f, rest).
Proof.
  destruct f as [op p]. cbn [fr_opcode fr_payload]. intros Hop Hp. pose proof (len_nonneg p) as Hp0.
  unfold ws_frame, frame_header. cbn [fr_opcode fr_payload].
  assert (forall l n k, 0 <= l < 128 -> n = len p ->
    (if l <=? 125 then (l, k) else if l =? 126 then (be_value (take 2 k), drop 2 k)
     else (be_value (take 8 k), drop 8 k)) = (n, p ++ rest) ->
    parse_frame (byte_of_Z (Z.lor 0x80 op) :: byte_of_Z l :: k) = Some (true, mkFrame op p, rest)) as G.
  { intros l n k Hl -> E. unfold parse_frame. rewrite frame_opcode by done.
    rewrite (testbit_high op) by lia. rewrite byte_bits by lia.
    rewrite (Z_of_byte_of_Z l), (Z.mod_small l 256), (Z.mod_small l 128), E by lia.
    rewrite len_app. bcase; [pose proof (len_nonneg rest); cbn in Hb; lia|].
    rewrite to_nat_len, take_app_length, drop_app_length.
    by replace ((128 + op) mod 16) with op by dlia. }
  repeat bcase; cbn [app map].
  - apply (G _ (len p)); [lia|done|]. bcase; [done|lia].
  - apply (G _ (len p)); [lia|done|]. cbn [Z.leb Z.eqb Z.compare Pos.compare Pos.compare_cont Pos.eqb take drop].
    f_equal. apply be_value2. lia.
  - apply (G _ (len p)); [lia|done|]. cbn [Z.leb Z.eqb Z.compare Pos.compare Pos.compare_cont Pos.eqb take drop].
    f_equal. apply (be_value8 (len p)). lia.
Qed.

(** ** The drain loop *)

(** A frame as a client sends it, masked with [key]. *)
Definition client_bytes (key : bytes) (f : client_frame) : bytes :=
  [byte_of_Z (Z.lor 0x80 (fr_opcode f)); byte_of_Z (Z.lor 0x80 (len (fr_payload f)))]
  ++ key ++ mask_loop key 0 (fr_payload f).

(** What the frames of a client are answered with. *)
Fixpoint ws_replies (fs : list client_frame) : list client_frame :=
  match fs with
  | [] => []
  | f :: rest =>
      if fr_opcode f =? 0x8 then [f]
      else if fr_opcode f =? 0x9 then mkFrame 0xA (fr_payload f) :: ws_replies rest
      else if fr_opcode f =? 0xA then ws_replies rest
      else []
  end.

Definition control_frame (kf : bytes * client_frame) : Prop :=
  len kf.1 = 4 /\ 0 <= fr_opcode kf.2 < 16 /\ len (fr_payload kf.2) <= 125.

Lemma lxor_byte a b : 0 <= a < 256 -> 0 <= b < 256 -> 0 <= Z.lxor a b < 256.
Proof.
  intros Ha Hb. assert (0 <= Z.lxor a b) as H0 by (apply Z.lxor_nonneg; lia). split; [done|].
  destruct (Z.eq_dec (Z.lxor a b) 0) as [->|Hn]; [lia|]. apply (Z.log2_lt_pow2 _ 8); [lia|].
  pose proof (Z.log2_lxor a b ltac:(lia) ltac:(lia)).
  assert (forall x, 0 <= x < 256 -> Z.log2 x < 8) as L.
  { intros x Hx. destruct (Z.eq_dec x 0) as [->|]; [done|]. apply Z.log2_lt_pow2; lia. }
  pose proof (L a Ha). pose proof (L b Hb). lia.
Qed.

Lemma mask_mask key i p : mask_loop key i (mask_loop key i p) = p.
Proof.
  revert i. induction p as [|b p IH]; intros i; [done|]. cbn [mask_loop]. rewrite IH. f_equal.
  apply Z_of_byte_inj. rewrite !Z_of_byte_of_Z.
  set (k := Z_of_byte (default "000"%char (key !! (i mod 4)%nat))).
  pose proof (Z_of_byte_range b) as Hb. pose proof (Z_of_byte_range _ : 0 <= k < 256) as Hk.
  rewrite (Z.mod_small (Z.lxor (Z_of_byte b) k) 256) by by apply lxor_byte.
  rewrite Z.lxor_assoc, Z.lxor_nilpotent, Z.lxor_0_r. by apply Z.mod_small.
Qed.

Lemma len_mask key i p : len (mask_loop key i p) = len p.
Proof. revert i. induction p as [|b p IH]; intros i; [done|]. cbn [mask_loop]. by rewrite !len_cons, IH. Qed.

Lemma ReadFull_app a b c : c_in c = a ++ b -> ReadFull (len a) c = (Some a, mkConn b (c_out c) (c_writes c)).
Proof.
  intros E. unfold ReadFull. rewrite E, len_app. pose proof (len_nonneg b). bcase; [lia|].
  by rewrite to_nat_len, take_app_length, drop_app_length.
Qed.

Lemma high_bit n : 0 <= n < 128 ->
  (Z.land (Z_of_byte (byte_of_Z (Z.lor 0x80 n))) 0x80 =? 0) = false
  /\ Z.land (Z_of_byte (byte_of_Z (Z.lor 0x80 n))) 0x7f = n.
Proof.
  intros H. assert (Z_of_byte (byte_of_Z (Z.lor 0x80 n)) = 128 + n) as ->.
  { rewrite Z_of_byte_of_Z, Z.lor_comm. change (Z.lor n 0x80) with (Z.lor n (Z.shiftl 1 7)).
    rewrite lor_shift_add by lia. rewrite Z.mod_small; lia. }
  split.
  - apply Z.eqb_neq. intros E. apply (f_equal (fun z => Z.testbit z 7)) in E.
    rewrite Z.land_spec, (testbit_high n H) in E. discriminate E.
  - change 0x7f with (Z.ones 7). rewrite Z.land_ones by lia. dlia.
Qed.

Lemma read_control_client key f rest c : control_frame (key, f) ->
  c_in c = client_bytes key f ++ rest ->
  read_control c = (Some f, mkConn rest (c_out c) (c_writes c)).
Proof.
  intros (Hk & Hop & Hp) E. cbn [fst snd] in *. destruct f as [op p]. cbn [fr_opcode fr_payload] in *.
  pose proof (len_nonneg p). unfold client_bytes in E. cbn [fr_opcode fr_payload] in E.
  rewrite <- !app_assoc in E. unfold read_control.
  pose proof (ReadFull_app [_; _] _ c E : ReadFull 2 c = _) as ->.
  destruct (high_bit op ltac:(lia)) as [-> Eop]. destruct (high_bit (len p) ltac:(lia)) as [-> ->].
  assert (Z.land (Z_of_byte (byte_of_Z (Z.lor 128 op))) 15 = op) as ->.
  { change 15 with (Z.ones 4). rewrite Z.land_ones by lia.
    rewrite frame_opcode by lia. dlia. }
  cbn [negb]. bcase; [lia|].
  rewrite <- Hk, (ReadFull_app key (mask_loop key 0 p ++ rest)) by done. cbn [c_out c_writes].
  bcase.
  - rewrite <- (len_mask key 0 p), (ReadFull_app (mask_loop key 0 p) rest) by done.
    by rewrite mask_mask.
  - assert (p = "") as -> by (apply len_zero; lia). done.
Qed.

Lemma writeFrame_in op p c : c_in (writeFrame op p c).2 = c_in c.
Proof.
  unfold writeFrame, Write. destruct (c_writes c) as [|n]; [done|]. cbn [c_writes]. by destruct n.
Qed.

Lemma writeFrame_out op p c n : c_writes c = S (S n) ->
  writeFrame op p c = (true, mkConn (c_in c) (c_out c ++ ws_frame (mkFrame op p)) n).
Proof.
  intros E. unfold writeFrame, Write. rewrite E. cbn [c_writes c_in c_out].
  unfold ws_frame. cbn [fr_opcode fr_payload]. by rewrite app_assoc.
Qed.

Lemma ReadFull_length n b c c' : ReadFull n c = (Some b, c') -> (length (c_in c') <= length (c_in c))%nat.
Proof. unfold ReadFull. bcase; [done|]. intros [= _ <-]. cbn [c_in]. rewrite length_drop. lia. Qed.

Lemma read_control_length c f c' : read_control c = (Some f, c') -> (length (c_in c') + 2 <= length (c_in c))%nat.
Proof.
  unfold read_control. destruct (ReadFull 2 c) as [[b|] c1] eqn:E1; [|done].
  assert (length (c_in c1) + 2 <= length (c_in c))%nat as L1.
  { apply ReadFull_ok in E1 as (L & E & _); [|done]. rewrite E, length_app. unfold len in L. lia. }
  destruct b as [|b0 [|b1 [|]]]; try done. do 2 (bcase; [done|]).
  destruct (if negb (Z.land (Z_of_byte b1) 128 =? 0) then ReadFull 4 c1 else (Some [], c1))
    as [[key|] c2] eqn:E2; [|done].
  assert (length (c_in c2) <= length (c_in c1))%nat as L2.
  { bcase_in E2; [by apply ReadFull_length in E2|by injection E2 as _ <-]. }
  bcase; [|intros [= _ <-]; lia].
  destruct (ReadFull _ c2) as [[p|] c3] eqn:E3; [|done]. apply ReadFull_length in E3.
  intros [= _ <-]. lia.
Qed.

Lemma drain_ends fuel done i c : (length (c_in c) < fuel)%nat -> is_Some (drain_loop fuel done i c).
Proof.
  revert i c. induction fuel as [|fuel IH]; intros i c H; [lia|]. cbn [drain_loop].
  destruct (read_control c) as [[f|] c1] eqn:E; [|by eexists]. apply read_control_length in E.
  bcase; [by eexists|]. bcase.
  - pose proof (writeFrame_in 10 (fr_payload f) c1) as Ew.
    destruct (writeFrame 10 (fr_payload f) c1) as [ok c2]. cbn [snd] in Ew.
    bcase; [by eexists|]. apply IH. rewrite Ew. lia.
  - bcase; [apply IH; lia|by eexists].
Qed.

Lemma drain_replies fs fuel i c :
  Forall control_frame fs -> c_in c = flat_map (fun kf => client_bytes kf.1 kf.2) fs ->
  (2 * length fs <= c_writes c)%nat -> (length fs < fuel)%nat ->
  exists c', drain_loop fuel (fun _ => false) i c = Some c'
    /\ c_out c' = c_out c ++ flat_map ws_frame (ws_replies (map snd fs)).
Proof.
  intros F. revert fuel i c. induction F as [|[key f] fs Hf F IH]; intros fuel i c Ein Hw Hfuel;
    (destruct fuel as [|fuel]; [cbn in Hfuel; lia|]); cbn [drain_loop].
  - exists (mkConn "" (c_out c) (c_writes c)). unfold read_control, ReadFull. rewrite Ein. cbn.
    by rewrite app_nil_r.
  - cbn [flat_map fst snd] in Ein. cbn [length] in Hw, Hfuel.
    rewrite (read_control_client _ _ _ c Hf Ein). cbn [map snd ws_replies].
    destruct (c_writes c) as [|[|n]] eqn:Ew; [lia|lia|].
    bcase.
    + apply Z.eqb_eq in Hb. eexists. split; [done|]. erewrite writeFrame_out by done.
      cbn [snd c_out flat_map]. rewrite app_nil_r. do 2 f_equal. destruct f; cbn in *; congruence.
    + bcase.
      * erewrite writeFrame_out by done. cbn [negb orb c_in c_out].
        destruct (IH fuel (S i) (mkConn (flat_map (fun kf => client_bytes kf.1 kf.2) fs)
          (c_out c ++ ws_frame (mkFrame 10 (fr_payload f))) n)) as (c' & E & Eo);
          [done|cbn [c_writes]; lia|lia|].
        exists c'. split; [done|]. rewrite Eo. cbn [c_out flat_map]. by rewrite <- app_assoc.
      * bcase; [|eexists; split; [done|]; cbn [c_out flat_map]; by rewrite app_nil_r].
        destruct (IH fuel (S i) (mkConn (flat_map (fun kf => client_bytes kf.1 kf.2) fs)
          (c_out c) (S (S n)))) as (c' & E & Eo); [done|cbn [c_writes]; lia|lia|].
        exists c'. by rewrite Eo.
Qed.

(** C27. Draining a websocket ends on every input.  To the masked control frames
    of a client it writes the answers in order, a pong with the payload of each
    ping, nothing for a pong, and a close frame for the first close frame, after
    which, as after any other frame, it stops; each answer reads back by RFC 6455
    as the final frame of that opcode and payload. *)
Theorem drain_answers (fs : list (bytes * client_frame)) (c : conn) :
  (forall done c, is_Some (drainWebSocketControl done c)) /\
  (Forall control_frame fs -> c_in c = flat_map (fun kf => client_bytes kf.1 kf.2) fs ->
   (2 * length fs <= c_writes c)%nat ->
   (exists c', drainWebSocketControl (fun _ => false) c = Some c'
     /\ c_out c' = c_out c ++ flat_map ws_frame (ws_replies (map snd fs)))
   /\ Forall (fun f => forall rest, parse_frame (ws_frame f ++ rest) = Some (true, f, rest))
        (ws_replies (map snd fs))).
Proof.
  split; [intros done c'; apply drain_ends; lia|]. intros F Ein Hw. split.
  - apply drain_replies; [done..|]. rewrite Ein. clear.
    induction fs as [|kf fs IH]; [cbn; lia|]. cbn [flat_map length]. rewrite length_app.
    assert (1 <= length (client_bytes kf.1 kf.2))%nat by (unfold client_bytes; cbn [app length]; lia). lia.
  - clear Ein Hw. induction F as [|[key f] fs (Hk & Hop & Hp) F IH]; [constructor|].
    cbn [map snd ws_replies] in *. repeat bcase; repeat constructor; try done; intros rest; apply parse_ws_frame;
      cbn [fr_opcode fr_payload]; lia.
Qed.

Definition sample_frames : list (bytes * client_frame) :=
  [(map byte_of_Z [1; 2; 3; 4], mkFrame 0x9 "hello"); (map byte_of_Z [9; 8; 7; 6], mkFrame 0xA "");
   (map byte_of_Z [0; 0; 0; 0], mkFrame 0x8 (map byte_of_Z [3; 232]))].

Theorem drain_answers_witness :
  let c := mkConn (flat_map (fun kf => client_bytes kf.1 kf.2) sample_frames) "" 6 in
  exists c', drainWebSocketControl (fun _ => false) c = Some c'
    /\ c_out c' = map byte_of_Z [0x8A; 5] ++ "hello" ++ map byte_of_Z [0x88; 2; 3; 232].
Proof.
  intros c. destruct (drain_answers sample_frames c) as [_ H].
  destruct H as [(c' & E & Eo) _].
  - repeat (apply Forall_cons; split; [vm_compute; repeat split; discriminate|]). exact (Forall_nil_2 _).
  - reflexivity.
  - cbn. lia.
  - exists c'. split; [exact E|]. rewrite Eo. vm_compute. reflexivity.
Defined.
