(* ===== verification/Streams.v ===== *)
(** * internal/api/websocket.go: a stream as two goroutines on one connection.

    The loop of [wsTrace] or [wsQueries] sends the events of its subscription and
    pings; [drainWebSocketControl] answers the client.  Both write whole frames
    under the mutex of the connection, in two writes each.  The steps below are
    those of either goroutine, of the event hub and of the connection, in any
    order; a write that fails leaves a part of what it had to write, and no later
    one succeeds. *)

From S2P Require Import Prelude.
From S2P Require Import GoStrings.
From S2P Require Import GoTime.
From S2P Require Import Pipeline.
From S2P Require Import Server.
From S2P Require Import Settings.
From S2P Require Import GoJson.
From S2P Require Import JsonText.
From S2P Require Import Metrics.
From S2P Require Import Handler.
From S2P Require Import EventJson.
From S2P Require Import Websocket.

#[local] Open Scope go_scope.

(** The goroutine of the handler and the one that drains the client. *)
Inductive who := Stream | Drain.
#[export] Instance who_eq_dec : EqDecision who.
Proof. solve_decision. Defined.

(** Where a goroutine is: between two frames, before [c.mu.Lock()] with a frame
    to write, before its header, before its payload, after its loop. *)
Inductive phase := Idle | Waiting (f : client_frame) | Header (f : client_frame) | Payload (f : client_frame) | Over.

Section stream.
Context {A : Type}.

(** [json.Marshal] of an event, and the channel of the subscription. *)
Context (marshal : A -> option bytes) (ch : nat).

Record state := mkState {
  s_hub : Hub A;
  s_lock : option who;
  s_closed : bool;
  s_out : bytes;
  s_phase : who -> phase
}.

(** What a step does that matters outside. *)
Inductive label :=
| LPublish (e : A) (queued : bool)
| LReceive (e : A)
| LClient (f : client_frame)
| LWrote (w : who) (f : client_frame)
| LOther.

Definition with_hub (h : Hub A) (s : state) : state := mkState h (s_lock s) (s_closed s) (s_out s) (s_phase s).
Definition set_phase (w : who) (p : phase) (s : state) : state :=
  mkState (s_hub s) (s_lock s) (s_closed s) (s_out s) (fun v => if decide (v = w) then p else s_phase s v).
Definition set_lock (l : option who) (s : state) : state := mkState (s_hub s) l (s_closed s) (s_out s) (s_phase s).
Definition close (s : state) : state := mkState (s_hub s) (s_lock s) true (s_out s) (s_phase s).
Definition output (b : bytes) (s : state) : state :=
  mkState (s_hub s) (s_lock s) (s_closed s) (s_out s ++ b) (s_phase s).

(** The channel has room for an event. *)
Definition room (h : Hub A) : bool :=
  bool_decide (ch ∈ hub_subscribers h)
  && match hub_chans h !! ch with Some c => len (ch_buf c) <? ch_cap c | None => false end.

(** Operations on the hub that others perform, on other channels. *)
Definition elsewhere (o : hub_op (A := A)) : bool :=
  match o with
  | HSubscribe _ => true
  | HUnsubscribe c | HReceive c => negb (bool_decide (c = ch))
  | HPublish _ => false
  end.

(** After an event: [WriteJSON], whose first error ends the loop. *)
Definition event_phase (e : A) : phase :=
  match marshal e with
  | Some text => Waiting (mkFrame 0x1 text)
  | None => Over
  end.

(** After a frame of the client: the [switch] of the drain loop. *)
Definition client_phase (f : client_frame) : phase :=
  if fr_opcode f =? 0x8 then Waiting (mkFrame 0x8 (fr_payload f))
  else if fr_opcode f =? 0x9 then Waiting (mkFrame 0xA (fr_payload f))
  else if fr_opcode f =? 0xA then Idle
  else Over.

(** After a frame was written: the drain loop ends with a close frame. *)
Definition next_phase (w : who) (f : client_frame) : phase :=
  match w with
  | Stream => Idle
  | Drain => if fr_opcode f =? 0x8 then Over else Idle
  end.

Inductive step : state -> label -> state -> Prop :=
(* the hub *)
| st_publish s e h : Publish (E := bytes) e (s_hub s) = Ok h -> step s (LPublish e (room (s_hub s))) (with_hub h s)
| st_elsewhere s o h : hub_step (E := bytes) o (s_hub s) = Ok h -> elsewhere o = true -> step s LOther (with_hub h s)
(* the handler *)
| st_receive s e h : s_phase s Stream = Idle -> receive ch (s_hub s) = (Some e, h) ->
    step s (LReceive e) (set_phase Stream (event_phase e) (with_hub h s))
| st_tick s : s_phase s Stream = Idle -> step s LOther (set_phase Stream (Waiting (mkFrame 0x9 "")) s)
| st_unsubscribe s h : s_phase s Stream = Over -> Unsubscribe (E := bytes) ch (s_hub s) = Ok h ->
    step s LOther (with_hub h s)
(* the drain loop *)
| st_client s f : s_phase s Drain = Idle -> 0 <= fr_opcode f < 16 -> len (fr_payload f) <= 125 ->
    step s (LClient f) (set_phase Drain (client_phase f) s)
(* either: the context is done or reading fails, and the deferred Close *)
| st_stop s w : s_phase s w = Idle -> step s LOther (set_phase w Over s)
| st_close s w : s_phase s w = Over -> step s LOther (close s)
(* writeFrame *)
| st_lock s w f : s_phase s w = Waiting f -> s_lock s = None ->
    step s LOther (set_lock (Some w) (set_phase w (Header f) s))
| st_header s w f : s_phase s w = Header f -> s_closed s = false ->
    step s LOther (output (frame_header (fr_opcode f) (len (fr_payload f))) (set_phase w (Payload f) s))
| st_payload s w f : s_phase s w = Payload f -> s_closed s = false ->
    step s (LWrote w f) (output (fr_payload f) (set_lock None (set_phase w (next_phase w f) s)))
| st_header_fails s w f n : s_phase s w = Header f -> (s_closed s = true -> n = 0%nat) ->
    step s LOther (output (take n (frame_header (fr_opcode f) (len (fr_payload f))))
                     (close (set_lock None (set_phase w Over s))))
| st_payload_fails s w f n : s_phase s w = Payload f -> (s_closed s = true -> n = 0%nat) ->
    step s LOther (output (take n (fr_payload f)) (close (set_lock None (set_phase w Over s)))).

(** The steps of a run, the last one last. *)
Inductive runs (s0 : state) : list label -> state -> Prop :=
| run_start : runs s0 [] s0
| run_step ls l s s' : runs s0 ls s -> step s l s' -> runs s0 (ls ++ [l]) s'.

(** A stream that just subscribed. *)
Definition stream_start (h : Hub A) : state := mkState h None false "" (fun _ => Idle).

(** ** What a run did *)

Definition published (ls : list label) : list A := omap (fun l => match l with LPublish e _ => Some e | _ => None end) ls.
Definition queued (ls : list label) : list A := omap (fun l => match l with LPublish e true => Some e | _ => None end) ls.
Definition received (ls : list label) : list A := omap (fun l => match l with LReceive e => Some e | _ => None end) ls.
Definition clients (ls : list label) : list client_frame :=
  omap (fun l => match l with LClient f => Some f | _ => None end) ls.
Definition written (ls : list label) : list (who * client_frame) :=
  omap (fun l => match l with LWrote w f => Some (w, f) | _ => None end) ls.

Definition frames_of (w : who) (fs : list (who * client_frame)) : list client_frame :=
  omap (fun wf => if decide (wf.1 = w) then Some wf.2 else None) fs.

(** The payloads of the text frames. *)
Definition texts (fs : list client_frame) : list bytes :=
  omap (fun f => if fr_opcode f =? 0x1 then Some (fr_payload f) else None) fs.

(** ** Frames stay whole *)

Definition holding (p : phase) : bool :=
  match p with Header _ | Payload _ => true | _ => false end.

(** The bytes of the frame that is being written. *)
Definition in_progress (s : state) : bytes :=
  match s_lock s with
  | Some w => match s_phase s w with Payload f => frame_header (fr_opcode f) (len (fr_payload f)) | _ => "" end
  | None => ""
  end.

Definition whole (fs : list (who * client_frame)) : bytes := flat_map ws_frame (map snd fs).

Record frames_inv (ls : list label) (s : state) : Prop := {
  fi_lock : forall w, holding (s_phase s w) = true <-> s_lock s = Some w;
  fi_out : exists partial f, s_out s = whole (written ls) ++ partial /\ partial `prefix_of` ws_frame f
    /\ (s_closed s = false -> partial = in_progress s)
}.

Lemma written_app ls l : written (ls ++ [l]) = written ls ++ written [l].
Proof. apply omap_app. Qed.

(** A step that leaves the lock, the output and the phases that hold it alone. *)
Lemma frames_same ls l s s' : frames_inv ls s -> written [l] = [] ->
  s_lock s' = s_lock s -> s_out s' = s_out s -> (s_closed s = true -> s_closed s' = true) ->
  (forall w, s_phase s' w = s_phase s w \/ holding (s_phase s' w) = false /\ holding (s_phase s w) = false) ->
  frames_inv (ls ++ [l]) s'.
Proof.
  intros [Hl (partial & f & Ho & Hp & Hc)] Hw El Eo Ecl Eph. split.
  - intros w. rewrite El. destruct (Eph w) as [->|[E1 E2]]; [apply Hl|]. rewrite E1, <- Hl, E2. done.
  - exists partial, f. rewrite written_app, Hw, app_nil_r, Eo. ands; [done|done|]. intros Hs'.
    rewrite Hc by (destruct (s_closed s); [by rewrite Ecl in Hs'|done]). unfold in_progress. rewrite El.
    destruct (s_lock s) as [w|]; [|done]. pose proof (proj2 (Hl w) eq_refl). destruct (Eph w) as [->|[_ E2]]; [done|congruence].
Qed.

(** A failed write: a part of the frame at most, and the end of the connection. *)
Lemma frames_fail ls s w f b : frames_inv ls s -> holding (s_phase s w) = true ->
  (s_closed s = true -> b = "") -> (s_closed s = false -> in_progress s ++ b `prefix_of` ws_frame f) ->
  frames_inv (ls ++ [LOther]) (output b (close (set_lock None (set_phase w Over s)))).
Proof.
  intros [Hl (partial & f0 & Ho & Hp & Hc)] Hw Hb Hf. split.
  - intros v. cbn [s_lock s_phase output close set_lock set_phase]. split; [|done].
    case_decide; [done|]. intros Hv%Hl. apply Hl in Hw. congruence.
  - rewrite written_app, app_nil_r. cbn [s_out output close set_lock set_phase]. rewrite Ho.
    destruct (s_closed s) eqn:E.
    + rewrite Hb, app_nil_r by done. by exists partial, f0.
    + exists (partial ++ b), f. rewrite Hc by done. rewrite app_assoc. ands; [done|by apply Hf|done].
Qed.

Lemma frames_step ls s l s' : frames_inv ls s -> step s l s' -> frames_inv (ls ++ [l]) s'.
Proof.
  intros Hi Hs. assert (forall w p, holding (s_phase s w) = false -> holding p = false -> forall v,
    s_phase (set_phase w p s) v = s_phase s v \/ holding (s_phase (set_phase w p s) v) = false /\ holding (s_phase s v) = false) as Hidle.
  { intros w p H1 H2 v. cbn [s_phase set_phase]. case_decide; subst; auto. }
  destruct Hs as [s e h _|s o h _ _|s e h Hph _|s Hph|s h Hph _|s f Hph _ _|s w Hph|s w Hph|s w f Hph Hlock|s w f Hph Hcl
    |s w f Hph Hcl|s w f n Hph Hn|s w f n Hph Hn];
    try (apply (frames_same ls _ s); [done|done|done|done|done|]; try (by left); apply Hidle; by rewrite ?Hph).
  - apply (frames_same ls _ s); [done|done|done|done|done|]. apply Hidle; [by rewrite Hph|]. unfold event_phase. by destruct (marshal e).
  - apply (frames_same ls _ s); [done|done|done|done|done|]. apply Hidle; [by rewrite Hph|]. unfold client_phase. by repeat bcase.
  - destruct Hi as [Hl (partial & f0 & Ho & Hp & Hc)]. split.
    + intros v. cbn [s_lock s_phase set_lock set_phase]. case_decide as Hv; [by subst|]. rewrite Hl, Hlock. split; congruence.
    + exists partial, f0. rewrite written_app, app_nil_r. ands; [done|done|]. intros H. rewrite Hc by done.
      unfold in_progress. cbn [s_lock s_phase set_lock set_phase]. by rewrite Hlock, decide_True.
  - assert (s_lock s = Some w) as Hlock by (apply Hi; by rewrite Hph).
    destruct Hi as [Hl (partial & f0 & Ho & Hp & Hc)]. split.
    + intros v. cbn [s_lock s_phase output set_phase]. case_decide as Hv; [by subst|]. apply Hl.
    + exists (frame_header (fr_opcode f) (len (fr_payload f))), f. rewrite written_app, app_nil_r.
      cbn [s_out output set_phase]. rewrite Ho, Hc by done. unfold in_progress. cbn [s_lock s_phase output set_phase].
      rewrite Hlock, Hph, decide_True, app_nil_r by done. ands; [done|by eexists|done].
  - assert (s_lock s = Some w) as Hlock by (apply Hi; by rewrite Hph).
    destruct Hi as [Hl (partial & f0 & Ho & Hp & Hc)]. split.
    + intros v. cbn [s_lock s_phase output set_lock set_phase]. split; [|done]. case_decide as Hv.
      * unfold next_phase. destruct w; [done|]. by bcase.
      * intros H%Hl. congruence.
    + exists [], f. cbn [s_out output set_lock set_phase]. rewrite Ho, Hc by done. unfold in_progress at 1.
      rewrite Hlock, Hph, app_nil_r, written_app. ands; [|by apply prefix_nil|done].
      change (written [LWrote w f]) with [(w, f)]. unfold whole. rewrite map_app, flat_map_app. cbn [map flat_map snd].
      change (ws_frame f) with (frame_header (fr_opcode f) (len (fr_payload f)) ++ fr_payload f).
      by rewrite !app_nil_r, app_assoc.
  - assert (s_lock s = Some w) as Hlock by (apply Hi; by rewrite Hph).
    apply (frames_fail _ _ _ f); [done|by rewrite Hph|by intros ->%Hn|].
    intros _. unfold in_progress. rewrite Hlock, Hph. cbn [app]. unfold ws_frame. by apply prefix_app_r, prefix_take.
  - assert (s_lock s = Some w) as Hlock by (apply Hi; by rewrite Hph).
    apply (frames_fail _ _ _ f); [done|by rewrite Hph|by intros ->%Hn|].
    intros _. unfold in_progress. rewrite Hlock, Hph. apply prefix_app, prefix_take.
Qed.

(** ** Events stay in order *)

Definition queue (h : Hub A) : list A := match hub_chans h !! ch with Some c => ch_buf c | None => [] end.
Definition capacity (h : Hub A) : option Z := ch_cap <$> hub_chans h !! ch.

Record queue_inv (n : Z) (ls : list label) (s : state) : Prop := {
  qi_hub : hub_inv (s_hub s);
  qi_chan : capacity (s_hub s) = Some n;
  qi_queue : queued ls = received ls ++ queue (s_hub s)
}.

Lemma queue_publish h e h' : hub_inv h -> Publish (E := bytes) e h = Ok h' ->
  capacity h' = capacity h /\ queue h' = queue h ++ (if room h then [e] else []).
Proof.
  intros Hi Hp. destruct (Publish_ok (E := bytes) e h Hi) as (m & E & _ & Hm). rewrite E in Hp. injection Hp as <-.
  unfold capacity, queue, room. cbn [hub_chans]. rewrite Hm.
  destruct (hub_chans h !! ch) as [c|]; bcase; cbn [fmap option_fmap option_map andb]; try by rewrite ?app_nil_r.
  unfold delivered. bcase; [done|]. by rewrite app_nil_r.
Qed.

(** Others leave the channel alone. *)
Lemma queue_elsewhere h o h' n : capacity h = Some n -> elsewhere o = true -> hub_step (E := bytes) o h = Ok h' ->
  hub_chans h' !! ch = hub_chans h !! ch.
Proof.
  intros Hc Ho. destruct o as [buffer|c|e|c]; cbn [elsewhere hub_step] in *; [| |done|].
  - intros [= <-]. cbn [snd add_chan Subscribe hub_chans]. apply lookup_insert_ne. intros E.
    apply (is_fresh (dom (hub_chans h))). rewrite E. apply elem_of_dom. apply fmap_Some in Hc as (c & -> & _). by eexists.
  - apply negb_true_iff, bool_decide_eq_false in Ho. unfold Unsubscribe, close_chan. bcase; [|by intros [= <-]].
    destruct (hub_chans h !! c) as [x|]; [|done]. bcase; [done|]. intros [= <-]. by apply lookup_insert_ne.
  - apply negb_true_iff, bool_decide_eq_false in Ho. intros [= <-]. unfold receive.
    destruct (hub_chans h !! c) as [[cap [|e buf] cl]|]; try done. by apply lookup_insert_ne.
Qed.

Lemma queue_receive h e h' : receive ch h = (Some e, h') ->
  capacity h' = capacity h /\ queue h = e :: queue h' /\ hub_step (E := bytes) (HReceive ch) h = Ok h'.
Proof.
  unfold capacity, queue. cbn [hub_step]. unfold receive. destruct (hub_chans h !! ch) as [[cap [|x buf] cl]|] eqn:E; try done.
  intros [= -> <-]. cbn [hub_chans snd]. by rewrite lookup_insert_eq.
Qed.

Lemma queue_unsubscribe h h' : Unsubscribe (E := bytes) ch h = Ok h' ->
  capacity h' = capacity h /\ queue h' = queue h.
Proof.
  unfold Unsubscribe, close_chan, capacity, queue. bcase; [|by intros [= <-]].
  destruct (hub_chans h !! ch) as [c|]; [|done]. bcase; [done|]. intros [= <-]. cbn [hub_chans].
  by rewrite lookup_insert_eq.
Qed.

(** A step on another part of the state. *)
Lemma queue_same n ls l s s' : queue_inv n ls s -> s_hub s' = s_hub s -> queued [l] = [] -> received [l] = [] ->
  queue_inv n (ls ++ [l]) s'.
Proof.
  intros [H1 H2 H3] E El Er. split; rewrite ?E; [done|done|]. unfold queued, received in *.
  by rewrite !omap_app, El, Er, !app_nil_r.
Qed.

Lemma queue_step cap ls s l s' : queue_inv cap ls s -> step s l s' -> queue_inv cap (ls ++ [l]) s'.
Proof.
  intros Hi Hs. destruct Hs as [s e h Hp|s o h Ho He|s e h Hph Hr|s Hph|s h Hph Hu|s f Hph _ _|s w Hph|s w Hph|s w f Hph Hlock
    |s w f Hph Hcl|s w f Hph Hcl|s w f n Hph Hn|s w f n Hph Hn]; try by apply (queue_same _ ls _ s).
  - destruct Hi as [H1 H2 H3]. destruct (queue_publish _ _ _ H1 Hp) as [Hc Hq]. split; cbn [s_hub with_hub].
    + destruct (hub_step_ok (E := bytes) (HPublish e) _ H1) as (h' & E & Hi'). cbn [hub_step] in E. congruence.
    + by rewrite Hc.
    + unfold queued, received in *. rewrite !omap_app, H3, Hq, app_nil_r, app_assoc. by destruct (room (s_hub s)).
  - destruct Hi as [H1 H2 H3]. pose proof (queue_elsewhere _ _ _ _ H2 He Ho) as E. split; cbn [s_hub with_hub].
    + destruct (hub_step_ok (E := bytes) o _ H1) as (h' & E' & Hi'). congruence.
    + unfold capacity. by rewrite E.
    + unfold queued, received, queue in *. by rewrite !omap_app, !app_nil_r, E.
  - destruct Hi as [H1 H2 H3]. destruct (queue_receive _ _ _ Hr) as (Hc & Hq & Hst). split; cbn [s_hub with_hub set_phase].
    + destruct (hub_step_ok (E := bytes) (HReceive ch) _ H1) as (h' & E' & Hi'). congruence.
    + by rewrite Hc.
    + unfold queued, received in *. rewrite !omap_app, H3, Hq, app_nil_r. cbn. by rewrite <- app_assoc.
  - destruct Hi as [H1 H2 H3]. destruct (queue_unsubscribe _ _ Hu) as [Hc Hq]. split; cbn [s_hub with_hub].
    + destruct (hub_step_ok (E := bytes) (HUnsubscribe ch) _ H1) as (h' & E' & Hi'). cbn [hub_step] in E'. congruence.
    + by rewrite Hc.
    + unfold queued, received in *. by rewrite !omap_app, !app_nil_r, Hq.
Qed.

(** ** What either goroutine writes *)

(** The events taken from the channel that are not written yet. *)
Definition pending (p : phase) (rest : list A) : Prop :=
  match p with
  | Idle => rest = []
  | Waiting f | Header f | Payload f =>
      if fr_opcode f =? 0x1 then exists e, rest = [e] /\ marshal e = Some (fr_payload f) else rest = []
  | Over => (length rest <= 1)%nat
  end.

(** The frame that a goroutine has to write, if any. *)
Definition stream_inv (ls : list label) (s : state) : Prop :=
  exists sent rest, received ls = sent ++ rest
    /\ Forall2 (fun e text => marshal e = Some text) sent (texts (frames_of Stream (written ls)))
    /\ pending (s_phase s Stream) rest.

Lemma frames_of_app w a b : frames_of w (a ++ b) = frames_of w a ++ frames_of w b.
Proof. apply omap_app. Qed.

Lemma texts_app a b : texts (a ++ b) = texts a ++ texts b.
Proof. apply omap_app. Qed.

Lemma stream_same ls l s s' : stream_inv ls s -> received [l] = [] -> frames_of Stream (written [l]) = [] ->
  (forall rest, pending (s_phase s Stream) rest -> pending (s_phase s' Stream) rest) -> stream_inv (ls ++ [l]) s'.
Proof.
  intros (sent & rest & H1 & H2 & H3) Er Ew Hp. exists sent, rest. unfold received in *.
  rewrite omap_app, written_app, frames_of_app, Er, Ew, !app_nil_r. auto.
Qed.

Lemma pending_over f rest : (if fr_opcode f =? 0x1 then exists e, rest = [e] /\ marshal e = Some (fr_payload f) else rest = []) ->
  (length rest <= 1)%nat.
Proof. bcase; [intros (e & -> & _)|intros ->]; cbn; lia. Qed.

Lemma stream_step ls s l s' : stream_inv ls s -> step s l s' -> stream_inv (ls ++ [l]) s'.
Proof.
  intros Hi Hs. destruct Hs as [s e h Hp|s o h Ho He|s e h Hph Hr|s Hph|s h Hph Hu|s f Hph _ _|s w Hph|s w Hph|s w f Hph Hlock
    |s w f Hph Hcl|s w f Hph Hcl|s w f n Hph Hn|s w f n Hph Hn];
    try (by apply (stream_same ls _ s));
    try (destruct w; [|by apply (stream_same ls _ s)]);
    try (apply (stream_same ls _ s); [done|done|done|]; intros rest; cbn [s_phase set_phase set_lock output close];
         rewrite Hph, ?decide_True by done; cbn [pending]; by try apply pending_over).
  - destruct Hi as (sent & rest & H1 & H2 & H3). rewrite Hph in H3. cbn [pending] in H3. subst rest.
    exists sent, [e]. unfold received in *. rewrite omap_app, H1, written_app, frames_of_app, !app_nil_r.
    ands; [done|done|]. cbn [s_phase set_phase]. rewrite decide_True by done. unfold event_phase.
    destruct (marshal e) as [text|] eqn:E; [|cbn; lia]. cbn [pending fr_opcode fr_payload]. exists e. by split.
  - apply (stream_same ls _ s); [done|done|done|]. intros rest. rewrite Hph. cbn [s_phase set_phase].
    rewrite decide_True by done. cbn [pending]. intros ->. cbn. lia.
  - destruct Hi as (sent & rest & H1 & H2 & H3). rewrite Hph in H3. cbn [pending] in H3.
    exists (sent ++ rest), []. unfold received in *. rewrite omap_app, !app_nil_r, H1, written_app, frames_of_app, texts_app.
    ands; [done| |done]. apply Forall2_app; [done|].
    change (texts (frames_of Stream (written [LWrote Stream f]))) with (texts [f]). unfold texts. cbn [omap list_omap].
    destruct (fr_opcode f =? 1).
    + destruct H3 as (e & -> & He). by repeat constructor.
    + by subst.
Qed.

(** What the client is still answered with. *)
Definition owed (p : phase) (rest : list client_frame) : Prop :=
  match p with
  | Idle => rest = []
  | Waiting f | Header f | Payload f => rest = [f]
  | Over => (length rest <= 1)%nat
  end.

(** The drain loop goes on only after pings and pongs. *)
Definition goes_on (f : client_frame) : Prop := fr_opcode f = 0x9 \/ fr_opcode f = 0xA.

Definition open_phase (p : phase) : Prop :=
  match p with
  | Idle => True
  | Waiting f | Header f | Payload f => fr_opcode f <> 0x8
  | Over => False
  end.

Definition drain_inv (ls : list label) (s : state) : Prop :=
  (exists rest, ws_replies (clients ls) = frames_of Drain (written ls) ++ rest /\ owed (s_phase s Drain) rest)
  /\ (open_phase (s_phase s Drain) -> Forall goes_on (clients ls)).

Lemma replies_app fs f : Forall goes_on fs -> ws_replies (fs ++ [f]) = ws_replies fs ++ ws_replies [f].
Proof.
  induction 1 as [|g fs Hg _ IH]; [done|]. cbn [app ws_replies]. rewrite IH.
  by destruct Hg as [-> | ->].
Qed.

Lemma clients_app ls l : clients (ls ++ [l]) = clients ls ++ clients [l].
Proof. apply omap_app. Qed.

Lemma drain_same ls l s s' : drain_inv ls s -> clients [l] = [] -> frames_of Drain (written [l]) = [] ->
  (forall rest, owed (s_phase s Drain) rest -> owed (s_phase s' Drain) rest) ->
  (open_phase (s_phase s' Drain) -> open_phase (s_phase s Drain)) -> drain_inv (ls ++ [l]) s'.
Proof.
  intros [(rest & H1 & H2) H3] Ec Ew Ho Hp. unfold drain_inv. rewrite clients_app, Ec, app_nil_r. split.
  - exists rest. rewrite written_app, frames_of_app, Ew, app_nil_r. auto.
  - auto.
Qed.

Lemma drain_step ls s l s' : drain_inv ls s -> step s l s' -> drain_inv (ls ++ [l]) s'.
Proof.
  intros Hi Hs. destruct Hs as [s e h Hp|s o h Ho He|s e h Hph Hr|s Hph|s h Hph Hu|s f Hph _ _|s w Hph|s w Hph|s w f Hph Hlock
    |s w f Hph Hcl|s w f Hph Hcl|s w f n Hph Hn|s w f n Hph Hn];
    try (by apply (drain_same ls _ s));
    try (destruct w; [by apply (drain_same ls _ s)|]);
    try (apply (drain_same ls _ s); [done|done|done| |]; cbn [s_phase set_phase set_lock output close];
         rewrite Hph, ?decide_True by done; cbn [owed open_phase]; try done; intros rest ->; cbn; lia).
  - destruct Hi as [(rest & H1 & H2) H3]. rewrite Hph in H2, H3. cbn [owed open_phase] in *. subst rest.
    specialize (H3 I). unfold drain_inv. rewrite clients_app, written_app, frames_of_app.
    change (clients [LClient f]) with [f]. change (frames_of Drain (written [LClient f])) with (@nil client_frame).
    rewrite replies_app, H1, !app_nil_r by done. cbn [s_phase set_phase]. rewrite decide_True by done.
    unfold client_phase. cbn [ws_replies]. 
    destruct (fr_opcode f =? 8) eqn:E8; [|destruct (fr_opcode f =? 9) eqn:E9; [|destruct (fr_opcode f =? 10) eqn:EA]];
    (split; [eexists; split; [done|]|]); cbn [owed open_phase fr_opcode]; try done.
    + destruct f. cbn in *. do 2 f_equal. lia.
    + intros _. apply Forall_app. split; [done|]. constructor; [left; lia|done].
    + intros _. apply Forall_app. split; [done|]. constructor; [right; lia|done].
    + cbn. lia.
  - destruct Hi as [(rest & H1 & H2) H3]. rewrite Hph in H2, H3. cbn [owed open_phase] in *. subst rest.
    unfold drain_inv. rewrite clients_app, written_app, frames_of_app, app_nil_r, H1.
    change (frames_of Drain (written [LWrote Drain f])) with [f]. cbn [s_phase set_phase set_lock output].
    rewrite decide_True by done. split.
    + exists []. split; [by rewrite app_nil_r|]. unfold next_phase. bcase; cbn; [lia|done].
    + unfold next_phase. destruct (fr_opcode f =? 8) eqn:E8; [done|]. intros _. apply H3. lia.
Qed.
(** ** Frames the client can read *)

Definition small (wf : who * client_frame) : Prop :=
  0 <= fr_opcode wf.2 < 16 /\ (len (fr_payload wf.2) <= 125 \/ wf.1 = Stream /\ fr_opcode wf.2 = 0x1).

Definition small_phase (w : who) (p : phase) : Prop :=
  match p with Waiting f | Header f | Payload f => small (w, f) | _ => True end.

Definition small_inv (ls : list label) (s : state) : Prop :=
  Forall small (written ls) /\ forall w, small_phase w (s_phase s w).

Lemma small_set ls l w p s s' : small_inv ls s -> Forall small (written [l]) -> small_phase w p ->
  (forall v, s_phase s' v = if decide (v = w) then p else s_phase s v) -> small_inv (ls ++ [l]) s'.
Proof.
  intros [H1 H2] Hw Hp E. split; [rewrite written_app; by apply Forall_app|]. intros v. rewrite E.
  case_decide; [by subst|apply H2].
Qed.

Lemma small_step ls s l s' : small_inv ls s -> step s l s' -> small_inv (ls ++ [l]) s'.
Proof.
  intros Hi Hs. destruct Hs as [s e h Hp|s o h Ho He|s e h Hph Hr|s Hph|s h Hph Hu|s f Hph Hop Hlen|s w Hph|s w Hph|s w f Hph Hlock
    |s w f Hph Hcl|s w f Hph Hcl|s w f n Hph Hn|s w f n Hph Hn];
    try (destruct Hi as [H1 H2]; split; [by rewrite written_app, app_nil_r|exact H2]);
    (eapply (small_set ls _ _ _ s); [exact Hi| | |intros v; reflexivity]);
    try (by constructor); try (pose proof (proj2 Hi w) as Hw; rewrite Hph in Hw; exact Hw).
  - unfold event_phase. destruct (marshal e); [|done]. split; cbn; [lia|auto].
  - split; cbn; [lia|left; by apply Z.leb_le].
  - unfold client_phase. repeat bcase; try done; (split; cbn; [lia|by left]).
  - constructor; [|done]. pose proof (proj2 Hi w) as Hw. rewrite Hph in Hw. exact Hw.
  - unfold next_phase. destruct w; [done|]. by bcase.
Qed.

(** A client that reads [n] frames, each a whole message. *)
Fixpoint parse_frames (n : nat) (s : bytes) : option (list client_frame * bytes) :=
  match n with
  | O => Some ([], s)
  | S n' =>
      match parse_frame s with
      | Some (true, f, k) => '(fs, rest) ← parse_frames n' k; Some (f :: fs, rest)
      | _ => None
      end
  end.

Lemma parse_whole fs partial :
  Forall (fun wf : who * client_frame => 0 <= fr_opcode wf.2 < 16 /\ len (fr_payload wf.2) < 2 ^ 63) fs ->
  parse_frames (length fs) (whole fs ++ partial) = Some (map snd fs, partial).
Proof.
  induction 1 as [|[w f] fs [Hop Hl] _ IH]; [done|]. cbn [length parse_frames].
  assert (whole ((w, f) :: fs) ++ partial = ws_frame f ++ whole fs ++ partial) as ->.
  { unfold whole. cbn [map flat_map snd]. by rewrite <- app_assoc. }
  rewrite parse_ws_frame by done. rewrite IH. done.
Qed.

(** ** Runs *)

Lemma runs_invariant (P : list label -> state -> Prop) s0 ls s :
  P [] s0 -> (forall ls s l s', P ls s -> step s l s' -> P (ls ++ [l]) s') -> runs s0 ls s -> P ls s.
Proof. intros H0 Hs. induction 1 as [|ls l s s' _ IH Hst]; [done|]. by apply (Hs _ s). Qed.

Lemma queued_published ls : queued ls `sublist_of` published ls.
Proof.
  induction ls as [|l ls IH]; [done|]. destruct l as [e [] | | | |]; cbn; try done; by constructor.
Qed.

Lemma queued_all ls : (forall e, LPublish e false ∉ ls) -> queued ls = published ls.
Proof.
  induction ls as [|l ls IH]; intros H; [done|].
  assert (queued ls = published ls) as E by (apply IH; intros e He; apply (H e); by right).
  destruct l as [e [] | | | |]; cbn; try done; [by f_equal|]. destruct (H e). left.
Qed.

Lemma pending_length p rest : pending p rest -> (length rest <= 1)%nat.
Proof. destruct p; cbn [pending]; try apply pending_over; [intros ->; cbn; lia|done]. Qed.

Lemma owed_prefix ls s : drain_inv ls s -> frames_of Drain (written ls) `prefix_of` ws_replies (clients ls).
Proof. intros [(rest & -> & _) _]. by eexists. Qed.

(** The text frames that were written are events of the channel, in their order. *)
Lemma sent_events n ls s : queue_inv n ls s -> stream_inv ls s -> exists sent rest, queued ls = sent ++ rest
  /\ len rest <= n + 1 /\ Forall2 (fun e text => marshal e = Some text) sent (texts (frames_of Stream (written ls))).
Proof.
  intros [[_ Hcap] Hc Hq] (sent & rest & Hr & Hf & Hp). exists sent, (rest ++ queue (s_hub s)).
  rewrite Hq, Hr, <- app_assoc, len_app. ands; [done| |done]. apply pending_length in Hp.
  assert (len (queue (s_hub s)) <= n).
  { unfold capacity in Hc. unfold queue. destruct (hub_chans (s_hub s) !! ch) as [c|] eqn:E; [|done].
    injection Hc as <-. by eapply Hcap. }
  unfold len in *. lia.
Qed.
End stream.

(** ** The trace stream *)

(** An event that the decoder reads back, with a text that fits a frame. *)
Definition sendable (e : ResolutionEvent) : Prop :=
  event_exact e /\ forall text, MarshalJSON e = Some text -> len text < 2 ^ 63.

(** The text of a frame is an event. *)
Definition event_text (e : ResolutionEvent) (text : bytes) : Prop :=
  exists m, DecodeMap text = Some (Some m)
    /\ read_event m = Some (valid_event e, (fun msg => any_of (message_value msg)) <$> ev_ParsedMsg e).

Lemma stream_start_inv h0 ch h : hub_inv h0 -> Subscribe 256 h0 = (ch, h) ->
  queue_inv (A := ResolutionEvent) ch 256 [] (stream_start h).
Proof.
  intros Hi [= <- <-]. split; cbn [s_hub stream_start].
  - apply (add_chan_inv 256); [lia|done].
  - unfold capacity. cbn [hub_chans]. by rewrite lookup_insert_eq.
  - unfold queue. cbn [hub_chans]. by rewrite lookup_insert_eq.
Qed.

Lemma queued_elem {A} (ls : list (label (A := A))) (P : A -> Prop) :
  Forall P (published ls) -> Forall P (queued ls).
Proof.
  intros H. apply Forall_forall. intros e He. rewrite Forall_forall in H. apply H.
  eapply elem_of_sublist; [exact He|apply queued_published].
Qed.

(** C19. Every client of the trace stream gets whole frames, whatever the two
    goroutines, the resolver and the connection do: what was written is the frames
    of finished [writeFrame]s, in their order and readable by RFC 6455, and then a part
    of one more at most.  The text frames are the events of the subscription in
    the order of their publication, none skipped, each decoded by a client to the
    event's fields, packets and time included; at most 257 events are on their way.
    An event is left out only when the channel had no room for it.  The answers to
    the client's own frames are in the order of those frames. *)
Theorem trace_stream_delivers h0 ch h ls s :
  hub_inv h0 -> Subscribe 256 h0 = (ch, h) -> runs MarshalJSON ch (stream_start h) ls s ->
  Forall sendable (published ls) ->
  (exists partial, parse_frames (length (written ls)) (s_out s) = Some (map snd (written ls), partial)
     /\ (s_closed s = false -> s_lock s = None -> partial = ""))
  /\ (exists sent rest, queued ls = sent ++ rest /\ len rest <= 257
        /\ Forall2 event_text sent (texts (frames_of Stream (written ls))))
  /\ queued ls `sublist_of` published ls
  /\ ((forall e, LPublish e false ∉ ls) -> queued ls = published ls)
  /\ frames_of Drain (written ls) `prefix_of` ws_replies (clients ls).
Proof.
  intros Hh Hsub Hr Hp.
  assert (frames_inv ls s) as Hf.
  { eapply (runs_invariant _ _ frames_inv); [|apply frames_step|exact Hr]. split; [intros w; cbn; split; congruence|].
    exists "", (mkFrame 0 ""). ands; [done|by eexists|done]. }
  assert (queue_inv ch 256 ls s) as Hq.
  { eapply (runs_invariant _ _ (queue_inv ch 256)); [by apply (stream_start_inv h0)|apply queue_step|exact Hr]. }
  assert (stream_inv MarshalJSON ls s) as Hs.
  { eapply (runs_invariant _ _ (stream_inv MarshalJSON)); [|apply stream_step|exact Hr]. by exists [], []. }
  assert (drain_inv ls s) as Hd.
  { eapply (runs_invariant _ _ drain_inv); [|apply drain_step|exact Hr]. split; [by exists []|by constructor]. }
  assert (small_inv ls s) as Hm.
  { eapply (runs_invariant _ _ small_inv); [|apply small_step|exact Hr]. by split. }
  destruct (sent_events _ _ _ _ _ Hq Hs) as (sent & rest & E & Hl & Hsent).
  apply queued_elem in Hp. rewrite E in Hp. apply Forall_app in Hp as [Hp _].
  ands; [| |apply queued_published|apply queued_all|by apply (owed_prefix _ s)].
  - destruct Hf as [_ (partial & f & -> & _ & Hc)]. exists partial. split.
    + apply parse_whole. destruct Hm as [Hm _]. apply Forall_forall. intros [w f0] Hin.
      rewrite Forall_forall in Hm. destruct (Hm _ Hin) as [Hop [Hs'|[Hw Htext]]]; cbn [fst snd] in *; [split; [done|lia]|].
      subst w. split; [done|]. assert (fr_payload f0 ∈ texts (frames_of Stream (written ls))) as Ht.
      { apply list_elem_of_omap. exists f0. rewrite Htext. split; [|done]. apply list_elem_of_omap. by exists (Stream, f0). }
      apply list_elem_of_lookup in Ht as [i Ht]. destruct (Forall2_lookup_r _ _ _ _ _ Hsent Ht) as (e & He & Hm').
      apply (proj2 (proj1 (Forall_forall _ _) Hp e (list_elem_of_lookup_2 _ _ _ He))). exact Hm'.
    + intros Hcl Hlock. rewrite Hc by done. unfold in_progress. by rewrite Hlock.
  - exists sent, rest. ands; [done|lia|]. clear - Hp Hsent. induction Hsent as [|e text sent ts He _ IH]; [constructor|].
    apply Forall_cons in Hp as [[Hx _] Hp]. constructor; [|by apply IH].
    destruct (MarshalJSON_reads e text [] He Hx I) as (m & Hm & Hm'). rewrite app_nil_r in Hm. by exists m.
Qed.

Definition demo_event : ResolutionEvent := local_event "q1" (1709210096 * Second) 1 "cache_hit" "a.example." "A" "".
Definition demo_text : bytes := default "" (MarshalJSON demo_event).
Definition demo_frame : client_frame := mkFrame 0x1 demo_text.
Definition demo_chan : nat := (Subscribe 256 (@new_hub ResolutionEvent)).1.
Definition demo_hub : Hub ResolutionEvent := (Subscribe 256 new_hub).2.
Definition demo_published : Hub ResolutionEvent :=
  mkHub {[demo_chan]} {[demo_chan := mkChan 256 [demo_event] false]}.
Definition demo_received : Hub ResolutionEvent := mkHub {[demo_chan]} {[demo_chan := mkChan 256 [] false]}.
Definition demo_labels : list (label (A := ResolutionEvent)) :=
  [LPublish demo_event true; LReceive demo_event; LOther; LOther; LWrote Stream demo_frame].

Lemma Forall2_only {B C} (P : B -> C -> Prop) b c sent rest : [b] = sent ++ rest -> Forall2 P sent [c] -> P b c.
Proof. intros E H. inversion H as [|x ? ? l Hx Hl]; subst. inversion Hl; subst. by injection E as -> _. Qed.

(** One event, from its publication to the client. *)
Theorem trace_stream_witness : exists s,
  runs MarshalJSON demo_chan (stream_start demo_hub) demo_labels s
  /\ parse_frames 1 (s_out s) = Some ([demo_frame], "") /\ event_text demo_event demo_text.
Proof.
  assert (exists s, runs MarshalJSON demo_chan (stream_start demo_hub) demo_labels s
    /\ s_closed s = false /\ s_lock s = None) as (s & Hr & Hc & Hl).
  { eexists. split.
    - eapply (run_step _ _ _ [LPublish demo_event true; LReceive demo_event; LOther; LOther]).
      { eapply (run_step _ _ _ [LPublish demo_event true; LReceive demo_event; LOther]).
        { eapply (run_step _ _ _ [LPublish demo_event true; LReceive demo_event]).
          { eapply (run_step _ _ _ [LPublish demo_event true]).
            { eapply (run_step _ _ _ []); [apply run_start|].
              replace true with (room demo_chan (s_hub (stream_start demo_hub))) by (vm_compute; reflexivity).
              apply (st_publish _ _ (stream_start demo_hub) demo_event demo_published). vm_compute. reflexivity. }
            apply (st_receive _ _ _ demo_event demo_received); vm_compute; reflexivity. }
          apply (st_lock _ _ _ Stream demo_frame); vm_compute; reflexivity. }
        apply (st_header _ _ _ Stream demo_frame); vm_compute; reflexivity. }
      apply (st_payload _ _ _ Stream demo_frame); vm_compute; reflexivity.
    - split; reflexivity. }
  exists s. split; [exact Hr|].
  destruct (trace_stream_delivers new_hub demo_chan demo_hub demo_labels s hub_inv_new eq_refl Hr) as
    ((partial & Hp & Hpart) & (sent & rest & Hq & _ & Hs) & _).
  { apply Forall_cons. split; [|exact (Forall_nil_2 _)]. split; [vm_compute; auto|].
    intros text E. assert (text = demo_text) as -> by (unfold demo_text; rewrite E; reflexivity). vm_compute. reflexivity. }
  rewrite (Hpart Hc Hl) in Hp. split; [exact Hp|].
  assert (texts (frames_of Stream (written demo_labels)) = [demo_text]) as Et by reflexivity.
  rewrite Et in Hs. change (queued demo_labels) with [demo_event] in Hq.
  exact (Forall2_only event_text _ _ _ _ Hq Hs).
Defined.

(** ** The loops

    What the loops of the three streams wake up for, with the value to send. *)

Inductive wake (A : Type) := Event (e : A) | PingTick | Ended.
Arguments Event {_} _.
Arguments PingTick {_}.
Arguments Ended {_}.

Definition wakeup_of {A} (marshal : A -> option bytes) (w : wake A) : wakeup :=
  match w with Event e => Value (marshal e) | PingTick => Tick | Ended => Done end.

Definition wsTrace_loop (wakes : list (wake ResolutionEvent)) : conn -> conn :=
  stream_loop (map (wakeup_of MarshalJSON) wakes).
Definition wsQueries_loop (wakes : list (wake QueryEvent)) : conn -> conn :=
  stream_loop (map (wakeup_of query_event_json) wakes).
(** [snapshot_json]: [json.Marshal] of a snapshot. *)
Definition wsMetrics_loop (snapshot_json : MetricsSnapshot -> option bytes) (wakes : list (wake MetricsSnapshot))
  : conn -> conn := stream_loop (map (wakeup_of snapshot_json) wakes).
