(* ===== verification/Router.v ===== *)
(** * internal/api/router.go, middleware.go, static_embed.go, pprof.go: from a
    request to its handler. *)

From S2P Require Import Prelude.
From S2P Require Import GoStrings.
From S2P Require Import GoTime.
From S2P Require Import GoNet.
From S2P Require Import GoPath.
From S2P Require Import GoURL.
From S2P Require Import GoDate.
From S2P Require Import Pipeline.
From S2P Require Import Settings.
From S2P Require Import Resolver.
From S2P Require Import Handler.
From S2P Require Import HandlerProps.
From S2P Require Import Api.
From S2P Require Import Websocket.

#[local] Open Scope go_scope.

(** ** Identifiers of requests *)

(** [time.RFC3339Nano] in UTC, without its colons. *)
Definition timestamp_id (t : Z) : bytes :=
  List.filter (fun c => negb (bool_decide (c = ":"%char))) (Format_RFC3339Nano t).

Example timestamp_id_example : timestamp_id (1709210096 * Second + 120000000) = "2024-02-29T123456.12Z".
Proof. by vm_compute. Qed.

Section middleware.
Context {U : UnicodeTables}.

Definition extractTraceID (traceparent : bytes) : bytes :=
  let traceparent := TrimSpace traceparent in
  if bool_decide (traceparent = "") then "" else
  match Split traceparent "-" with
  | [_; id; _; _] =>
      let traceID := ToLower (TrimSpace id) in
      let hex c := is_digit c || ((97 <=? Z_of_byte c) && (Z_of_byte c <=? 102)) in
      if negb (len traceID =? 32) then ""
      else if negb (forallb hex traceID) then ""
      else if bool_decide (traceID = repeat "0"%char 32) then "" else traceID
  | _ => ""
  end.

(** ** Authorisation *)

Definition requiresControlPlaneAuth (dp : Deps) (path : bytes) : bool :=
  let token := TrimSpace (dp_ControlPlaneToken dp) in
  if bool_decide (token = "") then false
  else if bool_decide (path = "/api/v1/health/live") || bool_decide (path = "/api/v1/health/ready") then false
  else if HasPrefix path "/api/" then true
  else if HasPrefix path "/ws/" then true
  else if bool_decide (path = "/metrics") || bool_decide (path = "/dns-query") then true
  else HasPrefix path "/debug/".

(** The comparison in constant time is an equality. *)
Definition secureTokenMatch (expected actual : bytes) : bool :=
  let expected := TrimSpace expected in
  let actual := TrimSpace actual in
  if bool_decide (expected = "") || bool_decide (actual = "") then false
  else bool_decide (expected = actual).

Definition token_candidates (r : request) : list bytes :=
  [TrimSpace (TrimPrefix (rq_Get r "Authorization") "Bearer "); TrimSpace (rq_Get r "X-API-Token");
   TrimSpace (Query_Get r "token")].

Definition authorizeControlPlaneRequest (dp : Deps) (r : request) : bool :=
  let expected := TrimSpace (dp_ControlPlaneToken dp) in
  if bool_decide (expected = "") then true
  else existsb (secureTokenMatch expected) (token_candidates r).

(** ** Headers *)

Definition cors_headers : list (bytes * bytes) :=
  [("Access-Control-Allow-Origin", "*"); ("Access-Control-Allow-Methods", "GET,POST,DELETE,OPTIONS");
   ("Access-Control-Allow-Headers", "Content-Type, Authorization, Traceparent, Tracestate")].
Definition security_headers : list (bytes * bytes) :=
  [("Content-Security-Policy", "default-src 'self'; script-src 'self'; style-src 'self' 'unsafe-inline'; connect-src 'self' ws: wss:; img-src 'self' data:; font-src 'self'");
   ("X-Content-Type-Options", "nosniff"); ("X-Frame-Options", "DENY");
   ("Referrer-Policy", "strict-origin-when-cross-origin");
   ("Permissions-Policy", "geolocation=(), microphone=(), camera=()")].

(** The headers set by the middleware, those of the handler in their place. *)
Definition with_headers (r : response) : response :=
  let keys := map fst (rs_Header r) in
  mkResponse (rs_Status r)
    (rs_Header r ++ List.filter (fun kv => negb (bool_decide (kv.1 ∈ keys))) (security_headers ++ cors_headers))
    (rs_Body r).

(** ** The static files

    [frontend path]: the content of an embedded file, [Some None] for a
    directory. *)
Context (frontend : bytes -> option (option bytes)) (frontendAvailable : bool).

Definition serveFrontend (r : request) : option response :=
  if negb frontendAvailable then None else
  let path := TrimPrefix (URL_Path r) "/" in
  if HasPrefix path "api/" || HasPrefix path "ws/" || HasPrefix path "dns-query" || HasPrefix path "debug/"
     || bool_decide (path = "metrics") then None
  else
  let path := if bool_decide (path = "") then "index.html" else path in
  match frontend path with
  | Some (Some _) => Some (mkResponse 200 [] (FileServer path))
  | _ =>
      if negb (bool_decide (path = "")) && Contains path "." then Some NotFound
      else match frontend "index.html" with
           | Some (Some index) => Some (mkResponse 200 [("Content-Type", "text/html; charset=utf-8")] (Raw index))
           | _ => None
           end
  end.

Definition index (r : request) : response := default NotFound (serveFrontend r).

(** ** Websocket handlers *)

Context (url_host : bytes -> option bytes) {W : Type} {T : Site W}.

(** The start of a stream: the refusals, then the subscription. *)
Definition ws_start (present : bool) (what : bytes) (r : request)
    (subscribe : prog (Handler * W) (option nat)) : prog (Handler * W) response :=
  needs present what (
  match acceptWebSocket url_host r with
  | inl err => mret (writeError 400 err)
  | inr reply => sub ← subscribe; mret (mkResponse 101 [] (Upgraded reply sub))
  end).

Definition wsTrace (dp : Deps) (r : request) : prog (Handler * W) response :=
  ws_start (dp_Resolver dp) "trace stream" r
    (fun '(res, hw) => let '(ch, res) := Resolver_Subscribe 256 res in (Ok (Some ch), (res, hw))).
Definition wsMetrics (dp : Deps) (r : request) : prog (Handler * W) response :=
  ws_start (dp_Metrics dp) "metrics stream" r (mret None).
Definition wsQueries (dp : Deps) (r : request) : prog (Handler * W) response :=
  ws_start (dp_DNSHandler dp) "query stream" r
    (fun '(res, (h, w)) => let '(ch, h) := SubscribeQueries 256 h in (Ok (Some ch), (res, (h, w)))).

(** ** Routes *)

Inductive route :=
| RLive | RReady | RResolve | RCacheStats | RCache | RCacheKey | RMetrics | RPrometheus | RHistory
| RHistoryByID | RReverse | RCompare | RBulk | RRootServers | RSettings | RSecurityStats | RDoH
| RWsTrace | RWsMetrics | RWsQueries | RIndex | RProfile (name : bytes).

Definition profiles : list (bytes * route) :=
  [("/debug/pprof/", RProfile "index"); ("/debug/pprof/cmdline", RProfile "cmdline");
   ("/debug/pprof/profile", RProfile "profile"); ("/debug/pprof/symbol", RProfile "symbol");
   ("/debug/pprof/trace", RProfile "trace"); ("/debug/pprof/goroutine", RProfile "goroutine");
   ("/debug/pprof/heap", RProfile "heap")].

Definition routes (dp : Deps) : list (bytes * route) :=
  [("/api/v1/health/live", RLive); ("/api/v1/health/ready", RReady); ("/api/v1/resolve", RResolve);
   ("/api/v1/cache/stats", RCacheStats); ("/api/v1/cache", RCache); ("/api/v1/cache/", RCacheKey);
   ("/api/v1/metrics", RMetrics)]
  ++ (if dp_Prometheus dp then [("/metrics", RPrometheus)] else [])
  ++ [("/api/v1/history", RHistory); ("/api/v1/history/", RHistoryByID); ("/api/v1/reverse", RReverse);
      ("/api/v1/compare", RCompare); ("/api/v1/bulk", RBulk); ("/api/v1/rootservers", RRootServers);
      ("/api/v1/settings", RSettings); ("/api/v1/security/stats", RSecurityStats); ("/dns-query", RDoH);
      ("/ws/trace", RWsTrace); ("/ws/metrics", RWsMetrics); ("/ws/queries", RWsQueries); ("/", RIndex)]
  ++ (if dp_PPROFEnabled dp then profiles else []).

Definition run_route (dp : Deps) (ctx : context) (r : request) (rt : route) : prog (Handler * W) response :=
  match rt with
  | RLive => mret live
  | RReady => ready
  | RResolve => resolve_handler dp r
  | RCacheStats => cacheStats dp r
  | RCache => cache_handler dp r
  | RCacheKey => cacheKey_handler dp r
  | RMetrics => metrics_handler dp r
  | RPrometheus => prometheus_handler dp
  | RHistory => history dp r
  | RHistoryByID => historyByID dp r
  | RReverse => reverseLookup dp r
  | RCompare => compare r
  | RBulk => bulk dp r
  | RRootServers => rootservers dp r
  | RSettings => panic
  | RSecurityStats => securityStats dp r
  | RDoH => doh dp ctx r
  | RWsTrace => wsTrace dp r
  | RWsMetrics => wsMetrics dp r
  | RWsQueries => wsQueries dp r
  | RIndex => mret (index r)
  | RProfile name => mret (mkResponse 200 [] (Profile name))
  end.

(** A redirect; its headers and body are those of net/http. *)
Definition redirect : response := mkResponse 301 [] (Raw "").

(** The mux: only the settings handler uses the settings of the API. *)
Definition mux_serve (dp : Deps) (ctx : context) (r : request) (s : gmap bytes any)
  : prog (Handler * W) (response * gmap bytes any) :=
  match findHandler (routes dp) (rq_Method r) (rq_EscapedPath r) with
  | Serve RSettings => settings_handler dp r s
  | Serve rt => out ← run_route dp ctx r rt; mret (out, s)
  | MovedTo _ => mret (redirect, s)
  | NoRoute => mret (NotFound, s)
  end.

(** ** The middleware *)

Definition newRequestID : prog (Handler * W) bytes := fun '(r, (h, w)) =>
  match s_rand 16 w with
  | (Some b, w) => (Ok (flat_map hex_byte b), (r, (h, w)))
  | (None, w) => let '(t, w) := s_now w in (Ok (timestamp_id t), (r, (h, w)))
  end.

Definition serve (dp : Deps) (r : request) (s : gmap bytes any)
  : prog (Handler * W) (response * gmap bytes any) :=
  if bool_decide (rq_Method r = "OPTIONS") then mret (with_headers (mkResponse 204 [] (Raw "")), s) else
  if requiresControlPlaneAuth dp (URL_Path r) && negb (authorizeControlPlaneRequest dp r)
  then mret (with_headers (writeError 401 "unauthorized"), s) else
  reqID ← newRequestID;
  let ctx := mkContext reqID (extractTraceID (rq_Get r "traceparent")) in
  start ← now;
  '(out, s) ← mux_serve dp ctx r s;
  (if dp_Logger dp then
     t ← now;
     outside (fun w => (tt, site_log (mkHttpLog ctx (rq_Method r) (URL_Path r) (rq_RemoteAddr r)
                                        (Milliseconds (time_Sub t start))) w))
   else mret tt);;
  mret (with_headers out, s).
End middleware.

(** ** The control plane is protected *)

Definition open_route (rt : route) : bool :=
  match rt with RLive | RReady | RIndex => true | _ => false end.

Section protected.
Context {U : UnicodeTables}.

(** A pattern all of whose paths need the token. *)
Definition guarded (dp : Deps) (text : bytes) : Prop :=
  pattern_text (parse_pattern text) = text /\ pt_segments (parse_pattern text) <> []
  /\ requiresControlPlaneAuth dp text = true
  /\ (pt_below (parse_pattern text) = true -> forall k, requiresControlPlaneAuth dp (text ++ k) = true).

Lemma guarded_by dp text : TrimSpace (dp_ControlPlaneToken dp) <> "" ->
  bool_decide (pattern_text (parse_pattern text) = text) = true ->
  bool_decide (pt_segments (parse_pattern text) = []) = false ->
  requiresControlPlaneAuth (mkDeps true true true true true true true "x") text = true ->
  (pt_below (parse_pattern text) = true -> forall k,
     requiresControlPlaneAuth (mkDeps true true true true true true true "x") (text ++ k) = true) ->
  guarded dp text.
Proof.
  intros Ht Hp Hs Hr Hk. apply bool_decide_eq_true in Hp. apply bool_decide_eq_false in Hs. unfold guarded.
  assert (forall p, requiresControlPlaneAuth dp p
            = requiresControlPlaneAuth (mkDeps true true true true true true true "x") p) as E.
  { intros p. unfold requiresControlPlaneAuth at 1. rewrite bool_decide_eq_false_2 by done. done. }
  rewrite E. ands; [done..|]. intros Hb k. rewrite E. by apply Hk.
Qed.

Lemma routes_guarded dp : TrimSpace (dp_ControlPlaneToken dp) <> "" ->
  Forall (fun tr => open_route tr.2 = true \/ guarded dp tr.1) (routes dp).
Proof.
  intros Ht. unfold routes, profiles.
  assert (forall text, bool_decide (pattern_text (parse_pattern text) = text) = true ->
    bool_decide (pt_segments (parse_pattern text) = []) = false ->
    requiresControlPlaneAuth (mkDeps true true true true true true true "x") text = true ->
    (pt_below (parse_pattern text) = true -> forall k,
       requiresControlPlaneAuth (mkDeps true true true true true true true "x") (text ++ k) = true) ->
    guarded dp text) as G by (intros; by apply guarded_by).
  rewrite !Forall_app. ands; try (destruct (dp_Prometheus dp)); try (destruct (dp_PPROFEnabled dp));
    repeat (apply Forall_cons_2 || apply Forall_nil_2); cbn [fst snd];
    (left; reflexivity) || (right; apply G; [vm_compute; reflexivity..|]).
  all: try (intros Hb; vm_compute in Hb; discriminate Hb).
  all: intros _ k; vm_compute; reflexivity.
Qed.

(** What an unauthorised client may see. *)
Definition public_response {W} {T : Site W} (frontend : bytes -> option (option bytes)) (available : bool)
    (r : request) (out : response) : Prop :=
  out = with_headers (mkResponse 204 [] (Raw "")) \/ out = with_headers (writeError 401 "unauthorized")
  \/ out = with_headers live \/ (exists s o, (ready s).1 = Ok o /\ out = with_headers o)
  \/ out = with_headers (index frontend available r) \/ out = with_headers redirect
  \/ out = with_headers NotFound.

Context (frontend : bytes -> option (option bytes)) (available : bool) (url_host : bytes -> option bytes)
  {W : Type} {T : Site W}.

(** A program that leaves the resolver and the handler as they are. *)
Definition idle {A} (m : prog (Handler * W) A) (R : A -> Prop) : Prop :=
  forall s, exists a s', m s = (Ok a, s') /\ s'.1 = s.1 /\ s'.2.1 = s.2.1 /\ R a.

Lemma idle_ret {A} (a : A) (R : A -> Prop) : R a -> idle (mret a) R.
Proof. intros H s. by exists a, s. Qed.

Lemma idle_bind {A B} (m : prog (Handler * W) A) (k : A -> prog (Handler * W) B) Q R :
  idle m Q -> (forall a, Q a -> idle (k a) R) -> idle (m ≫= k) R.
Proof.
  intros Hm Hk s. destruct (Hm s) as (a & s1 & E1 & Hr & Hh & Ha).
  destruct (Hk a Ha s1) as (b & s2 & E2 & Hr2 & Hh2 & Hb). exists b, s2.
  unfold mbind, prog_bind. rewrite E1. ands; congruence || done.
Qed.

Lemma idle_outside {A} (f : W -> A * W) : idle (outside f) (fun _ => True).
Proof. intros [r [h w]]. unfold outside. destruct (f w) as [a w']. by exists a, (r, (h, w')). Qed.

Lemma idle_now : idle now (fun _ => True).
Proof. intros [r [h w]]. unfold now, r_now. cbn. destruct (s_now w) as [t w']. by eexists _, _. Qed.

Lemma idle_newRequestID : idle newRequestID (fun _ => True).
Proof.
  intros [r [h w]]. unfold newRequestID. destruct (s_rand 16 w) as [[b|] w1]; [by eexists _, _|].
  destruct (s_now w1) as [t w2]. by eexists _, _.
Qed.

(** The mux on a path that needs no token. *)
Lemma idle_mux dp ctx r st u : TrimSpace (dp_ControlPlaneToken dp) <> "" ->
  PathUnescape (rq_EscapedPath r) = Some u -> requiresControlPlaneAuth dp u = false ->
  idle (mux_serve frontend available url_host dp ctx r st)
    (fun x => x.2 = st /\ public_response frontend available r (with_headers x.1)).
Proof.
  intros Ht Eu Hu. unfold mux_serve, findHandler. 
  set (cleaned := if bool_decide (rq_Method r = "CONNECT") then rq_EscapedPath r else cleanPath (rq_EscapedPath r)).
  assert (public_response frontend available r (with_headers redirect)) as Hr by (unfold public_response; tauto).
  bcase; [by apply idle_ret|]. bcase; [by apply idle_ret|].
  apply negb_false_iff, bool_decide_eq_true in Hb0. rewrite Hb0.
  destruct (mux_match (routes dp) (rq_EscapedPath r)) as [[p rt]|] eqn:Em;
    [|apply idle_ret; split; [done|unfold public_response; tauto]].
  apply mux_match_in in Em as (text & Hin & -> & Hm).
  pose proof (routes_guarded dp Ht) as F. rewrite Forall_forall in F.
  destruct (F _ Hin) as [Ho|(Hp & Hs & Hg & Hk)]; cbn [fst snd] in *.
  - unfold public_response. destruct rt; try done; cbn [run_route].
    + apply (idle_bind _ _ (fun o => o = live)); [by apply idle_ret|]. intros o ->. apply idle_ret. tauto.
    + apply (idle_bind _ _ (fun o => exists s, (ready s).1 = Ok o)).
      * intros [r1 [h1 w1]]. eexists _, _. split; [done|]. ands; try done. by exists (r1, (h1, w1)).
      * intros o [s Hs]. apply idle_ret. cbn [fst snd]. split; [done|]. right. right. right. left. eauto.
    + apply (idle_bind _ _ (fun o => o = index frontend available r)); [by apply idle_ret|].
      intros o ->. apply idle_ret. tauto.
  - exfalso. destruct (match_text (parse_pattern text) _ _ Eu) as [E|[Hb1 E]]; [|done|..].
    + by left.
    + congruence.
    + rewrite Hp, HasPrefix_spec in E. destruct E as [k ->]. by rewrite Hk in Hu.
Qed.

(** C5. When a control-plane token is configured, a request that does not
    present it, whatever its method, path, query and body, gets one of the public
    answers (a CORS preflight, 401, the health checks, the static files, a
    redirect or 404) and changes neither the resolver, its cache and blocklist,
    nor the handler, nor the settings. *)
Theorem control_plane_protected (dp : Deps) (r : request) (st : gmap bytes any) s :
  TrimSpace (dp_ControlPlaneToken dp) <> "" -> authorizeControlPlaneRequest dp r = false ->
  is_Some (PathUnescape (rq_EscapedPath r)) ->
  exists out s', serve frontend available url_host dp r st s = (Ok (out, st), s')
    /\ s'.1 = s.1 /\ s'.2.1 = s.2.1 /\ public_response frontend available r out.
Proof.
  intros Ht Ha [u Eu].
  assert (idle (serve frontend available url_host dp r st)
            (fun x => x.2 = st /\ public_response frontend available r x.1)) as I.
  { unfold serve. bcase; [apply idle_ret; split; [done|by left]|].
    unfold URL_Path. rewrite Eu, Ha. cbn [default negb]. bcase.
    { apply idle_ret. split; [done|]. right. by left. }
    rewrite andb_true_r in Hb0.
    apply (idle_bind _ _ (fun _ => True)); [apply idle_newRequestID|]. intros id _.
    apply (idle_bind _ _ (fun _ => True)); [apply idle_now|]. intros start _.
    eapply idle_bind; [by eapply idle_mux|]. intros [out st'] [Hst Hout]. cbn [fst snd] in *.
    apply (idle_bind _ _ (fun _ => True)).
    { bcase; [|by apply idle_ret]. apply (idle_bind _ _ (fun _ => True)); [apply idle_now|].
      intros t _. apply idle_outside. }
    intros _ _. by apply idle_ret. }
  destruct (I s) as ([out st'] & s' & E & Hr & Hh & Hst & Hout). cbn [fst snd] in *. subst st'.
  by exists out, s'.
Qed.
End protected.

Definition flush_request (headers : list (bytes * bytes)) : request :=
  mkRequest "DELETE" "/api/v1/cache" "" headers (inr ("" : bytes)) "192.0.2.7:1234" "dns.example".

(** Without the token the cache is not flushed; with it, it is. *)
Theorem control_plane_protected_witness :
  let serve := @serve latin1 (fun _ => None) true (fun _ => None) unit quiet_site (lab_deps " secret ") in
  (exists out s', serve (flush_request [("Authorization", "Bearer wrong")]) ∅ lab_state = (Ok (out, ∅), s')
     /\ s'.1 = lab_state.1 /\ s'.2.1 = lab_state.2.1)
  /\ match (serve (flush_request [("Authorization", "Bearer secret")]) ∅ lab_state).1 with
     | Ok (out, _) => rs_Status out = 200
     | _ => False
     end.
Proof.
  intros serve. split.
  - destruct (@control_plane_protected latin1 (fun _ => None) true (fun _ => None) unit quiet_site
      (lab_deps " secret ") (flush_request [("Authorization", "Bearer wrong")]) ∅ lab_state)
      as (out & s' & E & Hr & Hh & _).
    + vm_compute. discriminate.
    + vm_compute. reflexivity.
    + vm_compute. eexists. reflexivity.
    + exists out, s'. split; [exact E|]. split; [exact Hr|exact Hh].
  - vm_compute. reflexivity.
Defined.
