(* ===== verification/ApiProps.v ===== *)
(** * Properties of the HTTP interface. *)

From S2P Require Import Prelude.
From S2P Require Import GoStrings.
From S2P Require Import GoTime.
From S2P Require Import GoNet.
From S2P Require Import GoURL.
From S2P Require Import GoBase64.
From S2P Require Import GoJson.
From S2P Require Import Protocol.
From S2P Require Import Decoder.
From S2P Require Import Encoder.
From S2P Require Import WireRoundtrip.
From S2P Require Import Cache.
From S2P Require Import CacheSpec.
From S2P Require Import Pipeline.
From S2P Require Import Recursive.
From S2P Require Import RateLimits.
From S2P Require Import Settings.
From S2P Require Import Resolver.
From S2P Require Import ResolverProps.
From S2P Require Import Handler.
From S2P Require Import HandlerProps.
From S2P Require Import ResolveProps.
From S2P Require Import ApiCompare.
From S2P Require Import Api.
From S2P Require Import Websocket.
From S2P Require Import Router.

#[local] Open Scope go_scope.

(** ** Every request keeps the invariants

    net/http recovers the panic of a handler, so the state matters on that path
    too: [keeps] allows [Panic], but no cut loop. *)

Section keeps.
Context {U : UnicodeTables} {W : Type} {T : Site W}.
Context (interference : forall id n name type servers (s : Resolver * (Handler * W)),
  good s ->
  rtc atomic s.1 (s_query id n name type servers s).2.1
  /\ handler_ok (s_query id n name type servers s).2.2.1).

Definition keeps {A} (m : prog (Handler * W) A) : Prop :=
  forall s, good s -> good (m s).2 /\ (m s).1 <> Fuel.

Lemma k_ret {A} (a : A) : keeps (mret a).
Proof. by intros s Hs. Qed.

Lemma k_panic {A} : keeps (panic : prog (Handler * W) A).
Proof. by intros s Hs. Qed.

Lemma k_bind {A B} (m : prog (Handler * W) A) (k : A -> prog (Handler * W) B) :
  keeps m -> (forall a, keeps (k a)) -> keeps (m ≫= k).
Proof.
  intros Hm Hk s Hs. destruct (Hm s Hs) as [H1 H2]. unfold mbind, prog_bind.
  destruct (m s) as [[a|e| |] s']; cbn [fst snd] in *; try done. by apply Hk.
Qed.

Lemma k_post {A} (m : prog (Handler * W) A) R : hpost m R -> keeps m.
Proof.
  intros H s Hs. destruct (H s Hs) as [H1 H2]. split; [done|]. by intros E; rewrite E in H1.
Qed.

Lemma k_guarantees {A} (m : prog (Handler * W) A) :
  guarantees (Q := fun hw => handler_ok hw.1) m -> keeps m.
Proof.
  intros H s [Hr Hh]. destruct (H s Hr Hh) as (H1 & H2 & H3). split; [split; [by eapply atomics_ok|done]|].
  by intros E; rewrite E in H1.
Qed.

Lemma k_attempt {A} (m : prog (Handler * W) A) : keeps m -> keeps (attempt m).
Proof.
  intros H s Hs. destruct (H s Hs) as [H1 H2]. unfold attempt. by destruct (m s) as [[a|e| |] s'].
Qed.

Lemma k_now : keeps now.
Proof. apply (k_post _ _ hp_now). Qed.
Lemma k_get : keeps get.
Proof. by intros s Hs. Qed.
Lemma k_hget : keeps hget.
Proof. apply (k_post _ _ hp_hget). Qed.
Lemma k_outside {A} (f : W -> A * W) : keeps (outside f).
Proof. intros [r [h w]] Hs. unfold outside. by destruct (f w). Qed.
Lemma k_result {A} (x : result bytes A) : x <> Fuel -> keeps (of_result x).
Proof. by intros H s Hs. Qed.

(** A step on the resolver alone. *)
Lemma k_act {A} (f : Resolver -> A * Resolver) : (forall r, rtc atomic r (f r).2) ->
  keeps (act (fun '(r, hw) => let '(a, r) := f r in (Ok a, (r, hw)))).
Proof.
  intros H [r hw] [Hr Hh]. unfold act. specialize (H r). destruct (f r) as [a r']. split; [|done].
  split; [by eapply atomics_ok|done].
Qed.

Lemma k_on_cache {A} (f : Z -> Cache -> A * Cache) :
  (forall t c, (f t c).2 = c \/ exists o, (f t c).2 = (CacheSpec.step o c).2) -> keeps (on_cache f).
Proof.
  intros H. apply k_bind; [apply k_now|]. intros t. unfold act. intros [r hw] [Hr Hh].
  specialize (H t (r_cache r)). destruct (f t (r_cache r)) as [a c]. cbn [snd] in H. split; [|done].
  split; [|done]. cbn [fst snd].
  destruct H as [-> | [o ->]]; [by destruct Hr|]. eapply atomics_ok; [apply cache_op_atomic|done].
Qed.

Lemma k_Resolve qname qtype : keeps (Resolve qname qtype).
Proof.
  apply k_guarantees, (g_Resolve handler_stable). intros id n name type servers s H1 H2.
  apply interference. by split.
Qed.

Lemma k_message_of res : keeps (message_of res).
Proof. unfold message_of. by destruct (rr_Message res). Qed.

(** A goroutine must not panic. *)
Lemma k_goroutine {A} (m : prog (Handler * W) A) :
  keeps m -> (forall s, good s -> (m s).1 <> Panic) -> keeps (goroutine m).
Proof.
  intros Hm Hp s Hs. destruct (Hm s Hs) as [H1 H2]. specialize (Hp s Hs). unfold goroutine.
  by destruct (m s) as [[a|e| |] s'].
Qed.

Lemma k_guard ok refusal k : keeps k -> keeps (guard ok refusal k).
Proof. intros H. unfold guard. bcase; [done|apply k_ret]. Qed.

Create HintDb keeps discriminated.
#[local] Hint Constants Opaque : keeps.
#[local] Hint Resolve k_ret k_panic k_attempt k_now k_get k_hget k_outside k_Resolve k_message_of : keeps.

(** One step into the structure of a program. *)
Ltac keep_step :=
  first [ solve [eauto with keeps]
        | apply k_on_cache
        | apply k_guard
        | apply k_bind; [|intro]
        | match goal with |- keeps (match ?x with _ => _ end) => destruct x end
        | match goal with |- keeps (let '(_, _) := ?x in _) => destruct x end
        | progress cbv zeta ].
Ltac keep := repeat keep_step.

Lemma k_resolve_handler dp r : keeps (resolve_handler dp r).
Proof. unfold resolve_handler, method_is, needs. keep. Qed.

Lemma k_reverseLookup dp r : keeps (reverseLookup dp r).
Proof. unfold reverseLookup, method_is, needs. keep. Qed.

Lemma k_cache_handlers dp r :
  keeps (cache_handler dp r) /\ keeps (cacheKey_handler dp r) /\ keeps (cacheStats dp r).
Proof.
  unfold cache_handler, cacheKey_handler, cacheStats, method_is, needs.
  ands; keep; intros t c; cbn [snd]; auto.
  - right. by exists (OFlush t).
  - right. by eexists (ODelete t _).
Qed.

Lemma k_metrics dp r : keeps (metrics_handler dp r).
Proof. unfold metrics_handler, method_is, needs. keep. Qed.

Lemma k_prometheus dp : keeps (prometheus_handler dp).
Proof. unfold prometheus_handler. keep. Qed.

Lemma k_history_item dp item : keeps (history_item dp item).
Proof. unfold history_item. keep. apply (k_post _ _ (hp_ReverseHostname _)). Qed.

(** The loops of a handler keep the invariants because each round does. *)
Lemma k_history dp r : keeps (history dp r).
Proof.
  unfold history, method_is, needs. keep.
  - apply k_result. unfold History, slice. repeat bcase; done.
  - match goal with |- keeps (history_items _ ?l) => generalize l end.
    intros l. induction l as [|x l IH]; [apply k_ret|]. cbn [history_items].
    apply k_bind; [apply k_history_item|]. intros item. apply k_bind; [exact IH|]. intros items. apply k_ret.
Qed.

Lemma k_replay dp r id : keeps (historyReplay dp r id).
Proof. unfold historyReplay, method_is. keep. Qed.

Lemma k_historyByID dp r : keeps (historyByID dp r).
Proof. unfold historyByID, method_is, needs. keep. Qed.

Lemma accept_packet_returns q packet : safe (accept_packet q packet).
Proof.
  unfold accept_packet. apply safe_bind; [apply safe_map_err, (post_safe _ _ (Decode_post packet))|].
  intros m _. by destruct (validateExternalResponse q m).
Qed.

Lemma read_full_post n stream : 0 <= n -> post (fun x => len x.1 = n) (read_full n stream).
Proof.
  intros Hn. unfold read_full. destruct stream as [data err]. bcase; [done|]. cbn [post fst].
  unfold len in *. rewrite length_take. lia.
Qed.

Lemma read_reply_returns q stream : safe (read_reply q stream).
Proof.
  unfold read_reply. pose proof (read_full_post 2 stream ltac:(lia)) as H.
  destruct (read_full 2 stream) as [[lenBuf rest]|e| |]; try done. cbn [post fst] in H. cbn [mbind result_bind].
  destruct lenBuf as [|a [|b [|]]]; try (unfold len in H; cbn in H; lia).
  rewrite Uint16_pair. cbn [mbind result_bind]. bcase; [done|].
  set (size := _ + _) in *. pose proof (read_full_post size rest) as H2.
  destruct (read_full size rest) as [[payload tail]|e| |]; try (exfalso; apply H2; lia); try done.
  apply accept_packet_returns.
Qed.

Lemma resolveViaServer_returns ip qname qtype w : safe (resolveViaServer ip qname qtype w).1.
Proof.
  unfold resolveViaServer. destruct (d_now w) as [t w1]. set (q := mkMessage _ _ _ _ _).
  pose proof (post_safe _ _ (Encode_post (Some q))) as He.
  destruct (Encode (Some q)) as [m' [wire|e| |]]; try done.
  destruct (ParseIP ip) as [addr|]; [|done]. destruct (d_udp _ wire w1) as [[err|d] w2]; [done|].
  pose proof (accept_packet_returns q (take (Z.to_nat MaxUDPPacketLen) d)) as Ha.
  destruct (accept_packet _ _) as [m|e| |]; try done. bcase; [|done].
  unfold resolveViaServerTCP. destruct (d_tcp _ _ w2) as [[err|stream] w3]; [done|]. apply read_reply_returns.
Qed.

Lemma k_compare_server q qtype s :
  keeps (goroutine (act (fun '(r, (h, w)) => let '(x, w) := compare_server q qtype s w in (x, (r, (h, w)))))).
Proof.
  intros [r [h w]] Hs. unfold goroutine, act, compare_server. pose proof (resolveViaServer_returns s q qtype w) as H.
  by destruct (resolveViaServer s q qtype w) as [[m|e| |] w'].
Qed.

Lemma k_compare r : keeps (compare r).
Proof.
  unfold compare, method_is, needs. keep.
  match goal with |- keeps (compare_servers ?l _ _) => generalize l end. intros l.
  induction l as [|s l IH]; [apply k_ret|]. cbn [compare_servers].
  apply k_bind; [apply k_compare_server|]. intros x. apply k_bind; [exact IH|]. intros xs. apply k_ret.
Qed.

(** What a slot of the results says of the resolution of its query. *)
Definition reports (q : bytes) (res : result bytes ResolveResult) (x : bulkItem) : Prop :=
  bi_Query x = q /\
  match res with
  | Ok a => exists m, rr_Message a = Some m /\ bi_RCode x = RCodeToString (h_RCode (m_Header m))
              /\ bi_Error x = ""
  | Err e => bi_RCode x = "" /\ bi_Error x = e
  | Panic | Fuel => False
  end.

Definition after_now (s : Resolver * (Handler * W)) : Resolver * (Handler * W) :=
  (s.1, (s.2.1, (s_now s.2.2).2)).

(** A goroutine resolves its own query and reports the result. *)
Lemma bulk_item_run qtype q s : good s ->
  exists x res s2, Resolve q qtype (after_now s) = (res, s2) /\ good s2
    /\ goroutine (bulk_item qtype q) s = (Ok x, after_now s2) /\ reports q res x.
Proof.
  intros Hs. unfold bulk_item, goroutine. destruct s as [r [h w]].
  unfold mbind at 1, prog_bind at 1. rewrite now_run.
  assert (good (after_now (r, (h, w)))) as Hs1 by done. change (r, (h, (s_now w).2)) with (after_now (r, (h, w))).
  set (s1 := after_now _) in *. unfold mbind at 1, prog_bind at 1, attempt.
  destruct (hp_resolve interference q qtype s1 Hs1) as [Hp Hg]. unfold resolve in Hp, Hg.
  pose proof (wp_Resolve_message q qtype s1) as Hm. unfold wp in Hm.
  destruct (Resolve q qtype s1) as [[a|e| |] s2]; cbn [post fst snd] in Hp, Hg; try done.
  - destruct Hm as [m Em]. destruct s2 as [r2 [h2 w2]].
    unfold mbind at 1, prog_bind at 1, message_of. rewrite Em. cbn [mret prog_ret]. unfold mret at 1, prog_ret at 1.
    unfold mbind, prog_bind. rewrite now_run. eexists _, (Ok a), _. split; [done|]. split; [done|].
    split; [done|]. split; [done|]. by exists m.
  - destruct s2 as [r2 [h2 w2]]. unfold mbind, prog_bind. rewrite now_run.
    by eexists _, (Err e), _.
Qed.

(** The resolutions of a run, one after the other from the state [s]: [results]
    holds what each of them reports. *)
Fixpoint answered_in (order : list nat) (queries : list bytes) (qtype : Z) s (results : list bulkItem) : Prop :=
  match order with
  | [] => True
  | i :: rest =>
      exists q x res s2, queries !! i = Some q /\ Resolve q qtype (after_now s) = (res, s2)
        /\ results !! i = Some x /\ reports q res x
        /\ answered_in rest queries qtype (after_now s2) results
  end.

Lemma bulk_run_good order queries qtype : forall results s,
  good s -> exists rs s', bulk_run order queries qtype results s = (Ok rs, s') /\ good s'.
Proof.
  induction order as [|i order IH]; intros results s Hs; cbn [bulk_run]; [by eexists _, _|].
  destruct (queries !! i) as [q|]; [|by apply IH].
  destruct (bulk_item_run qtype q s Hs) as (x & res & s2 & _ & Hg & E & _).
  unfold mbind, prog_bind. rewrite E. by apply IH.
Qed.

Lemma k_bulk_run order queries qtype results : keeps (bulk_run order queries qtype results).
Proof.
  intros s Hs. destruct (bulk_run_good order queries qtype results s Hs) as (rs & s' & -> & H). by split.
Qed.

Lemma bulk_run_slots queries qtype order : forall results s,
  good s -> length results = length queries -> Forall (fun i => (i < length queries)%nat) order -> NoDup order ->
  exists rs s', bulk_run order queries qtype results s = (Ok rs, s') /\ good s' /\ length rs = length queries
    /\ (forall i, i ∉ order -> rs !! i = results !! i) /\ answered_in order queries qtype s rs.
Proof.
  induction order as [|i order IH]; intros results s Hs Hl Ho Hd; cbn [bulk_run answered_in].
  { eexists _, _. split; [done|]. split; [done|]. by split. }
  apply Forall_cons in Ho as [Hi Ho]. apply NoDup_cons in Hd as [Hni Hd].
  destruct (lookup_lt_is_Some_2 _ _ Hi) as [q Hq]. rewrite Hq.
  destruct (bulk_item_run qtype q s Hs) as (x & res & s2 & Hr & Hg & E & Hrep).
  unfold mbind, prog_bind. rewrite E.
  destruct (IH (<[i := x]> results) (after_now s2)) as (rs & s' & E' & G & L & Hout & Ha); try done.
  { by rewrite length_insert. }
  exists rs, s'. split; [done|]. split; [done|]. split; [done|]. split.
  - intros j Hj. apply not_elem_of_cons in Hj as [H1 H2]. rewrite Hout by done.
    by rewrite list_lookup_insert_ne.
  - exists q, x, res, s2. ands; try done. rewrite Hout by done. by rewrite list_lookup_insert_eq by lia.
Qed.

Lemma k_bulk dp r : keeps (bulk dp r).
Proof.
  unfold bulk, method_is, needs. do 3 apply k_guard. apply k_bind; [apply k_outside|]. intros order.
  apply k_bind; [apply k_bulk_run|]. intros results. keep.
Qed.

Lemma k_rootservers dp r : keeps (rootservers dp r).
Proof.
  unfold rootservers, method_is, needs. do 2 apply k_guard.
  apply k_bind; [apply k_act|intros a; apply k_bind; [apply k_act|intros b; apply k_ret]]; intros res.
  - unfold RootServers. destruct (root_statuses _ _ _ _). apply rtc_once, at_shared.
  - unfold UpstreamStatuses. destruct (add_roots _ _ _ _ _) as [[b o] n]. apply rtc_once, at_shared.
Qed.

(** *** Settings *)

Lemma k_show_settings s : keeps (show_settings s).
Proof. by intros [r [h w]] Hs. Qed.

Lemma apply_core m h applied :
  same_core h (apply_switches m h applied).1 /\ same_core h (apply_limiter m h applied).1
  /\ same_core h (apply_rrl m h applied).1.
Proof.
  unfold apply_switches, apply_limiter, apply_rrl. cbv zeta.
  ands; [done| |].
  - destruct (hd_limiter h); [|done]. bcase; [|done]. by destruct (Limiter_Config _).
  - destruct (hd_rrl h); [|done]. bcase; [|done]. by destruct (RRL_Config _).
Qed.

Lemma k_Handler_settings m : keeps (Handler_ApplyRuntimeSettings m).
Proof.
  unfold Handler_ApplyRuntimeSettings. destruct m as [m|]; [|apply k_ret].
  apply k_bind; [apply k_now|]. intros t [r [h w]] [Hr Hh]. unfold act. cbn [fst snd] in *.
  pose proof (ApplyRuntimeSettings_atomic t (Some m) r) as H.
  destruct (ApplyRuntimeSettings t (Some m) r) as [applied r1]. cbn [snd] in H.
  destruct (apply_core m h applied) as (C1 & _ & _). destruct (apply_switches m h applied) as [h1 a1].
  destruct (apply_core m h1 a1) as (_ & C2 & _). destruct (apply_limiter m h1 a1) as [h2 a2].
  destruct (apply_core m h2 a2) as (_ & _ & C3). destruct (apply_rrl m h2 a2) as [h3 a3].
  cbn [fst snd] in *. split; [|done]. split; [by eapply atomics_ok|].
  eapply same_core_ok; [exact C3|]. eapply same_core_ok; [exact C2|]. by eapply same_core_ok.
Qed.

Lemma k_settings dp r s : keeps (settings_handler dp r s).
Proof.
  unfold settings_handler. repeat (bcase; [try apply k_ret|]).
  - apply k_bind; [apply k_show_settings|]. intros out. apply k_ret.
  - destruct (match rq_Body r with inl _ => None | inr b => DecodeMap b end) as [m|]; [|apply k_ret].
    unfold post_settings. destruct (posted_blocklist _) as [err|raw]; [apply k_ret|].
    apply k_bind.
    { destruct raw as [text|]; [|apply k_ret]. apply k_guarantees, (g_ReplaceBlocklist handler_stable). }
    intros _. apply k_bind; [apply k_Handler_settings|]. intros applied. cbv zeta.
    apply k_bind; [apply k_show_settings|]. intros out. apply k_ret.
  - apply k_ret.
Qed.

Lemma k_securityStats dp r : keeps (securityStats dp r).
Proof. unfold securityStats, method_is. do 2 apply k_guard. by intros [res [h w]] Hs. Qed.

Lemma k_doh dp ctx r : keeps (doh dp ctx r).
Proof.
  unfold doh, needs, parseRemoteAddr. destruct (doh_payload r) as [refusal|payload]; [apply k_ret|].
  apply k_guard. apply k_bind; [keep|]. intros addr.
  apply k_bind; [apply k_attempt, (k_post _ _ (hp_HandlePacket interference _ _ _ _))|].
  intros out. keep.
Qed.
(** *** The router *)

Context (frontend : bytes -> option (option bytes)) (available : bool) (url_host : bytes -> option bytes).

Lemma k_ws_start present what r sub : keeps sub -> keeps (ws_start url_host present what r sub).
Proof.
  intros H. unfold ws_start, needs. apply k_guard. destruct (acceptWebSocket url_host r); [apply k_ret|].
  apply k_bind; [exact H|]. intros ch. apply k_ret.
Qed.

Lemma k_run_route dp ctx r rt : keeps (run_route frontend available url_host dp ctx r rt).
Proof.
  destruct (k_cache_handlers dp r) as (K1 & K2 & K3).
  destruct rt; cbn [run_route]; first
    [ apply k_ret | apply k_panic | apply k_resolve_handler | exact K1 | exact K2 | exact K3
    | apply k_metrics | apply k_prometheus | apply k_history | apply k_historyByID | apply k_reverseLookup | apply k_compare
    | apply k_bulk | apply k_rootservers | apply k_securityStats | apply k_doh | idtac ].
  - by intros [res [h w]] Hs.
  - apply k_ws_start. intros [res hw] [Hr Hh]. cbn [fst snd]. unfold Resolver_Subscribe.
    pose proof (at_hub res (HSubscribe 256) (Subscribe 256 (r_hub res)).2 eq_refl) as H.
    destruct (Subscribe 256 (r_hub res)) as [ch hub]. split; [|done]. split; [|done].
    by eapply atomic_ok.
  - apply k_ws_start, k_ret.
  - apply k_ws_start. intros [res [h w]] [Hr Hh]. cbn [fst snd] in *. unfold SubscribeQueries.
    pose proof (add_chan_inv 256 (hd_queries h) ltac:(lia) (ho_queries h Hh)) as H.
    change (if 256 <=? 0 then 128 else 256) with 256.
    destruct (add_chan 256 (hd_queries h)) as [ch q]. cbn [snd] in H. split; [|done]. split; [done|].
    by destruct Hh.
Qed.

Lemma k_serve dp r st : keeps (serve frontend available url_host dp r st).
Proof.
  unfold serve. bcase; [apply k_ret|]. bcase; [apply k_ret|].
  apply k_bind.
  { intros [res [h w]] Hs. unfold newRequestID. destruct (s_rand 16 w) as [[b|] w1]; [done|].
    by destruct (s_now w1). }
  intros id. cbv zeta. apply k_bind; [apply k_now|]. intros start. apply k_bind.
  { unfold mux_serve. destruct (findHandler _ _ _) as [rt|path|]; [|apply k_ret..].
    destruct rt; try apply k_settings; (apply k_bind; [apply k_run_route|intros out; apply k_ret]). }
  intros [out st']. apply k_bind; [|intros _; apply k_ret]. bcase; [|apply k_ret].
  apply k_bind; [apply k_now|]. intros t. apply k_outside.
Qed.

(** *** The whole server *)

(** What reaches the server: a request or a packet. *)
Inductive arrival := Request (r : request) | Packet (ctx : context) (raw : bytes) (addr : option net_addr) (proto : bytes).

(** Handles everything that arrives, in order; false when a loop was cut. *)
Fixpoint run_server (dp : Deps) (l : list arrival) (st : gmap bytes any) (s : Resolver * (Handler * W))
  : bool * (Resolver * (Handler * W)) :=
  match l with
  | [] => (true, s)
  | Request r :: l =>
      match serve frontend available url_host dp r st s with
      | (Ok (_, st), s) => run_server dp l st s
      | (Fuel, s) => (false, s)
      | (_, s) => run_server dp l st s
      end
  | Packet ctx raw addr proto :: l =>
      match HandlePacket ctx raw addr proto s with
      | (Fuel, s) => (false, s)
      | (_, s) => run_server dp l st s
      end
  end.

(** C4. Whatever requests and packets arrive, in any order and with anything
    else happening while upstream servers are asked, every one of them is
    handled to its end, and the resolver, its cache, history and event hub and
    the handler stay well formed; a handler that panics, which net/http
    recovers, leaves them well formed too. *)
Theorem server_invariant (dp : Deps) (l : list arrival) (st : gmap bytes any) s :
  good s -> (run_server dp l st s).1 = true /\ good (run_server dp l st s).2.
Proof.
  revert st s. induction l as [|[r|ctx raw addr proto] l IH]; intros st s Hs; cbn [run_server]; [done|..].
  - destruct (k_serve dp r st s Hs) as [Hg Hf].
    destruct (serve _ _ _ _ _ _ _) as [[[out st']|e| |] s']; cbn [fst snd] in *; auto.
  - destruct (k_post _ _ (hp_HandlePacket interference ctx raw addr proto) s Hs) as [Hg Hf].
    destruct (HandlePacket ctx raw addr proto s) as [[[out drop]|e| |] s']; cbn [fst snd] in *; auto.
Qed.
End keeps.

Definition lab_arrivals : list arrival :=
  [Request (mkRequest "GET" "/api/v1/resolve" "q=www.example.com&trace=1" [] (inr ("" : bytes)) "192.0.2.7:1" "h");
   Packet (mkContext "" "") lab_query_packet None "udp";
   Request (flush_request []);
   Request (mkRequest "GET" "/api/v1/history" "page=922337203685477581&limit=50" [] (inr ("" : bytes)) "192.0.2.7:1" "h")].

(** A resolution, a packet that the cache answers, a flush, and a page number
    whose offset overflows. *)
Theorem server_invariant_witness :
  let run := @run_server latin1 unit quiet_site (fun _ => None) true (fun _ => None) (lab_deps "") in
  good (run lab_arrivals ∅ lab_state).2
  /\ c_lru (r_cache (run (take 2 lab_arrivals) ∅ lab_state).2.1) <> []
  /\ c_lru (r_cache (run lab_arrivals ∅ lab_state).2.1) = [].
Proof.
  intros run. split.
  - apply (@server_invariant latin1 unit quiet_site).
    + intros id n name type servers s [_ Hh]. split; [apply rtc_refl|exact Hh].
    + exact lab_good.
  - vm_compute. split; [discriminate|reflexivity].
Defined.

(** ** Bulk queries *)

Section bulk.
Context {U : UnicodeTables} {W : Type} {T : Site W}.

(** The queries of a request: at most [maxBulkQueries]. *)
Definition bulk_queries (r : request) : list bytes :=
  take (Z.to_nat maxBulkQueries) (splitBulkQueries (TrimSpace (Query_Get r "queries"))).

Context (interference : forall id n name type servers (s : Resolver * (Handler * W)),
  good s ->
  rtc atomic s.1 (s_query id n name type servers s).2.1
  /\ handler_ok (s_query id n name type servers s).2.2.1).

(** Each query is named by its result. *)
Lemma answered_queries order queries qtype s results :
  order ≡ₚ seq 0 (length queries) -> length results = length queries ->
  answered_in order queries qtype s results -> map bi_Query results = queries.
Proof.
  intros Ho Hl Ha. apply list_eq. intros i. change (map bi_Query results) with (bi_Query <$> results).
  rewrite list_lookup_fmap. destruct (decide (i ∈ order)) as [Hi|Hi].
  - clear Ho Hl. revert s Ha. induction order as [|j order IH]; intros s Ha; [by apply elem_of_nil in Hi|].
    destruct Ha as (q & x & res & s2 & Hq & _ & Hx & [He _] & Ha). apply elem_of_cons in Hi as [->|Hi].
    + rewrite Hx, Hq. cbn. by rewrite He.
    + by eapply IH.
  - rewrite Ho, elem_of_seq in Hi. rewrite !lookup_ge_None_2 by lia. done.
Qed.

(** C28. Bulk resolution.  A bulk request succeeds, whatever the order in which
    its goroutines end: none of them panics.  The answer lists one result for each
    of the first hundred queries, in the order of the request, and each result is
    that of the resolution of its own query with the type asked for, started in
    the state the resolutions before it left: its response code, or its error. *)
Theorem bulk_in_order (dp : Deps) (r : request) s :
  good s -> rq_Method r = "GET" -> dp_Resolver dp = true -> TrimSpace (Query_Get r "queries") <> "" ->
  EqualFold (TrimSpace (Query_Get r "format")) "csv" = false ->
  exists out s' results order w,
    bulk dp r s = (Ok out, s') /\ good s'
    /\ rs_Status out = 200 /\ rs_Body out = JSON (PObject [("results" : bytes, PBulk results)])
    /\ map bi_Query results = bulk_queries r
    /\ order ≡ₚ seq 0 (length (bulk_queries r))
    /\ answered_in order (bulk_queries r) (parseQType (Query_Get r "type")) (s.1, (s.2.1, w)) results.
Proof.
  intros Hs Hm Hd Hq Hc. destruct s as [res [h w]].
  unfold bulk, method_is, needs, guard. rewrite Hm, Hd, Hc, bool_decide_eq_true_2 by done. cbv zeta.
  rewrite bool_decide_eq_false_2 by done. cbn [negb].
  set (queries := if maxBulkQueries <? _ then _ else _).
  assert (queries = bulk_queries r) as Eq.
  { unfold queries, bulk_queries. bcase; [done|]. rewrite take_ge; [done|]. unfold len in *. lia. }
  clearbody queries. subst queries. set (n := length (bulk_queries r)) in *.
  set (c := bulk_concurrency _ _) in *. set (qtype := parseQType _) in *.
  unfold mbind at 1, prog_bind at 1, outside. cbn [fst snd].
  pose proof (site_order_perm c n w) as Ho. destruct (site_order c n w) as [order w1]. cbn [fst] in Ho.
  unfold mbind at 1, prog_bind at 1.
  destruct (bulk_run_slots interference (bulk_queries r) qtype order
    (repeat (mkBulkItem "" "" "" 0) n) (res, (h, w1))) as (rs & s' & E & Hg & Hl & _ & Ha).
  { by destruct Hs. }
  { apply repeat_length. }
  { rewrite Ho. apply Forall_forall. intros i. rewrite elem_of_seq. lia. }
  { rewrite Ho. apply NoDup_ListNoDup, seq_NoDup. }
  rewrite E.
  eexists _, s', rs, order, w1. split; [done|]. split; [exact Hg|]. split; [done|]. split; [done|].
  split; [|split; [exact Ho|exact Ha]]. by eapply answered_queries.
Qed.
End bulk.

(** Two queries whose goroutines end in the order in which they start. *)
Theorem bulk_in_order_witness :
  let r := mkRequest "GET" "/api/v1/bulk" "queries=www.example.com,ftp.example.com" [] (inr ("" : bytes)) "192.0.2.7:1" "h" in
  bulk_queries r = ["www.example.com" : bytes; "ftp.example.com" : bytes]
  /\ exists out s' results, @bulk latin1 unit quiet_site (lab_deps "") r lab_state = (Ok out, s')
     /\ rs_Status out = 200 /\ map bi_Query results = ["www.example.com" : bytes; "ftp.example.com" : bytes].
Proof.
  intros r. assert (bulk_queries r = ["www.example.com" : bytes; "ftp.example.com" : bytes]) as Eq
    by (vm_compute; reflexivity).
  split; [exact Eq|].
  destruct (@bulk_in_order latin1 unit quiet_site
    (fun id n name type servers s H => conj (rtc_refl _ _) (proj2 H)) (lab_deps "") r lab_state lab_good
    eq_refl eq_refl ltac:(vm_compute; discriminate) ltac:(vm_compute; reflexivity))
    as (out & s' & results & order & w & E & _ & H1 & _ & H2 & _).
  exists out, s', results. rewrite Eq in H2. exact (conj E (conj H1 H2)).
Defined.

(** ** DNS over HTTPS *)

Lemma unescape_plain s : ("%"%char ∉ s) -> ("+"%char ∉ s) -> unescape true s = Some s.
Proof.
  induction s as [|c s IH]; intros H1 H2; [done|].
  assert (c <> "%"%char /\ c <> "+"%char) as [Hc Hp] by set_solver.
  assert (unescape true (c :: s) = cons c <$> unescape true s) as ->.
  { destruct c as [[] [] [] [] [] [] [] []]; done. }
  rewrite IH by set_solver. done.
Qed.

Lemma ParseQuery_dns raw : ParseQuery ("dns=" ++ RawURLEncodeToString raw) = [("dns" : bytes, RawURLEncodeToString raw)].
Proof.
  set (enc := RawURLEncodeToString raw).
  assert (forall c : byte, c ∈ ("%+&;=" : bytes) -> c ∉ enc) as H.
  { intros c Hc Hin. by apply RawURL_digits in Hin as [_ Hin]. }
  assert (forall c : byte, c ∈ ("%+&;" : bytes) -> c ∉ ("dns=" : bytes) ++ enc) as H'.
  { intros c Hc. rewrite elem_of_app. intros [Hin|Hin].
    - clear -Hc Hin. set_unfold in Hc. set_unfold in Hin. naive_solver.
    - revert Hin. apply H. set_solver. }
  unfold ParseQuery. rewrite Split_single by (apply H'; set_solver). cbn [omap list_omap].
  rewrite bool_decide_eq_false_2 by (apply H'; set_solver). cbn [orb].
  rewrite bool_decide_eq_false_2 by done.
  change (Cut _ _) with (("dns" : bytes), enc). unfold QueryUnescape.
  rewrite (unescape_plain enc) by (apply H; set_solver). reflexivity.
Qed.

Lemma RawURL_nonempty raw : raw <> "" -> RawURLEncodeToString raw <> "".
Proof. destruct raw as [|a [|b [|c k]]]; done. Qed.

Lemma doh_get r raw : rq_Method r = "GET" -> rq_RawQuery r = "dns=" ++ RawURLEncodeToString raw ->
  raw <> "" -> doh_payload r = inr raw.
Proof.
  intros Hm Hq Hne. unfold doh_payload, Query_Get. rewrite Hm, Hq, ParseQuery_dns.
  rewrite bool_decide_eq_true_2 by done.
  change (Get_value [(("dns" : bytes), RawURLEncodeToString raw)] "dns") with (RawURLEncodeToString raw).
  rewrite bool_decide_eq_false_2 by by apply RawURL_nonempty. by rewrite RawURL_roundtrip.
Qed.

Lemma doh_post r raw : rq_Method r = "POST" -> Contains (rq_Get r "Content-Type") "application/dns-message" = true ->
  rq_Body r = inr raw -> len raw <= 65535 -> doh_payload r = inr raw.
Proof.
  intros Hm Hc Hb Hl. unfold doh_payload. rewrite Hm, Hc, Hb.
  rewrite bool_decide_eq_false_2, bool_decide_eq_true_2 by done. cbn [negb].
  rewrite take_ge; [done|]. unfold len in Hl. lia.
Qed.

Section doh.
Context {U : UnicodeTables} {W : Type} {T : Site W}.
Context (interference : forall id n name type servers (s : Resolver * (Handler * W)),
  good s ->
  rtc atomic s.1 (s_query id n name type servers s).2.1
  /\ handler_ok (s_query id n name type servers s).2.2.1).

(** C17. DNS over HTTPS carries packets unchanged.  A GET with a packet in
    base64url and a POST with the packet as its body are handled alike, and the
    answer is 200 with a packet that responds to it (the identifier of the query,
    marked as a response), or 502. *)
Theorem doh_answers (dp : Deps) ctx (raw : bytes) (g p : request) :
  raw <> "" -> len raw <= 65535 ->
  rq_Method g = "GET" -> rq_RawQuery g = "dns=" ++ RawURLEncodeToString raw ->
  rq_Method p = "POST" -> rq_Body p = inr raw ->
  Contains (rq_Get p "Content-Type") "application/dns-message" = true ->
  rq_RemoteAddr g = rq_RemoteAddr p -> dp_DNSHandler dp = true ->
  doh dp ctx g = doh dp ctx p
  /\ hpost (doh dp ctx p) (fun out => rs_Status out = 502
       \/ rs_Status out = 200 /\ exists wire, rs_Body out = Raw wire /\ answers raw False wire).
Proof.
  intros Hne Hl Hg Hq Hp Hb Hc Ha Hd.
  pose proof (doh_get g raw Hg Hq Hne) as Eg. pose proof (doh_post p raw Hp Hc Hb Hl) as Ep.
  unfold doh. rewrite Eg, Ep, Ha. split; [done|]. unfold needs, guard. rewrite Hd.
  apply hp_seq.
  { intros [r [h w]] Hs. unfold parseRemoteAddr, outside, mbind, prog_bind.
    by destruct (site_resolveTCPAddr (rq_RemoteAddr p) w). }
  intros addr. eapply (hp_bind _ _ (fun x => match x with inl _ => True | inr y => replies raw (plain_client raw "doh") y end)).
  { intros s Hs. destruct (hp_HandlePacket interference ctx raw (Some addr) "doh" s Hs) as [H1 H2].
    unfold attempt. by destruct (HandlePacket ctx raw (Some addr) "doh" s) as [[y|e| |] s']. }
  intros [err|[resp drop]] Hr; [apply hp_ret; by left|].
  bcase; [apply hp_ret; by left|]. apply hp_ret. right. split; [done|].
  apply orb_false_elim in Hb0 as [Hdrop Hlen].
  destruct resp as [wire|]; [|discriminate Hlen]. exists wire. split; [done|].
  destruct Hr as [_ (hdr & H1 & H2 & H3 & _)]. by exists hdr.
Qed.
End doh.

Definition lab_doh (method query : bytes) (headers : list (bytes * bytes)) (body : bytes) : request :=
  mkRequest method "/dns-query" query headers (inr body) "192.0.2.7:4711" "dns.example".

Theorem doh_answers_witness :
  let g := lab_doh "GET" ("dns=" ++ RawURLEncodeToString lab_query_packet) [] "" in
  let p := lab_doh "POST" "" [("Content-Type", "application/dns-message")] lab_query_packet in
  let ctx := mkContext "" "" in
  @doh latin1 unit quiet_site (lab_deps "") ctx g lab_state = @doh latin1 unit quiet_site (lab_deps "") ctx p lab_state
  /\ match (@doh latin1 unit quiet_site (lab_deps "") ctx g lab_state).1 with
     | Ok out => rs_Status out = 200
     | _ => False
     end.
Proof.
  intros g p ctx. split; [|vm_compute; reflexivity].
  pose proof (@doh_answers latin1 unit quiet_site
    (fun id n name type servers s H => conj (rtc_refl _ _) (proj2 H)) (lab_deps "") ctx lab_query_packet g p
    ltac:(vm_compute; discriminate) ltac:(vm_compute; discriminate) eq_refl eq_refl eq_refl eq_refl
    ltac:(vm_compute; reflexivity) eq_refl eq_refl) as [E _].
  rewrite E. reflexivity.
Defined.
