(* ===== verification/Logger.v ===== *)
(** * internal/logger/logger.go: log records.

    A record is its level, message and attributes, in order; slog writes it as
    text or JSON.  The text of a time and the stack are left to slog and
    runtime/debug. *)

From S2P Require Import Prelude.
From S2P Require Import GoStrings.
From S2P Require Import Handler.
From S2P Require Import Api.

#[local] Open Scope go_scope.

(** ** log/slog *)

#[warnings="-register-all"] Inductive value := VString (s : bytes) | VInt64 (n : Z) | VBool (b : bool) | VNil
| VError (text : bytes) | VTime (t : Z) | VStack.
Definition attr : Type := bytes * value.

(** [slog.LevelDebug] and so on *)
Definition level_value (l : level) : Z :=
  match l with LevelDebug => -4 | LevelInfo => 0 | LevelWarn => 4 | LevelError => 8 end.

Record Logger := mkLogger { lg_level : level; lg_text : bool; lg_attrs : list attr }.
Record record := mkRecord { rc_level : level; rc_msg : bytes; rc_attrs : list attr }.

(** [l.With] and [l.Log]: the record written, if the level is enabled. *)
Definition With (l : Logger) (attrs : list attr) : Logger := mkLogger (lg_level l) (lg_text l) (lg_attrs l ++ attrs).
Definition Log (l : Logger) (lv : level) (msg : bytes) (attrs : list attr) : option record :=
  if level_value (lg_level l) <=? level_value lv then Some (mkRecord lv msg (lg_attrs l ++ attrs)) else None.

(** [slog.Default] before anybody sets another one *)
Definition slog_Default : Logger := mkLogger LevelInfo true [].

(** ** Contexts *)

Inductive ctxKey := requestIDKey | queryIDKey | traceIDKey.
#[export] Instance ctxKey_eq_dec : EqDecision ctxKey.
Proof. solve_decision. Defined.

(** The values a context was given, latest first. *)
Definition values : Type := list (ctxKey * bytes).
Definition WithRequestID (ctx : values) (requestID : bytes) : values := (requestIDKey, requestID) :: ctx.
Definition WithQueryID (ctx : values) (queryID : bytes) : values := (queryIDKey, queryID) :: ctx.
Definition WithTraceID (ctx : values) (traceID : bytes) : values := (traceIDKey, traceID) :: ctx.

(** The latest value of a key, the empty string without one. *)
Fixpoint value_of (k : ctxKey) (ctx : values) : bytes :=
  match ctx with
  | [] => ""
  | (k', v) :: ctx => if decide (k' = k) then v else value_of k ctx
  end.
Definition RequestIDFromContext : values -> bytes := value_of requestIDKey.
Definition QueryIDFromContext : values -> bytes := value_of queryIDKey.
Definition TraceIDFromContext : values -> bytes := value_of traceIDKey.

Definition id_attr (field id : bytes) : list attr := if bool_decide (id = "") then [] else [(field, VString id)].

Definition FromCtx (ctx : values) (base : option Logger) : Logger :=
  let base := default slog_Default base in
  let attrs := id_attr "request_id" (RequestIDFromContext ctx) ++ id_attr "query_id" (QueryIDFromContext ctx)
                 ++ id_attr "trace_id" (TraceIDFromContext ctx) in
  if bool_decide (attrs = []) then base else With base attrs.

#[export] Instance value_eq_dec : EqDecision value.
Proof. solve_decision. Defined.

(** The context [withMiddleware] makes. *)
Definition request_context (reqID traceID : bytes) : values :=
  let ctx := WithRequestID [] reqID in
  if bool_decide (traceID = "") then ctx else WithTraceID ctx traceID.

(** ** Construction *)

Section logger.
Context {U : UnicodeTables}.

Definition parseLevel (level : bytes) : Handler.level :=
  let l := ToLower level in
  if bool_decide (l = "debug") then LevelDebug
  else if bool_decide (l = "warn") then LevelWarn
  else if bool_decide (l = "error") then LevelError
  else LevelInfo.

Definition NewLogger (level format : bytes) : Logger := mkLogger (parseLevel level) (EqualFold format "text") [].
(** [New] writes to standard output, [NewWithWriter] to a writer. *)
Definition NewWithWriter (level format : bytes) : Logger := mkLogger (parseLevel level) (EqualFold format "text") [].
End logger.

(** ** Records *)

Definition query_attrs (now : Z) (f : QueryLogFields) : list attr :=
  [("timestamp" : bytes, VTime now); ("request_id" : bytes, VString (lf_RequestID f));
   ("query_id" : bytes, VString (lf_QueryID f)); ("trace_id" : bytes, VString (lf_TraceID f));
   ("domain" : bytes, VString (lf_Domain f)); ("type" : bytes, VString (lf_QType f));
   ("rcode" : bytes, VString (lf_RCode f)); ("duration_ms" : bytes, VInt64 (lf_DurationMS f));
   ("cached" : bytes, VBool (lf_Cached f)); ("stale" : bytes, VBool (lf_Stale f));
   ("client_ip" : bytes, VString (lf_ClientIP f)); ("protocol" : bytes, VString (lf_Protocol f));
   ("steps" : bytes, VInt64 (lf_Steps f));
   ("error" : bytes, match lf_Err f with Some e => VString e | None => VNil end)].

Definition LogQuery_record (now : Z) (l : Logger) (lv : level) (f : QueryLogFields) : option record :=
  Log l lv "dns query" (query_attrs now f
    ++ match lf_Err f with
       | Some _ => if level_value LevelError <=? level_value lv then [("stack_trace" : bytes, VStack)] else []
       | None => []
       end).

Definition LogError (l : option Logger) (msg err : bytes) (attrs : list attr) : option record :=
  Log (default slog_Default l) LevelError msg
    ([("error" : bytes, VError err); ("stack_trace" : bytes, VStack)] ++ attrs).

(** The line after a request of the HTTP server ([withMiddleware]). *)
Definition http_record (ctx : values) (l : Logger) (e : http_log) : option record :=
  Log (FromCtx ctx (Some l)) LevelInfo "http request"
    [("method" : bytes, VString (hl_method e)); ("path" : bytes, VString (hl_path e));
     ("remote_addr" : bytes, VString (hl_remote e)); ("duration_ms" : bytes, VInt64 (hl_duration_ms e))].

(** ** What is written *)

Lemma Log_shown l lv msg attrs :
  level_value (lg_level l) <= level_value lv -> Log l lv msg attrs = Some (mkRecord lv msg (lg_attrs l ++ attrs)).
Proof. intros H. unfold Log. bcase; [done|lia]. Qed.

(** The identifiers of a request are on its line, each once, those it has. *)
Theorem http_record_ids reqID traceID l e :
  level_value (lg_level l) <= 0 -> reqID <> "" ->
  exists rest, http_record (request_context reqID traceID) l e
    = Some (mkRecord LevelInfo "http request"
        ((lg_attrs l ++ ("request_id" : bytes, VString reqID) :: id_attr "trace_id" traceID) ++ rest)).
Proof.
  intros Hl Hr.
  assert (FromCtx (request_context reqID traceID) (Some l)
    = With l (("request_id" : bytes, VString reqID) :: id_attr "trace_id" traceID)) as E.
  { unfold FromCtx, request_context, RequestIDFromContext, QueryIDFromContext, TraceIDFromContext, id_attr.
    destruct (decide (traceID = "")) as [->|Ht]; [cbn; by rewrite (bool_decide_eq_false_2 _ Hr)|].
    rewrite (bool_decide_eq_false_2 _ Ht). cbn. by rewrite (bool_decide_eq_false_2 _ Hr), (bool_decide_eq_false_2 _ Ht). }
  unfold http_record. rewrite E. eexists. by apply Log_shown.
Qed.

(** The context that [Router.serve] hands on has these identifiers. *)
Lemma request_context_ids reqID traceID :
  RequestIDFromContext (request_context reqID traceID) = reqID
  /\ TraceIDFromContext (request_context reqID traceID) = traceID.
Proof.
  unfold request_context. destruct (decide (traceID = "")) as [->|H]; [done|].
  by rewrite (bool_decide_eq_false_2 _ H).
Qed.

(** A failed query is logged at every level, with its error and a stack; a query
    that succeeded only at the levels debug and info. *)
Theorem query_record now l f :
  let lv := match lf_Err f with Some _ => LevelError | None => LevelInfo end in
  LogQuery_record now l lv f
  = match lf_Err f with
    | Some _ => Some (mkRecord LevelError "dns query" (lg_attrs l ++ query_attrs now f ++ [("stack_trace" : bytes, VStack)]))
    | None => match lg_level l with
              | LevelDebug | LevelInfo => Some (mkRecord LevelInfo "dns query" (lg_attrs l ++ query_attrs now f))
              | _ => None
              end
    end.
Proof.
  cbv zeta. unfold LogQuery_record. destruct (lf_Err f).
  - by destruct l as [[] ? ?].
  - rewrite app_nil_r. by destruct l as [[] ? ?].
Qed.

Example parseLevel_cases : map (parseLevel (U := latin1)) ["DEBUG"; "warn"; "Error"; "info"; "trace"; ""]
  = [LevelDebug; LevelWarn; LevelError; LevelInfo; LevelInfo; LevelInfo].
Proof. by vm_compute. Qed.
