(* ===== verification/Tracing.v ===== *)
(** * internal/telemetry: the set-up of tracing and the spans of a resolution.

    OpenTelemetry is a class of operations on a world [W]. *)

From S2P Require Import Prelude.
From S2P Require Import GoStrings.

#[local] Open Scope go_scope.

(** The options of a tracer provider: the service name of its resource, and its
    exporter when there is one. *)
Record ProviderOptions (Resource Exporter : Type) := mkProviderOptions {
  po_resource : Resource; po_batcher : option Exporter
}.
Arguments mkProviderOptions {_ _} _ _.

Class OpenTelemetry (W : Type) := {
  Resource : Type; Exporter : Type; Provider : Type; Span_ : Type;
  (** resource.New with the attribute service.name *)
  ot_resource : bytes -> W -> (bytes + Resource) * W;
  (** otlptracegrpc.New with an endpoint, without TLS *)
  ot_exporter : bytes -> W -> (bytes + Exporter) * W;
  ot_provider : ProviderOptions Resource Exporter -> W -> Provider * W;
  ot_SetTracerProvider : Provider -> W -> W;
  ot_SetTextMapPropagator : W -> W;
  ot_Shutdown : Provider -> W -> option bytes * W;
  (** Tracer(name).Start(span name, attributes) *)
  ot_Start : bytes -> bytes -> list (bytes * bytes) -> W -> Span_ * W;
  ot_AddEvent : Span_ -> bytes -> list (bytes * bytes) -> W -> W;
  ot_End : Span_ -> W -> W
}.

Module Telemetry.

Record Config := mkConfig { Enabled : bool; Endpoint : bytes; ServiceName : bytes }.

Section telemetry.
Context {W : Type} {T : OpenTelemetry W}.

(** The function [Setup] returns. *)
Inductive shutdown := NoShutdown | ProviderShutdown (p : Provider).

Definition call_shutdown (s : shutdown) (w : W) : option bytes * W :=
  match s with NoShutdown => (None, w) | ProviderShutdown p => ot_Shutdown p w end.

Definition service_name (cfg : Config) : bytes :=
  let serviceName := TrimSpace (ServiceName cfg) in
  if bool_decide (serviceName = "") then "dns-resolver" else serviceName.

Definition exporter_endpoint (endpoint : bytes) : bytes :=
  TrimPrefix (TrimPrefix endpoint "http://") "https://".

Definition Setup (cfg : Config) (w : W) : (bytes + shutdown) * W :=
  if negb (Enabled cfg) then (inr NoShutdown, w) else
  match ot_resource (service_name cfg) w with
  | (inl err, w) => (inl err, w)
  | (inr res, w) =>
      let finish batcher w :=
        let '(provider, w) := ot_provider (mkProviderOptions res batcher) w in
        (inr (ProviderShutdown provider), ot_SetTextMapPropagator (ot_SetTracerProvider provider w)) in
      let endpoint := TrimSpace (Endpoint cfg) in
      if bool_decide (endpoint = "") then finish None w else
      match ot_exporter (exporter_endpoint endpoint) w with
      | (inl err, w) => (inl err, w)
      | (inr exporter, w) => finish (Some exporter) w
      end
  end.

(** The implementations of [Span]. *)
Inductive Span := noOpSpan | otelSpan (span : Span_).

Definition End_ (s : Span) (w : W) : W :=
  match s with noOpSpan => w | otelSpan span => ot_End span w end.

Definition StartResolveSpan (domain qtype : bytes) (w : W) : Span * W :=
  let '(span, w) := ot_Start "dnsresolver/resolver" "resolver.resolve"
                      [("dns.question.name", domain); ("dns.question.type", qtype)] w in
  (otelSpan span, w).

Definition AddStepAttributes (s : Span) (step server : bytes) (w : W) : W :=
  match s with
  | otelSpan span => ot_AddEvent span "resolver.step"
                       [("resolver.step.type", step); ("resolver.step.server", server)] w
  | noOpSpan => w
  end.

(** Without tracing nothing outside is touched, and shutting down does nothing. *)
Lemma Setup_disabled cfg w : Enabled cfg = false -> Setup cfg w = (inr NoShutdown, w).
Proof. intros H. unfold Setup. by rewrite H. Qed.

(** A failing step leaves the global provider alone: [Setup] installs a provider
    only when it returns one. *)
Lemma Setup_installs cfg w s w' : Setup cfg w = (inr (ProviderShutdown s), w') ->
  exists w0, w' = ot_SetTextMapPropagator (ot_SetTracerProvider s w0).
Proof.
  unfold Setup. bcase; [done|]. destruct (ot_resource _ w) as [[err|res] w1]; [done|]. bcase.
  - destruct (ot_provider _ w1) as [p w2]. intros [= <- <-]. by eexists.
  - destruct (ot_exporter _ w1) as [[err|ex] w2]; [done|]. destruct (ot_provider _ w2) as [p w3].
    intros [= <- <-]. by eexists.
Qed.
End telemetry.
End Telemetry.

(** A log of the calls, as an instance; the exporter of an https endpoint is the
    one without TLS. *)
#[local] Instance call_log : OpenTelemetry (list bytes) := {
  Resource := bytes; Exporter := bytes; Provider := option bytes; Span_ := nat;
  ot_resource n w := (inr n, w ++ ["resource " ++ n]);
  ot_exporter e w := (inr e, w ++ ["insecure exporter " ++ e]);
  ot_provider o w := (po_batcher _ _ o, w);
  ot_SetTracerProvider _ w := w ++ ["set provider" : bytes];
  ot_SetTextMapPropagator w := w ++ ["set propagator" : bytes];
  ot_Shutdown _ w := (None, w ++ ["shutdown" : bytes]);
  ot_Start _ n _ w := (length w, w ++ [n]);
  ot_AddEvent _ n _ w := w ++ [n];
  ot_End _ w := w ++ ["end" : bytes]
}.

Example Setup_https : Telemetry.Setup (Telemetry.mkConfig true " https://collector:4317 " "") []
  = (inr (Telemetry.ProviderShutdown (Some ("collector:4317" : bytes))),
     ["resource dns-resolver" : bytes; "insecure exporter collector:4317" : bytes; "set provider" : bytes;
      "set propagator" : bytes]).
Proof. vm_compute. reflexivity. Qed.
