(* ===== verification/Main.v ===== *)
(** * cmd/server/main.go: from the configuration to the running server.

    The start of the listeners, signals and the shutdown are I/O; what [main]
    builds before them, and what the health check asks, is here. *)

From S2P Require Import Prelude.
From S2P Require Import GoStrings.
From S2P Require Import GoTime.
From S2P Require Import GoFloat.
From S2P Require Import GoParse.
From S2P Require Import Blocklist.
From S2P Require Import Cache.
From S2P Require Import CacheSpec.
From S2P Require Import CacheRefine.
From S2P Require Import CacheProps.
From S2P Require Import CacheContract.
From S2P Require Import CacheLoad.
From S2P Require Import Recursive.
From S2P Require Import RateLimits.
From S2P Require Import ServerConfig.
From S2P Require Import Settings.
From S2P Require Import Metrics.
From S2P Require Import Prometheus.
From S2P Require Import Resolver.
From S2P Require Import ResolverProps.
From S2P Require Import Handler.
From S2P Require Import HandlerProps.
From S2P Require Import Server.
From S2P Require Import Api.
From S2P Require Import Tracing.

#[local] Open Scope go_scope.

(** What [main] has built when the listeners start. *)
Record process := mkProcess {
  pr_cacheLoaded : bool;
  pr_resolver : Resolver;
  pr_handler : Handler;
  pr_udp : UDPServer;
  pr_tcp : TCPServer;
  pr_dot : option TCPServer;
  pr_deps : Deps;
  pr_settings : gmap bytes any;
  pr_dnsAddr : bytes;
  pr_httpAddr : bytes
}.

Section main.
Context {U : UnicodeTables} {W : Type} {S : Surroundings W} {T : OpenTelemetry W}.

(** [read] and [scan] are the cache file and the blocklist file. *)
Context (version : bytes) (read : bytes -> snapshot_file) (scan : bytes -> bytes + list bytes).

Definition cache_options (cfg : ServerConfig.Config) : Cache.Options := {|
  o_MaxEntries := cfg_CacheMaxEntries cfg;
  o_MinTTL := cfg_CacheMinTTL cfg;
  o_MaxTTL := cfg_CacheMaxTTL cfg;
  o_StaleWindow := cfg_CacheStaleWindow cfg;
  o_StaleMaxAge := cfg_CacheStaleMaxAge cfg;
  o_Prefetch := false
|}.

Definition resolver_config (cfg : ServerConfig.Config) : Recursive.Config := {|
  UpstreamTimeout := cfg_UpstreamTimeout cfg;
  Retries := 3;
  MaxCNAMEDepth := cfg_MaxCNAMEDepth cfg;
  MaxRecursionDepth := cfg_MaxRecursionDepth cfg;
  QNAMEMinimization := cfg_QNAMEMinimization cfg;
  CaseRandomization := cfg_CaseRandomization cfg;
  EDNSEnabled := cfg_EDNSEnabled cfg;
  MaxUDPSize := cfg_MaxUDPSize cfg;
  CBFailureThreshold := cfg_CBFailureThreshold cfg;
  CBSuccessThreshold := cfg_CBSuccessThreshold cfg;
  CBOpenTimeout := cfg_CBOpenTimeout cfg
|}.

(** [cacheStore], and whether it was loaded. *)
Definition start_cache (cfg : ServerConfig.Config) (w : W) : bool * Cache * W :=
  let c := New (cache_options cfg) in
  let '(t, w) := s_now w in
  match Load read t (cfg_CachePersistPath cfg) c with
  | Ok c => (true, c, w)
  | _ => (false, c, w)
  end.

(** [res] with its blocklist; a file that cannot be read is only reported. *)
Definition start_resolver (cfg : ServerConfig.Config) (c : Cache) (w : W) : result bytes Resolver * W :=
  let '(t, w) := s_now w in
  let r := NewResolver t (resolver_config cfg) (Some c) in
  let '(t, w) := s_now w in
  let lines path := match scan path with inl err => Err err | inr l => Ok l end in
  match LoadFromFile lines t (cfg_BlocklistPath cfg) (r_blocklist r) with
  | Ok (Ok b) => (Ok (with_blocklist r b), w)
  | Ok (Err _) | Err _ => (Ok r, w)
  | Ok Panic | Panic => (Panic, w)
  | Ok Fuel | Fuel => (Fuel, w)
  end.

Definition start (cfg : ServerConfig.Config) (w : W) : result bytes process * W :=
  let '(loaded, c, w) := start_cache cfg w in
  match start_resolver cfg c w with
  | (Ok r, w) =>
      let '(t1, w) := s_now w in
      let limiter := NewRateLimiter t1 (cfg_RateLimitQPS cfg) (cfg_RateLimitBurst cfg) in
      let '(t2, w) := s_now w in
      let rrl := NewRRL t2 (cfg_RRLResponsesPerSec cfg) (cfg_RRLSlip cfg) in
      let prom := if cfg_PrometheusEnabled cfg then Some NewPrometheus else None in
      let '(h, r) := NewHandler (mkHandlerOptions (Some limiter) (Some rrl) (cfg_MaxUDPSize cfg)
                       (Some NewMetrics) prom (cfg_RRLEnabled cfg) (Some (cfg_AllowRecursive cfg)) true) r in
      (Ok {| pr_cacheLoaded := loaded;
             pr_resolver := r;
             pr_handler := h;
             pr_udp := NewUDPServer (cfg_GoroutinePoolSize cfg);
             pr_tcp := NewTCPServer (cfg_MaxTCPConnections cfg);
             pr_dot := if cfg_TLSEnabled cfg then Some (NewTCPServer (cfg_MaxTCPConnections cfg)) else None;
             pr_deps := mkDeps true true true true (cfg_PrometheusEnabled cfg) true
                          (cfg_PPROFEnabled cfg) (cfg_ControlPlaneToken cfg);
             pr_settings := {[ ("version" : bytes) := VString version;
                               ("blocklist_path" : bytes) := VString (cfg_BlocklistPath cfg) ]};
             pr_dnsAddr := ":" ++ itoa (cfg_DNSPort cfg);
             pr_httpAddr := ":" ++ itoa (cfg_HTTPPort cfg) |}, w)
  | (Err e, w) => (Err e, w)
  | (Panic, w) => (Panic, w)
  | (Fuel, w) => (Fuel, w)
  end.

Definition trace_config (cfg : ServerConfig.Config) : Telemetry.Config :=
  Telemetry.mkConfig (cfg_OTELEnabled cfg) (cfg_OTLPEndpoint cfg) (cfg_OTELServiceName cfg).

(** [main] up to there: an invalid configuration ends it, and so does a failing
    set-up of tracing.  With the process, what is deferred to its end. *)
Definition main (Stat : bytes -> bytes + bool) (env : bytes -> bytes) (w : W)
  : result bytes (process * Telemetry.shutdown) * W :=
  match LoadFromEnv Stat env with
  | (cfg, None) =>
      match Telemetry.Setup (trace_config cfg) w with
      | (inl err, w) => (Err ("telemetry setup failed: " ++ err), w)
      | (inr shutdownTrace, w) =>
          match start cfg w with
          | (Ok p, w) => (Ok (p, shutdownTrace), w)
          | (Err e, w) => (Err e, w)
          | (Panic, w) => (Panic, w)
          | (Fuel, w) => (Fuel, w)
          end
      end
  | (_, Some err) => (Err ("configuration error: " ++ err), w)
  end.

(** [ReadyCheck]: [dnsReady] is set when the listeners run. *)
Definition ReadyCheck (p : process) (dnsReady : bool) : bool := dnsReady && pr_cacheLoaded p.

(** The address [runHealthcheck] asks. *)
Definition healthcheck_port (env : bytes -> bytes) : Z :=
  let envPort := TrimSpace (env "HTTP_PORT") in
  if bool_decide (envPort = "") then cfg_HTTPPort Default else
  match Atoi envPort with
  | Some parsed => if 0 <? parsed then parsed else cfg_HTTPPort Default
  | None => cfg_HTTPPort Default
  end.
Definition healthcheck_url (env : bytes -> bytes) : bytes :=
  "http://127.0.0.1:" ++ itoa (healthcheck_port env) ++ "/api/v1/health/ready".

(** How the request of the health check ends, and what [runHealthcheck] then
    writes to the standard error and returns. *)
Inductive health_outcome := BuildFailed (err : bytes) | DoFailed (err : bytes) | Responded (status : Z).
Definition runHealthcheck (Do : bytes -> health_outcome) (env : bytes -> bytes) : bytes * Z :=
  match Do (healthcheck_url env) with
  | BuildFailed err => ("healthcheck request build failed: " ++ err ++ ["010"%char], 1)
  | DoFailed err => ("healthcheck request failed: " ++ err ++ ["010"%char], 1)
  | Responded status =>
      if status =? 200 then ("", 0) else ("healthcheck status=" ++ itoa status ++ ["010"%char], 1)
  end.

(** ** What the process runs with *)

(** Each component has the values of the configuration, none replaced by a
    default of its constructor, except a minimum TTL of 0. *)
Record configured (cfg : ServerConfig.Config) (p : process) : Prop := {
  cf_resolver : r_cfg (pr_resolver p) = mkConfig (cfg_UpstreamTimeout cfg) 3 (cfg_MaxCNAMEDepth cfg)
    (cfg_MaxRecursionDepth cfg) (cfg_QNAMEMinimization cfg) (cfg_CaseRandomization cfg)
    (cfg_EDNSEnabled cfg) (cfg_MaxUDPSize cfg) (cfg_CBFailureThreshold cfg)
    (cfg_CBSuccessThreshold cfg) (cfg_CBOpenTimeout cfg);
  cf_entries : c_maxEntries (r_cache (pr_resolver p)) = cfg_CacheMaxEntries cfg;
  cf_ttl : cfg_CacheMinTTL cfg <> 0 ->
           c_minTTL (r_cache (pr_resolver p)) = cfg_CacheMinTTL cfg
           /\ c_maxTTL (r_cache (pr_resolver p)) = cfg_CacheMaxTTL cfg;
  cf_stale : c_staleWindow (r_cache (pr_resolver p)) = cfg_CacheStaleWindow cfg
             /\ c_staleMaxAge (r_cache (pr_resolver p)) = cfg_CacheStaleMaxAge cfg;
  cf_limiter : exists l, hd_limiter (pr_handler p) = Some l /\ rl_rate l = cfg_RateLimitQPS cfg
               /\ rl_burst l = f_of_int (cfg_RateLimitBurst cfg);
  cf_rrl : exists l, hd_rrl (pr_handler p) = Some l /\ rrl_limit l = cfg_RRLResponsesPerSec cfg
           /\ rrl_slip l = cfg_RRLSlip cfg;
  cf_handler : hd_maxUDPSize (pr_handler p) = cfg_MaxUDPSize cfg
               /\ hd_rrlEnabled (pr_handler p) = cfg_RRLEnabled cfg
               /\ hd_allowRecursive (pr_handler p) = cfg_AllowRecursive cfg;
  cf_servers : udp_workers (pr_udp p) = cfg_GoroutinePoolSize cfg
               /\ tcp_maxConn (pr_tcp p) = cfg_MaxTCPConnections cfg;
  cf_token : dp_ControlPlaneToken (pr_deps p) = cfg_ControlPlaneToken cfg
}.

(** The files the server itself writes name no key twice. *)
Definition keys_unique : Prop := forall path entries negative,
  read path = Snapshot entries negative -> NoDup (map s_Key entries) /\ NoDup (map n_Key negative).

Lemma Load_config t path c c' :
  keys_unique -> cache_ok c -> Load read t path c = Ok c' -> cache_ok c' /\ config_of c' = config_of c.
Proof.
  intros Hk Hc. unfold Load. bcase; [by intros [= <-]|].
  destruct (read path) as [|e|entries negative] eqn:E; [by intros [= <-]|done|]. intros [= <-].
  destruct (Hk _ _ _ E) as [N1 N2].
  destruct (Load_snapshot_spec t (entries, negative) c (ck_entries _ Hc) N1 N2) as (H1 & H2 & _).
  split; [by apply (cache_ok_config c)|done].
Qed.

Section valid.
Context (Stat : bytes -> bytes + bool) (cfg : ServerConfig.Config) (Hv : valid Stat cfg).

Lemma start_cache_ok w :
  keys_unique -> let c := (start_cache cfg w).1.2 in
  cache_ok c /\ config_of c = config_of (New (cache_options cfg)).
Proof.
  intros Hk. assert (cache_ok (New (cache_options cfg))) as Hn.
  { destruct Hv. split; [apply New_inv|..]; unfold New; cbn; unfold Hour, Minute, Second in *; repeat bcase; lia. }
  unfold start_cache. destruct (s_now w) as [t w1].
  destruct (Load read t _ _) as [c|e| |] eqn:E; [|done..]. by apply (Load_config t _ _ _ Hk Hn) in E.
Qed.

Lemma start_resolver_ok c w :
  cache_ok c -> exists r w', start_resolver cfg c w = (Ok r, w') /\ resolver_ok r
    /\ r_cfg r = new_config (resolver_config cfg) /\ r_cache r = SetPrefetchCallback true c.
Proof.
  intros Hc. unfold start_resolver. destruct (s_now w) as [t1 w1], (s_now w1) as [t2 w2].
  pose proof (NewResolver_ok t1 (resolver_config cfg) (Some c)) as Hr.
  specialize (Hr ltac:(by intros x [= <-])). set (r := NewResolver _ _ _) in *.
  assert (forall b, resolver_ok (with_blocklist r b)) as Hb by (intros b; by destruct Hr).
  unfold LoadFromFile. bcase; [by eexists _, _|].
  destruct (scan (cfg_BlocklistPath cfg)) as [e|l]; [by eexists _, _|]. cbn [mbind result_bind].
  destruct (Replace_returns t2 l (r_blocklist r)) as [b ->]. by eexists _, _.
Qed.

Lemma valid_config : new_config (resolver_config cfg) = resolver_config cfg.
Proof.
  destruct Hv. unfold new_config, resolver_config. cbn [UpstreamTimeout Retries MaxCNAMEDepth
    MaxRecursionDepth QNAMEMinimization CaseRandomization EDNSEnabled MaxUDPSize CBFailureThreshold
    CBSuccessThreshold CBOpenTimeout].
  destruct (cfg_UpstreamTimeout cfg <=? 0) eqn:E1; [lia|]. cbn [UpstreamTimeout Retries MaxCNAMEDepth
    MaxRecursionDepth QNAMEMinimization CaseRandomization EDNSEnabled MaxUDPSize CBFailureThreshold
    CBSuccessThreshold CBOpenTimeout].
  destruct (cfg_MaxCNAMEDepth cfg <=? 0) eqn:E2; [lia|].
  destruct (cfg_MaxRecursionDepth cfg <=? 0) eqn:E3; [lia|].
  destruct (cfg_MaxUDPSize cfg <=? 0) eqn:E4; [lia|]. done.
Qed.

Lemma start_ok w :
  keys_unique -> exists p w', start cfg w = (Ok p, w') /\ configured cfg p
    /\ resolver_ok (pr_resolver p) /\ handler_ok (pr_handler p)
    /\ pr_httpAddr p = ":" ++ itoa (cfg_HTTPPort cfg).
Proof.
  intros Hk. pose proof (start_cache_ok w Hk) as [Hc Hcfg]. unfold start.
  destruct (start_cache cfg w) as [[loaded c] w1]. cbn [fst snd] in *.
  destruct (start_resolver_ok c w1 Hc) as (r & w2 & -> & Hr & Er & Ec).
  destruct (s_now w2) as [t1 w3], (s_now w3) as [t2 w4]. set (o := mkHandlerOptions _ _ _ _ _ _ _ _).
  pose proof (NewHandler_ok o r Hr) as [Hr' Hh]. unfold NewHandler in *. eexists _, _. split; [done|].
  split; [|done]. rewrite valid_config in Er. destruct Hv.
  injection Hcfg as C1 C2 C3 C4 C5.
  split; cbn [pr_resolver pr_handler pr_udp pr_tcp pr_deps]; cbn; rewrite ?Ec; cbn; rewrite ?C1, ?C2, ?C3, ?C4, ?C5; try done.
  - bcase; lia.
  - intros Hne. destruct (cfg_CacheMinTTL cfg <=? 0) eqn:E; [lia|]. ands; [done|bcase; lia].
  - destruct (cfg_CacheStaleWindow cfg <? 0) eqn:E; [lia|]. ands; [done|bcase; lia].
  - eexists. split; [done|]. unfold NewRateLimiter. cbv zeta. rewrite vc_qps. split; [done|]. cbn [rl_burst].
    f_equal. bcase; lia.
  - eexists. split; [done|]. unfold NewRRL. cbn. ands; bcase; lia.
  - ands; [bcase; lia|done..].
  - ands; bcase; lia.
Qed.
End valid.

(** The port of the health check is the one the server listens on. *)
Lemma healthcheck_asks Stat env :
  valid Stat (env_config env) -> healthcheck_port env = cfg_HTTPPort (env_config env).
Proof.
  intros [Hp]. unfold healthcheck_port.
  change (cfg_HTTPPort (env_config env)) with (intEnv env "HTTP_PORT" (cfg_HTTPPort Default)) in *.
  rewrite !Forall_cons in Hp. destruct Hp as (_ & Hp & _). revert Hp.
  unfold intEnv, parsedEnv. cbv zeta. bcase; [done|].
  destruct (Atoi _) as [n|]; [|done]. cbn [from_option]. unfold id. intros Hp. bcase; [done|lia].
Qed.

(** A process whose handler is ready passes the health check, and no other does. *)
Lemma runHealthcheck_passes Do env :
  (runHealthcheck Do env).2 = 0 <-> Do (healthcheck_url env) = Responded 200.
Proof.
  unfold runHealthcheck. destruct (Do (healthcheck_url env)) as [err|err|status]; [done..|].
  destruct (Z.eqb_spec status 200) as [->|Hs]; [done|]. cbn. split; [done|congruence].
Qed.

End main.

(** ** Examples *)

Definition lab_stat (path : bytes) : bytes + bool := inl "no such file".
Definition lab_cache_file (path : bytes) : snapshot_file := Unreadable "unexpected end of JSON input".
Definition lab_blocklist_file (path : bytes) : bytes + list bytes := inr ["ads.example.com" : bytes].

#[local] Instance no_collector : OpenTelemetry unit := {
  Resource := unit; Exporter := unit; Provider := unit; Span_ := unit;
  ot_resource n w := (inr tt, w); ot_exporter e w := (inl ("unreachable" : bytes), w);
  ot_provider o w := (tt, w); ot_SetTracerProvider _ w := w; ot_SetTextMapPropagator w := w;
  ot_Shutdown _ w := (None, w); ot_Start _ _ _ w := (tt, w); ot_AddEvent _ _ _ w := w; ot_End _ w := w
}.


(** With tracing switched on and no collector the server does not start. *)
Example no_collector_no_start :
  let env (key : bytes) : bytes := if bool_decide (key = "OTEL_ENABLED") then "true" else "" in
  (@main latin1 unit calm no_collector "dev" lab_cache_file lab_blocklist_file lab_stat env tt).1
  = Err ("telemetry setup failed: unreachable" : bytes).
Proof. vm_compute. reflexivity. Qed.

(** A minimum TTL of 0 is valid, but the cache takes 0 for its default of 30
    seconds, and then a shorter maximum for 24 hours. *)
Theorem zero_min_ttl_ignored :
  let env (key : bytes) : bytes := if bool_decide (key = "CACHE_MIN_TTL") then "0s"
    else if bool_decide (key = "CACHE_MAX_TTL") then "10s" else "" in
  let cfg := env_config env in
  (LoadFromEnv lab_stat env).2 = None /\ cfg_CacheMinTTL cfg = 0 /\ cfg_CacheMaxTTL cfg = 10 * Second
  /\ c_minTTL (New (cache_options cfg)) = 30 * Second /\ c_maxTTL (New (cache_options cfg)) = 24 * Hour.
Proof. vm_compute. done. Qed.

(** A rate that is not a number passes the validation. *)
Theorem nan_rate_valid :
  let env (key : bytes) : bytes := if bool_decide (key = "RATE_LIMIT_QPS") then "NaN" else "" in
  (LoadFromEnv lab_stat env).2 = None.
Proof. vm_compute. done. Qed.
