(* ===== verification/MainRun.v ===== *)
(** * cmd/server/main.go: the listeners, the wait for a signal, the shutdown.

    [main_run] is the sequence of what [main] does with a built [process], given
    the outcome of every call that can fail.  What the listeners do meanwhile is
    [ServerLife]'s. *)

From S2P Require Import Prelude.
From S2P Require Import Server.
From S2P Require Import Main.

#[local] Open Scope go_scope.

Inductive listener := HTTP | UDP | TCP | DoT.

Inductive step :=
| ServeHTTP                              (* go httpSrv.ListenAndServe() *)
| Start (l : listener)
| NewDoT
| Ready (b : bool)                       (* dnsReady.Store *)
| LogInfo (msg : bytes)
| LogWarn (msg err : bytes)
| LogError (msg err : bytes)
| AwaitSignal                            (* <-sigCh *)
| CancelRoot                             (* cancel() *)
| Shutdown (l : listener)
| PersistCache
| ShutdownTrace                          (* deferred *)
| Exit (code : Z).

Section run.
(** [outcome s]: the error of the call [s], if it fails. *)
Context (outcome : step -> option bytes).

(** A call whose error ends the process. *)
Definition or_exit (s : step) (msg : bytes) (rest : list step) : list step :=
  s :: match outcome s with
       | Some err => [LogError msg err; Exit 1]
       | None => rest
       end.

(** A call whose error is only reported. *)
Definition or_warn (s : step) (msg : bytes) (rest : list step) : list step :=
  s :: match outcome s with
       | Some err => LogWarn msg err :: rest
       | None => rest
       end.

Definition run_shutdown (dot : bool) : list step :=
  or_warn (Shutdown HTTP) "http shutdown error" (
  or_warn (Shutdown UDP) "udp shutdown error" (
  or_warn (Shutdown TCP) "tcp shutdown error" (
  (fun rest => if dot then or_warn (Shutdown DoT) "dot shutdown error" rest else rest) (
  or_warn PersistCache "cache persist failed" [LogInfo "shutdown complete"; ShutdownTrace; Exit 0])))).

Definition run_serving (dot : bool) : list step :=
  [Ready true; LogInfo "servers started"; AwaitSignal; Ready false; CancelRoot; LogInfo "shutdown signal received"]
  ++ run_shutdown dot.

Definition main_run (p : process) : list step :=
  let dot := bool_decide (is_Some (pr_dot p)) in
  [ServeHTTP] ++
  or_exit (Start UDP) "udp server start failed" (
  or_exit (Start TCP) "tcp server start failed" (
  if dot then
    or_exit NewDoT "dot server init failed" (
    or_exit (Start DoT) "dot server start failed" (run_serving true))
  else run_serving false)).

Definition listeners (p : process) : list listener :=
  UDP :: TCP :: (if bool_decide (is_Some (pr_dot p)) then [DoT] else []).
(** The calls that must succeed. *)
Definition starts (p : process) : list step :=
  Start UDP :: Start TCP :: (if bool_decide (is_Some (pr_dot p)) then [NewDoT; Start DoT] else []).

(** A trace without its log lines. *)
Definition is_log (s : step) : bool :=
  match s with LogInfo _ | LogWarn _ _ | LogError _ _ => true | _ => false end.
Definition calls (t : list step) : list step := List.filter (fun s => negb (is_log s)) t.

(** The calls up to the first that fails. *)
Fixpoint upto_failure (l : list step) : list step :=
  match l with
  | [] => []
  | s :: l => s :: match outcome s with Some _ => [] | None => upto_failure l end
  end.

Lemma calls_warn s msg rest : is_log s = false -> calls (or_warn s msg rest) = s :: calls rest.
Proof. intros H. unfold or_warn, calls. cbn. rewrite H. by destruct (outcome s). Qed.

Lemma calls_exit s msg rest : is_log s = false ->
  calls (or_exit s msg rest) = s :: match outcome s with Some _ => [Exit 1] | None => calls rest end.
Proof. intros H. unfold or_exit, calls. cbn. rewrite H. by destruct (outcome s). Qed.

Lemma calls_shutdown dot :
  calls (run_shutdown dot)
  = [Shutdown HTTP; Shutdown UDP; Shutdown TCP] ++ (if dot then [Shutdown DoT] else []) ++ [PersistCache; ShutdownTrace; Exit 0].
Proof. unfold run_shutdown. rewrite !calls_warn by done. destruct dot; by rewrite !calls_warn. Qed.

Lemma calls_serving dot :
  calls (run_serving dot) = [Ready true; AwaitSignal; Ready false; CancelRoot] ++ calls (run_shutdown dot).
Proof. done. Qed.

(** The order of what [main] does.  Readiness is announced when all listeners
    run, and withdrawn before the context is cancelled; then every listener is
    shut down once, whatever fails, then the cache is written, and tracing is shut
    down last.  When a listener does not start, nothing after it is tried, the process is never
    ready, and its exit code is 1. *)
Theorem main_run_order p :
  calls (main_run p) =
    if forallb (fun s => bool_decide (outcome s = None)) (starts p)
    then [ServeHTTP] ++ starts p ++ [Ready true; AwaitSignal; Ready false; CancelRoot]
         ++ map Shutdown (HTTP :: listeners p) ++ [PersistCache; ShutdownTrace; Exit 0]
    else [ServeHTTP] ++ upto_failure (starts p) ++ [Exit 1].
Proof.
  assert (forall t, calls ([ServeHTTP] ++ t) = [ServeHTTP] ++ calls t) as E by done.
  unfold main_run, starts, listeners. rewrite E, !calls_exit by done. destruct (bool_decide (is_Some _)).
  - rewrite !calls_exit, calls_serving, calls_shutdown by done. cbn.
    destruct (outcome (Start UDP)); [done|]. cbn. destruct (outcome (Start TCP)); [done|]. cbn.
    destruct (outcome NewDoT); [done|]. cbn. by destruct (outcome (Start DoT)).
  - rewrite calls_serving, calls_shutdown. cbn.
    destruct (outcome (Start UDP)); [done|]. cbn. by destruct (outcome (Start TCP)).
Qed.
End run.
